(** * The dreamscape scenes: frame loop, particle fields, click and hover

    A shallow embedding of the two scene scripts of the repository:
    - [DeepSea]: [src/main.js] (jellyfish, tablets, code vents, swarm);
    - [Dream]:   [src/unnamed/part_000] (heart, glass panes with rigid
      bodies, spires, particle river).

    JavaScript numbers are IEEE-754 binary64 values: Rocq's primitive
    [float].  A [Float32Array] keeps binary32 values, so every store into
    one rounds ([fround]).  [Math.sin], [Math.cos] and [Math.random] are
    implementation-defined and enter as section variables.  The scene
    graph, tween and physics libraries are outside the repository; what
    the scripts need of them is modelled in [Raycast], [Tween] and
    [Cannon] and as section variables of [Dream]. *)

From Stdlib Require Import ZArith QArith Floats Lia.
From stdpp Require Import base list gmap strings.

Set Default Proof Using "Type".
#[local] Set Warnings "-inexact-float".

(** ** JavaScript numbers *)

Module Num.

Definition prec64 : Z := 53.
Definition emax64 : Z := 1024.
Definition prec32 : Z := 24.
Definition emax32 : Z := 128.

(** [x % y] of ECMAScript on the specification floats: the sign of the
    result is the sign of the dividend, the magnitude is the exact
    remainder of the truncating division. *)
Definition SFrem (x y : spec_float) : spec_float :=
  match x, y with
  | S754_nan, _ | _, S754_nan => S754_nan
  | S754_infinity _, _ => S754_nan
  | _, S754_zero _ => S754_nan
  | S754_zero _, _ => x
  | S754_finite _ _ _, S754_infinity _ => x
  | S754_finite sx mx ex, S754_finite _ my ey =>
      let ez := Z.min ex ey in
      let X := Zpos (fst (shl_align mx ex ez)) in
      let Y := Zpos (fst (shl_align my ey ez)) in
      binary_normalize prec64 emax64 (cond_Zopp sx (Z.rem X Y)) ez sx
  end.

(** Conversion to binary32 (round to nearest, ties to even) and back to
    a number: what a store into a [Float32Array] followed by a read
    yields. *)
Definition SFfround (x : spec_float) : spec_float :=
  match x with
  | S754_finite s m e =>
      match binary_round prec32 emax32 s m e with
      | S754_finite s' m' e' => binary_round prec64 emax64 s' m' e'
      | r => r
      end
  | _ => x
  end.

Definition jrem (x y : float) : float := SF2Prim (SFrem (Prim2SF x) (Prim2SF y)).
Definition fround (x : float) : float := SF2Prim (SFfround (Prim2SF x)).

Definition SFfinite (x : spec_float) : bool :=
  match x with
  | S754_zero _ | S754_finite _ _ _ => true
  | _ => false
  end.

Definition is_finite (x : float) : bool := SFfinite (Prim2SF x).

(** The exact value of a finite number, counted in units of [2^-1074]
    (the least positive binary64 value): every finite binary64 and
    binary32 value is an integer number of units. *)
Definition SFunits (x : spec_float) : Z :=
  match x with
  | S754_finite s m e => cond_Zopp s (Zpos m * 2 ^ (e + 1074))
  | _ => 0
  end.

Definition units (x : float) : Z := SFunits (Prim2SF x).

End Num.

Export Num.

(** ** Exceptions

    A property read on [undefined] raises a [TypeError]; the event
    handlers and the frame callback run in this error monad. *)

Inductive js_error : Type := TypeError.

Inductive js_result (A : Type) : Type :=
  | Ok (a : A)
  | Throw (e : js_error).
Arguments Ok {A} a.
Arguments Throw {A} e.

#[export] Instance js_result_ret : MRet js_result := fun A a => Ok a.
#[export] Instance js_result_bind : MBind js_result := fun A B f m =>
  match m with
  | Ok a => f a
  | Throw e => Throw e
  end.

(** [o.p] where [o] may be [undefined]. *)
Definition deref {A : Type} (o : option A) : js_result A :=
  match o with
  | Some a => Ok a
  | None => Throw TypeError
  end.

(** [if (x)] on a value that is an object or [undefined]. *)
Definition truthy {A : Type} (o : option A) : bool :=
  match o with
  | Some _ => true
  | None => false
  end.

(** ** Typed arrays and loops *)

(** [a[i]] used as a number: reading past the end yields [undefined],
    which arithmetic turns into NaN. *)
Definition typed_get (a : list float) (i : nat) : float :=
  match a !! i with
  | Some v => v
  | None => nan
  end.

(** [a[i] = v] on a [Float32Array]: the value is rounded to binary32; a
    write past the end is ignored. *)
Definition typed_set (a : list float) (i : nat) (v : float) : list float :=
  <[i := fround v]> a.

Section Loops.
Context {S : Type}.

(** [arr.forEach((val, i) => ...)] where the callback works on the store
    [S] that holds the array: index [k] is read when its turn comes. *)
Fixpoint forEach_from (arr : S -> list float) (cb : float -> nat -> S -> S)
    (k n : nat) (s : S) : S :=
  match n with
  | O => s
  | Datatypes.S n' =>
      match arr s !! k with
      | Some val => forEach_from arr cb (Datatypes.S k) n' (cb val k s)
      | None => forEach_from arr cb (Datatypes.S k) n' s
      end
  end.

Definition forEach (arr : S -> list float) (cb : float -> nat -> S -> S) (s : S) : S :=
  forEach_from arr cb 0 (length (arr s)) s.

(** [for (let i = k; i < k + n; i++) body] *)
Fixpoint for_from (body : nat -> S -> S) (k n : nat) (s : S) : S :=
  match n with
  | O => s
  | Datatypes.S n' => for_from body (Datatypes.S k) n' (body k s)
  end.

Definition for_range (n : nat) (body : nat -> S -> S) (s : S) : S :=
  for_from body 0 n s.

End Loops.

(** ** Scene objects *)

Record vec3 : Type := Vec3 { vx : Q; vy : Q; vz : Q }.

(** An [Object3D] as the handlers see it: its identity and its [name]. *)
Record Obj : Type := { oid : nat; name : string }.

#[export] Instance Obj_eq_dec : EqDecision Obj.
Proof. solve_decision. Defined.

(** The entry of [focusPoints] for a topic. *)
Record FocusData : Type := {
  position : vec3;
  title : string;
  description : string
}.

(** ** Plain objects used as tables

    [focusPoints] is an object literal the scripts fill by assignment
    and the click handlers read with [focusPoints[name]].  Such a read
    finds the own property of that name; when there is none it goes on
    to [Object.prototype], whose properties every object literal
    inherits, and only then yields [undefined]. *)

(** The names of the properties of [Object.prototype]. *)
Definition Object_prototype : list string :=
  ["constructor"; "__defineGetter__"; "__defineSetter__"; "hasOwnProperty";
   "__lookupGetter__"; "__lookupSetter__"; "isPrototypeOf";
   "propertyIsEnumerable"; "toString"; "valueOf"; "__proto__";
   "toLocaleString"].

(** What a read finds: an entry of the table, or a built-in (a method
    of [Object.prototype], the function [Object] under ["constructor"],
    the prototype itself under ["__proto__"]).  A built-in is an object,
    so it is truthy. *)
Inductive found (A : Type) : Type :=
  | Entry (a : A)
  | Builtin.
Arguments Entry {A} a.
Arguments Builtin {A}.

Definition get_property {A : Type} (o : gmap string A) (key : string) : option (found A) :=
  match o !! key with
  | Some a => Some (Entry a)
  | None => if bool_decide (key ∈ Object_prototype) then Some Builtin else None
  end.

(** [v.p] for a field [p] of the entries ([position], [title],
    [description]): no built-in has a property of such a name, there
    the read yields [undefined]. *)
Definition field {A B : Type} (p : A -> B) (v : found A) : option B :=
  match v with
  | Entry a => Some (p a)
  | Builtin => None
  end.

(** [element.textContent = v]: [undefined] is converted to [null],
    which empties the text. *)
Definition textContent (v : option string) : string :=
  match v with
  | Some text => text
  | None => ""
  end.

(** ** Ray casting *)

Module Raycast.
Section Raycaster.
Context {D : Type}.
Variable dleb : D -> D -> bool.

(** One entry of the array [raycaster.intersectObjects] returns. *)
Record Intersection : Type := { distance : D; object : Obj }.

(** Insertion that keeps an entry in front of the later entries of equal
    distance: the step of a stable ascending sort. *)
Fixpoint insert_hit (h : Intersection) (l : list Intersection) : list Intersection :=
  match l with
  | [] => [h]
  | h' :: l' =>
      if dleb (distance h) (distance h') then h :: h' :: l'
      else h' :: insert_hit h l'
  end.

Definition sort_hits (l : list Intersection) : list Intersection :=
  foldr insert_hit [] l.

(** The hits of the ray in the order they are found: object after object
    in the order of the list, each object's own hits in the order its
    geometry reports them. *)
Definition collect_hits (ray : Obj -> list D) (objects : list Obj) : list Intersection :=
  flat_map (fun o => map (fun d => {| distance := d; object := o |}) (ray o)) objects.

(** Modelled from the spec: [intersectObjects] is the scene-graph
    library's and is not part of the repository.  Section 4.4: "nearest
    intersection along the ray wins; ties are broken by registry
    insertion order (first registered wins)", that is, the hits found
    object after object, sorted by ascending distance with a stable
    sort. *)
Definition intersectObjects (ray : Obj -> list D) (objects : list Obj) : list Intersection :=
  sort_hits (collect_hits ray objects).

End Raycaster.
End Raycast.

(** ** Eased transitions *)

Module Tween.

(** Modelled from the spec: the tween library is not part of the
    repository.  Section 5: an eased transition is "a pure function of
    elapsed wall-clock time since transition start"; at its duration
    "the interpolation clamps at its end value"; starting a transition
    on a property that is already in one overwrites "the transition's
    start time and target". *)
Record tween (V : Type) : Type := {
  tw_from : V;
  tw_to : V;
  tw_start : Q;
  tw_duration : Q;
  tw_ease : Q -> Q
}.
Arguments tw_from {V} _.
Arguments tw_to {V} _.
Arguments tw_start {V} _.
Arguments tw_duration {V} _.
Arguments tw_ease {V} _.

(** A property is either a plain value or driven by a transition. *)
Inductive animated (V : Type) : Type :=
  | Still (v : V)
  | Moving (tw : tween V).
Arguments Still {V} v.
Arguments Moving {V} tw.

Definition finished {V : Type} (tw : tween V) (now : Q) : bool :=
  Qle_bool (tw_start tw + tw_duration tw) now.

Definition progress {V : Type} (tw : tween V) (now : Q) : Q :=
  (now - tw_start tw) / tw_duration tw.

Section Value.
Context {V : Type}.
Variable lerp : V -> V -> Q -> V.

Definition value (a : animated V) (now : Q) : V :=
  match a with
  | Still v => v
  | Moving tw =>
      if finished tw now then tw_to tw
      else lerp (tw_from tw) (tw_to tw) (tw_ease tw (progress tw now))
  end.

(** [gsap.to(object, { property: target, duration, ease })] at time
    [now]. *)
Definition to (a : animated V) (now : Q) (target : V) (duration : Q)
    (ease : Q -> Q) : animated V :=
  Moving {| tw_from := value a now; tw_to := target; tw_start := now;
            tw_duration := duration; tw_ease := ease |}.

(** [gsap.to(object, { ...target, duration, ease })] where [target]
    may be [undefined]: spreading [undefined] adds no property, and a
    tween without a property animates nothing and stops nothing. *)
Definition to_spread (a : animated V) (now : Q) (target : option V) (duration : Q)
    (ease : Q -> Q) : animated V :=
  match target with
  | Some v => to a now v duration ease
  | None => a
  end.

End Value.

(** Linear interpolation, the result in lowest terms. *)
Definition lerpQ (a b k : Q) : Q := Qred (a + (b - a) * k).

Definition lerp3 (a b : vec3) (k : Q) : vec3 :=
  Vec3 (lerpQ (vx a) (vx b) k) (lerpQ (vy a) (vy b) k) (lerpQ (vz a) (vz b) k).

(** Two easing curves by the names the tween library gives them:
    ['power1'] is the square, ['power3'] the fourth power. *)
Definition power1_out (p : Q) : Q := 1 - (1 - p) * (1 - p).

Definition power3_inOut (p : Q) : Q :=
  if Qle_bool (1 # 2) p then 1 - ((1 - p) * 2) ^ 4 / 2
  else (p * 2) ^ 4 / 2.

End Tween.

(** ** The deep-sea scene ([src/main.js]) *)

Module DeepSea.

(** *** State *)

Record Shader : Type := { uTime : float }.

(** The two particle fields.  [swarmPosArray] is the array the script
    fills; the buffer attribute built from it holds a copy
    ([swarmLive]), so the two are distinct arrays. *)
Record Particles : Type := {
  ventLive : list float;
  ventNeedsUpdate : bool;
  swarmPosArray : list float;
  swarmLive : list float;
  swarmNeedsUpdate : bool
}.

Record Materials : Type := {
  causticsOffset : float * float;
  jellyfishShader : option Shader;
  jellyfishY : float;
  coreLightY : float;
  coreLightIntensity : float
}.

Record Interaction : Type := {
  mouse : float * float;
  controlsTarget : Tween.animated vec3;
  infoTitle : string;
  infoDescription : string;
  emissiveIntensity : gmap nat (Tween.animated Q)
}.

(** The globals the world-building part of the script fills and the
    handlers read; of [focusPoints], the own properties. *)
Record Registry : Type := {
  interactiveObjects : list Obj;
  focusPoints : gmap string FocusData;
  scene_children : list Obj
}.

Record State : Type := {
  registry : Registry;
  particles : Particles;
  materials : Materials;
  interaction : Interaction
}.

Definition with_interaction (u : Interaction) (s : State) : State :=
  {| registry := registry s; particles := particles s;
     materials := materials s; interaction := u |}.

Definition set_ventLive (a : list float) (p : Particles) : Particles :=
  {| ventLive := a; ventNeedsUpdate := ventNeedsUpdate p;
     swarmPosArray := swarmPosArray p; swarmLive := swarmLive p;
     swarmNeedsUpdate := swarmNeedsUpdate p |}.
Definition set_ventNeedsUpdate (b : bool) (p : Particles) : Particles :=
  {| ventLive := ventLive p; ventNeedsUpdate := b;
     swarmPosArray := swarmPosArray p; swarmLive := swarmLive p;
     swarmNeedsUpdate := swarmNeedsUpdate p |}.
Definition set_swarmLive (a : list float) (p : Particles) : Particles :=
  {| ventLive := ventLive p; ventNeedsUpdate := ventNeedsUpdate p;
     swarmPosArray := swarmPosArray p; swarmLive := a;
     swarmNeedsUpdate := swarmNeedsUpdate p |}.
Definition set_swarmNeedsUpdate (b : bool) (p : Particles) : Particles :=
  {| ventLive := ventLive p; ventNeedsUpdate := ventNeedsUpdate p;
     swarmPosArray := swarmPosArray p; swarmLive := swarmLive p;
     swarmNeedsUpdate := b |}.

Definition set_jellyfishShader (sh : option Shader) (m : Materials) : Materials :=
  {| causticsOffset := causticsOffset m; jellyfishShader := sh;
     jellyfishY := jellyfishY m; coreLightY := coreLightY m;
     coreLightIntensity := coreLightIntensity m |}.

(** *** The registry *)

Definition jellyfish : Obj := {| oid := 0; name := "graphics" |}.
Definition tablet (i : nat) : Obj := {| oid := 1 + i; name := "photography" |}.
Definition codeVents : Obj := {| oid := 4; name := "programming" |}.
Definition swarm : Obj := {| oid := 5; name := "eating" |}.
Definition hemisphereLight : Obj := {| oid := 6; name := "" |}.
Definition floor : Obj := {| oid := 7; name := "" |}.
Definition causticsLight : Obj := {| oid := 8; name := "" |}.
Definition coreLight : Obj := {| oid := 9; name := "" |}.

Definition photos : list nat := [0; 1; 2]%nat.

(** [interactiveObjects], in the order of the [push] calls. *)
Definition world_interactiveObjects : list Obj :=
  [jellyfish] ++ map tablet photos ++ [codeVents; swarm].

(** [scene.children], in the order of the [scene.add] calls (the floor
    is added a second time as the target of the spot light, which moves
    it behind the light). *)
Definition world_children : list Obj :=
  [hemisphereLight; causticsLight; floor; jellyfish; coreLight]
  ++ map tablet photos ++ [codeVents; swarm].

Definition world_focusPoints : gmap string FocusData :=
  <["eating" := {| position := Vec3 (-20) 8 (-15);
                   title := "The Swarm.";
                   description := "The energy. A single, hungry mind moving as one. It consumes, it fuels, it lives." |}]>
  (<["programming" := {| position := Vec3 15 5 (-5);
                   title := "Geysers of Logic.";
                   description := "Structure, bubbling up from the chaos. Pure syntax given form. Luau, C++, Python... the elements of creation." |}]>
  (<["photography" := {| position := Vec3 (-15) 2 10;
                   title := "Lost Signals.";
                   description := "Fossilized light, imprinted on stone. Memories from another world, glowing in the dark." |}]>
  (<["graphics" := {| position := Vec3 0 5 10;
                   title := "The Anomaly.";
                   description := "The heart of the abyss. A creature of pure light and impossible form. It bends pixels to its will." |}]>
   ∅))).

(** *** Events *)

Section Scene.
Context {D : Type}.
Variable dleb : D -> D -> bool.
Variables Math_sin Math_cos : float -> float.
(** [Math_random k] is what the [k]-th call of [Math.random] returns. *)
Variable Math_random : nat -> float.
(** The curve named ['power3.inOut'] and the curve a tween gets when it
    names none. *)
Variables ease_power3_inOut ease_default : Q -> Q.

(** A click: the time on the tween clock and, for each object, the
    distances at which the pointer ray meets it.  The ray is the one
    [raycaster.setFromCamera(mouse, camera)] sets up, from the pointer
    as the last [mousemove] stored it and the camera as the controls
    have placed it; the camera and the geometry are the scene-graph
    library's, so what the ray meets is given with the event and is not
    computed from [mouse]. *)
Record Click : Type := { click_now : Q; click_ray : Obj -> list D }.

(** A frame: the two readings of the clock, the time on the tween clock,
    what the pointer ray meets (given with the event, as for a click),
    and whether rendering compiles the jellyfish material's program in
    this frame. *)
Record Frame : Type := {
  deltaTime : float;
  elapsedTime : float;
  frame_now : Q;
  frame_ray : Obj -> list D;
  compiles : bool
}.

Definition onMouseMove (clientX clientY innerWidth innerHeight : float) (s : State) : State :=
  let u := interaction s in
  with_interaction
    {| mouse := ((clientX / innerWidth) * 2 - 1, - (clientY / innerHeight) * 2 + 1)%float;
       controlsTarget := controlsTarget u; infoTitle := infoTitle u;
       infoDescription := infoDescription u;
       emissiveIntensity := emissiveIntensity u |} s.

Definition onClick (c : Click) (s : State) : js_result State :=
  let intersects :=
    Raycast.intersectObjects dleb (click_ray c) (interactiveObjects (registry s)) in
  if (0 <? length intersects)%nat then
    hit ← deref (intersects !! 0%nat);
    let targetObj := Raycast.object hit in
    let focusData := get_property (focusPoints (registry s)) (name targetObj) in
    if truthy focusData then
      fd ← deref focusData;
      let u := interaction s in
      mret (with_interaction
        {| mouse := mouse u;
           controlsTarget :=
             Tween.to_spread Tween.lerp3 (controlsTarget u) (click_now c)
               (field position fd) (5 # 2) ease_power3_inOut;
           infoTitle := textContent (field title fd);
           infoDescription := textContent (field description fd);
           emissiveIntensity := emissiveIntensity u |} s)
    else mret s
  else mret s.

(** The callback the renderer runs when it compiles the jellyfish
    material. *)
Definition onBeforeCompile (m : Materials) : Materials :=
  set_jellyfishShader (Some {| uTime := 0 |}) m.

Definition animate_shader (f : Frame) (m : Materials) : js_result Materials :=
  let causticsTime := (elapsedTime f * 0.1)%float in
  m1 ← (if truthy (jellyfishShader m) then
          _ ← deref (jellyfishShader m);
          mret (set_jellyfishShader (Some {| uTime := elapsedTime f |}) m)
        else mret m);
  let y := (5 + Math_sin (elapsedTime f * 0.5) * 0.5)%float in
  mret {| causticsOffset := (causticsTime, causticsTime);
          jellyfishShader := jellyfishShader m1;
          jellyfishY := y;
          coreLightY := y;
          coreLightIntensity := ((Math_sin (elapsedTime f * 2.0) * 0.5 + 0.5) * 5 + 5)%float |}.

Definition vent_cb (dt : float) (val : float) (i : nat) (p : Particles) : Particles :=
  if (i mod 3 =? 1)%nat then
    let newY := jrem (val + dt * 2)%float 20 in
    set_ventLive (typed_set (ventLive p) i newY) p
  else p.

Definition swarm_cb (t : float) (val : float) (i : nat) (p : Particles) : Particles :=
  let axis := (i mod 3)%nat in
  let basePos := typed_get (swarmPosArray p) i in
  let p1 :=
    if (axis =? 0)%nat then
      set_swarmLive (typed_set (swarmLive p) i (basePos + Math_sin (t + basePos) * 2)%float) p
    else p in
  if (axis =? 1)%nat then
    set_swarmLive (typed_set (swarmLive p1) i (basePos + Math_cos (t + basePos) * 2)%float) p1
  else p1.

Definition animate_particles (f : Frame) (p : Particles) : Particles :=
  let p1 := forEach ventLive (vent_cb (deltaTime f)) p in
  let p2 := set_ventNeedsUpdate true p1 in
  let p3 := forEach swarmLive (swarm_cb (elapsedTime f)) p2 in
  set_swarmNeedsUpdate true p3.

Definition hover_cb (f : Frame) (hit : list Obj) (child : Obj) (u : Interaction) : Interaction :=
  if String.eqb (name child) "photography" then
    let isHovered := bool_decide (child ∈ hit) in
    {| mouse := mouse u; controlsTarget := controlsTarget u;
       infoTitle := infoTitle u; infoDescription := infoDescription u;
       emissiveIntensity :=
         alter (fun a => Tween.to Tween.lerpQ a (frame_now f)
                           (if isHovered then 7 # 10 else 0)%Q 1%Q ease_default)
               (oid child) (emissiveIntensity u) |}
  else u.

Definition animate_hover (f : Frame) (r : Registry) (u : Interaction) : Interaction :=
  let intersects := Raycast.intersectObjects dleb (frame_ray f) (interactiveObjects r) in
  let intersectedNames := map Raycast.object intersects in
  foldl (fun u child => hover_cb f intersectedNames child u) u (scene_children r).

(** [composer.render()]: the only effect on the state of the script is
    the compile callback. *)
Definition render (f : Frame) (m : Materials) : Materials :=
  if compiles f then onBeforeCompile m else m.

Definition animate (f : Frame) (s : State) : js_result State :=
  m ← animate_shader f (materials s);
  let p := animate_particles f (particles s) in
  let u := animate_hover f (registry s) (interaction s) in
  mret {| registry := registry s; particles := p; materials := render f m;
          interaction := u |}.

(** *** Creation *)

(** The loop that fills a position array: three calls of [Math.random]
    per point, the first at call number [k0]. *)
Definition fill_positions (k0 : nat) (count : nat) (sx sy sz : float) (centred_y : bool)
    : list float :=
  for_range count (fun i a =>
    let r0 := Math_random (k0 + 3 * i)%nat in
    let r1 := Math_random (k0 + 3 * i + 1)%nat in
    let r2 := Math_random (k0 + 3 * i + 2)%nat in
    let a0 := typed_set a (i * 3 + 0) ((r0 - 0.5) * sx)%float in
    let a1 := typed_set a0 (i * 3 + 1)
                (if centred_y then ((r1 - 0.5) * sy)%float else (r1 * sy)%float) in
    typed_set a1 (i * 3 + 2) ((r2 - 0.5) * sz)%float)
  (replicate (count * 3) 0%float).

Definition ventParticleCount : nat := 2000.
Definition swarmParticleCount : nat := 3000.

Definition ventPosArray : list float :=
  fill_positions 0 ventParticleCount 0.2 20 0.2 false.

Definition swarmPosArray0 : list float :=
  fill_positions (3 * ventParticleCount) swarmParticleCount 30 15 30 false.

(** The state after the script has run, before the first event, for
    given contents of the two position arrays. *)
Definition created_from (vent swarm0 : list float) (title0 description0 : string) : State :=
  {| registry :=
       {| interactiveObjects := world_interactiveObjects;
          focusPoints := world_focusPoints;
          scene_children := world_children |};
     particles :=
       {| ventLive := vent; ventNeedsUpdate := false;
          swarmPosArray := swarm0; swarmLive := swarm0;
          swarmNeedsUpdate := false |};
     materials :=
       {| causticsOffset := (0, 0)%float; jellyfishShader := None;
          jellyfishY := 5; coreLightY := 5; coreLightIntensity := 10 |};
     interaction :=
       {| mouse := (0, 0)%float;
          controlsTarget := Tween.Still (Vec3 0 2 0);
          infoTitle := title0; infoDescription := description0;
          emissiveIntensity :=
            list_to_map (map (fun i => (oid (tablet i), Tween.Still 0%Q)) photos) |} |}.

Definition created (title0 description0 : string) : State :=
  created_from ventPosArray swarmPosArray0 title0 description0.

(** *** Runs *)

Inductive Event : Type :=
  | EClick (c : Click)
  | EFrame (f : Frame)
  | EMouseMove (clientX clientY innerWidth innerHeight : float).

Definition step (e : Event) (s : State) : js_result State :=
  match e with
  | EClick c => onClick c s
  | EFrame f => animate f s
  | EMouseMove x y w h => mret (onMouseMove x y w h s)
  end.

Fixpoint run (es : list Event) (s : State) : js_result State :=
  match es with
  | [] => mret s
  | e :: es' => s' ← step e s; run es' s'
  end.

End Scene.
End DeepSea.

(** ** The dream scene ([src/unnamed/part_000]) *)

Module Dream.

Record Shader : Type := { uTime : float }.

Record fvec3 : Type := FVec3 { fx : float; fy : float; fz : float }.
Record fquat : Type := FQuat { qx : float; qy : float; qz : float; qw : float }.

(** The transform of a pane mesh. *)
Record Transform : Type := { mesh_position : fvec3; mesh_quaternion : fquat }.

(** An entry [{ mesh, body }] of [objectsToUpdate]: the pane, by its
    index among the panes, and the body, by its index among the bodies
    of the physics world. *)
Record Linked : Type := { mesh : nat; body : nat }.

Record Visuals : Type := {
  heartShader : option Shader;
  particleRotationY : float;
  posLive : list float
}.

Record Interaction : Type := {
  mouse : float * float;
  controlsTarget : Tween.animated vec3;
  bokehFocus : Tween.animated Q;
  infoTitle : string;
  infoDescription : string
}.

Record Registry : Type := {
  interactiveObjects : list Obj;
  focusPoints : gmap string FocusData
}.

(** *** The registry *)

Definition heart : Obj := {| oid := 0; name := "graphics" |}.
Definition pane (i : nat) : Obj := {| oid := 1 + i; name := "photography" |}.
Definition spire (i : nat) : Obj := {| oid := 4 + i; name := "programming" |}.
Definition particleMesh : Obj := {| oid := 54; name := "eating" |}.

Definition photos : list nat := [0; 1; 2]%nat.

Definition world_interactiveObjects : list Obj :=
  [heart] ++ map pane photos ++ map spire (seq 0 50) ++ [particleMesh].

Definition world_focusPoints : gmap string FocusData :=
  <["eating" := {| position := Vec3 0 (-10) 0;
                   title := "The River of Life.";
                   description := "The fuel. The energy that flows through everything. The best part of the dream." |}]>
  (<["programming" := {| position := Vec3 (-18) 4 (-15);
                   title := "The Spires of Logic.";
                   description := "Order rising from chaos. Cold, hard structures built from pure thought. Luau, C++, Python... the architects." |}]>
  (<["photography" := {| position := Vec3 10 2 (-5);
                   title := "Frozen Moments.";
                   description := "Memories trapped in glass, drifting through the subconscious. Each one a story." |}]>
  (<["graphics" := {| position := Vec3 0 2 7;
                   title := "The Heart.";
                   description := "Everything starts here. A chaotic mix of logic and light. It beats with the rhythm of creation." |}]>
   ∅))).

Section Scene.
Context {D : Type}.
Variable dleb : D -> D -> bool.
Variable Math_random : nat -> float.
Variable ease_power3_inOut : Q -> Q.

(** *** The physics library

    A body as the script sees it: the pose it reads, and the rest
    (velocity, accumulated force and torque, shape), which only the
    library reads and writes. *)
Context {Dynamics : Type}.

Record Body : Type := {
  body_position : fvec3;
  body_quaternion : fquat;
  dynamics : Dynamics
}.

(** [physicsWorld.step(fixedTimeStep, timeSinceLastCalled, maxSubSteps)]
    on the bodies of the world. *)
Variable world_step : float -> float -> nat -> list Body -> list Body.
(** [body.applyForce(force, point)] *)
Variable applyForce : fvec3 -> fvec3 -> Body -> Body.

Record Physics : Type := {
  bodies : list Body;
  panes : list Transform;
  objectsToUpdate : list Linked;
  random_calls : nat
}.

Record State : Type := {
  registry : Registry;
  physics : Physics;
  visuals : Visuals;
  interaction : Interaction
}.

(** *** Events *)

(** A click: what the pointer ray meets and the distance of the camera
    from its target are the scene-graph library's and are given with
    the event. *)
Record Click : Type := {
  click_now : Q;
  click_ray : Obj -> list D;
  (** [controls.target.distanceTo(camera.position)] at the click *)
  click_distance : Q
}.

Record Frame : Type := {
  deltaTime : float;
  elapsedTime : float;
  compiles : bool
}.

Definition onClick (c : Click) (s : State) : js_result State :=
  let intersects :=
    Raycast.intersectObjects dleb (click_ray c) (interactiveObjects (registry s)) in
  if (0 <? length intersects)%nat then
    hit ← deref (intersects !! 0%nat);
    let focusData := get_property (focusPoints (registry s)) (name (Raycast.object hit)) in
    if truthy focusData then
      fd ← deref focusData;
      let u := interaction s in
      mret {| registry := registry s; physics := physics s; visuals := visuals s;
              interaction :=
                {| mouse := mouse u;
                   controlsTarget :=
                     Tween.to_spread Tween.lerp3 (controlsTarget u) (click_now c)
                       (field position fd) 2%Q ease_power3_inOut;
                   bokehFocus :=
                     Tween.to Tween.lerpQ (bokehFocus u) (click_now c)
                       (click_distance c - 3)%Q 2%Q ease_power3_inOut;
                   infoTitle := textContent (field title fd);
                   infoDescription := textContent (field description fd) |} |}
    else mret s
  else mret s.

(** [obj.mesh.position.copy(obj.body.position)] and the same for the
    quaternion. *)
Definition sync_cb (bs : list Body) (obj : Linked) (ps : list Transform) : list Transform :=
  match bs !! body obj with
  | Some b =>
      <[mesh obj := {| mesh_position := body_position b;
                       mesh_quaternion := body_quaternion b |}]> ps
  | None => ps
  end.

(** The force callback: three calls of [Math.random], then
    [applyForce] with the body's own position as the point. *)
Definition force_cb (obj : Linked) (st : list Body * nat) : list Body * nat :=
  let '(bs, k) := st in
  let force := FVec3 ((Math_random k - 0.5) * 0.1)%float
                     ((Math_random (k + 1) - 0.5) * 0.1)%float
                     ((Math_random (k + 2) - 0.5) * 0.1)%float in
  (match bs !! body obj with
   | Some b => <[body obj := applyForce force (body_position b) b]> bs
   | None => bs
   end, (k + 3)%nat).

Definition animate_physics (f : Frame) (p : Physics) : Physics :=
  let bs1 := world_step (1 / 60)%float (deltaTime f) 3 (bodies p) in
  let ps1 := foldl (fun ps obj => sync_cb bs1 obj ps) (panes p) (objectsToUpdate p) in
  let '(bs2, k) := foldl (fun st obj => force_cb obj st) (bs1, random_calls p)
                     (objectsToUpdate p) in
  {| bodies := bs2; panes := ps1; objectsToUpdate := objectsToUpdate p;
     random_calls := k |}.

(** The callback the renderer runs when it compiles the heart material. *)
Definition onBeforeCompile (v : Visuals) : Visuals :=
  {| heartShader := Some {| uTime := 0 |};
     particleRotationY := particleRotationY v; posLive := posLive v |}.

Definition animate_visuals (f : Frame) (v : Visuals) : js_result Visuals :=
  v1 ← (if truthy (heartShader v) then
          _ ← deref (heartShader v);
          mret {| heartShader := Some {| uTime := elapsedTime f |};
                  particleRotationY := particleRotationY v;
                  posLive := posLive v |}
        else mret v);
  mret {| heartShader := heartShader v1;
          particleRotationY := (elapsedTime f * 0.05)%float;
          posLive := posLive v1 |}.

Definition render (f : Frame) (v : Visuals) : Visuals :=
  if compiles f then onBeforeCompile v else v.

Definition animate (f : Frame) (s : State) : js_result State :=
  v ← animate_visuals f (visuals s);
  mret {| registry := registry s;
          physics := animate_physics f (physics s);
          visuals := render f v;
          interaction := interaction s |}.

(** *** Creation *)

Definition particleCount : nat := 5000.

(** The loop that fills [posArray]; [k0] calls of [Math.random] come
    before it. *)
Definition posArray (k0 : nat) : list float :=
  for_range (particleCount * 3) (fun i a =>
    typed_set a i ((Math_random (k0 + i)%nat - 0.5) * 50)%float)
  (replicate (particleCount * 3) 0%float).

Definition identity_transform : Transform :=
  {| mesh_position := FVec3 0 0 0; mesh_quaternion := FQuat 0 0 0 1 |}.

(** The state after the script has run, for given bodies of the three
    panes and given contents of the position array. *)
Definition created_from (bodies0 : list Body) (pos0 : list float) (calls0 : nat)
    (title0 description0 : string) : State :=
  {| registry :=
       {| interactiveObjects := world_interactiveObjects;
          focusPoints := world_focusPoints |};
     physics :=
       {| bodies := bodies0;
          panes := map (fun _ => identity_transform) photos;
          objectsToUpdate := map (fun i => {| mesh := i; body := i |}) photos;
          random_calls := calls0 |};
     visuals :=
       {| heartShader := None; particleRotationY := 0; posLive := pos0 |};
     interaction :=
       {| mouse := (0, 0)%float;
          controlsTarget := Tween.Still (Vec3 0 2 0);
          bokehFocus := Tween.Still 15%Q;
          infoTitle := title0; infoDescription := description0 |} |}.

(** *** Runs *)

Inductive Event : Type :=
  | EClick (c : Click)
  | EFrame (f : Frame).

Definition step (e : Event) (s : State) : js_result State :=
  match e with
  | EClick c => onClick c s
  | EFrame f => animate f s
  end.

Fixpoint run (es : list Event) (s : State) : js_result State :=
  match es with
  | [] => mret s
  | e :: es' => s' ← step e s; run es' s'
  end.

End Scene.
End Dream.

(** ** The force call of the physics library *)

Module Cannon.
Import Dream.

(** The part of a body the script does not read, as far as a force
    call goes: the force and the torque accumulated for the next
    step. *)
Record Dynamics : Type := { force : fvec3; torque : fvec3 }.

Definition vadd (a b : fvec3) : fvec3 :=
  FVec3 (fx a + fx b) (fy a + fy b) (fz a + fz b).

Definition cross (a b : fvec3) : fvec3 :=
  FVec3 (fy a * fz b - fz a * fy b) (fz a * fx b - fx a * fz b)
        (fx a * fy b - fy a * fx b).

(** Modelled from the spec: the physics library is not part of the
    repository.  Section 4.1 delegates the integrator to it "as an
    opaque capability" and says of the force that it goes "to every
    body's center"; section 6 lists no force call among what the
    backend offers.  This is [body.applyForce(force, relativePoint)] on
    a dynamic body that is awake, as the library documents it: the
    point is given relative to the centre of mass; the force is added
    to the accumulated force, and its moment [relativePoint x force]
    about the centre to the accumulated torque.  A force at the centre
    is one with the point [(0, 0, 0)]. *)
Definition applyForce (F relativePoint : fvec3) (b : @Body Dynamics) : @Body Dynamics :=
  {| body_position := body_position b;
     body_quaternion := body_quaternion b;
     dynamics := {| force := vadd (force (dynamics b)) F;
                    torque := vadd (torque (dynamics b)) (cross relativePoint F) |} |}.

End Cannon.

(** * Further parts of the scripts *)

(** ** JavaScript strings *)

Module JSString.
Import Stdlib.Strings.Ascii.

(** [s.startsWith(p)] *)
Fixpoint startsWith (s p : string) : bool :=
  match p, s with
  | EmptyString, _ => true
  | String a p', String b s' => if Ascii.eqb a b then startsWith s' p' else false
  | String _ _, EmptyString => false
  end.

(** [s.substring(n)] *)
Fixpoint substring_from (n : nat) (s : string) : string :=
  match n, s with
  | O, _ => s
  | S n', String _ s' => substring_from n' s'
  | S _, EmptyString => EmptyString
  end.

(** The first occurrence of [pat] in [s]: the text before it and the
    text after it. *)
Fixpoint split_first (s pat : string) : option (string * string) :=
  if startsWith s pat then Some (EmptyString, substring_from (String.length pat) s)
  else
    match s with
    | EmptyString => None
    | String c s' =>
        match split_first s' pat with
        | Some (before, after) => Some (String c before, after)
        | None => None
        end
    end.

(** [s.includes(w)] *)
Definition includes (s w : string) : bool :=
  match split_first s w with
  | Some _ => true
  | None => false
  end.

(** The replacement text of [replace] for a pattern that is a string
    (there are no captures): [$$] is a dollar sign, [$&] the matched
    text, [$`] the text before the match, [$'] the text after it,
    and every other character stands for itself. *)
Fixpoint GetSubstitution (matched before after : string) (template : string) : string :=
  match template with
  | EmptyString => EmptyString
  | String c rest =>
      if Ascii.eqb c "$"%char then
        match rest with
        | String d rest' =>
            if Ascii.eqb d "$"%char then
              String "$"%char (GetSubstitution matched before after rest')
            else if Ascii.eqb d "&"%char then
              matched +:+ GetSubstitution matched before after rest'
            else if Ascii.eqb d "`"%char then
              before +:+ GetSubstitution matched before after rest'
            else if Ascii.eqb d "'"%char then
              after +:+ GetSubstitution matched before after rest'
            else String c (GetSubstitution matched before after rest)
        | EmptyString => String c EmptyString
        end
      else String c (GetSubstitution matched before after rest)
  end.

(** [s.replace(pat, template)] for a string [pat]: the first occurrence
    only; [s] itself when there is none. *)
Definition replace (s pat template : string) : string :=
  match split_first s pat with
  | Some (before, after) =>
      before +:+ GetSubstitution pat before after template +:+ after
  | None => s
  end.

End JSString.

(** ** The shader callbacks *)

(** A shader as [onBeforeCompile] receives it: the uniforms by name and
    the two source texts. *)
Module Program.

Inductive Uniform : Type :=
  | Number (value : float)
  | Other (tag : nat).

Record Shader : Type := {
  uniforms : gmap string Uniform;
  vertexShader : string;
  fragmentShader : string
}.

End Program.

(** The callback of the jellyfish material ([src/main.js]). *)
Module JellyfishShader.
Import Program.

Definition diffuse_line : string := "vec4 diffuseColor = vec4( diffuse, opacity );".

Definition fresnel_pulse : string := "
            // Fresnel effect
            vec3 viewDirection = normalize(vViewPosition);
            float fresnel = 1.0 - dot(normalize(vNormal), -viewDirection);
            fresnel = pow(fresnel, 2.0);

            // Pulsating glow
            float pulse = (sin(uTime * 2.0) * 0.5 + 0.5) * 0.5 + 0.5;

            vec4 diffuseColor = vec4(diffuse, (opacity * fresnel) * pulse);
            ".

Definition onBeforeCompile (shader : Shader) : Shader :=
  {| uniforms := <["uTime" := Number 0]> (uniforms shader);
     vertexShader := vertexShader shader;
     fragmentShader :=
       JSString.replace (fragmentShader shader) diffuse_line fresnel_pulse |}.

End JellyfishShader.

(** The callback of the heart material ([src/unnamed/part_000]). *)
Module HeartShader.
Import Program.

Definition declaration : string := "uniform float uTime;
".

Definition begin_vertex : string := "#include <begin_vertex>".

Definition displacement : string := "
            #include <begin_vertex>
            float noise = sin(position.y * 4.0 + uTime * 2.0) * 0.2 + cos(position.x * 4.0 + uTime * 2.0) * 0.2;
            transformed += normal * noise;
            ".

Definition onBeforeCompile (shader : Shader) : Shader :=
  let source := declaration +:+ vertexShader shader in
  {| uniforms := <["uTime" := Number 0]> (uniforms shader);
     vertexShader := JSString.replace source begin_vertex displacement;
     fragmentShader := fragmentShader shader |}.

End HeartShader.

Module Page.

(** How a handler ends: the state it leaves, and the exception that
    ended it, if one did. *)
Definition outcome (S : Type) : Type := S * option js_error.

Record Element : Type := {
  classList : list string;
  style_display : string
}.

(** [el.classList.add(token)]: a token the list has is not added
    again. *)
Definition classList_add (token : string) (el : Element) : Element :=
  {| classList :=
       if bool_decide (token ∈ classList el) then classList el
       else classList el ++ [token];
     style_display := style_display el |}.

Definition set_display (v : string) (el : Element) : Element :=
  {| classList := classList el; style_display := v |}.

(** [loader] and [mainContent] are the two constants of the script; the
    only callback the script passes to [setTimeout] is the one that
    hides the loader, so a pending timeout is the time it is due at, in
    milliseconds. *)
Record Document : Type := {
  loader : option Element;
  mainContent : option Element;
  timeouts : list Q
}.

(** The [load] handler, at time [now]. *)
Definition onLoad (now : Q) (d : Document) : outcome Document :=
  match loader d with
  | None => (d, Some TypeError)
  | Some l =>
      let d1 := {| loader := Some (classList_add "fade-out" l);
                   mainContent := mainContent d; timeouts := timeouts d |} in
      match mainContent d1 with
      | None => (d1, Some TypeError)
      | Some m =>
          let d2 := {| loader := loader d1;
                       mainContent := Some (classList_add "visible" m);
                       timeouts := timeouts d1 |} in
          ({| loader := loader d2; mainContent := mainContent d2;
              timeouts := timeouts d2 ++ [(now + 1500)%Q] |}, None)
      end
  end.

(** The callback [() => loader.style.display = 'none']. *)
Definition hide_loader (d : Document) : outcome Document :=
  match loader d with
  | None => (d, Some TypeError)
  | Some l =>
      ({| loader := Some (set_display "none" l);
          mainContent := mainContent d; timeouts := timeouts d |}, None)
  end.

(** The timers at time [now]: every callback that is due runs and is
    pending no longer (an exception in one does not stop the others). *)
Definition run_timeouts (now : Q) (d : Document) : Document :=
  let due := filter (fun t => Qle_bool t now = true) (timeouts d) in
  let later := filter (fun t => Qle_bool t now = false) (timeouts d) in
  foldl (fun d _ => (hide_loader d).1)
        {| loader := loader d; mainContent := mainContent d; timeouts := later |}
        due.

End Page.

(** The click handlers with the two text elements looked up. *)
Module PageClick.

(** The text elements of the page: [None] for an element the page does
    not have, else its [textContent]. *)
Record Panel : Type := {
  info_title : option string;
  info_description : option string
}.

Section Handlers.
Context {D : Type}.
Variable dleb : D -> D -> bool.
Variable ease_power3_inOut : Q -> Q.

(** The two assignments to [textContent] that end both handlers. *)
Definition write_text (focusData : found FocusData) (p : Panel) : Page.outcome Panel :=
  match info_title p with
  | None => (p, Some TypeError)
  | Some _ =>
      let p1 := {| info_title := Some (textContent (field title focusData));
                   info_description := info_description p |} in
      match info_description p1 with
      | None => (p1, Some TypeError)
      | Some _ =>
          ({| info_title := info_title p1;
              info_description := Some (textContent (field description focusData)) |},
           None)
      end
  end.

(** The click handler of [src/main.js]: the camera target and the
    panel. *)
Definition sea_onClick (c : @DeepSea.Click D) (r : DeepSea.Registry)
    (target : Tween.animated vec3) (p : Panel)
    : Page.outcome (Tween.animated vec3 * Panel) :=
  let intersects :=
    Raycast.intersectObjects dleb (DeepSea.click_ray c) (DeepSea.interactiveObjects r) in
  match intersects !! 0%nat with
  | Some hit =>
      match get_property (DeepSea.focusPoints r) (name (Raycast.object hit)) with
      | Some focusData =>
          let target1 :=
            Tween.to_spread Tween.lerp3 target (DeepSea.click_now c)
              (field position focusData) (5 # 2) ease_power3_inOut in
          let '(p1, e) := write_text focusData p in
          ((target1, p1), e)
      | None => ((target, p), None)
      end
  | None => ((target, p), None)
  end.

(** The click handler of [src/unnamed/part_000]: the camera target, the
    focus of the blur pass and the panel. *)
Definition dream_onClick (c : @Dream.Click D) (r : Dream.Registry)
    (target : Tween.animated vec3) (focus : Tween.animated Q) (p : Panel)
    : Page.outcome (Tween.animated vec3 * Tween.animated Q * Panel) :=
  let intersects :=
    Raycast.intersectObjects dleb (Dream.click_ray c) (Dream.interactiveObjects r) in
  match intersects !! 0%nat with
  | Some hit =>
      match get_property (Dream.focusPoints r) (name (Raycast.object hit)) with
      | Some focusData =>
          let target1 :=
            Tween.to_spread Tween.lerp3 target (Dream.click_now c)
              (field position focusData) 2 ease_power3_inOut in
          let focus1 :=
            Tween.to Tween.lerpQ focus (Dream.click_now c)
              (Dream.click_distance c - 3)%Q 2 ease_power3_inOut in
          let '(p1, e) := write_text focusData p in
          ((target1, focus1, p1), e)
      | None => ((target, focus, p), None)
      end
  | None => ((target, focus, p), None)
  end.

End Handlers.
End PageClick.

(** ** The pointer of the dream scene ([src/unnamed/part_000], the
    [mousemove] handler) *)

Module DreamPointer.
Section Handler.
Context {Dynamics : Type}.

Definition onMouseMove (clientX clientY innerWidth innerHeight : float)
    (s : @Dream.State Dynamics) : @Dream.State Dynamics :=
  let u := Dream.interaction s in
  {| Dream.registry := Dream.registry s;
     Dream.physics := Dream.physics s;
     Dream.visuals := Dream.visuals s;
     Dream.interaction :=
       {| Dream.mouse :=
            ((clientX / innerWidth) * 2 - 1, - (clientY / innerHeight) * 2 + 1)%float;
          Dream.controlsTarget := Dream.controlsTarget u;
          Dream.bokehFocus := Dream.bokehFocus u;
          Dream.infoTitle := Dream.infoTitle u;
          Dream.infoDescription := Dream.infoDescription u |} |}.

End Handler.
End DreamPointer.

(** ** The spires of the dream scene ([src/unnamed/part_000], the loop
    that creates them) *)

Module DreamSpires.
Section Creation.
Variables Math_sin Math_cos : float -> float.
Variable Math_random : nat -> float.

(** [Math.PI] *)
Definition Math_PI : float := 0x1.921fb54442d18p+1%float.

(** A spire: the arguments of its [CylinderGeometry], its position and
    its name. *)
Record Spire : Type := {
  radiusTop : float;
  radiusBottom : float;
  height : float;
  radialSegments : nat;
  spire_position : Dream.fvec3;
  spire_name : string
}.

(** One turn of the loop; [k] calls of [Math.random] come before it. *)
Definition make_spire (k : nat) : Spire :=
  let height := (Math_random k * 8 + 2)%float in
  let radiusBottom := (Math_random (k + 1)%nat * 0.3)%float in
  let angle := (Math_random (k + 2)%nat * Math_PI * 2)%float in
  let radius := (15 + Math_random (k + 3)%nat * 5)%float in
  {| radiusTop := 0.1; radiusBottom := radiusBottom; height := height;
     radialSegments := 6;
     spire_position :=
       Dream.FVec3 (Math_cos angle * radius) (height / 2) (Math_sin angle * radius);
     spire_name := "programming" |}.

(** The loop, [k0] calls of [Math.random] before it: the spires in the
    order in which they are pushed on [interactiveObjects]. *)
Definition spires (k0 : nat) : list Spire :=
  for_range 50 (fun i l => l ++ [make_spire (k0 + 4 * i)]) [].

End Creation.
End DreamSpires.

(** * Properties *)

(** ** Binary floating-point rounding

    The value of a finite float is an integer number of [units]; the
    lemmas below follow the rounding of [SpecFloat] far enough to bound
    the results of the sums, differences, products and remainders the
    scenes compute. *)


Module NumFacts.
Import Num.
Local Open Scope Z_scope.

(** *** Powers of two and the number of digits *)

Definition digits (m : positive) : Z := Zpos (digits2_pos m).

Lemma digits2_pos_size m : digits2_pos m = Pos.size m.
Proof. induction m as [m IH|m IH|]; simpl; by rewrite ?IH. Qed.

Lemma digits_pos m : 0 < digits m.
Proof. unfold digits. lia. Qed.

Lemma digits_bounds m : 2 ^ (digits m - 1) <= Zpos m < 2 ^ digits m.
Proof.
  unfold digits. rewrite digits2_pos_size. split.
  - pose proof (Pos.size_le m) as H.
    assert (H' : 2 ^ Zpos (Pos.size m) <= 2 * Zpos m).
    { change 2 with (Zpos 2) at 1. rewrite <- Pos2Z.inj_pow. lia. }
    replace (Zpos (Pos.size m)) with (Zpos (Pos.size m) - 1 + 1) in H' by lia.
    rewrite Z.pow_add_r in H' by lia. change (2 ^ 1) with 2 in H'. lia.
  - pose proof (Pos.size_gt m) as H.
    change 2 with (Zpos 2). rewrite <- Pos2Z.inj_pow. lia.
Qed.

Lemma digits_le_pow m k : Zpos m < 2 ^ k -> digits m <= k.
Proof.
  intros H. destruct (Z_lt_le_dec k (digits m)) as [Hlt|]; [|done].
  pose proof (digits_bounds m) as [Hlo _].
  assert (0 <= k).
  { destruct (Z_lt_le_dec k 0) as [Hk|]; [|done].
    rewrite Z.pow_neg_r in H by done. lia. }
  assert (2 ^ k <= 2 ^ (digits m - 1)) by (apply Z.pow_le_mono_r; lia).
  lia.
Qed.

Lemma pow2_pos k : 0 <= k -> 0 < 2 ^ k.
Proof. intros. by apply Z.pow_pos_nonneg. Qed.

Lemma pow2_split a b : 0 <= a -> 0 <= b -> 2 ^ (a + b) = 2 ^ a * 2 ^ b.
Proof. intros. by apply Z.pow_add_r. Qed.

(** [Pos.iter xO m d] is [m * 2^d]. *)
Lemma iter_xO m d : Zpos (Pos.iter xO m d) = Zpos m * 2 ^ Zpos d.
Proof.
  induction d as [|d IH] using Pos.peano_ind.
  - simpl. lia.
  - rewrite Pos.iter_succ, Pos2Z.inj_xO, IH, Pos2Z.inj_succ.
    rewrite Z.pow_succ_r by lia. lia.
Qed.

Lemma digits_shift m d : digits (Pos.iter xO m d) = digits m + Zpos d.
Proof.
  induction d as [|d IH] using Pos.peano_ind.
  - unfold digits. simpl. lia.
  - rewrite Pos.iter_succ. unfold digits in *. simpl. lia.
Qed.

(** *** Shifting right with a round and a sticky bit *)

Lemma iter_pos_nat {A : Type} (f : A -> A) p x :
  SpecFloat.iter_pos f p x = Nat.iter (Pos.to_nat p) f x.
Proof.
  revert x. induction p as [p IH|p IH|]; intros x; cbn [SpecFloat.iter_pos].
  - rewrite Pos2Nat.inj_xI. rewrite !IH.
    replace (S (2 * Pos.to_nat p))%nat with (Pos.to_nat p + (Pos.to_nat p + 1))%nat by lia.
    rewrite !Nat.iter_add. simpl. done.
  - rewrite Pos2Nat.inj_xO. rewrite !IH.
    replace (2 * Pos.to_nat p)%nat with (Pos.to_nat p + Pos.to_nat p)%nat by lia.
    by rewrite Nat.iter_add.
  - done.
Qed.

(** After [k] steps from [(m0, false, false)]: the mantissa is the
    quotient by [2^k], and a set round or sticky bit tells that the
    division was not exact. *)
Definition shr_inv (m0 : Z) (k : Z) (mrs : shr_record) : Prop :=
  0 <= shr_m mrs /\
  shr_m mrs * 2 ^ k <= m0 < (shr_m mrs + 1) * 2 ^ k /\
  (orb (shr_r mrs) (shr_s mrs) = true -> shr_m mrs * 2 ^ k < m0).

Lemma shr_1_inv m0 k mrs :
  0 <= k -> shr_inv m0 k mrs -> shr_inv m0 (k + 1) (shr_1 mrs).
Proof.
  intros Hk (Hm & [Hlo Hhi] & Hflag). unfold shr_inv.
  rewrite (pow2_split k 1) by lia. change (2 ^ 1) with 2.
  pose proof (pow2_pos k Hk) as Hp.
  destruct mrs as [m r s]. cbn [shr_m shr_r shr_s] in *.
  destruct m as [|[p|p|]|p]; cbn [shr_1 shr_m shr_r shr_s]; try lia.
  - split; [lia|]. split; [lia|]. intros H.
    assert (0 * 2 ^ k < m0) by (apply Hflag; by destruct r, s). lia.
  - split; [lia|]. split; [lia|]. intros H.
    assert (Zpos p~0 * 2 ^ k < m0) by (apply Hflag; by destruct r, s). lia.
Qed.

Lemma shr_iter_inv m0 (n : nat) mrs :
  shr_inv m0 0 mrs -> shr_inv m0 (Z.of_nat n) (Nat.iter n shr_1 mrs).
Proof.
  intros H. induction n as [|n IH]; [done|].
  rewrite Nat2Z.inj_succ. unfold Z.succ. simpl.
  apply shr_1_inv; [lia|done].
Qed.

Lemma shr_inv_start m : 0 <= m -> shr_inv m 0 {| shr_m := m; shr_r := false; shr_s := false |}.
Proof. intros H. unfold shr_inv. simpl. split; [lia|]. split; [lia|done]. Qed.


Lemma shr_spec m e n :
  0 <= m ->
  exists mrs',
    shr {| shr_m := m; shr_r := false; shr_s := false |} e n = (mrs', e + Z.max 0 n) /\
    shr_inv m (Z.max 0 n) mrs'.
Proof.
  intros Hm. destruct n as [|q|q]; cbn [shr].
  - eexists. split; [f_equal; lia|]. by apply shr_inv_start.
  - eexists. split; [f_equal; lia|]. rewrite iter_pos_nat.
    replace (Z.max 0 (Zpos q)) with (Z.of_nat (Pos.to_nat q)) by lia.
    by apply shr_iter_inv, shr_inv_start.
  - eexists. split; [f_equal; lia|]. by apply shr_inv_start.
Qed.

Lemma round_nearest_even_spec mrs :
  let m2 := round_nearest_even (shr_m mrs) (loc_of_shr_record mrs) in
  m2 = shr_m mrs \/ (m2 = shr_m mrs + 1 /\ orb (shr_r mrs) (shr_s mrs) = true).
Proof.
  destruct mrs as [m r s]. cbn [shr_m shr_r shr_s].
  destruct r, s; cbn [loc_of_shr_record round_nearest_even]; auto.
  destruct (Z.even m); auto.
Qed.

(** *** Comparing [m1 * 2^e1] with [m2 * 2^e2] *)

Definition dle (m1 e1 m2 e2 : Z) : Prop :=
  m1 * 2 ^ (e1 - Z.min e1 e2) <= m2 * 2 ^ (e2 - Z.min e1 e2).

Lemma dle_base k m1 e1 m2 e2 :
  k <= e1 -> k <= e2 ->
  dle m1 e1 m2 e2 <-> m1 * 2 ^ (e1 - k) <= m2 * 2 ^ (e2 - k).
Proof.
  intros H1 H2. unfold dle. set (j := Z.min e1 e2).
  replace (e1 - k) with ((e1 - j) + (j - k)) by lia.
  replace (e2 - k) with ((e2 - j) + (j - k)) by lia.
  rewrite !pow2_split by lia.
  pose proof (pow2_pos (j - k)) as Hp.
  rewrite !Z.mul_assoc. split; intros H.
  - apply Z.mul_le_mono_nonneg_r; lia.
  - apply Z.mul_le_mono_pos_r in H; lia.
Qed.

Lemma dle_to_base k m1 e1 m2 e2 :
  k <= e1 -> k <= e2 -> dle m1 e1 m2 e2 -> m1 * 2 ^ (e1 - k) <= m2 * 2 ^ (e2 - k).
Proof. intros H1 H2. by apply dle_base. Qed.

Lemma dle_of_base k m1 e1 m2 e2 :
  k <= e1 -> k <= e2 -> m1 * 2 ^ (e1 - k) <= m2 * 2 ^ (e2 - k) -> dle m1 e1 m2 e2.
Proof. intros H1 H2. by apply dle_base. Qed.

(** A smaller value has no more digits before the binary point. *)
Lemma dle_digits m e b eb :
  dle (Zpos m) e (Zpos b) eb -> digits m + e <= digits b + eb.
Proof.
  intros H. set (k := Z.min e eb).
  apply (dle_to_base k) in H; [|lia|lia].
  pose proof (digits_bounds m) as [Hm _]. pose proof (digits_bounds b) as [_ Hb].
  pose proof (digits_pos m) as Hdm. pose proof (digits_pos b) as Hdb.
  destruct (Z_lt_le_dec (digits b + eb) (digits m + e)) as [Hlt|]; [|done].
  exfalso.
  assert (Hlow : 2 ^ (digits m - 1 + (e - k)) <= Zpos m * 2 ^ (e - k)).
  { rewrite pow2_split by lia. apply Z.mul_le_mono_nonneg_r; [|done].
    apply Z.lt_le_incl, pow2_pos. lia. }
  assert (Hhigh : Zpos b * 2 ^ (eb - k) < 2 ^ (digits b + (eb - k))).
  { rewrite pow2_split by lia. apply Z.mul_lt_mono_pos_r; [|done].
    apply pow2_pos. lia. }
  assert (Hpow : 2 ^ (digits b + (eb - k)) <= 2 ^ (digits m - 1 + (e - k))).
  { apply Z.pow_le_mono_r; lia. }
  clearbody k. lia.
Qed.

(** *** Rounding to a format *)

Section Format.
Variables prec emax : Z.

#[local] Abbreviation fexp := (SpecFloat.fexp prec emax).
#[local] Abbreviation emin := (SpecFloat.emin prec emax).

Lemma fexp_ge_emin x : emin <= fexp x.
Proof. unfold SpecFloat.fexp. lia. Qed.

Lemma fexp_mono x y : x <= y -> fexp x <= fexp y.
Proof. unfold SpecFloat.fexp. lia. Qed.

(** The mantissa and the exponent a rounding ends with, and the float
    they stand for. *)
Definition of_rounded (s : bool) (m3 e3 : Z) : spec_float :=
  match m3 with
  | Z0 => S754_zero s
  | Zpos m' => if e3 <=? emax - prec then S754_finite s m' e3 else S754_infinity s
  | Zneg _ => S754_nan
  end.

(** Rounding [m * 2^e] never exceeds a bound [K * 2^e] that lies on the
    grid it rounds to. *)
Lemma binary_round_aux_bound s m e :
  let p := Z.max 0 (fexp (digits m + e) - e) in
  exists m3 e3,
    0 <= m3 /\ e + p <= e3 /\
    m3 * 2 ^ p < Zpos m + 2 ^ p /\
    (forall K K', Zpos m <= K -> K = K' * 2 ^ p -> m3 * 2 ^ (e3 - e) <= K) /\
    binary_round_aux prec emax s (Zpos m) e loc_Exact = of_rounded s m3 e3.
Proof.
  intros p.
  assert (Hp : 0 <= p) by lia.
  pose proof (pow2_pos p Hp) as H2p.
  unfold binary_round_aux, shr_fexp. cbn [shr_record_of_loc Zdigits2].
  fold (digits m).
  destruct (shr_spec (Zpos m) e (fexp (digits m + e) - e)) as (mrs1 & E1 & Hinv1);
    [lia|].
  fold p in E1, Hinv1. rewrite E1.
  destruct Hinv1 as (Hm1 & [Hlo1 Hhi1] & Hflag1).
  set (m2 := round_nearest_even (shr_m mrs1) (loc_of_shr_record mrs1)).
  assert (Hm2 : shr_m mrs1 <= m2 /\ m2 * 2 ^ p < Zpos m + 2 ^ p /\
                forall K K', Zpos m <= K -> K = K' * 2 ^ p -> m2 * 2 ^ p <= K).
  { destruct (round_nearest_even_spec mrs1) as [E|[E Hf]]; fold m2 in E; rewrite E.
    - split; [lia|]. split; [lia|]. intros K K' HmK HK. lia.
    - split; [lia|]. apply Hflag1 in Hf. split; [lia|]. intros K K' HmK HK. subst K.
      assert (shr_m mrs1 < K') by nia. nia. }
  destruct Hm2 as (Hm2 & Hm2lt & Hm2K).
  set (q := Z.max 0 (fexp (Zdigits2 m2 + (e + p)) - (e + p))).
  destruct (shr_spec m2 (e + p) (fexp (Zdigits2 m2 + (e + p)) - (e + p)))
    as (mrs3 & E3 & Hinv3); [lia|].
  fold q in E3, Hinv3. rewrite E3.
  destruct Hinv3 as (Hm3 & [Hlo3 Hhi3] & _).
  assert (Hq : 0 <= q) by lia.
  pose proof (pow2_pos q Hq) as H2q.
  exists (shr_m mrs3), (e + p + q). split; [done|]. split; [lia|]. split; [|split].
  - nia.
  - intros K K' HmK HK. specialize (Hm2K K K' HmK HK).
    replace (e + p + q - e) with (q + p) by lia. rewrite pow2_split by lia. nia.
  - unfold of_rounded. by destruct (shr_m mrs3).
Qed.

(** A mantissa already in canonical position is left as it is. *)
Lemma binary_round_aux_canonical s m e :
  fexp (digits m + e) = e ->
  binary_round_aux prec emax s (Zpos m) e loc_Exact = of_rounded s (Zpos m) e.
Proof.
  intros Hc. unfold binary_round_aux, shr_fexp.
  cbn [shr_record_of_loc Zdigits2]. fold (digits m). rewrite Hc, Z.sub_diag.
  cbn [shr loc_of_shr_record shr_m shr_r shr_s round_nearest_even Zdigits2].
  fold (digits m). rewrite Hc, Z.sub_diag. cbn [shr shr_m]. done.
Qed.

(** The product of [m] by the power of two that brings the exponent
    from [e] down to [e']. *)
Definition shifted (m : positive) (e e' : Z) : positive :=
  match (e' - e)%Z with
  | Zneg d => Pos.iter xO m d
  | _ => m
  end.

Lemma shifted_value m e e' : e' <= e -> Zpos (shifted m e e') = Zpos m * 2 ^ (e - e').
Proof.
  intros H. unfold shifted. destruct (e' - e) as [|d|d] eqn:E; try lia.
  - replace (e - e') with 0 by lia. simpl. lia.
  - rewrite iter_xO. f_equal. f_equal. lia.
Qed.

Lemma shifted_digits m e e' : e' <= e -> digits (shifted m e e') = digits m + (e - e').
Proof.
  intros H. unfold shifted. destruct (e' - e) as [|d|d] eqn:E; try lia.
  rewrite digits_shift. lia.
Qed.

(** A value the format holds exactly is not changed by rounding. *)
Lemma binary_round_exact s m e :
  let e' := fexp (digits m + e) in
  e' <= e -> e' <= emax - prec ->
  binary_round prec emax s m e = S754_finite s (shifted m e e') e'.
Proof.
  intros e' Hle Hmax. unfold binary_round, shl_align. fold (digits m). fold e'.
  assert (Hsh : (match e' - e with
                 | Zneg d => (Pos.iter xO m d, e')
                 | _ => (m, e)
                 end) = (shifted m e e', e')).
  { unfold shifted. destruct (e' - e) as [|d|d] eqn:E; try lia; f_equal; lia. }
  rewrite Hsh. rewrite binary_round_aux_canonical.
  - unfold of_rounded. by rewrite (proj2 (Z.leb_le _ _) Hmax).
  - rewrite shifted_digits by done. subst e'.
    replace (digits m + (e - fexp (digits m + e)) + fexp (digits m + e))
      with (digits m + e) by lia. done.
Qed.

Lemma exact_valid s m e :
  let e' := fexp (digits m + e) in
  e' <= e -> e' <= emax - prec ->
  SpecFloat.valid_binary prec emax (S754_finite s (shifted m e e') e') = true.
Proof.
  intros e' Hle Hmax. cbn [SpecFloat.valid_binary]. unfold bounded, canonical_mantissa.
  fold (digits (shifted m e e')). rewrite shifted_digits by done.
  replace (digits m + (e - e') + e') with (digits m + e) by lia. fold e'.
  rewrite Z.eqb_refl. simpl. by apply Z.leb_le.
Qed.


Lemma binary_round_le s m e b eb :
  0 <= prec ->
  dle (Zpos m) e b eb ->
  fexp (digits m + e) <= eb ->
  exists m3 e3,
    0 <= m3 /\ fexp (digits m + e) <= e3 /\ m3 <= 2 ^ prec /\
    dle m3 e3 b eb /\
    binary_round prec emax s m e = of_rounded s m3 e3.
Proof.
  intros Hprec Hle Hgrid. set (e' := fexp (digits m + e)) in *.
  pose proof (digits_bounds m) as [_ Hmhi]. pose proof (digits_pos m) as Hd.
  assert (He' : digits m + e - prec <= e') by (subst e'; unfold SpecFloat.fexp; lia).
  destruct (Z_lt_le_dec e' e) as [Hlt|Hge].
  - (* the mantissa is shifted to the left: the value is exact *)
    exists (Zpos (shifted m e e')), e'.
    split; [lia|]. split; [lia|]. split; [|split].
    + pose proof (digits_bounds (shifted m e e')) as [_ Hs].
      rewrite shifted_digits in Hs by lia.
      assert (2 ^ (digits m + (e - e')) <= 2 ^ prec) by (apply Z.pow_le_mono_r; lia).
      lia.
    + apply (dle_of_base e'); [lia|lia|].
      apply (dle_to_base e') in Hle; [|lia|lia].
      by rewrite shifted_value, Z.sub_diag, Z.mul_1_r by lia.
    + unfold binary_round, shl_align. fold (digits m). fold e'.
      assert (Hsh : (match e' - e with
                     | Zneg d => (Pos.iter xO m d, e')
                     | _ => (m, e)
                     end) = (shifted m e e', e')).
      { unfold shifted. destruct (e' - e) as [|d|d] eqn:E; try lia; f_equal; lia. }
      rewrite Hsh. apply binary_round_aux_canonical.
      rewrite shifted_digits by lia. subst e'.
      replace (digits m + (e - fexp (digits m + e)) + fexp (digits m + e))
        with (digits m + e) by lia. done.
  - (* the mantissa is rounded *)
    destruct (binary_round_aux_bound s m e) as (m3 & e3 & Hm3 & He3 & Hlt3 & HK & Hres).
    set (p := Z.max 0 (fexp (digits m + e) - e)) in *. fold e' in p.
    assert (Hp : p = e' - e) by lia.
    exists m3, e3. split; [done|]. split; [lia|]. split; [|split].
    + pose proof (pow2_pos p ltac:(lia)) as H2p.
      assert (2 ^ digits m <= 2 ^ (prec + p)) by (apply Z.pow_le_mono_r; lia).
      rewrite pow2_split in H by lia.
      destruct (Z_lt_le_dec (2 ^ prec) m3) as [Hbig|]; [|done].
      exfalso. nia.
    + apply (dle_of_base e); [lia|lia|].
      apply (dle_to_base e) in Hle; [|lia|lia].
      rewrite Z.sub_diag, Z.mul_1_r in Hle.
      apply (HK _ (b * 2 ^ (eb - e - p))); [done|].
      rewrite <- Z.mul_assoc, <- pow2_split by lia. f_equal. f_equal. lia.
    + unfold binary_round, shl_align. fold (digits m). fold e'.
      destruct (e' - e) as [|d|d] eqn:E; try lia; exact Hres.
Qed.

(** A rounded value below a bound that is not in the overflow range is
    finite. *)
Lemma of_rounded_finite s m3 e3 b eb :
  0 <= m3 -> dle m3 e3 (Zpos b) eb -> digits b + eb <= emax - prec + 1 ->
  (m3 = 0 /\ of_rounded s m3 e3 = S754_zero s) \/
  (exists m', m3 = Zpos m' /\ of_rounded s m3 e3 = S754_finite s m' e3).
Proof.
  intros Hm3 Hle Hb. destruct m3 as [|m'|m']; [by left| |lia].
  right. exists m'. split; [done|]. unfold of_rounded.
  apply dle_digits in Hle. pose proof (digits_pos m').
  by rewrite (proj2 (Z.leb_le e3 (emax - prec))) by lia.
Qed.

(** What validity says of a finite float. *)
Lemma valid_finite s m e :
  SpecFloat.valid_binary prec emax (S754_finite s m e) = true ->
  fexp (digits m + e) = e /\ e <= emax - prec.
Proof.
  cbn [SpecFloat.valid_binary]. unfold bounded, canonical_mantissa. fold (digits m).
  intros H. apply andb_prop in H as [H1 H2].
  apply Z.eqb_eq in H1. apply Z.leb_le in H2. done.
Qed.

End Format.


(** *** Signs *)

(** Zero, a positive finite number or plus infinity. *)
Definition SFnonneg (x : spec_float) : bool :=
  match x with
  | S754_zero _ | S754_finite false _ _ | S754_infinity false => true
  | _ => false
  end.

Lemma of_rounded_nonneg prec emax m3 e3 :
  0 <= m3 -> SFnonneg (of_rounded prec emax false m3 e3) = true.
Proof.
  intros H. unfold of_rounded. destruct m3; [done| |lia].
  by destruct (_ <=? _).
Qed.

Lemma binary_round_shape prec emax s m e :
  exists m3 e3, 0 <= m3 /\ binary_round prec emax s m e = of_rounded prec emax s m3 e3.
Proof.
  unfold binary_round. destruct (shl_align _ _ _) as [mz ez].
  destruct (binary_round_aux_bound prec emax s mz ez) as (m3 & e3 & H & _ & _ & _ & E).
  eauto.
Qed.

Lemma SFmul_nonneg prec emax a b :
  SFnonneg a = true -> SFnonneg b = true ->
  SFmul prec emax a b = S754_nan \/ SFnonneg (SFmul prec emax a b) = true.
Proof.
  destruct a as [sa|[]| |[] ma ea], b as [sb|[]| |[] mb eb]; simpl; try done; auto.
  intros _ _. right.
    destruct (binary_round_aux_bound prec emax false (ma * mb) (ea + eb))
      as (m3 & e3 & H & _ & _ & _ & E).
    rewrite E. by apply of_rounded_nonneg.
Qed.

Lemma SFadd_nonneg prec emax a b :
  SFnonneg a = true -> SFnonneg b = true -> SFnonneg (SFadd prec emax a b) = true.
Proof.
  destruct a as [sa|[]| |[] ma ea], b as [sb|[]| |[] mb eb]; simpl; try done.
  - by destruct sa, sb.
  - intros _ _. unfold binary_normalize.
    destruct (binary_round_shape prec emax false
                (fst (shl_align ma ea (Z.min ea eb)) + fst (shl_align mb eb (Z.min ea eb)))
                (Z.min ea eb)) as (m3 & e3 & H & E).
    rewrite E. by apply of_rounded_nonneg.
Qed.

Lemma leb_zero_nonneg x : (0 <=? x)%float = true -> SFnonneg (Prim2SF x) = true.
Proof.
  rewrite leb_spec. change (Prim2SF 0) with (S754_zero false).
  by destruct (Prim2SF x) as [s|[]| |[] m e].
Qed.

(** *** Binary64 and binary32 *)

Lemma valid64 s m e :
  valid_binary (S754_finite s m e) = true ->
  digits m <= 53 /\ -1074 <= e <= 971 /\ SpecFloat.fexp 53 1024 (digits m + e) = e.
Proof.
  intros H. apply (valid_finite 53 1024) in H as [H1 H2].
  split; [|split; [|done]]; revert H1; unfold SpecFloat.fexp, SpecFloat.emin; lia.
Qed.

Lemma units_finite s m e :
  SFunits (S754_finite s m e) = cond_Zopp s (Zpos m * 2 ^ (e + 1074)).
Proof. done. Qed.

Lemma dle_units m e b eb :
  -1074 <= e -> -1074 <= eb ->
  dle m e b eb <-> m * 2 ^ (e + 1074) <= b * 2 ^ (eb + 1074).
Proof.
  intros H1 H2. rewrite (dle_base (-1074)) by lia.
  by replace (e - -1074) with (e + 1074) by lia;
     replace (eb - -1074) with (eb + 1074) by lia.
Qed.

(** A number of at most 53 digits with an exponent that binary64 has is
    a binary64 value. *)
Lemma to_binary64_exact s m e :
  digits m <= 53 -> -1074 <= e -> digits m + e <= 1024 ->
  exists m' e',
    binary_round 53 1024 s m e = S754_finite s m' e' /\
    valid_binary (S754_finite s m' e') = true /\
    -1074 <= e' /\
    Zpos m' * 2 ^ (e' + 1074) = Zpos m * 2 ^ (e + 1074).
Proof.
  intros Hd He Hmax. set (e' := SpecFloat.fexp 53 1024 (digits m + e)).
  assert (He' : -1074 <= e' <= e /\ e' <= 1024 - 53).
  { subst e'. unfold SpecFloat.fexp, SpecFloat.emin. lia. }
  exists (shifted m e e'), e'. split; [|split; [|split]].
  - apply binary_round_exact; fold e'; lia.
  - apply (exact_valid 53 1024); fold e'; lia.
  - lia.
  - rewrite shifted_value by lia. rewrite <- Z.mul_assoc, <- pow2_split by lia.
    f_equal. f_equal. lia.
Qed.


(** *** The remainder *)

Lemma shl_align_shifted m e e' : fst (shl_align m e e') = shifted m e e'.
Proof. unfold shl_align, shifted. by destruct (e' - e). Qed.

(** The remainder of a number that is not negative by a finite positive
    number: exact, not negative, and below the divisor. *)
Lemma SFrem_bound x sy my ey :
  valid_binary x = true -> SFnonneg x = true -> SFfinite x = true ->
  valid_binary (S754_finite sy my ey) = true ->
  let r := SFrem x (S754_finite sy my ey) in
  valid_binary r = true /\ SFfinite r = true /\ SFnonneg r = true /\
  0 <= SFunits r < Zpos my * 2 ^ (ey + 1074).
Proof.
  intros Hvx Hnx Hfx Hvy.
  apply valid64 in Hvy as (Hdy & Hey & _).
  assert (Hpos : 0 < Zpos my * 2 ^ (ey + 1074)).
  { apply Z.mul_pos_pos; [lia|]. apply pow2_pos. lia. }
  destruct x as [sx|sx| |sx mx ex]; [|done|done|].
  - (* zero *) simpl. split; [done|]. split; [done|]. split; [done|]. lia.
  - destruct sx; [done|]. pose proof Hvx as Hvx'.
    apply valid64 in Hvx' as (Hdx & Hex & _).
    cbn [SFrem cond_Zopp]. rewrite !shl_align_shifted.
    set (ez := Z.min ex ey).
    set (X := Zpos (shifted mx ex ez)). set (Y := Zpos (shifted my ey ez)).
    assert (HX : X = Zpos mx * 2 ^ (ex - ez)) by (apply shifted_value; lia).
    assert (HY : Y = Zpos my * 2 ^ (ey - ez)) by (apply shifted_value; lia).
    assert (HR : 0 <= Z.rem X Y < Y) by (apply Z.rem_bound_pos; lia).
    assert (HRX : Z.rem X Y <= X) by (apply Z.rem_le; lia).
    destruct (Z.rem X Y) as [|r|r] eqn:ER; [| |lia].
    + simpl. split; [done|]. split; [done|]. split; [done|]. lia.
    + cbn [binary_normalize].
      assert (Hr53 : Zpos r < 2 ^ 53).
      { pose proof (digits_bounds mx) as [_ Hmx]. pose proof (digits_bounds my) as [_ Hmy].
        assert (2 ^ digits mx <= 2 ^ 53) by (apply Z.pow_le_mono_r; lia).
        assert (2 ^ digits my <= 2 ^ 53) by (apply Z.pow_le_mono_r; lia).
        destruct (Z_le_gt_dec ex ey).
        - replace (ex - ez) with 0 in HX by lia. simpl in HX. lia.
        - replace (ey - ez) with 0 in HY by lia. simpl in HY. lia. }
      pose proof (digits_le_pow r 53 Hr53) as Hdr. pose proof (digits_pos r) as Hdr0.
      destruct (to_binary64_exact false r ez) as (m' & e' & E & Hv & He' & Hval);
        [lia|lia|lia|].
      change prec64 with 53. change emax64 with 1024. rewrite E.
      split; [done|]. split; [done|]. split; [done|].
      rewrite units_finite. cbn [cond_Zopp]. rewrite Hval.
      split; [apply Z.lt_le_incl, Z.mul_pos_pos; [lia|apply pow2_pos; lia]|].
      apply Z.lt_le_trans with (Y * 2 ^ (ez + 1074)).
      * apply Z.mul_lt_mono_pos_r; [apply pow2_pos; lia|lia].
      * rewrite HY, <- Z.mul_assoc, <- pow2_split by lia.
        replace (ey - ez + (ez + 1074)) with (ey + 1074) by lia. lia.
Qed.

(** *** Rounding to binary32 *)

(** Rounding a number that is not negative to binary32 does not take it
    above a bound that binary32 holds. *)
Lemma SFfround_bound x b eb :
  valid_binary x = true -> SFnonneg x = true -> SFfinite x = true ->
  -1074 <= eb -> SpecFloat.fexp 24 128 (digits b + eb) <= eb -> digits b + eb <= 105 ->
  SFunits x <= Zpos b * 2 ^ (eb + 1074) ->
  let r := SFfround x in
  valid_binary r = true /\ SFfinite r = true /\ SFnonneg r = true /\
  0 <= SFunits r <= Zpos b * 2 ^ (eb + 1074).
Proof.
  intros Hvx Hnx Hfx Heb Hgrid Hmax Hle.
  assert (Hpos : 0 < Zpos b * 2 ^ (eb + 1074)).
  { apply Z.mul_pos_pos; [lia|]. apply pow2_pos. lia. }
  destruct x as [sx|sx| |sx m e]; [|done|done|].
  - simpl. split; [done|]. split; [done|]. split; [done|]. lia.
  - destruct sx; [done|]. apply valid64 in Hvx as (Hd & He & _).
    rewrite units_finite in Hle. cbn [cond_Zopp] in Hle.
    apply dle_units in Hle; [|lia|lia].
    pose proof (dle_digits _ _ _ _ Hle) as Hdig.
    destruct (binary_round_le 24 128 false m e (Zpos b) eb) as
        (m3 & e3 & Hm3 & He3 & Hm3p & Hle3 & E); [lia|done| |].
    { etrans; [|exact Hgrid]. by apply fexp_mono. }
    cbn [SFfround]. change prec32 with 24. change emax32 with 128. rewrite E.
    destruct (of_rounded_finite 24 128 false m3 e3 b eb Hm3 Hle3) as
        [[-> ->]|(m' & -> & ->)]; [lia| |].
    + simpl. split; [done|]. split; [done|]. split; [done|]. lia.
    + assert (He3' : -149 <= e3).
      { pose proof (fexp_ge_emin 24 128 (digits m + e)) as Hmin.
        unfold SpecFloat.emin in Hmin. lia. }
      assert (Hd' : digits m' <= 25).
      { apply digits_le_pow. change (2 ^ 25) with (2 ^ 24 * 2). lia. }
      pose proof (dle_digits _ _ _ _ Hle3) as Hdig3.
      destruct (to_binary64_exact false m' e3) as (m'' & e'' & E' & Hv & He'' & Hval);
        [lia|lia|lia|].
      change prec64 with 53. change emax64 with 1024. rewrite E'.
      split; [done|]. split; [done|]. split; [done|].
      rewrite units_finite. cbn [cond_Zopp]. rewrite Hval.
      split; [apply Z.lt_le_incl, Z.mul_pos_pos; [lia|apply pow2_pos; lia]|].
      apply dle_units; [lia|lia|done].
Qed.


(** *** Comparisons *)

Lemma canon_lt s1 m1 e1 s2 m2 e2 :
  valid_binary (S754_finite s1 m1 e1) = true ->
  valid_binary (S754_finite s2 m2 e2) = true ->
  e1 < e2 -> Zpos m1 * 2 ^ (e1 + 1074) < Zpos m2 * 2 ^ (e2 + 1074).
Proof.
  intros H1 H2 Hlt.
  apply valid64 in H1 as (Hd1 & He1 & _). apply valid64 in H2 as (Hd2 & He2 & Hc2).
  unfold SpecFloat.fexp, SpecFloat.emin in Hc2.
  assert (Hd : digits m2 = 53) by lia.
  pose proof (digits_bounds m1) as [_ Hm1]. pose proof (digits_bounds m2) as [Hm2 _].
  replace (digits m2 - 1) with 52 in Hm2 by lia.
  assert (2 ^ digits m1 <= 2 ^ 53) by (apply Z.pow_le_mono_r; lia).
  apply Z.lt_le_trans with (2 ^ 53 * 2 ^ (e1 + 1074)).
  - apply Z.mul_lt_mono_pos_r; [apply pow2_pos; lia|lia].
  - apply Z.le_trans with (2 ^ 52 * 2 ^ (e2 + 1074)).
    + rewrite <- !pow2_split by lia. apply Z.pow_le_mono_r; lia.
    + apply Z.mul_le_mono_nonneg_r; [apply Z.lt_le_incl, pow2_pos; lia|lia].
Qed.

Lemma mag_compare s1 m1 e1 s2 m2 e2 :
  valid_binary (S754_finite s1 m1 e1) = true ->
  valid_binary (S754_finite s2 m2 e2) = true ->
  match e1 ?= e2 with Lt => Lt | Gt => Gt | Eq => Pos.compare_cont Eq m1 m2 end
  = (Zpos m1 * 2 ^ (e1 + 1074) ?= Zpos m2 * 2 ^ (e2 + 1074)).
Proof.
  intros H1 H2. destruct (Z.compare_spec e1 e2) as [->|Hlt|Hgt].
  - pose proof (valid64 _ _ _ H2) as (_ & He & _).
    assert (HP : 0 < 2 ^ (e2 + 1074)) by (apply pow2_pos; lia).
    change (Pos.compare_cont Eq m1 m2) with (Zpos m1 ?= Zpos m2).
    destruct (Z.compare_spec (Zpos m1) (Zpos m2)) as [E|Hlt|Hgt]; symmetry.
    + apply Z.compare_eq_iff. by rewrite E.
    + apply Z.compare_lt_iff. by apply Z.mul_lt_mono_pos_r.
    + apply Z.compare_gt_iff. by apply Z.mul_lt_mono_pos_r.
  - symmetry. apply Z.compare_lt_iff. by apply (canon_lt s1 m1 e1 s2 m2 e2).
  - symmetry. apply Z.compare_gt_iff. by apply (canon_lt s2 m2 e2 s1 m1 e1).
Qed.

Lemma units_sign (s : bool) m e :
  -1074 <= e -> if s then SFunits (S754_finite s m e) < 0 else 0 < SFunits (S754_finite s m e).
Proof.
  intros He. rewrite units_finite.
  assert (0 < Zpos m * 2 ^ (e + 1074)) by (apply Z.mul_pos_pos; [lia|apply pow2_pos; lia]).
  destruct s; simpl; lia.
Qed.

(** On finite numbers the comparison of the floats is the comparison of
    their exact values. *)
Lemma SFcompare_units x y :
  valid_binary x = true -> valid_binary y = true ->
  SFfinite x = true -> SFfinite y = true ->
  SFcompare x y = Some (SFunits x ?= SFunits y).
Proof.
  intros Hvx Hvy Hfx Hfy.
  destruct x as [sx|sx| |sx mx ex]; [|done|done|];
    destruct y as [sy|sy| |sy my ey]; try done.
  - pose proof (valid64 _ _ _ Hvy) as (_ & He & _).
    pose proof (units_sign sy my ey ltac:(lia)) as Hs.
    cbn [SFcompare]. f_equal. symmetry. change (SFunits (S754_zero sx)) with 0.
    destruct sy; [by apply Z.compare_gt_iff|by apply Z.compare_lt_iff].
  - pose proof (valid64 _ _ _ Hvx) as (_ & He & _).
    pose proof (units_sign sx mx ex ltac:(lia)) as Hs.
    cbn [SFcompare]. f_equal. symmetry. change (SFunits (S754_zero sy)) with 0.
    destruct sx; [by apply Z.compare_lt_iff|by apply Z.compare_gt_iff].
  - pose proof (valid64 _ _ _ Hvx) as (_ & Hex & _).
    pose proof (valid64 _ _ _ Hvy) as (_ & Hey & _).
    pose proof (units_sign sx mx ex ltac:(lia)) as Hsx.
    pose proof (units_sign sy my ey ltac:(lia)) as Hsy.
    cbn [SFcompare]. f_equal.
    destruct sx, sy.
    + rewrite !units_finite. cbn [cond_Zopp]. rewrite Z.compare_opp.
      rewrite <- (mag_compare true my ey true mx ex) by done.
      rewrite (Z.compare_antisym ey ex), (Pos.compare_cont_antisym mx my Eq).
      by destruct (ey ?= ex).
    + symmetry. apply Z.compare_lt_iff. lia.
    + symmetry. apply Z.compare_gt_iff. lia.
    + rewrite !units_finite. cbn [cond_Zopp]. by apply (mag_compare false _ _ false).
Qed.

Lemma leb_units x y :
  is_finite x = true -> is_finite y = true ->
  (x <=? y)%float = (units x <=? units y).
Proof.
  intros Hx Hy. rewrite leb_spec. unfold SFleb, units.
  rewrite SFcompare_units by (done || apply Prim2SF_valid).
  unfold Z.leb. by destruct (_ ?= _).
Qed.

Lemma ltb_units x y :
  is_finite x = true -> is_finite y = true ->
  (x <? y)%float = (units x <? units y).
Proof.
  intros Hx Hy. rewrite ltb_spec. unfold SFltb, units.
  rewrite SFcompare_units by (done || apply Prim2SF_valid).
  unfold Z.ltb. by destruct (_ ?= _).
Qed.


(** *** A wrapped coordinate *)

Definition twenty : spec_float := S754_finite false 5629499534213120 (-48).

Lemma units_twenty : units 20 = 5 * 2 ^ 1076.
Proof. by vm_compute. Qed.

Lemma sum_nonneg (y dt : float) :
  (0 <=? y)%float = true -> (0 <=? dt)%float = true ->
  is_finite (y + dt * 2) = true ->
  SFnonneg (Prim2SF (y + dt * 2)) = true.
Proof.
  intros Hy Hdt Hfin. unfold is_finite in Hfin. revert Hfin.
  rewrite add_spec, mul_spec. unfold SF64add, SF64mul.
  apply leb_zero_nonneg in Hy, Hdt.
  destruct (SFmul_nonneg 53 1024 (Prim2SF dt) (Prim2SF 2) Hdt eq_refl) as [E|E].
  - change prec with 53. change emax with 1024. rewrite E.
    by destruct (Prim2SF y).
  - intros _. by apply SFadd_nonneg.
Qed.

(** The remainder by 20 of a finite number that is not negative lies in
    [[0, 20)], and a store into a [Float32Array] keeps it in [[0, 20]]. *)
Lemma wrap_bounds (x : float) :
  is_finite x = true -> SFnonneg (Prim2SF x) = true ->
  let newY := jrem x 20 in
  (0 <=? newY)%float = true /\ (newY <? 20)%float = true /\
  (0 <=? fround newY)%float = true /\ (fround newY <=? 20)%float = true.
Proof.
  intros Hfin Hnn newY.
  destruct (SFrem_bound (Prim2SF x) false 5629499534213120 (-48)
              (Prim2SF_valid x) Hnn Hfin eq_refl) as (Hv & Hf & Hn & Hlo & Hhi).
  fold twenty in Hv, Hf, Hn, Hlo, Hhi.
  assert (E : Prim2SF newY = SFrem (Prim2SF x) twenty).
  { unfold newY, jrem. change (Prim2SF 20) with twenty. by apply Prim2SF_SF2Prim. }
  assert (Hb : 5629499534213120 * 2 ^ (-48 + 1074) = 5 * 2 ^ 1076) by (by vm_compute).
  rewrite Hb in Hhi.
  assert (Hfn : is_finite newY = true) by (unfold is_finite; by rewrite E).
  assert (Hun : units newY = SFunits (SFrem (Prim2SF x) twenty)) by (unfold units; by rewrite E).
  destruct (SFfround_bound (SFrem (Prim2SF x) twenty) 5 2 Hv Hn Hf)
    as (Hv' & Hf' & Hn' & Hlo' & Hhi'); [lia|by vm_compute|by vm_compute| |].
  { change (2 + 1074) with 1076. lia. }
  change (2 + 1074) with 1076 in Hhi'.
  assert (E' : Prim2SF (fround newY) = SFfround (SFrem (Prim2SF x) twenty)).
  { unfold fround. rewrite E. by apply Prim2SF_SF2Prim. }
  assert (Hfn' : is_finite (fround newY) = true) by (unfold is_finite; by rewrite E').
  assert (Hun' : units (fround newY) = SFunits (SFfround (SFrem (Prim2SF x) twenty)))
    by (unfold units; by rewrite E').
  rewrite !leb_units, ltb_units by done.
  rewrite units_twenty, Hun, Hun'. change (units 0) with 0.
  repeat split; try apply Z.leb_le; try apply Z.ltb_lt; lia.
Qed.


(** *** Sums, differences and products below a bound *)



(** *** The drift force *)










End NumFacts.

(** ** Transitions *)

Module TweenFacts.
Import Tween.

(** From its duration on, a transition holds its target. *)
Lemma value_to_finished {V : Type} (lerp : V -> V -> Q -> V) (a : animated V)
    (now : Q) (target : V) (duration : Q) (ease : Q -> Q) (t : Q) :
  (now + duration <= t)%Q ->
  value lerp (to lerp a now target duration ease) t = target.
Proof.
  intros Ht. unfold to, value, finished. simpl.
  by rewrite (proj2 (Qle_bool_iff _ _) Ht).
Qed.

End TweenFacts.

(** ** The nearest hit *)

Module RaycastFacts.
Import Raycast.

Section Nearest.
Context {D : Type}.
Variable dleb : D -> D -> bool.

#[local] Abbreviation Hit := (@Intersection D).




(** Sorting neither drops nor invents a hit. *)
Lemma elem_of_insert_hit h (l : list Hit) x :
  x ∈ insert_hit dleb h l <-> x = h \/ x ∈ l.
Proof.
  induction l as [|m l IH]; simpl.
  - rewrite list_elem_of_singleton. split; [by left|]. intros [?|H]; [done|].
    by apply elem_of_nil in H.
  - destruct (dleb _ _).
    + by rewrite elem_of_cons.
    + rewrite !elem_of_cons, IH. tauto.
Qed.

Lemma elem_of_sort_hits (l : list Hit) x : x ∈ sort_hits dleb l <-> x ∈ l.
Proof.
  induction l as [|h l IH]; simpl; [done|].
  by rewrite elem_of_insert_hit, elem_of_cons, IH.
Qed.

(** An object is among the objects of the hits exactly when it is in
    the list handed to the ray caster and the ray meets it. *)
Lemma hit_objects (ray : Obj -> list D) (objs : list Obj) o :
  o ∈ map object (intersectObjects dleb ray objs) <-> o ∈ objs /\ ray o <> [].
Proof.
  unfold intersectObjects. rewrite list_elem_of_fmap. split.
  - intros (h & -> & Hh). apply (proj1 (elem_of_sort_hits _ _)) in Hh.
    unfold collect_hits in Hh.
    apply (proj1 (list_elem_of_In _ _)), (proj1 (in_flat_map _ _ _)) in Hh.
    destruct Hh as (o & Ho & Hh).
    apply (proj2 (list_elem_of_In _ _)), (proj1 (list_elem_of_fmap _ _ _)) in Hh.
    destruct Hh as (d & -> & Hd). simpl. split; [by apply list_elem_of_In|].
    intros E. rewrite E in Hd. by apply elem_of_nil in Hd.
  - intros [Ho Hray]. destruct (ray o) as [|d l] eqn:E; [done|].
    exists {| distance := d; object := o |}. split; [done|].
    apply elem_of_sort_hits. unfold collect_hits.
    apply list_elem_of_In, in_flat_map. exists o. split; [by apply list_elem_of_In|].
    apply list_elem_of_In, list_elem_of_fmap. exists d. split; [done|].
    rewrite E. by left.
Qed.

Hypothesis dleb_total : forall a b, dleb a b = true \/ dleb b a = true.
Hypothesis dleb_trans : forall a b c, dleb a b = true -> dleb b c = true -> dleb a c = true.







End Nearest.
End RaycastFacts.

(** ** Loops over a typed array *)

Section LoopFacts.
Context {S : Type}.
Variable arr : S -> list float.
Variable cb : float -> nat -> S -> S.

Section Pointwise.
(** A callback that, on stores satisfying [Inv], rewrites exactly the
    element it is called on. *)
Variable Inv : S -> Prop.
Variable g : nat -> float -> float.
Hypothesis cb_inv : forall v k s, Inv s -> arr s !! k = Some v -> Inv (cb v k s).
Hypothesis cb_arr : forall v k s, Inv s -> arr s !! k = Some v ->
  arr (cb v k s) = <[k := g k v]> (arr s).

Lemma forEach_from_inv n : forall k s, Inv s -> Inv (forEach_from arr cb k n s).
Proof using cb_inv.
  induction n as [|n IH]; intros k s Hs; simpl; [done|].
  destruct (arr s !! k) eqn:E; apply IH; eauto.
Qed.

Lemma forEach_from_lookup n : forall k s j, Inv s ->
  arr (forEach_from arr cb k n s) !! j =
  if decide (k <= j < k + n)%nat then g j <$> arr s !! j else arr s !! j.
Proof using cb_inv cb_arr.
  induction n as [|n IH]; intros k s j Hs; simpl.
  - case_decide; [lia|done].
  - destruct (arr s !! k) as [v|] eqn:E.
    + rewrite IH by eauto. rewrite (cb_arr v k s Hs E).
      destruct (decide (j = k)) as [->|Hne].
      * rewrite list_lookup_insert_eq by (eapply lookup_lt_Some; eauto).
        rewrite E. repeat case_decide; try lia; done.
      * rewrite list_lookup_insert_ne by done.
        repeat case_decide; try lia; done.
    + rewrite IH by done.
      destruct (decide (j = k)) as [->|Hne].
      * rewrite E. repeat case_decide; done.
      * repeat case_decide; try lia; done.
Qed.

Lemma forEach_imap s : Inv s -> arr (forEach arr cb s) = imap g (arr s).
Proof using cb_inv cb_arr.
  intros Hs. apply list_eq. intros j. unfold forEach.
  rewrite forEach_from_lookup by done. rewrite list_lookup_imap.
  case_decide as Hj; [done|].
  rewrite (proj2 (lookup_ge_None (arr s) j)) by lia. done.
Qed.

End Pointwise.

(** What every call of the callback keeps, the loop keeps. *)
Lemma forEach_from_keeps {X : Type} (pr : S -> X) :
  (forall v k s, pr (cb v k s) = pr s) ->
  forall n k s, pr (forEach_from arr cb k n s) = pr s.
Proof.
  intros Hcb n. induction n as [|n IH]; intros k s; simpl; [done|].
  destruct (arr s !! k); rewrite IH; [apply Hcb|done].
Qed.

Lemma forEach_keeps {X : Type} (pr : S -> X) :
  (forall v k s, pr (cb v k s) = pr s) ->
  forall s, pr (forEach arr cb s) = pr s.
Proof. intros Hcb s. apply forEach_from_keeps, Hcb. Qed.

End LoopFacts.

(** ** The glow of the tablets *)

Module HoverFacts.
Import DeepSea.

Section Hover.
Context {D : Type}.
Variable dleb : D -> D -> bool.
Variable ease_default : Q -> Q.

#[local] Abbreviation Frame := (@DeepSea.Frame D).
#[local] Abbreviation hover_cb := (DeepSea.hover_cb ease_default).
#[local] Abbreviation animate_hover := (DeepSea.animate_hover dleb ease_default).

(** The target of the glow of [child] in a frame where the ray meets
    the objects [hit]. *)
Definition glow_target (hit : list Obj) (child : Obj) : Q :=
  (if bool_decide (child ∈ hit) then 7 # 10 else 0)%Q.

(** The transition a frame starts on the glow of [child]. *)
Definition glow_to (f : Frame) (hit : list Obj) (child : Obj) (a : Tween.animated Q)
    : Tween.animated Q :=
  Tween.to Tween.lerpQ a (frame_now f) (glow_target hit child) 1 ease_default.

Lemma hover_cb_emissive (f : Frame) hit child u :
  emissiveIntensity (hover_cb f hit child u) =
  if String.eqb (name child) "photography"
  then alter (glow_to f hit child) (oid child) (emissiveIntensity u)
  else emissiveIntensity u.
Proof. unfold DeepSea.hover_cb. by destruct (String.eqb _ _). Qed.

Lemma hover_fold_other (f : Frame) hit (l : list Obj) k : forall u,
  k ∉ map oid l ->
  emissiveIntensity (foldl (fun u child => hover_cb f hit child u) u l) !! k =
  emissiveIntensity u !! k.
Proof.
  induction l as [|x l IH]; intros u Hk; simpl; [done|].
  simpl in Hk. apply not_elem_of_cons in Hk as [Hx Hl].
  rewrite IH by done. rewrite hover_cb_emissive.
  destruct (String.eqb _ _); [|done]. by rewrite lookup_alter_ne.
Qed.

Lemma hover_fold_child (f : Frame) hit (l : list Obj) c : forall u,
  NoDup (map oid l) -> c ∈ l ->
  emissiveIntensity (foldl (fun u child => hover_cb f hit child u) u l) !! oid c =
  if String.eqb (name c) "photography"
  then glow_to f hit c <$> emissiveIntensity u !! oid c
  else emissiveIntensity u !! oid c.
Proof.
  induction l as [|x l IH]; intros u Hnd Hc; simpl.
  - by apply elem_of_nil in Hc.
  - simpl in Hnd. apply NoDup_cons in Hnd as [Hx Hnd].
    apply elem_of_cons in Hc as [->|Hc].
    + rewrite hover_fold_other by done. rewrite hover_cb_emissive.
      destruct (String.eqb _ _); [|done]. by rewrite lookup_alter_eq.
    + rewrite IH by done.
      assert (Hne : oid x <> oid c).
      { intros E. apply Hx. rewrite E. by apply list_elem_of_fmap_2. }
      rewrite hover_cb_emissive.
      destruct (String.eqb (name x) _); [|done]. by rewrite lookup_alter_ne.
Qed.

Lemma animate_hover_child (f : Frame) r u c :
  NoDup (map oid (scene_children r)) -> c ∈ scene_children r ->
  name c = "photography" ->
  emissiveIntensity (animate_hover f r u) !! oid c =
  glow_to f (map Raycast.object
               (Raycast.intersectObjects dleb (frame_ray f) (interactiveObjects r))) c
    <$> emissiveIntensity u !! oid c.
Proof.
  intros Hnd Hc Hname. unfold DeepSea.animate_hover.
  rewrite hover_fold_child by done. by rewrite Hname.
Qed.

End Hover.
End HoverFacts.

(** ** The particle fields of the deep-sea scene *)

Module DeepSeaParticles.
Import DeepSea.

Section Rules.
Variables Math_sin Math_cos : float -> float.

(** What one frame makes of element [i] of the vent buffer. *)
Definition vent_rule (dt : float) (i : nat) (v : float) : float :=
  if (i mod 3 =? 1)%nat then fround (jrem (v + dt * 2)%float 20) else v.

(** What one frame makes of element [i] of the swarm buffer, [base]
    being the contents of [swarmPosArray]. *)
Definition swarm_rule (t : float) (base : list float) (i : nat) (v : float) : float :=
  let b := typed_get base i in
  if (i mod 3 =? 0)%nat then fround (b + Math_sin (t + b) * 2)%float
  else if (i mod 3 =? 1)%nat then fround (b + Math_cos (t + b) * 2)%float
  else v.

(** The swarm buffer as a function of the time and the base array
    alone. *)
Definition swarm_of_base (t : float) (base : list float) : list float :=
  imap (swarm_rule t base) base.

#[local] Abbreviation swarm_cb := (swarm_cb Math_sin Math_cos).

Lemma vent_cb_live dt v k p :
  ventLive p !! k = Some v ->
  ventLive (vent_cb dt v k p) = <[k := vent_rule dt k v]> (ventLive p).
Proof.
  intros E. unfold vent_cb, vent_rule.
  destruct (k mod 3 =? 1)%nat; simpl; [done|].
  symmetry. by apply list_insert_id.
Qed.

Lemma swarm_cb_base t v k p : swarmPosArray (swarm_cb t v k p) = swarmPosArray p.
Proof. unfold DeepSea.swarm_cb. repeat case_match; done. Qed.

Lemma swarm_cb_vent t v k p : ventLive (swarm_cb t v k p) = ventLive p.
Proof. unfold DeepSea.swarm_cb. repeat case_match; done. Qed.

Lemma swarm_cb_live t base v k p :
  swarmPosArray p = base ->
  swarmLive p !! k = Some v ->
  swarmLive (swarm_cb t v k p) = <[k := swarm_rule t base k v]> (swarmLive p).
Proof.
  intros <- E. unfold DeepSea.swarm_cb, swarm_rule.
  destruct (k mod 3 =? 0)%nat eqn:E0; destruct (k mod 3 =? 1)%nat eqn:E1; simpl; try done.
  - apply Nat.eqb_eq in E0. apply Nat.eqb_eq in E1. lia.
  - symmetry. by apply list_insert_id.
Qed.

#[local] Abbreviation animate_particles := (animate_particles Math_sin Math_cos).

Lemma animate_particles_vent {D} (f : Frame (D := D)) p :
  ventLive (animate_particles f p) = imap (vent_rule (deltaTime f)) (ventLive p).
Proof.
  unfold DeepSea.animate_particles. simpl.
  rewrite (forEach_keeps swarmLive _ ventLive) by apply swarm_cb_vent. simpl.
  apply (forEach_imap ventLive _ (fun _ => True)); [done| |done].
  intros v k s _. apply vent_cb_live.
Qed.

Lemma animate_particles_base {D} (f : Frame (D := D)) p :
  swarmPosArray (animate_particles f p) = swarmPosArray p.
Proof.
  unfold DeepSea.animate_particles. simpl.
  rewrite (forEach_keeps swarmLive _ swarmPosArray) by apply swarm_cb_base. simpl.
  apply (forEach_keeps ventLive _ swarmPosArray).
  intros v k s. unfold vent_cb. by case_match.
Qed.

Lemma animate_particles_swarm {D} (f : Frame (D := D)) p :
  swarmLive (animate_particles f p) =
  imap (swarm_rule (elapsedTime f) (swarmPosArray p)) (swarmLive p).
Proof.
  unfold DeepSea.animate_particles. simpl.
  set (p2 := set_ventNeedsUpdate true _).
  assert (Hb : swarmPosArray p2 = swarmPosArray p).
  { subst p2. simpl. apply (forEach_keeps ventLive _ swarmPosArray).
    intros v k s. unfold vent_cb. by case_match. }
  assert (Hl : swarmLive p2 = swarmLive p).
  { subst p2. simpl. apply (forEach_keeps ventLive _ swarmLive).
    intros v k s. unfold vent_cb. by case_match. }
  rewrite <- Hl.
  apply (forEach_imap swarmLive _ (fun s => swarmPosArray s = swarmPosArray p)); [| |done].
  - intros v k s Hs _. by rewrite swarm_cb_base.
  - intros v k s Hs E. by apply swarm_cb_live.
Qed.

End Rules.
End DeepSeaParticles.

(** ** Runs of the deep-sea scene *)

Module DeepSeaRuns.
Import DeepSea DeepSeaParticles.

Section Runs.
Context {D : Type}.
Variable dleb : D -> D -> bool.
Variables Math_sin Math_cos : float -> float.
Variables ease_power3_inOut ease_default : Q -> Q.

#[local] Abbreviation Frame := (@DeepSea.Frame D).
#[local] Abbreviation Click := (@DeepSea.Click D).
#[local] Abbreviation Event := (@DeepSea.Event D).
#[local] Abbreviation onClick := (DeepSea.onClick dleb ease_power3_inOut).
#[local] Abbreviation animate := (DeepSea.animate dleb Math_sin Math_cos ease_default).
#[local] Abbreviation animate_particles := (DeepSea.animate_particles Math_sin Math_cos).
#[local] Abbreviation animate_shader := (DeepSea.animate_shader Math_sin).
#[local] Abbreviation animate_hover := (DeepSea.animate_hover dleb ease_default).
#[local] Abbreviation step :=
  (DeepSea.step dleb Math_sin Math_cos ease_power3_inOut ease_default).
#[local] Abbreviation run :=
  (DeepSea.run dleb Math_sin Math_cos ease_power3_inOut ease_default).
#[local] Abbreviation swarm_rule := (swarm_rule Math_sin Math_cos).
#[local] Abbreviation swarm_of_base := (swarm_of_base Math_sin Math_cos).

(** The handlers never raise an exception. *)
Lemma animate_shader_ok (f : Frame) m : exists m', animate_shader f m = Ok m'.
Proof.
  unfold DeepSea.animate_shader. destruct (jellyfishShader m); simpl; eauto.
Qed.

Lemma animate_ok (f : Frame) s :
  exists m', animate_shader f (materials s) = Ok m' /\
    animate f s =
    Ok {| registry := registry s;
          particles := animate_particles f (particles s);
          materials := render f m';
          interaction := animate_hover f (registry s) (interaction s) |}.
Proof.
  destruct (animate_shader_ok f (materials s)) as [m' Hm]. exists m'.
  split; [done|]. unfold DeepSea.animate. by rewrite Hm.
Qed.

(** The outcomes of a click: no hit; a hit whose name is a key of the
    table; a hit whose name is no key but a property of
    [Object.prototype]; a hit whose name is neither. *)
Lemma onClick_cases (c : Click) s :
  let intersects :=
    Raycast.intersectObjects dleb (click_ray c) (interactiveObjects (registry s)) in
  match intersects !! 0%nat with
  | Some hit =>
      match focusPoints (registry s) !! name (Raycast.object hit) with
      | Some fd =>
          onClick c s =
          Ok (with_interaction
                {| mouse := mouse (interaction s);
                   controlsTarget :=
                     Tween.to Tween.lerp3 (controlsTarget (interaction s))
                       (click_now c) (position fd) (5 # 2) ease_power3_inOut;
                   infoTitle := title fd;
                   infoDescription := description fd;
                   emissiveIntensity := emissiveIntensity (interaction s) |} s)
      | None =>
          if bool_decide (name (Raycast.object hit) ∈ Object_prototype) then
            onClick c s =
            Ok (with_interaction
                  {| mouse := mouse (interaction s);
                     controlsTarget := controlsTarget (interaction s);
                     infoTitle := "";
                     infoDescription := "";
                     emissiveIntensity := emissiveIntensity (interaction s) |} s)
          else onClick c s = Ok s
      end
  | None => onClick c s = Ok s
  end.
Proof.
  unfold DeepSea.onClick, get_property. simpl.
  destruct (Raycast.intersectObjects _ _ _) as [|hit l]; simpl; [done|].
  destruct (focusPoints (registry s) !! name (Raycast.object hit)); [done|].
  by destruct (bool_decide _).
Qed.

Lemma onClick_ok (c : Click) s :
  exists s', onClick c s = Ok s' /\ registry s' = registry s /\
    particles s' = particles s /\ materials s' = materials s /\
    emissiveIntensity (interaction s') = emissiveIntensity (interaction s).
Proof.
  pose proof (onClick_cases c s) as H. simpl in H.
  destruct (_ !! 0%nat) as [hit|]; [|by eauto 10].
  destruct (focusPoints _ !! _); [|destruct (bool_decide _)]; rewrite H; eauto 10.
Qed.

Lemma step_ok (e : Event) s : exists s', step e s = Ok s'.
Proof.
  destruct e as [c|f|x y w h]; simpl.
  - destruct (onClick_ok c s) as (s' & H & _). eauto.
  - destruct (animate_ok f s) as (m' & _ & H). eauto.
  - eauto.
Qed.

Lemma run_ok (es : list Event) : forall s, exists s', run es s = Ok s'.
Proof.
  induction es as [|e es IH]; intros s; simpl; [by eauto|].
  destruct (step_ok e s) as [s1 H1]. rewrite H1. simpl. apply IH.
Qed.

Lemma run_app (es1 es2 : list Event) s :
  run (es1 ++ es2) s = (run es1 s ≫= run es2).
Proof.
  revert s. induction es1 as [|e es1 IH]; intros s; simpl; [done|].
  destruct (step e s) as [s1|err]; simpl; [apply IH|done].
Qed.

(** What an event does to the particle fields and to the registry. *)
Lemma step_particles (e : Event) s s' :
  step e s = Ok s' ->
  registry s' = registry s /\
  match e with
  | EFrame f => particles s' = animate_particles f (particles s)
  | _ => particles s' = particles s
  end.
Proof.
  destruct e as [c|f|x y w h]; simpl; intros H.
  - destruct (onClick_ok c s) as (s1 & H1 & Hr & Hp & _).
    rewrite H1 in H. by simplify_eq.
  - destruct (animate_ok f s) as (m' & _ & H1).
    rewrite H1 in H. injection H as <-. done.
  - injection H as <-. done.
Qed.

(** An invariant of the particle fields that frames keep holds along
    every run. *)
Lemma run_particles_inv (P : Particles -> Prop) :
  (forall (f : Frame) p, P p -> P (animate_particles f p)) ->
  forall (es : list Event) s s', P (particles s) -> run es s = Ok s' -> P (particles s').
Proof.
  intros HP es. induction es as [|e es IH]; intros s s' Hs H; simpl in H.
  - injection H as <-. done.
  - destruct (step e s) as [s1|] eqn:E; simpl in H; [|done].
    apply (IH s1); [|done].
    destruct (step_particles e s s1 E) as [_ Hp].
    destruct e; rewrite Hp; auto.
Qed.

(** What the hover pass and the other events that are no click keep:
    the camera target, the two text slots, the pointer. *)
Definition focus_view (u : Interaction) : Tween.animated vec3 * string * string :=
  (controlsTarget u, infoTitle u, infoDescription u).

Lemma hover_cb_focus_view (f : Frame) hit child u :
  focus_view (hover_cb ease_default f hit child u) = focus_view u.
Proof. unfold hover_cb. by destruct (String.eqb _ _). Qed.

Lemma animate_hover_focus_view (f : Frame) r u :
  focus_view (animate_hover f r u) = focus_view u.
Proof.
  unfold DeepSea.animate_hover.
  generalize (map Raycast.object
                (Raycast.intersectObjects dleb (frame_ray f) (interactiveObjects r))).
  intros hit. revert u.
  induction (scene_children r) as [|child l IH]; intros u; simpl; [done|].
  by rewrite IH, hover_cb_focus_view.
Qed.

Definition is_click (e : Event) : bool :=
  match e with
  | EClick _ => true
  | _ => false
  end.

Lemma step_focus_view (e : Event) s s' :
  is_click e = false -> step e s = Ok s' ->
  focus_view (interaction s') = focus_view (interaction s).
Proof.
  destruct e as [c|f|x y w h]; simpl; intros Hc H; [done| |].
  - destruct (animate_ok f s) as (m' & _ & H1).
    rewrite H1 in H. injection H as <-. apply animate_hover_focus_view.
  - injection H as <-. done.
Qed.

Lemma run_focus_view (es : list Event) : forall s s',
  Forall (fun e => is_click e = false) es ->
  run es s = Ok s' ->
  focus_view (interaction s') = focus_view (interaction s).
Proof.
  induction es as [|e es IH]; intros s s' Hes H; simpl in H.
  - injection H as <-. done.
  - destruct (step e s) as [s1|] eqn:E; simpl in H; [|done].
    inversion Hes as [|? ? He Hes']; subst.
    rewrite (IH s1 s' Hes' H).
    by apply step_focus_view with e.
Qed.

(** The shader part of a frame. *)
Lemma animate_shader_handle (f : Frame) m m' :
  animate_shader f m = Ok m' ->
  jellyfishShader m' =
  match jellyfishShader m with
  | Some _ => Some {| uTime := elapsedTime f |}
  | None => None
  end.
Proof.
  unfold DeepSea.animate_shader.
  destruct (jellyfishShader m) eqn:E; simpl; intros H; injection H as <-; simpl;
    by rewrite ?E.
Qed.

Lemma step_keeps_handle (e : Event) s s' :
  step e s = Ok s' ->
  is_Some (jellyfishShader (materials s)) -> is_Some (jellyfishShader (materials s')).
Proof.
  destruct e as [c|f|x y w h]; simpl; intros H Hs.
  - destruct (onClick_ok c s) as (s1 & H1 & _ & _ & Hm & _).
    rewrite H1 in H. injection H as <-. by rewrite Hm.
  - destruct (animate_ok f s) as (m' & Hm & H1).
    rewrite H1 in H. injection H as <-. cbn [materials].
    apply animate_shader_handle in Hm.
    unfold render, onBeforeCompile. destruct (compiles f); simpl; [by eauto|].
    rewrite Hm. destruct Hs as [sh ->]. by eauto.
  - injection H as <-. done.
Qed.

Lemma run_keeps_handle (es : list Event) : forall s s',
  run es s = Ok s' ->
  is_Some (jellyfishShader (materials s)) -> is_Some (jellyfishShader (materials s')).
Proof.
  induction es as [|e es IH]; intros s s' H Hs; simpl in H.
  - injection H as <-. done.
  - destruct (step e s) as [s1|] eqn:E; simpl in H; [|done].
    apply (IH s1 s' H). by apply step_keeps_handle with e s.
Qed.

End Runs.
End DeepSeaRuns.

(** ** Runs of the dream scene *)

Module DreamRuns.
Import Dream.

Section Runs.
Context {D Dynamics : Type}.
Variable dleb : D -> D -> bool.
Variable Math_random : nat -> float.
Variable ease_power3_inOut : Q -> Q.
Variable world_step : float -> float -> nat -> list (@Body Dynamics) -> list (@Body Dynamics).
Variable applyForce : fvec3 -> fvec3 -> @Body Dynamics -> @Body Dynamics.

#[local] Abbreviation State := (@Dream.State Dynamics).
#[local] Abbreviation Click := (@Dream.Click D).
#[local] Abbreviation Event := (@Dream.Event D).
#[local] Abbreviation onClick := (Dream.onClick (Dynamics := Dynamics) dleb ease_power3_inOut).
#[local] Abbreviation animate_physics := (Dream.animate_physics Math_random world_step applyForce).
#[local] Abbreviation animate := (Dream.animate Math_random world_step applyForce).
#[local] Abbreviation step := (Dream.step dleb Math_random ease_power3_inOut world_step applyForce).
#[local] Abbreviation run := (Dream.run dleb Math_random ease_power3_inOut world_step applyForce).

Lemma animate_visuals_ok (f : Frame) v :
  animate_visuals f v =
  Ok {| heartShader :=
          match heartShader v with
          | Some _ => Some {| uTime := elapsedTime f |}
          | None => None
          end;
        particleRotationY := (elapsedTime f * 0.05)%float;
        posLive := posLive v |}.
Proof.
  unfold animate_visuals. destruct (heartShader v) eqn:E; simpl; by rewrite ?E.
Qed.

Lemma dream_animate_ok (f : Frame) (s : State) :
  exists v', animate_visuals f (visuals s) = Ok v' /\
    animate f s =
    Ok {| registry := registry s;
          physics := animate_physics f (physics s);
          visuals := render f v';
          interaction := interaction s |}.
Proof.
  eexists. split; [apply animate_visuals_ok|].
  unfold Dream.animate. by rewrite animate_visuals_ok.
Qed.

(** The outcomes of a click: no hit; a hit whose name is a key of the
    table; a hit whose name is no key but a property of
    [Object.prototype]; a hit whose name is neither. *)
Lemma dream_onClick_cases (c : Click) (s : State) :
  let intersects :=
    Raycast.intersectObjects dleb (click_ray c) (interactiveObjects (registry s)) in
  match intersects !! 0%nat with
  | Some hit =>
      match focusPoints (registry s) !! name (Raycast.object hit) with
      | Some fd =>
          onClick c s =
          Ok {| registry := registry s; physics := physics s; visuals := visuals s;
                interaction :=
                  {| mouse := mouse (interaction s);
                     controlsTarget :=
                       Tween.to Tween.lerp3 (controlsTarget (interaction s))
                         (click_now c) (position fd) 2%Q ease_power3_inOut;
                     bokehFocus :=
                       Tween.to Tween.lerpQ (bokehFocus (interaction s))
                         (click_now c) (click_distance c - 3)%Q 2%Q ease_power3_inOut;
                     infoTitle := title fd;
                     infoDescription := description fd |} |}
      | None =>
          if bool_decide (name (Raycast.object hit) ∈ Object_prototype) then
            onClick c s =
            Ok {| registry := registry s; physics := physics s; visuals := visuals s;
                  interaction :=
                    {| mouse := mouse (interaction s);
                       controlsTarget := controlsTarget (interaction s);
                       bokehFocus :=
                         Tween.to Tween.lerpQ (bokehFocus (interaction s))
                           (click_now c) (click_distance c - 3)%Q 2%Q ease_power3_inOut;
                       infoTitle := "";
                       infoDescription := "" |} |}
          else onClick c s = Ok s
      end
  | None => onClick c s = Ok s
  end.
Proof.
  unfold Dream.onClick, get_property. simpl.
  destruct (Raycast.intersectObjects _ _ _) as [|hit l]; simpl; [done|].
  destruct (focusPoints (registry s) !! name (Raycast.object hit)); [done|].
  by destruct (bool_decide _).
Qed.

Lemma dream_onClick_ok (c : Click) (s : State) :
  exists s', onClick c s = Ok s' /\ registry s' = registry s /\
    physics s' = physics s /\ visuals s' = visuals s.
Proof.
  pose proof (dream_onClick_cases c s) as H. simpl in H.
  destruct (_ !! 0%nat) as [hit|]; [|by eauto 10].
  destruct (focusPoints _ !! _); [|destruct (bool_decide _)]; rewrite H; eauto 10.
Qed.

Lemma dream_step_ok (e : Event) (s : State) : exists s', step e s = Ok s'.
Proof.
  destruct e as [c|f]; simpl.
  - destruct (dream_onClick_ok c s) as (s' & H & _). eauto.
  - destruct (dream_animate_ok f s) as (v' & _ & H). eauto.
Qed.

Lemma dream_run_ok (es : list Event) : forall s : State, exists s', run es s = Ok s'.
Proof.
  induction es as [|e es IH]; intros s; simpl; [by eauto|].
  destruct (dream_step_ok e s) as [s1 H1]. rewrite H1. simpl. apply IH.
Qed.

(** No event writes into the position buffer of the river. *)
Lemma step_posLive (e : Event) (s s' : State) :
  step e s = Ok s' -> posLive (visuals s') = posLive (visuals s).
Proof.
  destruct e as [c|f]; simpl; intros H.
  - destruct (dream_onClick_ok c s) as (s1 & H1 & _ & _ & Hv).
    rewrite H1 in H. injection H as <-. by rewrite Hv.
  - destruct (dream_animate_ok f s) as (v' & Hv & H1).
    rewrite H1 in H. injection H as <-. simpl.
    rewrite animate_visuals_ok in Hv. injection Hv as <-.
    unfold render, onBeforeCompile. by destruct (compiles f).
Qed.

Lemma dream_run_app (es1 es2 : list Event) (s : State) :
  run (es1 ++ es2) s = (run es1 s ≫= run es2).
Proof.
  revert s. induction es1 as [|e es1 IH]; intros s; simpl; [done|].
  destruct (step e s) as [s1|err]; simpl; [apply IH|done].
Qed.

Lemma run_posLive (es : list Event) : forall s s' : State,
  run es s = Ok s' -> posLive (visuals s') = posLive (visuals s).
Proof.
  induction es as [|e es IH]; intros s s' H; simpl in H.
  - injection H as <-. done.
  - destruct (step e s) as [s1|] eqn:E; simpl in H; [|done].
    rewrite (IH _ _ H). by apply step_posLive with e.
Qed.

Definition is_click (e : Event) : bool :=
  match e with
  | EClick _ => true
  | EFrame _ => false
  end.

(** A frame of the dream scene does not touch the camera target, the
    focus of the blur pass or the text slots. *)
Lemma dream_run_interaction (es : list Event) : forall s s' : State,
  Forall (fun e => is_click e = false) es ->
  run es s = Ok s' ->
  interaction s' = interaction s.
Proof.
  induction es as [|e es IH]; intros s s' Hes H; simpl in H.
  - injection H as <-. done.
  - destruct (step e s) as [s1|] eqn:E; simpl in H; [|done].
    inversion Hes as [|? ? He Hes']; subst.
    rewrite (IH s1 s' Hes' H).
    destruct e as [c|f]; [done|]. simpl in E.
    destruct (dream_animate_ok f s) as (v' & _ & H1).
    rewrite H1 in E. injection E as <-. done.
Qed.

Lemma dream_step_keeps_handle (e : Event) (s s' : State) :
  step e s = Ok s' ->
  is_Some (heartShader (visuals s)) -> is_Some (heartShader (visuals s')).
Proof.
  destruct e as [c|f]; simpl; intros H Hs.
  - destruct (dream_onClick_ok c s) as (s1 & H1 & _ & _ & Hv).
    rewrite H1 in H. injection H as <-. by rewrite Hv.
  - destruct (dream_animate_ok f s) as (v' & Hv & H1).
    rewrite H1 in H. injection H as <-. cbn [visuals].
    rewrite animate_visuals_ok in Hv. injection Hv as <-.
    unfold render, onBeforeCompile. destruct (compiles f); simpl; [by eauto|].
    destruct Hs as [sh ->]. by eauto.
Qed.

Lemma dream_run_keeps_handle (es : list Event) : forall s s' : State,
  run es s = Ok s' ->
  is_Some (heartShader (visuals s)) -> is_Some (heartShader (visuals s')).
Proof.
  induction es as [|e es IH]; intros s s' H Hs; simpl in H.
  - injection H as <-. done.
  - destruct (step e s) as [s1|] eqn:E; simpl in H; [|done].
    apply (IH s1 s' H). by apply dream_step_keeps_handle with e s.
Qed.





End Runs.
End DreamRuns.

(** ** Components of the particle buffers that no frame writes *)

Module Untouched.
Import DeepSea DeepSeaParticles.

Section Frames.
Variables Math_sin Math_cos : float -> float.

#[local] Abbreviation animate_particles := (DeepSea.animate_particles Math_sin Math_cos).

(** The components a frame leaves alone, relative to a reference
    store [p0]. *)
Definition kept_from (p0 p : Particles) : Prop :=
  (forall i, (i mod 3 <> 1)%nat -> ventLive p !! i = ventLive p0 !! i) /\
  (forall i, (i mod 3 = 2)%nat -> swarmLive p !! i = swarmLive p0 !! i).

Lemma vent_frame_kept {D} (f : @Frame D) p i :
  (i mod 3 <> 1)%nat -> ventLive (animate_particles f p) !! i = ventLive p !! i.
Proof.
  intros Hi. rewrite animate_particles_vent, list_lookup_imap.
  unfold vent_rule. apply Nat.eqb_neq in Hi. rewrite Hi.
  by destruct (ventLive p !! i).
Qed.

Lemma swarm_frame_kept {D} (f : @Frame D) p i :
  (i mod 3 = 2)%nat -> swarmLive (animate_particles f p) !! i = swarmLive p !! i.
Proof.
  intros Hi. rewrite animate_particles_swarm, list_lookup_imap.
  unfold swarm_rule. rewrite Hi. simpl. by destruct (swarmLive p !! i).
Qed.

Lemma kept_from_frame {D} (f : @Frame D) p0 p :
  kept_from p0 p -> kept_from p0 (animate_particles f p).
Proof.
  intros [Hv Hs]. split; intros i Hi.
  - rewrite vent_frame_kept by done. by apply Hv.
  - rewrite swarm_frame_kept by done. by apply Hs.
Qed.

End Frames.

Lemma for_from_length (body : nat -> list float -> list float) :
  (forall i a, length (body i a) = length a) ->
  forall n k a, length (for_from body k n a) = length a.
Proof.
  intros Hb n. induction n as [|n IH]; intros k a; simpl; [done|].
  by rewrite IH, Hb.
Qed.

Lemma posArray_length Math_random k0 :
  length (Dream.posArray Math_random k0) = (3 * Dream.particleCount)%nat.
Proof.
  unfold Dream.posArray, for_range. rewrite for_from_length.
  - rewrite length_replicate. lia.
  - intros i a. unfold typed_set. apply length_insert.
Qed.

End Untouched.

(** ** The physics bridge of the dream scene *)

Module PhysicsFacts.
Import Dream.

Section Bridge.
Context {Dynamics : Type}.
Variable Math_random : nat -> float.
Variable world_step : float -> float -> nat -> list (@Body Dynamics) -> list (@Body Dynamics).
Variable applyForce : fvec3 -> fvec3 -> @Body Dynamics -> @Body Dynamics.

#[local] Abbreviation Body := (@Dream.Body Dynamics).
#[local] Abbreviation Physics := (@Dream.Physics Dynamics).
#[local] Abbreviation force_cb := (Dream.force_cb Math_random applyForce).
#[local] Abbreviation animate_physics := (Dream.animate_physics Math_random world_step applyForce).





(** The bodies after a frame do not depend on the transforms of the
    panes. *)
Lemma animate_physics_one_way (f : Frame) (p : Physics) (ps : list Transform) :
  bodies (animate_physics f
            {| bodies := bodies p; panes := ps;
               objectsToUpdate := objectsToUpdate p;
               random_calls := random_calls p |}) =
  bodies (animate_physics f p) /\
  random_calls (animate_physics f
            {| bodies := bodies p; panes := ps;
               objectsToUpdate := objectsToUpdate p;
               random_calls := random_calls p |}) =
  random_calls (animate_physics f p).
Proof.
  unfold Dream.animate_physics. simpl.
  destruct (foldl _ _ (objectsToUpdate p)) as [bs2 k]. done.
Qed.


End Bridge.
End PhysicsFacts.

(** ** The swarm buffer as a function of time and base array *)

Module SwarmFacts.
Import DeepSea DeepSeaParticles.

Section Swarm.
Context {D : Type}.
Variable dleb : D -> D -> bool.
Variables Math_sin Math_cos : float -> float.
Variables ease_power3_inOut ease_default : Q -> Q.

#[local] Abbreviation animate_particles := (DeepSea.animate_particles Math_sin Math_cos).
#[local] Abbreviation swarm_rule := (swarm_rule Math_sin Math_cos).
#[local] Abbreviation swarm_of_base := (swarm_of_base Math_sin Math_cos).
#[local] Abbreviation run :=
  (DeepSea.run dleb Math_sin Math_cos ease_power3_inOut ease_default).

(** The live buffer has the size of the base array and agrees with it
    on the z components. *)
Definition swarm_inv (base : list float) (p : Particles) : Prop :=
  swarmPosArray p = base /\
  length (swarmLive p) = length base /\
  forall i, (i mod 3 = 2)%nat -> swarmLive p !! i = base !! i.

Lemma swarm_inv_created vent base t0 d0 :
  swarm_inv base (particles (created_from vent base t0 d0)).
Proof. done. Qed.

Lemma swarm_frame_closed (f : @Frame D) base p :
  swarm_inv base p ->
  swarmLive (animate_particles f p) = swarm_of_base (elapsedTime f) base.
Proof.
  intros (Hb & Hlen & Hz). rewrite animate_particles_swarm, Hb.
  apply list_eq. intros i. unfold DeepSeaParticles.swarm_of_base.
  rewrite !list_lookup_imap.
  destruct (base !! i) as [b|] eqn:Eb.
  - destruct (swarmLive p !! i) as [v|] eqn:Ev.
    + simpl. f_equal. unfold DeepSeaParticles.swarm_rule.
      destruct (i mod 3 =? 0)%nat eqn:E0; [done|].
      destruct (i mod 3 =? 1)%nat eqn:E1; [done|].
      apply Nat.eqb_neq in E0, E1.
      assert (Hi : (i mod 3 = 2)%nat) by (pose proof (Nat.mod_upper_bound i 3); lia).
      rewrite (Hz i Hi), Eb in Ev. by simplify_eq.
    + apply lookup_ge_None in Ev. apply lookup_lt_Some in Eb. lia.
  - apply lookup_ge_None in Eb.
    rewrite (proj2 (lookup_ge_None (swarmLive p) i)) by lia. done.
Qed.

Lemma swarm_of_base_z t base i :
  (i mod 3 = 2)%nat -> swarm_of_base t base !! i = base !! i.
Proof.
  intros Hi. unfold DeepSeaParticles.swarm_of_base, DeepSeaParticles.swarm_rule.
  rewrite list_lookup_imap, Hi. simpl. by destruct (base !! i).
Qed.

Lemma swarm_inv_frame (f : @Frame D) base p :
  swarm_inv base p -> swarm_inv base (animate_particles f p).
Proof.
  intros H. pose proof H as (Hb & Hlen & Hz). split; [|split].
  - by rewrite animate_particles_base.
  - rewrite (swarm_frame_closed f base p H).
    unfold DeepSeaParticles.swarm_of_base. by rewrite length_imap.
  - intros i Hi. rewrite (swarm_frame_closed f base p H).
    by apply swarm_of_base_z.
Qed.

(** After any run that ends with a frame, the swarm buffer is the
    function [swarm_of_base] of that frame's time and of the base
    array. *)
Lemma swarm_after_frame (es : list (@Event D)) (f : @Frame D) vent base t0 d0 :
  exists s', run (es ++ [EFrame f]) (created_from vent base t0 d0) = Ok s' /\
    swarmPosArray (particles s') = base /\
    swarmLive (particles s') = swarm_of_base (elapsedTime f) base.
Proof.
  destruct (DeepSeaRuns.run_ok dleb Math_sin Math_cos ease_power3_inOut ease_default
              es (created_from vent base t0 d0)) as [s1 H1].
  assert (Hinv : swarm_inv base (particles s1)).
  { apply (DeepSeaRuns.run_particles_inv dleb Math_sin Math_cos
             ease_power3_inOut ease_default (swarm_inv base))
      with es (created_from vent base t0 d0); [|apply swarm_inv_created|exact H1].
    intros f' p. apply swarm_inv_frame. }
  destruct (DeepSeaRuns.animate_ok dleb Math_sin Math_cos ease_default f s1)
    as (m' & _ & H2).
  eexists. split.
  - rewrite DeepSeaRuns.run_app, H1. simpl. rewrite H2. reflexivity.
  - cbn [DeepSea.particles]. split.
    + rewrite animate_particles_base. apply Hinv.
    + by apply swarm_frame_closed.
Qed.

Lemma swarm_of_base_x t base k :
  swarm_of_base t base !! (3 * k)%nat =
  (fun b => fround (b + Math_sin (t + b) * 2)%float) <$> base !! (3 * k)%nat.
Proof.
  unfold DeepSeaParticles.swarm_of_base, DeepSeaParticles.swarm_rule.
  rewrite list_lookup_imap.
  assert (E : ((3 * k) mod 3 = 0)%nat)
    by (rewrite Nat.mul_comm; apply Nat.Div0.mod_mul).
  rewrite E. change (0 =? 0)%nat with true. cbv beta iota.
  unfold typed_get. by destruct (base !! (3 * k)%nat).
Qed.

Lemma swarm_of_base_y t base k :
  swarm_of_base t base !! (3 * k + 1)%nat =
  (fun b => fround (b + Math_cos (t + b) * 2)%float) <$> base !! (3 * k + 1)%nat.
Proof.
  unfold DeepSeaParticles.swarm_of_base, DeepSeaParticles.swarm_rule.
  rewrite list_lookup_imap.
  assert (E : ((3 * k + 1) mod 3 = 1)%nat)
    by (rewrite Nat.add_comm, Nat.mul_comm; apply Nat.Div0.mod_add).
  rewrite E. change (1 =? 0)%nat with false. change (1 =? 1)%nat with true.
  cbv beta iota. unfold typed_get. by destruct (base !! (3 * k + 1)%nat).
Qed.

End Swarm.
End SwarmFacts.

(** ** Events that do not interfere *)

Module SeaCompose.
Import DeepSea.

Section Compose.
Context {D : Type}.
Variable dleb : D -> D -> bool.
Variables Math_sin Math_cos : float -> float.
Variables ease_power3_inOut ease_default : Q -> Q.

#[local] Abbreviation Event := (@DeepSea.Event D).
#[local] Abbreviation step :=
  (DeepSea.step dleb Math_sin Math_cos ease_power3_inOut ease_default).
#[local] Abbreviation run :=
  (DeepSea.run dleb Math_sin Math_cos ease_power3_inOut ease_default).

Definition is_frame (e : Event) : bool :=
  match e with
  | EFrame _ => true
  | _ => false
  end.

(** What a frame reads and writes: everything but the camera target,
    the text and the pointer. *)
Definition simulated (s : State)
    : Registry * Particles * Materials * gmap nat (Tween.animated Q) :=
  (registry s, particles s, materials s, emissiveIntensity (interaction s)).

(** What a frame reads of the clock and of the renderer. *)
Definition clock (f : @Frame D) : float * float * bool :=
  (deltaTime f, elapsedTime f, compiles f).

(** The readings of the frames of a run, in order. *)
Definition clocks (es : list Event) : list (float * float * bool) :=
  omap (fun e => match e with EFrame f => Some (clock f) | _ => None end) es.

(** The part of the state that follows the clock, and a frame on it. *)
Definition clocked (s : State) : Particles * Materials := (particles s, materials s).

Definition tick (k : float * float * bool) (x : Particles * Materials)
    : Particles * Materials :=
  let f := {| deltaTime := k.1.1; elapsedTime := k.1.2; frame_now := 0;
              frame_ray := fun _ : Obj => @nil D; compiles := k.2 |} in
  (animate_particles Math_sin Math_cos f x.1,
   render f (match animate_shader Math_sin f x.2 with
             | Ok m => m
             | Throw _ => x.2
             end)).

Lemma step_frame_simulated (f : Frame) (a b a' b' : State) :
  simulated a = simulated b ->
  step (EFrame f) a = Ok a' -> step (EFrame f) b = Ok b' ->
  simulated a' = simulated b'.
Proof.
  unfold simulated. intros [= Er Ep Em Eg] Ha Hb. simpl in Ha, Hb.
  destruct (DeepSeaRuns.animate_ok dleb Math_sin Math_cos ease_default f a)
    as (ma & Hma & Ha').
  destruct (DeepSeaRuns.animate_ok dleb Math_sin Math_cos ease_default f b)
    as (mb & Hmb & Hb').
  rewrite Ha' in Ha. rewrite Hb' in Hb. injection Ha as <-. injection Hb as <-.
  rewrite Em, Hmb in Hma. injection Hma as <-.
  cbn [registry particles materials interaction]. rewrite Er, Ep.
  assert (Eh : emissiveIntensity (animate_hover dleb ease_default f (registry b) (interaction a))
               = emissiveIntensity (animate_hover dleb ease_default f (registry b) (interaction b))).
  { unfold DeepSea.animate_hover.
    generalize (map Raycast.object
                  (Raycast.intersectObjects dleb (frame_ray f)
                     (interactiveObjects (registry b)))).
    intros hit. generalize (interaction a) (interaction b) Eg.
    induction (scene_children (registry b)) as [|child l IH]; intros u v E; simpl; [done|].
    apply IH. rewrite !HoverFacts.hover_cb_emissive. by rewrite E. }
  by rewrite Eh.
Qed.

Lemma step_other_simulated (e : Event) (a a' : State) :
  is_frame e = false -> step e a = Ok a' -> simulated a' = simulated a.
Proof.
  unfold simulated. destruct e as [c|f|x y w h]; simpl; intros He H; [|done|].
  - destruct (DeepSeaRuns.onClick_ok dleb ease_power3_inOut c a)
      as (a1 & H1 & Hr & Hp & Hm & Hg).
    rewrite H1 in H. injection H as <-. by rewrite Hr, Hp, Hm, Hg.
  - by injection H as <-.
Qed.

Lemma run_simulated (es : list Event) : forall a b a' b' : State,
  simulated a = simulated b ->
  run es a = Ok a' -> run (filter (fun e => is_frame e = true) es) b = Ok b' ->
  simulated a' = simulated b'.
Proof.
  induction es as [|e es IH]; intros a b a' b' E Ha Hb.
  - simpl in Ha, Hb. injection Ha as <-. injection Hb as <-. done.
  - simpl in Ha. destruct (step e a) as [a1|] eqn:Ea; simpl in Ha; [|done].
    destruct (is_frame e) eqn:Ef.
    + rewrite filter_cons_True in Hb by done. simpl in Hb.
      destruct (step e b) as [b1|] eqn:Eb; simpl in Hb; [|done].
      apply (IH a1 b1); [|done|done].
      destruct e as [c|f|x y w h]; try done.
      by apply (step_frame_simulated f a b).
    + rewrite filter_cons_False in Hb by (by rewrite Ef).
      apply (IH a1 b); [|done|done].
      rewrite <- E. by apply (step_other_simulated e).
Qed.

Lemma step_clocked (e : Event) (a a' : State) :
  step e a = Ok a' ->
  clocked a' =
  match e with
  | EFrame f => tick (clock f) (clocked a)
  | _ => clocked a
  end.
Proof.
  unfold clocked. destruct e as [c|f|x y w h]; simpl; intros H.
  - destruct (DeepSeaRuns.onClick_ok dleb ease_power3_inOut c a)
      as (a1 & H1 & _ & Hp & Hm & _).
    rewrite H1 in H. injection H as <-. by rewrite Hp, Hm.
  - destruct (DeepSeaRuns.animate_ok dleb Math_sin Math_cos ease_default f a)
      as (m & Hm & H1).
    rewrite H1 in H. injection H as <-. cbn [particles materials].
    unfold tick, clock. cbn [fst snd].
    unfold DeepSea.animate_shader in *. cbn [elapsedTime] in *. by rewrite Hm.
  - by injection H as <-.
Qed.

Lemma run_clocked (es : list Event) : forall a a' : State,
  run es a = Ok a' ->
  clocked a' = foldl (fun x k => tick k x) (clocked a) (clocks es).
Proof.
  induction es as [|e es IH]; intros a a' H; simpl in H.
  - by injection H as <-.
  - destruct (step e a) as [a1|] eqn:E; simpl in H; [|done].
    rewrite (IH a1 a' H), (step_clocked e a a1 E).
    by destruct e.
Qed.

End Compose.
End SeaCompose.

Module DreamCompose.
Import Dream.

Section Compose.
Context {D Dynamics : Type}.
Variable dleb : D -> D -> bool.
Variable Math_random : nat -> float.
Variable ease_power3_inOut : Q -> Q.
Variable world_step : float -> float -> nat -> list (@Body Dynamics) -> list (@Body Dynamics).
Variable applyForce : fvec3 -> fvec3 -> @Body Dynamics -> @Body Dynamics.

#[local] Abbreviation State := (@Dream.State Dynamics).
#[local] Abbreviation Event := (@Dream.Event D).
#[local] Abbreviation step := (Dream.step dleb Math_random ease_power3_inOut world_step applyForce).
#[local] Abbreviation run := (Dream.run dleb Math_random ease_power3_inOut world_step applyForce).

Definition is_frame (e : Event) : bool :=
  match e with
  | EFrame _ => true
  | EClick _ => false
  end.

(** What a frame reads and writes. *)
Definition simulated (s : State) : @Physics Dynamics * Visuals := (physics s, visuals s).

(** The frames of a run, in order. *)
Definition frames (es : list Event) : list Frame :=
  omap (fun e => match e with EFrame f => Some f | EClick _ => None end) es.

Lemma filter_frames (es : list Event) :
  filter (fun e => is_frame e = true) es = EFrame <$> frames es.
Proof.
  induction es as [|e es IH]; [done|]. destruct e as [c|f].
  - rewrite filter_cons_False by done. exact IH.
  - rewrite filter_cons_True by done. unfold frames. simpl. f_equal. exact IH.
Qed.

Lemma dream_step_simulated (e : Event) (a b a' b' : State) :
  simulated a = simulated b ->
  step e a = Ok a' ->
  (if is_frame e then step e b = Ok b' else b' = b) ->
  simulated a' = simulated b'.
Proof.
  unfold simulated. intros [= Ep Ev] Ha Hb. destruct e as [c|f]; simpl in Ha, Hb.
  - destruct (DreamRuns.dream_onClick_ok dleb ease_power3_inOut c a)
      as (a1 & H1 & _ & Hp & Hv).
    rewrite H1 in Ha. injection Ha as <-. subst b'. by rewrite Hp, Hv, Ep, Ev.
  - unfold Dream.animate in Ha, Hb. rewrite Ev in Ha.
    destruct (animate_visuals f (visuals b)) as [v|]; simpl in Ha, Hb; [|done].
    injection Ha as <-. injection Hb as <-. simpl. by rewrite Ep.
Qed.

Lemma dream_run_simulated (es : list Event) : forall a b a' b' : State,
  simulated a = simulated b ->
  run es a = Ok a' -> run (filter (fun e => is_frame e = true) es) b = Ok b' ->
  simulated a' = simulated b'.
Proof.
  induction es as [|e es IH]; intros a b a' b' E Ha Hb.
  - simpl in Ha, Hb. injection Ha as <-. injection Hb as <-. done.
  - simpl in Ha. destruct (step e a) as [a1|] eqn:Ea; simpl in Ha; [|done].
    destruct (is_frame e) eqn:Ef.
    + rewrite filter_cons_True in Hb by done. simpl in Hb.
      destruct (step e b) as [b1|] eqn:Eb; simpl in Hb; [|done].
      apply (IH a1 b1); [|done|done].
      apply (dream_step_simulated e a b); [done|done|]. by rewrite Ef.
    + rewrite filter_cons_False in Hb by (by rewrite Ef).
      apply (IH a1 b); [|done|done].
      apply (dream_step_simulated e a b); [done|done|]. by rewrite Ef.
Qed.

(** The links and the number of random draws along a run. *)
Lemma dream_step_links (e : Event) (s s' : State) :
  step e s = Ok s' ->
  objectsToUpdate (physics s') = objectsToUpdate (physics s) /\
  random_calls (physics s') =
    (random_calls (physics s) +
     (if is_frame e then 3 * length (objectsToUpdate (physics s)) else 0))%nat.
Proof.
  destruct e as [c|f]; simpl; intros H.
  - destruct (DreamRuns.dream_onClick_ok dleb ease_power3_inOut c s)
      as (s1 & H1 & _ & Hp & _).
    rewrite H1 in H. injection H as <-. rewrite Hp. split; [done|lia].
  - destruct (DreamRuns.dream_animate_ok Math_random world_step applyForce f s)
      as (v & _ & H1).
    rewrite H1 in H. injection H as <-. cbn [physics].
    unfold Dream.animate_physics.
    set (bs1 := world_step _ _ _ _).
    assert (Hk : forall (l : list Linked) bs k,
               (foldl (fun st obj => force_cb Math_random applyForce obj st) (bs, k) l).2
               = (k + 3 * length l)%nat).
    { induction l as [|x l IH]; intros bs k; simpl; [lia|].
      rewrite IH. lia. }
    specialize (Hk (objectsToUpdate (physics s)) bs1 (random_calls (physics s))).
    destruct (foldl _ _ _) as [bs2 k2]. simpl in *. done.
Qed.

Lemma dream_run_links (es : list Event) : forall s s' : State,
  run es s = Ok s' ->
  objectsToUpdate (physics s') = objectsToUpdate (physics s) /\
  random_calls (physics s') =
    (random_calls (physics s) +
     3 * length (objectsToUpdate (physics s)) *
       length (filter (fun e => is_frame e = true) es))%nat.
Proof.
  induction es as [|e es IH]; intros s s' H; simpl in H.
  - injection H as <-. split; [done|]. simpl. lia.
  - destruct (step e s) as [s1|] eqn:E; simpl in H; [|done].
    destruct (IH s1 s' H) as [Ho Hk].
    destruct (dream_step_links e s s1 E) as [Ho1 Hk1].
    rewrite Ho, Ho1. split; [done|]. rewrite Hk, Hk1, Ho1.
    destruct (is_frame e) eqn:Ef.
    + rewrite filter_cons_True by done. simpl. lia.
    + rewrite filter_cons_False by (by rewrite Ef). lia.
Qed.

Lemma dream_run_registry (es : list Event) : forall s s' : State,
  run es s = Ok s' -> registry s' = registry s.
Proof.
  induction es as [|e es IH]; intros s s' H; simpl in H.
  - by injection H as <-.
  - destruct (step e s) as [s1|] eqn:E; simpl in H; [|done].
    rewrite (IH s1 s' H). destruct e as [c|f]; simpl in E.
    + destruct (DreamRuns.dream_onClick_ok dleb ease_power3_inOut c s)
        as (s2 & H2 & Hr2 & _).
      rewrite H2 in E. by injection E as <-.
    + destruct (DreamRuns.dream_animate_ok Math_random world_step applyForce f s)
        as (v & _ & H2).
      rewrite H2 in E. by injection E as <-.
Qed.

Lemma sync_cb_length (bs : list (@Body Dynamics)) (obj : Linked) (ps : list Transform) :
  length (sync_cb bs obj ps) = length ps.
Proof. unfold sync_cb. destruct (bs !! body obj); [apply length_insert|done]. Qed.

Lemma dream_step_panes (e : Event) (s s' : State) :
  step e s = Ok s' -> length (panes (physics s')) = length (panes (physics s)).
Proof.
  destruct e as [c|f]; simpl; intros H.
  - destruct (DreamRuns.dream_onClick_ok dleb ease_power3_inOut c s)
      as (s1 & H1 & _ & Hp & _).
    rewrite H1 in H. injection H as <-. by rewrite Hp.
  - destruct (DreamRuns.dream_animate_ok Math_random world_step applyForce f s)
      as (v & _ & H1).
    rewrite H1 in H. injection H as <-. cbn [physics].
    unfold Dream.animate_physics.
    destruct (foldl (fun st obj => force_cb _ _ obj st) _ _) as [bs2 k2]. cbn [panes].
    generalize (panes (physics s)).
    induction (objectsToUpdate (physics s)) as [|x l IH]; intros ps; simpl; [done|].
    by rewrite IH, sync_cb_length.
Qed.

Lemma dream_run_panes (es : list Event) : forall s s' : State,
  run es s = Ok s' -> length (panes (physics s')) = length (panes (physics s)).
Proof.
  induction es as [|e es IH]; intros s s' H; simpl in H.
  - by injection H as <-.
  - destruct (step e s) as [s1|] eqn:E; simpl in H; [|done].
    rewrite (IH s1 s' H). by apply (dream_step_panes e).
Qed.

End Compose.
End DreamCompose.

(** ** The lights and the glow of the deep-sea scene *)

Module MaterialFacts.
Import DeepSea.

Section Materials.
Context {D : Type}.
Variable dleb : D -> D -> bool.
Variables Math_sin Math_cos : float -> float.
Variables ease_power3_inOut ease_default : Q -> Q.

#[local] Abbreviation Event := (@DeepSea.Event D).
#[local] Abbreviation step :=
  (DeepSea.step dleb Math_sin Math_cos ease_power3_inOut ease_default).
#[local] Abbreviation run :=
  (DeepSea.run dleb Math_sin Math_cos ease_power3_inOut ease_default).

(** What the last frame, at elapsed time [t], has left in the
    materials. *)
Definition lit_at (t : float) (m : Materials) : Prop :=
  causticsOffset m = ((t * 0.1)%float, (t * 0.1)%float) /\
  jellyfishY m = (5 + Math_sin (t * 0.5) * 0.5)%float /\
  coreLightY m = (5 + Math_sin (t * 0.5) * 0.5)%float /\
  coreLightIntensity m = ((Math_sin (t * 2.0) * 0.5 + 0.5) * 5 + 5)%float.

Lemma step_frame_lit (f : Frame) (s s' : State) :
  step (EFrame f) s = Ok s' -> lit_at (elapsedTime f) (materials s').
Proof.
  simpl. unfold DeepSea.animate, DeepSea.animate_shader. intros H.
  destruct (jellyfishShader (materials s)); simpl in H; injection H as <-;
    unfold lit_at, render, onBeforeCompile; cbn [materials];
    by destruct (compiles f).
Qed.

Lemma run_last_frame_lit (es es' : list Event) (f : Frame) (s s' : State) :
  Forall (fun e => SeaCompose.is_frame e = false) es' ->
  run (es ++ EFrame f :: es') s = Ok s' ->
  lit_at (elapsedTime f) (materials s').
Proof.
  intros Hes' H. rewrite DeepSeaRuns.run_app in H.
  destruct (run es s) as [s1|] eqn:E1; [|done].
  change (step (EFrame f) s1 ≫= run es' = Ok s') in H.
  destruct (step (EFrame f) s1) as [s2|] eqn:E2; [|done].
  change (run es' s2 = Ok s') in H.
  apply step_frame_lit in E2.
  assert (Hm : materials s' = materials s2); [|by rewrite Hm].
  clear E1 E2. revert s2 H. induction Hes' as [|e l He Hl IH]; intros s2 H; simpl in H.
  - by injection H as <-.
  - destruct (step e s2) as [s3|] eqn:E3; simpl in H; [|done].
    rewrite (IH s3 H).
    pose proof (SeaCompose.step_other_simulated dleb Math_sin Math_cos ease_power3_inOut
                  ease_default e s2 s3 He E3) as Hs.
    unfold SeaCompose.simulated in Hs. by injection Hs.
Qed.

(** The light is at the height of the jellyfish, and the two components
    of the caustics offset are equal. *)
Definition aligned (m : Materials) : Prop :=
  coreLightY m = jellyfishY m /\ (causticsOffset m).1 = (causticsOffset m).2.

Lemma step_aligned (e : Event) (s s' : State) :
  step e s = Ok s' -> aligned (materials s) -> aligned (materials s').
Proof.
  intros H Ha. destruct (SeaCompose.is_frame e) eqn:Ef.
  - destruct e as [c|f|x y w h]; try done.
    apply step_frame_lit in H as (Hc & Hj & Hl & _).
    unfold aligned. by rewrite Hc, Hj, Hl.
  - pose proof (SeaCompose.step_other_simulated dleb Math_sin Math_cos ease_power3_inOut
                  ease_default e s s' Ef H) as Hs.
    unfold SeaCompose.simulated in Hs. injection Hs as _ _ Hm _. by rewrite Hm.
Qed.

Lemma run_aligned (es : list Event) : forall s s' : State,
  run es s = Ok s' -> aligned (materials s) -> aligned (materials s').
Proof.
  induction es as [|e es IH]; intros s s' H Ha; simpl in H.
  - by injection H as <-.
  - destruct (step e s) as [s1|] eqn:E; simpl in H; [|done].
    apply (IH s1 s' H). by apply (step_aligned e s).
Qed.

(** The glow entries a frame leaves alone. *)
Lemma animate_hover_other (f : Frame) (r : Registry) (u : Interaction) (k : nat) :
  (forall c, c ∈ scene_children r -> name c = "photography" -> oid c <> k) ->
  emissiveIntensity (animate_hover dleb ease_default f r u) !! k = emissiveIntensity u !! k.
Proof.
  unfold DeepSea.animate_hover.
  generalize (map Raycast.object
                (Raycast.intersectObjects dleb (frame_ray f) (interactiveObjects r))).
  intros hit. revert u.
  induction (scene_children r) as [|child l IH]; intros u Hk; simpl; [done|].
  rewrite IH by (intros c Hc; apply Hk; by right).
  rewrite HoverFacts.hover_cb_emissive.
  destruct (String.eqb (name child) "photography") eqn:En; [|done].
  apply String.eqb_eq in En. apply lookup_alter_ne. apply Hk; [by left|done].
Qed.

Lemma animate_hover_dom (f : Frame) (r : Registry) (u : Interaction) :
  dom (emissiveIntensity (animate_hover dleb ease_default f r u)) = dom (emissiveIntensity u).
Proof.
  unfold DeepSea.animate_hover.
  generalize (map Raycast.object
                (Raycast.intersectObjects dleb (frame_ray f) (interactiveObjects r))).
  intros hit. revert u.
  induction (scene_children r) as [|child l IH]; intros u; simpl; [done|].
  rewrite IH, HoverFacts.hover_cb_emissive.
  destruct (String.eqb (name child) "photography"); [|done].
  apply dom_alter_L.
Qed.

Lemma step_glow (e : Event) (s s' : State) :
  step e s = Ok s' ->
  registry s' = registry s /\
  dom (emissiveIntensity (interaction s')) = dom (emissiveIntensity (interaction s)) /\
  forall k,
    (forall c, c ∈ scene_children (registry s) -> name c = "photography" -> oid c <> k) ->
    emissiveIntensity (interaction s') !! k = emissiveIntensity (interaction s) !! k.
Proof.
  intros H. destruct (SeaCompose.is_frame e) eqn:Ef.
  - destruct e as [c|f|x y w h]; try done. simpl in H.
    destruct (DeepSeaRuns.animate_ok dleb Math_sin Math_cos ease_default f s)
      as (m' & _ & H1).
    rewrite H1 in H. injection H as <-. cbn [registry interaction].
    split; [done|]. split; [apply animate_hover_dom|].
    intros k Hk. by apply animate_hover_other.
  - pose proof (SeaCompose.step_other_simulated dleb Math_sin Math_cos ease_power3_inOut
                  ease_default e s s' Ef H) as Hs.
    unfold SeaCompose.simulated in Hs. injection Hs as Hr _ _ Hg.
    rewrite Hr, Hg. done.
Qed.

Lemma run_glow (es : list Event) : forall s s' : State,
  run es s = Ok s' ->
  registry s' = registry s /\
  dom (emissiveIntensity (interaction s')) = dom (emissiveIntensity (interaction s)) /\
  forall k,
    (forall c, c ∈ scene_children (registry s) -> name c = "photography" -> oid c <> k) ->
    emissiveIntensity (interaction s') !! k = emissiveIntensity (interaction s) !! k.
Proof.
  induction es as [|e es IH]; intros s s' H; simpl in H.
  - by injection H as <-.
  - destruct (step e s) as [s1|] eqn:E; simpl in H; [|done].
    destruct (IH s1 s' H) as (Hr & Hd & Hk).
    destruct (step_glow e s s1 E) as (Hr1 & Hd1 & Hk1).
    rewrite Hr, Hr1, Hd, Hd1. split; [done|]. split; [done|].
    intros k Hc. rewrite Hk by (by rewrite Hr1). by apply Hk1.
Qed.

End Materials.
End MaterialFacts.

(** ** The registries of the two scenes *)

Module RegistryFacts.

Lemma sea_focus_total (o : Obj) :
  o ∈ DeepSea.world_interactiveObjects ->
  is_Some (DeepSea.world_focusPoints !! name o).
Proof.
  unfold DeepSea.world_interactiveObjects. rewrite !elem_of_app, list_elem_of_fmap.
  intros [Ho|[(i & -> & _)|Ho]].
  - apply list_elem_of_singleton in Ho as ->. by eexists.
  - by eexists.
  - apply elem_of_cons in Ho as [->|Ho]; [by eexists|].
    apply list_elem_of_singleton in Ho as ->. by eexists.
Qed.

Lemma dream_focus_total (o : Obj) :
  o ∈ Dream.world_interactiveObjects ->
  is_Some (Dream.world_focusPoints !! name o).
Proof.
  unfold Dream.world_interactiveObjects. rewrite !elem_of_app, !list_elem_of_fmap.
  intros [Ho|[(i & -> & _)|[(i & -> & _)|Ho]]].
  - apply list_elem_of_singleton in Ho as ->. by eexists.
  - by eexists.
  - by eexists.
  - apply list_elem_of_singleton in Ho as ->. by eexists.
Qed.

Lemma first_hit_registered {D} (dleb : D -> D -> bool) (ray : Obj -> list D)
    (objs : list Obj) (hit : Raycast.Intersection) :
  Raycast.intersectObjects dleb ray objs !! 0%nat = Some hit ->
  Raycast.object hit ∈ objs.
Proof.
  intros H.
  assert (Hin : Raycast.object hit ∈ map Raycast.object (Raycast.intersectObjects dleb ray objs)).
  { apply list_elem_of_fmap. exists hit. split; [done|]. by eapply list_elem_of_lookup_2. }
  by apply RaycastFacts.hit_objects in Hin as [Hin _].
Qed.

End RegistryFacts.

(** ** Facts on strings *)

Module JSStringFacts.
Import Stdlib.Strings.Ascii.
Import JSString.

Lemma append_cons c s t : String c s +:+ t = String c (s +:+ t).
Proof. done. Qed.

Lemma append_nil_l s : "" +:+ s = s.
Proof. done. Qed.

Lemma append_nil_r s : s +:+ "" = s.
Proof. induction s as [|c s IH]; [done|]. by rewrite append_cons, IH. Qed.

Lemma append_assoc s t u : (s +:+ t) +:+ u = s +:+ t +:+ u.
Proof. induction s as [|c s IH]; [done|]. by rewrite !append_cons, IH. Qed.

Lemma length_append s t : String.length (s +:+ t) = (String.length s + String.length t)%nat.
Proof. induction s as [|c s IH]; [done|]. rewrite append_cons. simpl. by rewrite IH. Qed.

(** Two ways to cut one string at the same place are the same. *)
Lemma append_eq_length b b' x x' :
  b +:+ x = b' +:+ x' -> String.length b = String.length b' -> b = b' /\ x = x'.
Proof.
  revert b'. induction b as [|c b IH]; intros [|c' b'] H Hl; try done.
  rewrite !append_cons in H. injection H as -> H. simpl in Hl.
  destruct (IH b' H) as [-> ->]; [lia|done].
Qed.

Lemma startsWith_append s p : startsWith (p +:+ s) p = true.
Proof.
  induction p as [|c p IH]; [by destruct s|].
  rewrite append_cons. simpl. by rewrite Ascii.eqb_refl.
Qed.

Lemma startsWith_inv s p :
  startsWith s p = true -> s = p +:+ substring_from (String.length p) s.
Proof.
  revert s. induction p as [|c p IH]; intros s H; [done|].
  destruct s as [|d s]; [done|]. simpl in H.
  destruct (Ascii.eqb c d) eqn:E; [|done]. apply Ascii.eqb_eq in E as ->.
  rewrite append_cons. simpl. f_equal. by apply IH.
Qed.

Lemma split_first_Some s pat before after :
  split_first s pat = Some (before, after) -> s = before +:+ pat +:+ after.
Proof.
  revert before. induction s as [|c s IH]; intros before H; cbn [split_first] in H.
  - destruct pat; [|done]. simpl in H. by injection H as <- <-.
  - destruct (startsWith (String c s) pat) eqn:E.
    + injection H as <- <-. by apply startsWith_inv.
    + destruct (split_first s pat) as [[b a]|]; [|done].
      injection H as <- <-. rewrite append_cons. f_equal. by apply IH.
Qed.

(** The occurrence [split_first] finds is the first one. *)
Lemma split_first_least s pat before after :
  split_first s pat = Some (before, after) ->
  forall b a, s = b +:+ pat +:+ a -> (String.length before <= String.length b)%nat.
Proof.
  revert before. induction s as [|c s IH]; intros before H b a Hs; cbn [split_first] in H.
  - destruct pat; [|done]. simpl in H. injection H as <- <-. simpl. lia.
  - destruct (startsWith (String c s) pat) eqn:E.
    + injection H as <- <-. simpl. lia.
    + destruct (split_first s pat) as [[b0 a0]|] eqn:E0; [|done].
      injection H as <- <-.
      destruct b as [|d b].
      * rewrite append_nil_l in Hs. rewrite Hs, startsWith_append in E. done.
      * rewrite append_cons in Hs. injection Hs as -> Hs. simpl.
        specialize (IH b0 eq_refl b a Hs). lia.
Qed.

Lemma split_first_None s pat :
  split_first s pat = None -> forall b a, s <> b +:+ pat +:+ a.
Proof.
  induction s as [|c s IH]; intros H b a Hs; cbn [split_first] in H.
  - destruct pat; [done|]. destruct b; done.
  - destruct (startsWith (String c s) pat) eqn:E; [done|].
    destruct (split_first s pat) as [[b0 a0]|] eqn:E0; [done|].
    destruct b as [|d b].
    + rewrite append_nil_l in Hs. rewrite Hs, startsWith_append in E. done.
    + rewrite append_cons in Hs. injection Hs as -> Hs. by apply (IH eq_refl b a).
Qed.

(** [split_first] finds the occurrence that has no occurrence before
    it. *)
Lemma split_first_at s pat b a :
  s = b +:+ pat +:+ a ->
  (forall b' a', s = b' +:+ pat +:+ a' -> (String.length b <= String.length b')%nat) ->
  split_first s pat = Some (b, a).
Proof.
  intros Hs Hleast.
  destruct (split_first s pat) as [[b0 a0]|] eqn:E.
  - pose proof (split_first_Some _ _ _ _ E) as Hs0.
    pose proof (split_first_least _ _ _ _ E b a Hs) as Hle.
    pose proof (Hleast b0 a0 Hs0) as Hge.
    rewrite Hs in Hs0.
    destruct (append_eq_length b b0 _ _ Hs0) as [-> Hr]; [lia|].
    apply (inj (String.app pat)) in Hr. by subst.
  - exfalso. by apply (split_first_None _ _ E b a).
Qed.

Lemma includes_intro s w b a : s = b +:+ w +:+ a -> includes s w = true.
Proof.
  intros Hs. unfold includes.
  destruct (split_first s w) as [[b0 a0]|] eqn:E; [done|].
  exfalso. by apply (split_first_None _ _ E b a).
Qed.

Lemma includes_elim s w :
  includes s w = true -> exists b a, s = b +:+ w +:+ a.
Proof.
  unfold includes. destruct (split_first s w) as [[b a]|] eqn:E; [|done].
  intros _. exists b, a. by apply split_first_Some.
Qed.

(** A template without a dollar sign stands for itself. *)
Fixpoint has_char (c : ascii) (s : string) : bool :=
  match s with
  | EmptyString => false
  | String d s' => if Ascii.eqb c d then true else has_char c s'
  end.

Lemma GetSubstitution_plain matched before after template :
  has_char "$"%char template = false ->
  GetSubstitution matched before after template = template.
Proof.
  induction template as [|c t IH]; [done|]. intros H.
  cbn [has_char] in H. cbn [GetSubstitution].
  destruct (Ascii.eqb "$"%char c) eqn:E; [done|].
  rewrite Ascii.eqb_sym, E. by rewrite IH.
Qed.

(** An occurrence of [w] cannot lie across a character that [w] does not
    have. *)
Lemma startsWith_across c w x y :
  has_char c w = false -> startsWith (x +:+ String c y) w = startsWith x w.
Proof.
  revert x. induction w as [|a w IH]; intros x H; [by destruct x|].
  simpl in H. destruct (Ascii.eqb c a) eqn:Eca; [done|].
  destruct x as [|d x].
  - rewrite append_nil_l. simpl. by rewrite Ascii.eqb_sym, Eca.
  - rewrite append_cons. simpl. destruct (Ascii.eqb a d); [|done]. by apply IH.
Qed.

Lemma includes_cons s w c :
  includes (String c s) w = startsWith (String c s) w || includes s w.
Proof.
  unfold includes. cbn [split_first].
  destruct (startsWith (String c s) w); [done|].
  by destruct (split_first s w) as [[b a]|].
Qed.

Lemma includes_across c w x y :
  w <> EmptyString -> has_char c w = false ->
  includes (x +:+ String c y) w = includes x w || includes y w.
Proof.
  intros Hw Hc. induction x as [|d x IH].
  - rewrite append_nil_l, includes_cons.
    destruct w as [|a w]; [done|].
    simpl in Hc. simpl. destruct (Ascii.eqb c a) eqn:Eca; [done|].
    by rewrite Ascii.eqb_sym, Eca.
  - rewrite append_cons, !includes_cons, IH.
    rewrite <- append_cons, (startsWith_across c w (String d x) y Hc).
    by rewrite orb_assoc.
Qed.

Lemma includes_append_l x y w : includes x w = true -> includes (x +:+ y) w = true.
Proof.
  intros H. apply includes_elim in H as (b & a & ->).
  apply (includes_intro _ _ b (a +:+ y)). by rewrite !append_assoc.
Qed.

Lemma includes_append_r x y w : includes y w = true -> includes (x +:+ y) w = true.
Proof.
  intros H. apply includes_elim in H as (b & a & ->).
  apply (includes_intro _ _ (x +:+ b) a). by rewrite !append_assoc.
Qed.

(** The first occurrence of a pattern does not begin inside a prefix
    that lacks the pattern's first character. *)
Lemma split_first_after c pat d s :
  has_char c d = false ->
  split_first (d +:+ s) (String c pat) =
  match split_first s (String c pat) with
  | Some (before, after) => Some (d +:+ before, after)
  | None => None
  end.
Proof.
  induction d as [|a d IH]; intros H.
  - rewrite append_nil_l. by destruct (split_first s (String c pat)) as [[b0 a0]|].
  - simpl in H. destruct (Ascii.eqb c a) eqn:Eca; [done|].
    rewrite append_cons. cbn [split_first startsWith]. rewrite Eca.
    rewrite IH by done.
    by destruct (split_first s (String c pat)) as [[b0 a0]|].
Qed.

End JSStringFacts.

Module ShaderFacts.
Import Stdlib.Strings.Ascii.
Import JSString JSStringFacts Program.

Lemma fresnel_pulse_plain : has_char "$"%char JellyfishShader.fresnel_pulse = false.
Proof. by vm_compute. Qed.

Lemma displacement_plain : has_char "$"%char HeartShader.displacement = false.
Proof. by vm_compute. Qed.

(** The inserted text without its first character (a line feed) and its
    last (a space). *)
Definition inner (s : string) : string :=
  String.substring 1 (String.length s - 2) s.

Lemma fresnel_pulse_inner :
  JellyfishShader.fresnel_pulse =
  String "010"%char (inner JellyfishShader.fresnel_pulse +:+ String " "%char "").
Proof. by vm_compute. Qed.

Lemma replace_found s pat template b a :
  has_char "$"%char template = false ->
  split_first s pat = Some (b, a) ->
  replace s pat template = b +:+ template +:+ a.
Proof. intros Hp E. unfold replace. by rewrite E, GetSubstitution_plain. Qed.

Lemma replace_absent s pat template :
  includes s pat = false -> replace s pat template = s.
Proof.
  unfold includes, replace. by destruct (split_first s pat) as [[b a]|].
Qed.

End ShaderFacts.

Module PageFacts.
Import Page.

Lemma classList_add_elem token el : token ∈ classList (classList_add token el).
Proof.
  unfold classList_add. simpl. case_bool_decide; [done|].
  apply elem_of_app. right. by apply list_elem_of_singleton.
Qed.

Lemma classList_add_keeps token el c :
  c ∈ classList el -> c ∈ classList (classList_add token el).
Proof.
  unfold classList_add. simpl. case_bool_decide; [done|].
  intros Hc. apply elem_of_app. by left.
Qed.

Lemma classList_add_NoDup token el :
  NoDup (classList el) -> NoDup (classList (classList_add token el)).
Proof.
  unfold classList_add. simpl. case_bool_decide; [done|].
  intros H0. apply NoDup_app. split; [done|]. split.
  - intros x Hx Hx'. apply list_elem_of_singleton in Hx' as ->. done.
  - apply NoDup_singleton.
Qed.

(** One pending timeout. *)
Lemma run_timeouts_one now t d :
  timeouts d = [t] ->
  run_timeouts now d =
  if Qle_bool t now
  then (hide_loader {| loader := loader d; mainContent := mainContent d; timeouts := [] |}).1
  else d.
Proof.
  intros E. unfold run_timeouts. rewrite E.
  destruct (Qle_bool t now) eqn:Ht.
  - rewrite (filter_cons_True (fun t => Qle_bool t now = true)) by exact Ht.
    rewrite (filter_cons_False (fun t => Qle_bool t now = false))
      by (cbv beta; by rewrite Ht).
    by rewrite !filter_nil.
  - rewrite (filter_cons_False (fun t => Qle_bool t now = true))
      by (cbv beta; by rewrite Ht).
    rewrite (filter_cons_True (fun t => Qle_bool t now = false)) by exact Ht.
    rewrite !filter_nil. simpl. destruct d. simpl in *. by subst.
Qed.

Lemma run_timeouts_none now d : timeouts d = [] -> run_timeouts now d = d.
Proof.
  intros E. unfold run_timeouts. rewrite E, !filter_nil. simpl.
  destruct d. simpl in *. by subst.
Qed.

End PageFacts.

(** ** Rounding between two bounds *)

Module RoundFacts.
Import Num NumFacts.
Local Open Scope Z_scope.

Lemma Zdigits2_nonneg m : 0 <= Zdigits2 m.
Proof. destruct m; simpl; lia. Qed.

Lemma Zdigits2_le_pow m k : 0 <= m -> 0 <= k -> m < 2 ^ k -> Zdigits2 m <= k.
Proof.
  intros Hm Hk H. destruct m as [|p|p]; [simpl; lia| |lia].
  by apply digits_le_pow.
Qed.

Section Format.
Variables prec emax : Z.
Hypothesis prec_pos : 0 < prec.

#[local] Abbreviation fexp := (SpecFloat.fexp prec emax).
#[local] Abbreviation emin := (SpecFloat.emin prec emax).

(** Rounding [m * 2^e] gives [m2 * 2^(e + p)], where [2^(e + p)] is the
    step of the grid the value is rounded to and [m2] is one of the two
    neighbours of [m / 2^p] on it: no multiple of the step lies strictly
    between the value and its rounding. *)
Lemma binary_round_aux_value s m e :
  let p := Z.max 0 (fexp (digits m + e) - e) in
  exists m2 m3 e3,
    0 <= m3 /\ e3 = Z.max (e + p) (fexp (Zdigits2 m2 + (e + p))) /\
    m3 * 2 ^ (e3 - (e + p)) = m2 /\
    (forall K', K' * 2 ^ p <= Zpos m -> K' <= m2) /\
    (forall K', Zpos m <= K' * 2 ^ p -> m2 <= K') /\
    binary_round_aux prec emax s (Zpos m) e loc_Exact = of_rounded prec emax s m3 e3.
Proof using prec_pos.
  intros p.
  assert (Hp : 0 <= p) by lia.
  pose proof (pow2_pos p Hp) as H2p.
  pose proof (digits_bounds m) as [Hdlo Hdhi]. pose proof (digits_pos m) as Hd.
  unfold binary_round_aux, shr_fexp. cbn [shr_record_of_loc Zdigits2].
  fold (digits m).
  destruct (shr_spec (Zpos m) e (fexp (digits m + e) - e)) as (mrs1 & E1 & Hinv1);
    [lia|].
  fold p in E1, Hinv1. rewrite E1.
  destruct Hinv1 as (Hm1 & [Hlo1 Hhi1] & Hflag1).
  set (m2 := round_nearest_even (shr_m mrs1) (loc_of_shr_record mrs1)).
  assert (Hm2 : (m2 = shr_m mrs1 \/ (m2 = shr_m mrs1 + 1 /\ shr_m mrs1 * 2 ^ p < Zpos m))).
  { destruct (round_nearest_even_spec mrs1) as [E|[E Hf]]; fold m2 in E; auto. }
  set (G := e + p).
  set (q := Z.max 0 (fexp (Zdigits2 m2 + G) - G)).
  destruct (shr_spec m2 G (fexp (Zdigits2 m2 + G) - G))
    as (mrs3 & E3 & Hinv3); [lia|].
  fold q in E3, Hinv3. rewrite E3.
  destruct Hinv3 as (Hm3 & [Hlo3 Hhi3] & _).
  assert (Hq : 0 <= q) by lia.
  pose proof (pow2_pos q Hq) as H2q.
  (* the second shift is exact *)
  assert (Hexact : shr_m mrs3 * 2 ^ q = m2).
  { destruct (Z.eq_dec p 0) as [Hp0|Hp0].
    - (* nothing was shifted out *)
      assert (E2p : 2 ^ p = 1) by (rewrite Hp0; done).
      assert (Em : m2 = Zpos m) by lia.
      assert (Hfe : fexp (digits m + e) - e <= 0) by lia.
      assert (Eq : q = 0).
      { unfold q, G. rewrite Em, Hp0. cbn [Zdigits2]. fold (digits m).
        replace (digits m + (e + 0)) with (digits m + e) by lia. lia. }
      assert (E2q : 2 ^ q = 1) by (rewrite Eq; done).
      lia.
    - assert (EG : G = fexp (digits m + e)) by lia.
      set (D := Z.max 0 (digits m - p)).
      assert (HD : 0 <= D) by lia.
      pose proof (pow2_pos D HD) as H2D.
      assert (Hm1D : shr_m mrs1 < 2 ^ D).
      { destruct (Z_le_gt_dec (digits m) p) as [Hle|Hgt].
        - replace D with 0 by lia. simpl.
          assert (2 ^ digits m <= 2 ^ p) by (apply Z.pow_le_mono_r; lia).
          nia.
        - replace D with (digits m - p) by lia.
          assert (E2 : 2 ^ digits m = 2 ^ (digits m - p) * 2 ^ p).
          { rewrite <- pow2_split by lia. f_equal. lia. }
          nia. }
      assert (HfD : fexp (D + G) <= G).
      { rewrite EG at 2. unfold D. rewrite EG.
        unfold SpecFloat.fexp, SpecFloat.emin in *. lia. }
      assert (HfD1 : fexp (D + 1 + G) <= G + 1).
      { revert HfD. unfold SpecFloat.fexp, SpecFloat.emin. lia. }
      destruct (Z_lt_le_dec m2 (2 ^ D)) as [Hlt|Hge].
      + assert (Hdig : Zdigits2 m2 <= D) by (apply Zdigits2_le_pow; lia).
        assert (Eq : q = 0).
        { subst q. pose proof (fexp_mono prec emax (Zdigits2 m2 + G) (D + G)). lia. }
        assert (E2q : 2 ^ q = 1) by (rewrite Eq; done). lia.
      + assert (Em2 : m2 = 2 ^ D) by lia.
        destruct (Z.eq_dec D 0) as [HD0|HD0].
        * assert (HG : G = emin).
          { rewrite EG. unfold D in HD0. unfold SpecFloat.fexp, SpecFloat.emin in *. lia. }
          assert (Eq : q = 0).
          { subst q. rewrite Em2, HD0. simpl. rewrite HG.
            unfold SpecFloat.fexp, SpecFloat.emin. lia. }
          assert (E2q : 2 ^ q = 1) by (rewrite Eq; done). lia.
        * assert (Hdig : Zdigits2 m2 <= D + 1).
          { apply Zdigits2_le_pow; [lia|lia|].
            rewrite Em2, (pow2_split D 1) by lia. change (2 ^ 1) with 2. lia. }
          assert (Hq1 : q <= 1).
          { subst q. pose proof (fexp_mono prec emax (Zdigits2 m2 + G) (D + 1 + G)). lia. }
          destruct (Z.eq_dec q 0) as [Eq|Eq].
          -- assert (E2q : 2 ^ q = 1) by (rewrite Eq; done). lia.
          -- assert (Eq1 : q = 1) by lia. rewrite Eq1 in *. change (2 ^ 1) with 2 in *.
             assert (E2 : 2 ^ D = 2 * 2 ^ (D - 1)).
             { replace D with (1 + (D - 1)) at 1 by lia.
               rewrite pow2_split by lia. done. }
             lia. }
  exists m2, (shr_m mrs3), (G + q).
  split; [done|]. split; [fold G; lia|]. split; [|split; [|split]].
  - fold G. replace (G + q - G) with q by lia. done.
  - intros K' HK. destruct Hm2 as [->|[-> _]]; nia.
  - intros K' HK. destruct Hm2 as [->|[-> Hf]]; nia.
  - unfold of_rounded. by destruct (shr_m mrs3).
Qed.

(** With a mantissa that has at least the digits of the format (what
    the alignment in [binary_round] provides, and what a product of two
    floats has),
    rounding keeps the value between any two bounds the format's grid
    contains. *)
Lemma binary_round_aux_bounds s m e :
  e <= fexp (digits m + e) ->
  exists m3 e3,
    (0 <= m3 <= 2 ^ prec) /\ (emin <= e3) /\
    (binary_round_aux prec emax s (Zpos m) e loc_Exact = of_rounded prec emax s m3 e3) /\
    (forall b eb, fexp (digits b + eb) <= eb ->
       dle (Zpos b) eb (Zpos m) e -> dle (Zpos b) eb m3 e3) /\
    (forall b eb, fexp (digits b + eb) <= eb ->
       dle (Zpos m) e (Zpos b) eb -> dle m3 e3 (Zpos b) eb /\ e3 <= eb).
Proof using prec_pos.
  intros Hnorm.
  destruct (binary_round_aux_value s m e) as (m2 & m3 & e3 & Hm3 & Ee3 & E2 & Hlow & Hupp & Hres).
  set (G := fexp (digits m + e)) in *.
  set (p := Z.max 0 (G - e)) in *.
  assert (Hp : p = G - e) by lia.
  assert (EG : e + p = G) by lia.
  rewrite EG in *. clear EG.
  assert (He3 : G <= e3) by lia.
  pose proof (digits_bounds m) as [Hdlo Hdhi]. pose proof (digits_pos m) as Hd.
  pose proof (pow2_pos p ltac:(lia)) as H2p.
  pose proof (pow2_pos (e3 - G) ltac:(lia)) as H2q.
  assert (HGmin : emin <= G) by apply fexp_ge_emin.
  assert (HGprec : digits m + e - prec <= G).
  { unfold G, SpecFloat.fexp. lia. }
  assert (Hm2 : 0 <= m2) by (apply Hlow; lia).
  exists m3, e3. split; [|split; [lia|split; [done|split]]].
  - split; [done|].
    assert (Hm2le : m2 <= 2 ^ prec).
    { destruct (Z_le_gt_dec (digits m) p) as [Hle|Hgt].
      - assert (m2 <= 1).
        { apply Hupp. assert (2 ^ digits m <= 2 ^ p) by (apply Z.pow_le_mono_r; lia). lia. }
        pose proof (pow2_pos prec ltac:(lia)). lia.
      - assert (m2 <= 2 ^ (digits m - p)).
        { apply Hupp. rewrite <- pow2_split by lia.
          replace (digits m - p + p) with (digits m) by lia. lia. }
        assert (2 ^ (digits m - p) <= 2 ^ prec) by (apply Z.pow_le_mono_r; lia).
        lia. }
    nia.
  - (* bounds from below *)
    intros b eb Hb Hle.
    pose proof (digits_bounds b) as [Hblo Hbhi]. pose proof (digits_pos b) as Hdb.
    destruct (Z_le_gt_dec G eb) as [Hgrid|Hoff].
    + apply (dle_of_base G); [lia|lia|].
      rewrite E2.
      apply Hlow. apply (dle_to_base e) in Hle; [|lia|lia].
      rewrite Z.sub_diag, Z.mul_1_r in Hle.
      rewrite <- Z.mul_assoc, <- pow2_split by lia.
      by replace (eb - G + p) with (eb - e) by lia.
    + assert (Hdig : digits b + eb < digits m + e).
      { destruct (Z_lt_le_dec (digits b + eb) (digits m + e)) as [|Hge]; [done|].
        pose proof (fexp_mono prec emax _ _ Hge). fold G in H. lia. }
      assert (Hemin : emin <= eb).
      { pose proof (fexp_ge_emin prec emax (digits b + eb)). lia. }
      assert (HGle : G <= digits m + e - 1).
      { unfold G, SpecFloat.fexp. fold emin. lia. }
      assert (Hm2lo : 2 ^ (digits m - 1 - p) <= m2).
      { apply Hlow. rewrite <- pow2_split by lia.
        by replace (digits m - 1 - p + p) with (digits m - 1) by lia. }
      apply (dle_of_base eb); [lia|lia|].
      rewrite Z.sub_diag, Z.mul_1_r.
      replace (e3 - eb) with ((e3 - G) + (G - eb)) by lia.
      rewrite pow2_split, Z.mul_assoc, E2 by lia.
      pose proof (pow2_pos (G - eb) ltac:(lia)) as H2g.
      assert (H1 : 2 ^ digits b <= 2 ^ (digits m - 1 - p + (G - eb))).
      { apply Z.pow_le_mono_r; lia. }
      rewrite pow2_split in H1 by lia. nia.
  - (* bounds from above *)
    intros b eb Hb Hle.
    pose proof (dle_digits _ _ _ _ Hle) as Hdig.
    assert (Hgrid : G <= eb).
    { pose proof (fexp_mono prec emax _ _ Hdig). fold G in H. lia. }
    assert (Hm2K : m2 <= Zpos b * 2 ^ (eb - G)).
    { apply Hupp. apply (dle_to_base e) in Hle; [|lia|lia].
      rewrite Z.sub_diag, Z.mul_1_r in Hle.
      rewrite <- Z.mul_assoc, <- pow2_split by lia.
      by replace (eb - G + p) with (eb - e) by lia. }
    assert (Hdle : dle m3 e3 (Zpos b) eb).
    { apply (dle_of_base G); [lia|lia|]. by rewrite E2. }
    split; [done|].
    assert (Hdig2 : Zdigits2 m2 + G <= digits b + eb).
    { destruct m2 as [|m2|m2]; [|clear Ee3|lia].
      - pose proof (digits_pos b). simpl. lia.
      - cbn [Zdigits2]. fold (digits m2). apply dle_digits.
        apply (dle_of_base G); [lia|lia|]. by rewrite Z.sub_diag, Z.mul_1_r. }
    pose proof (fexp_mono prec emax _ _ Hdig2). lia.
Qed.

Lemma dle_shifted_r b eb m e e' :
  e' <= e -> dle b eb (Zpos (shifted m e e')) e' <-> dle b eb (Zpos m) e.
Proof.
  intros H. set (k := Z.min eb e').
  rewrite (dle_base k), (dle_base k b eb (Zpos m) e) by lia.
  rewrite shifted_value, <- Z.mul_assoc, <- pow2_split by lia.
  by replace (e - e' + (e' - k)) with (e - k) by lia.
Qed.

Lemma dle_shifted_l b eb m e e' :
  e' <= e -> dle (Zpos (shifted m e e')) e' b eb <-> dle (Zpos m) e b eb.
Proof.
  intros H. set (k := Z.min eb e').
  rewrite (dle_base k), (dle_base k (Zpos m) e b eb) by lia.
  rewrite shifted_value, <- Z.mul_assoc, <- pow2_split by lia.
  by replace (e - e' + (e' - k)) with (e - k) by lia.
Qed.

(** The same for [binary_round], which first gives the mantissa the
    digits of the format. *)
Lemma binary_round_bounds s m e :
  exists m3 e3,
    (0 <= m3 <= 2 ^ prec) /\ (emin <= e3) /\
    (binary_round prec emax s m e = of_rounded prec emax s m3 e3) /\
    (forall b eb, fexp (digits b + eb) <= eb ->
       dle (Zpos b) eb (Zpos m) e -> dle (Zpos b) eb m3 e3) /\
    (forall b eb, fexp (digits b + eb) <= eb ->
       dle (Zpos m) e (Zpos b) eb -> dle m3 e3 (Zpos b) eb /\ e3 <= eb).
Proof using prec_pos.
  set (e' := fexp (digits m + e)).
  destruct (Z_lt_le_dec e' e) as [Hlt|Hge].
  - assert (Hsh : binary_round prec emax s m e =
                  binary_round_aux prec emax s (Zpos (shifted m e e')) e' loc_Exact).
    { unfold binary_round, shl_align. fold (digits m). fold e'.
      unfold shifted. destruct (e' - e) as [|d|d] eqn:E; try lia. done. }
    destruct (binary_round_aux_bounds s (shifted m e e') e')
      as (m3 & e3 & Hm3 & He3 & Hres & Hlow & Hupp).
    { rewrite shifted_digits by lia.
      replace (digits m + (e - e') + e') with (digits m + e) by lia. fold e'. lia. }
    exists m3, e3. rewrite Hsh. split; [done|]. split; [done|]. split; [done|]. split.
    + intros b eb Hb Hle. apply Hlow; [done|]. apply dle_shifted_r; [lia|done].
    + intros b eb Hb Hle. apply Hupp; [done|]. apply dle_shifted_l; [lia|done].
  - assert (Hsh : binary_round prec emax s m e =
                  binary_round_aux prec emax s (Zpos m) e loc_Exact).
    { unfold binary_round, shl_align. fold (digits m). fold e'.
      destruct (e' - e) as [|d|d] eqn:E; try lia; done. }
    rewrite Hsh. by apply binary_round_aux_bounds.
Qed.

(** *** Bounds counted in units of [2^-k]

    [representable k u]: [u] units of [2^-k] is zero or a value the
    format holds (plus or minus [b * 2^eb] with [b] of no more digits
    than the format has, and [eb] an exponent of the format). *)
Definition representable (k u : Z) : Prop :=
  u = 0 \/
  exists b eb, Z.abs u = Zpos b * 2 ^ (eb + k) /\ - k <= eb /\
               fexp (digits b + eb) <= eb /\ eb <= emax - prec.

Lemma representable_opp k u : representable k u -> representable k (- u).
Proof.
  intros [->|(b & eb & H)]; [by left|]. right. exists b, eb. by rewrite Z.abs_opp.
Qed.

Lemma dle_scaled k m e b eb :
  - k <= e -> - k <= eb -> dle m e b eb <-> m * 2 ^ (e + k) <= b * 2 ^ (eb + k).
Proof.
  intros H1 H2. rewrite (dle_base (- k)) by lia.
  by replace (e - - k) with (e + k) by lia;
     replace (eb - - k) with (eb + k) by lia.
Qed.

(** What the bounds of a rounding give when they are counted in units. *)
Lemma rounded_between k s m e m3 e3 l u :
  - k <= e -> - k <= emin -> 0 <= m3 -> emin <= e3 ->
  (forall b eb, fexp (digits b + eb) <= eb ->
     dle (Zpos b) eb (Zpos m) e -> dle (Zpos b) eb m3 e3) ->
  (forall b eb, fexp (digits b + eb) <= eb ->
     dle (Zpos m) e (Zpos b) eb -> dle m3 e3 (Zpos b) eb /\ e3 <= eb) ->
  representable k l -> representable k u ->
  l <= cond_Zopp s (Zpos m * 2 ^ (e + k)) <= u ->
  e3 <= emax - prec /\ l <= cond_Zopp s (m3 * 2 ^ (e3 + k)) <= u.
Proof.
  intros He Hk Hm3 He3 Hlow Hupp Hl Hu Hlu.
  assert (HM : 0 < Zpos m * 2 ^ (e + k)).
  { apply Z.mul_pos_pos; [lia|]. apply pow2_pos. lia. }
  assert (HM3 : 0 <= m3 * 2 ^ (e3 + k)).
  { apply Z.mul_nonneg_nonneg; [lia|]. apply Z.lt_le_incl, pow2_pos. lia. }
  assert (Hmag : forall lo hi, representable k lo -> representable k hi ->
            lo <= Zpos m * 2 ^ (e + k) <= hi ->
            e3 <= emax - prec /\ lo <= m3 * 2 ^ (e3 + k) <= hi).
  { intros lo hi Hlo Hhi [H1 H2].
    destruct Hhi as [->|(b & eb & Eb & Heb & Hb & Hmax)]; [lia|].
    rewrite Z.abs_eq in Eb by lia.
    destruct (Hupp b eb Hb) as [Hle3 He3b].
    { apply (dle_scaled k); [lia|lia|]. by rewrite <- Eb. }
    apply (dle_scaled k) in Hle3; [|lia|lia]. rewrite <- Eb in Hle3.
    split; [lia|]. split; [|done].
    destruct (Z_le_gt_dec lo 0) as [|Hpos]; [lia|].
    destruct Hlo as [->|(c & ec & Ec & Hec & Hc & _)]; [lia|].
    rewrite Z.abs_eq in Ec by lia.
    assert (Hge3 : dle (Zpos c) ec m3 e3).
    { apply Hlow; [done|]. apply (dle_scaled k); [lia|lia|]. by rewrite <- Ec. }
    apply (dle_scaled k) in Hge3; [|lia|lia]. by rewrite <- Ec in Hge3. }
  destruct s; cbn [cond_Zopp] in *.
  - destruct (Hmag (- u) (- l)) as (H1 & H2 & H3);
      [by apply representable_opp|by apply representable_opp|lia|].
    split; [done|]. lia.
  - by apply Hmag.
Qed.

End Format.

(** *** Results between two bounds *)

Abbreviation representable64 := (representable 53 1024 1074).
Abbreviation representable32 := (representable 24 128 1074).

Lemma SFunits_representable x :
  valid_binary x = true -> representable64 (SFunits x).
Proof.
  intros Hv. destruct x as [s|s| |s m e]; [by left|by left|by left|].
  pose proof (valid64 _ _ _ Hv) as (Hd & He & Hc).
  right. exists m, e. split; [|split; [lia|split; [lia|lia]]].
  rewrite units_finite.
  assert (0 < Zpos m * 2 ^ (e + 1074)) by (apply Z.mul_pos_pos; [lia|apply pow2_pos; lia]).
  destruct s; simpl; lia.
Qed.

Lemma units_representable (x : float) : representable64 (units x).
Proof. apply SFunits_representable, Prim2SF_valid. Qed.

Lemma of_rounded_units prec emax s m3 e3 :
  0 <= m3 -> e3 <= emax - prec ->
  SFfinite (of_rounded prec emax s m3 e3) = true /\
  SFunits (of_rounded prec emax s m3 e3) = cond_Zopp s (m3 * 2 ^ (e3 + 1074)).
Proof.
  intros Hm He. unfold of_rounded. destruct m3 as [|m'|m']; [|  |lia].
  - split; [done|]. by destruct s.
  - by rewrite (proj2 (Z.leb_le _ _) He).
Qed.

Lemma binary_round_between s m e l u :
  -1074 <= e -> representable64 l -> representable64 u ->
  l <= cond_Zopp s (Zpos m * 2 ^ (e + 1074)) <= u ->
  let r := binary_round 53 1024 s m e in
  SFfinite r = true /\ l <= SFunits r <= u.
Proof.
  intros He Hl Hu Hlu.
  destruct (binary_round_bounds 53 1024 ltac:(lia) s m e)
    as (m3 & e3 & Hm3 & He3 & Hres & Hlow & Hupp).
  destruct (rounded_between 53 1024 1074 s m e m3 e3 l u) as [Hmax Hb];
    [lia|unfold SpecFloat.emin; lia|lia|done|done|done|done|done|done|].
  cbv zeta. rewrite Hres.
  destruct (of_rounded_units 53 1024 s m3 e3) as [Hf Hun]; [lia|done|].
  by rewrite Hun.
Qed.

Lemma binary_normalize_between D ez sz l u :
  -1074 <= ez -> representable64 l -> representable64 u ->
  l <= D * 2 ^ (ez + 1074) <= u ->
  let r := binary_normalize 53 1024 D ez sz in
  SFfinite r = true /\ l <= SFunits r <= u.
Proof.
  intros He Hl Hu Hlu. destruct D as [|m|m]; cbn [binary_normalize].
  - split; [done|]. simpl in *. lia.
  - by apply binary_round_between.
  - apply binary_round_between; try done. cbn [cond_Zopp]. lia.
Qed.

Lemma cond_Zopp_mul s a b : cond_Zopp s a * b = cond_Zopp s (a * b).
Proof. destruct s; simpl; lia. Qed.

Lemma aligned_units s m e ez :
  -1074 <= ez -> ez <= e ->
  cond_Zopp s (Zpos (fst (shl_align m e ez))) * 2 ^ (ez + 1074) =
  SFunits (S754_finite s m e).
Proof.
  intros H1 H2. rewrite shl_align_shifted, shifted_value, units_finite, cond_Zopp_mul by done.
  f_equal. rewrite <- Z.mul_assoc, <- pow2_split by lia. f_equal. f_equal. lia.
Qed.

(** A sum of two finite numbers whose exact value lies between two
    binary64 values is finite and lies between them. *)
Lemma SFadd_between x y l u :
  valid_binary x = true -> valid_binary y = true ->
  SFfinite x = true -> SFfinite y = true ->
  representable64 l -> representable64 u ->
  l <= SFunits x + SFunits y <= u ->
  let r := SFadd 53 1024 x y in
  SFfinite r = true /\ l <= SFunits r <= u.
Proof.
  intros Hvx Hvy Hfx Hfy Hl Hu Hlu. cbv zeta.
  destruct x as [sx|sx| |sx mx ex]; [|done|done|];
    destruct y as [sy|sy| |sy my ey]; try done.
  - simpl in Hlu. by destruct sx, sy.
  - cbn [SFadd]. split; [done|]. change (SFunits (S754_zero sy)) with 0 in Hlu. lia.
  - pose proof (valid64 _ _ _ Hvx) as (_ & Hex & _).
    pose proof (valid64 _ _ _ Hvy) as (_ & Hey & _).
    cbn [SFadd]. apply binary_normalize_between; [lia|done|done|].
    rewrite Z.mul_add_distr_r, !aligned_units by lia. done.
Qed.

Lemma SFsub_between x y l u :
  valid_binary x = true -> valid_binary y = true ->
  SFfinite x = true -> SFfinite y = true ->
  representable64 l -> representable64 u ->
  l <= SFunits x - SFunits y <= u ->
  let r := SFsub 53 1024 x y in
  SFfinite r = true /\ l <= SFunits r <= u.
Proof.
  intros Hvx Hvy Hfx Hfy Hl Hu Hlu. cbv zeta.
  destruct x as [sx|sx| |sx mx ex]; [|done|done|];
    destruct y as [sy|sy| |sy my ey]; try done.
  - simpl in Hlu. by destruct sx, sy.
  - cbn [SFsub]. split; [done|]. rewrite units_finite in *.
    change (SFunits (S754_zero sx)) with 0 in Hlu. destruct sy; simpl in *; lia.
  - cbn [SFsub]. split; [done|]. change (SFunits (S754_zero sy)) with 0 in Hlu. lia.
  - pose proof (valid64 _ _ _ Hvx) as (_ & Hex & _).
    pose proof (valid64 _ _ _ Hvy) as (_ & Hey & _).
    cbn [SFsub]. apply binary_normalize_between; [lia|done|done|].
    rewrite Z.mul_sub_distr_r, !aligned_units by lia. done.
Qed.

Lemma digits_mul a b : digits a + digits b - 1 <= digits (a * b).
Proof.
  pose proof (digits_bounds a) as [Ha _]. pose proof (digits_bounds b) as [Hb _].
  pose proof (digits_bounds (a * b)) as [_ Hab].
  pose proof (digits_pos a). pose proof (digits_pos b). pose proof (digits_pos (a * b)).
  destruct (Z_le_gt_dec (digits a + digits b - 1) (digits (a * b))) as [|Hgt]; [done|].
  exfalso.
  assert (H2 : 2 ^ digits (a * b) <= 2 ^ (digits a - 1 + (digits b - 1))).
  { apply Z.pow_le_mono_r; lia. }
  rewrite pow2_split in H2 by lia.
  rewrite Pos2Z.inj_mul in Hab.
  pose proof (pow2_pos (digits a - 1) ltac:(lia)).
  pose proof (pow2_pos (digits b - 1) ltac:(lia)).
  nia.
Qed.

(** A product of two finite numbers whose exact value lies between two
    binary64 values is finite and lies between them. *)
Lemma SFmul_between x y l u :
  valid_binary x = true -> valid_binary y = true ->
  SFfinite x = true -> SFfinite y = true ->
  representable64 l -> representable64 u ->
  l * 2 ^ 1074 <= SFunits x * SFunits y <= u * 2 ^ 1074 ->
  let r := SFmul 53 1024 x y in
  SFfinite r = true /\ l <= SFunits r <= u.
Proof.
  intros Hvx Hvy Hfx Hfy Hl Hu Hlu. cbv zeta.
  assert (H2 : 0 < 2 ^ 1074) by (by apply pow2_pos).
  destruct x as [sx|sx| |sx mx ex]; [|done|done|];
    destruct y as [sy|sy| |sy my ey]; try done;
    try (cbn [SFmul]; split; [done|];
         change (SFunits (S754_zero _)) with 0 in *; lia).
  pose proof (valid64 _ _ _ Hvx) as (Hdx & Hex & Hcx).
  pose proof (valid64 _ _ _ Hvy) as (Hdy & Hey & Hcy).
  cbn [SFmul].
  destruct (binary_round_aux_bounds 53 1024 ltac:(lia) (xorb sx sy) (mx * my) (ex + ey))
    as (m3 & e3 & Hm3 & He3 & Hres & Hlow & Hupp).
  { pose proof (digits_mul mx my). pose proof (digits_pos mx). pose proof (digits_pos my).
    revert Hcx Hcy. unfold SpecFloat.fexp, SpecFloat.emin. lia. }
  assert (Hscale : forall v, representable64 v -> representable 53 1024 2148 (v * 2 ^ 1074)).
  { intros v [->|(b & eb & Eb & Heb & Hb & Hmax)]; [by left|].
    right. exists b, eb. split; [|split; [lia|done]].
    rewrite Z.abs_mul, Eb, (Z.abs_eq (2 ^ 1074)), <- Z.mul_assoc, <- pow2_split by lia.
    f_equal. f_equal. lia. }
  unfold SpecFloat.emin in He3.
  destruct (rounded_between 53 1024 2148 (xorb sx sy) (mx * my) (ex + ey) m3 e3
              (l * 2 ^ 1074) (u * 2 ^ 1074)) as [Hmax Hb];
    [lia|unfold SpecFloat.emin; lia|lia|unfold SpecFloat.emin; lia|done|done
    |by apply Hscale|by apply Hscale| |].
  { assert (E : SFunits (S754_finite sx mx ex) * SFunits (S754_finite sy my ey) =
                cond_Zopp (xorb sx sy) (Zpos (mx * my) * 2 ^ (ex + ey + 2148))).
    { rewrite !units_finite.
      replace (ex + ey + 2148) with ((ex + 1074) + (ey + 1074)) by lia.
      rewrite (pow2_split (ex + 1074) (ey + 1074)), Pos2Z.inj_mul by lia.
      destruct sx, sy; cbn [cond_Zopp xorb]; ring. }
    by rewrite <- E. }
  rewrite Hres.
  destruct (of_rounded_units 53 1024 (xorb sx sy) m3 e3) as [Hf Hun]; [lia|done|].
  rewrite Hun. split; [done|].
  replace (e3 + 2148) with ((e3 + 1074) + 1074) in Hb by lia.
  rewrite pow2_split, Z.mul_assoc, <- cond_Zopp_mul in Hb by lia.
  split; apply (Z.mul_le_mono_pos_r _ _ (2 ^ 1074)); lia.
Qed.

(** A binary64 number between two binary32 values is rounded to a
    binary32 value between them. *)
Lemma SFfround_between x l u :
  valid_binary x = true -> SFfinite x = true ->
  representable32 l -> representable32 u ->
  l <= SFunits x <= u ->
  let r := SFfround x in
  valid_binary r = true /\ SFfinite r = true /\ l <= SFunits r <= u.
Proof.
  intros Hvx Hfx Hl Hu Hlu. cbv zeta.
  destruct x as [s|s| |s m e]; [|done|done|].
  - done.
  - pose proof (valid64 _ _ _ Hvx) as (Hd & He & _).
    destruct (binary_round_bounds 24 128 ltac:(lia) s m e)
      as (m3 & e3 & Hm3 & He3 & Hres & Hlow & Hupp).
    unfold SpecFloat.emin in He3.
    destruct (rounded_between 24 128 1074 s m e m3 e3 l u) as [Hmax Hb];
      [lia|unfold SpecFloat.emin; lia|lia|unfold SpecFloat.emin; lia|done|done|done|done|done|].
    cbv zeta. cbn [SFfround]. change prec32 with 24. change emax32 with 128. rewrite Hres.
    unfold of_rounded. destruct m3 as [|m'|m']; [| |lia].
    { split; [done|]. split; [done|]. change (SFunits (S754_zero s)) with 0.
      destruct s; simpl in Hb; lia. }
    rewrite (proj2 (Z.leb_le _ _) Hmax).
    assert (Hd' : digits m' <= 25).
    { apply digits_le_pow. change (2 ^ 25) with (2 ^ 24 * 2). lia. }
    destruct (to_binary64_exact s m' e3) as (m'' & e'' & E' & Hv & He'' & Hval);
      [lia|lia|lia|].
    change prec64 with 53. change emax64 with 1024. rewrite E'.
    split; [done|]. split; [done|]. rewrite units_finite, Hval. done.
Qed.

End RoundFacts.

(** ** Numbers within a range *)

Module RangeFacts.
Import Num NumFacts RoundFacts.
Local Open Scope Z_scope.

(** [x] is finite and lies between [lo] and [hi]. *)
Definition in_range (lo hi x : float) : Prop :=
  is_finite x = true /\ units lo <= units x <= units hi.

Lemma in_range_leb lo hi x :
  is_finite lo = true -> is_finite hi = true ->
  in_range lo hi x -> (lo <=? x)%float = true /\ (x <=? hi)%float = true.
Proof.
  intros Hlo Hhi [Hx [H1 H2]]. rewrite !leb_units by done.
  split; by apply Z.leb_le.
Qed.

Lemma leb_finite lo hi x :
  is_finite lo = true -> is_finite hi = true ->
  (lo <=? x)%float = true -> (x <=? hi)%float = true -> is_finite x = true.
Proof.
  unfold is_finite. rewrite !leb_spec. unfold SFleb.
  destruct (Prim2SF lo) as [sl|sl| |sl ml el], (Prim2SF x) as [s|[]| |s m e],
    (Prim2SF hi) as [sh|sh| |sh mh eh]; try done; by destruct sl || by destruct sh.
Qed.

Lemma leb_in_range lo hi x :
  is_finite lo = true -> is_finite hi = true ->
  (lo <=? x)%float = true -> (x <=? hi)%float = true -> in_range lo hi x.
Proof.
  intros Hlo Hhi H1 H2.
  pose proof (leb_finite lo hi x Hlo Hhi H1 H2) as Hx.
  rewrite leb_units in H1, H2 by done.
  split; [done|]. split; by apply Z.leb_le.
Qed.

Lemma in_range_weaken lo hi lo' hi' x :
  units lo' <= units lo -> units hi <= units hi' ->
  in_range lo hi x -> in_range lo' hi' x.
Proof. intros H1 H2 [Hx H]. split; [done|lia]. Qed.

Lemma add_in_range a b c d l u x y :
  in_range a b x -> in_range c d y ->
  units l <= units a + units c -> units b + units d <= units u ->
  in_range l u (x + y).
Proof.
  intros [Hx Hxr] [Hy Hyr] Hl Hu. unfold in_range, is_finite, units.
  rewrite add_spec.
  apply SFadd_between; try apply Prim2SF_valid; try done; try apply units_representable.
  unfold units in *. lia.
Qed.

Lemma sub_in_range a b c d l u x y :
  in_range a b x -> in_range c d y ->
  units l <= units a - units d -> units b - units c <= units u ->
  in_range l u (x - y).
Proof.
  intros [Hx Hxr] [Hy Hyr] Hl Hu. unfold in_range, is_finite, units.
  rewrite sub_spec.
  apply SFsub_between; try apply Prim2SF_valid; try done; try apply units_representable.
  unfold units in *. lia.
Qed.

(** The product by a constant that is not negative. *)
Lemma mul_in_range a b c l u x :
  in_range a b x -> is_finite c = true -> 0 <= units c ->
  units l * 2 ^ 1074 <= units a * units c -> units b * units c <= units u * 2 ^ 1074 ->
  in_range l u (x * c).
Proof.
  intros [Hx Hxr] Hc Hc0 Hl Hu. unfold in_range, is_finite, units.
  rewrite mul_spec.
  apply SFmul_between; try apply Prim2SF_valid; try done; try apply units_representable.
  unfold units in *. nia.
Qed.

(** The product of two numbers that are not negative. *)
Lemma mul_in_range_nonneg a b c d l u x y :
  in_range a b x -> in_range c d y -> 0 <= units a -> 0 <= units c ->
  units l * 2 ^ 1074 <= units a * units c -> units b * units d <= units u * 2 ^ 1074 ->
  in_range l u (x * y).
Proof.
  intros [Hx Hxr] [Hy Hyr] Ha Hc Hl Hu. unfold in_range, is_finite, units.
  rewrite mul_spec.
  apply SFmul_between; try apply Prim2SF_valid; try done; try apply units_representable.
  unfold units in *. nia.
Qed.

(** A store into a [Float32Array] keeps a number between two binary32
    values. *)
Lemma fround_in_range lo hi x :
  representable32 (units lo) -> representable32 (units hi) ->
  in_range lo hi x -> in_range lo hi (fround x).
Proof.
  intros Hlo Hhi [Hx Hr].
  destruct (SFfround_between (Prim2SF x) (units lo) (units hi)) as (Hv & Hf & Hb);
    [apply Prim2SF_valid|done|done|done|done|].
  assert (E : Prim2SF (fround x) = SFfround (Prim2SF x)).
  { unfold fround. by apply Prim2SF_SF2Prim. }
  unfold in_range, is_finite, units. by rewrite E.
Qed.

(** How to show that a constant is a binary32 value. *)
Lemma representable32_intro (c : float) b eb :
  Z.abs (units c) = Zpos b * 2 ^ (eb + 1074) ->
  (-1074 <=? eb) && (SpecFloat.fexp 24 128 (digits b + eb) <=? eb) && (eb <=? 104) = true ->
  representable32 (units c).
Proof.
  intros E H. apply andb_prop in H as [H H3]. apply andb_prop in H as [H1 H2].
  apply Z.leb_le in H1, H2, H3. right. by exists b, eb.
Qed.

End RangeFacts.

(** ** Ranges of the numbers the scenes compute *)

Module SceneRanges.
Import Num NumFacts RoundFacts RangeFacts.
Local Open Scope float_scope.

(** A closed comparison of exact values. *)
Ltac units_closed := vm_compute; first [reflexivity | discriminate | (intros; discriminate)].

(** The times a clock of the page can show: not negative, and not so
    large that doubling them overflows. *)
Definition clock_time (t : float) : Prop :=
  (0 <=? t) = true /\ (t <=? 0x1p1000) = true.

(** [Math.sin] and [Math.cos] of a finite number lie in [[-1, 1]]. *)
Definition unit_bounded (fn : float -> float) : Prop :=
  forall x, is_finite x = true ->
    (-1 <=? fn x) = true /\ (fn x <=? 1) = true.

Lemma clock_time_range t : clock_time t -> in_range 0 0x1p1000 t.
Proof. intros [H0 H1]. by apply leb_in_range. Qed.

Lemma unit_bounded_range fn x :
  unit_bounded fn -> is_finite x = true -> in_range (-1) 1 (fn x).
Proof. intros H Hx. destruct (H x Hx). by apply leb_in_range. Qed.

Lemma const_in_range c : is_finite c = true -> in_range c c c.
Proof. intros H. split; [done|lia]. Qed.

Lemma bob_range (Math_sin : float -> float) t :
  unit_bounded Math_sin -> clock_time t ->
  in_range 4.5 5.5 (5 + Math_sin (t * 0.5) * 0.5).
Proof.
  intros Hsin Ht. apply clock_time_range in Ht.
  assert (Ha : in_range 0 0x1p1000 (t * 0.5)).
  { apply (mul_in_range 0 0x1p1000 0.5 _ _ t Ht); units_closed. }
  pose proof (unit_bounded_range _ _ Hsin (proj1 Ha)) as Hs.
  assert (Hh : in_range (-0.5) 0.5 (Math_sin (t * 0.5) * 0.5)).
  { apply (mul_in_range (-1) 1 0.5 _ _ _ Hs); units_closed. }
  apply (add_in_range 5 5 (-0.5) 0.5 _ _ 5 _ (const_in_range 5 eq_refl) Hh); units_closed.
Qed.

Lemma pulse_range (Math_sin : float -> float) t :
  unit_bounded Math_sin -> clock_time t ->
  in_range 5 10 ((Math_sin (t * 2.0) * 0.5 + 0.5) * 5 + 5).
Proof.
  intros Hsin Ht. apply clock_time_range in Ht.
  assert (Ha : in_range 0 0x1p1001 (t * 2.0)).
  { apply (mul_in_range 0 0x1p1000 2.0 _ _ t Ht); units_closed. }
  pose proof (unit_bounded_range _ _ Hsin (proj1 Ha)) as Hs.
  assert (Hh : in_range (-0.5) 0.5 (Math_sin (t * 2.0) * 0.5)).
  { apply (mul_in_range (-1) 1 0.5 _ _ _ Hs); units_closed. }
  assert (Hp : in_range 0 1 (Math_sin (t * 2.0) * 0.5 + 0.5)).
  { apply (add_in_range (-0.5) 0.5 0.5 0.5 _ _ _ 0.5 Hh (const_in_range 0.5 eq_refl));
      units_closed. }
  assert (Hq : in_range 0 5 ((Math_sin (t * 2.0) * 0.5 + 0.5) * 5)).
  { apply (mul_in_range 0 1 5 _ _ _ Hp); units_closed. }
  apply (add_in_range 0 5 5 5 _ _ _ 5 Hq (const_in_range 5 eq_refl)); units_closed.
Qed.


(** *** Constants the position arrays hold *)

Ltac binary32 b eb := apply (representable32_intro _ b eb); vm_compute; reflexivity.

Lemma zero_binary32 : representable32 (units 0).
Proof. by left. Qed.

(** The binary32 value next to one tenth. *)
Definition tenth32 : float := fround 0.1.

Lemma tenth32_binary32 : representable32 (units tenth32).
Proof. binary32 13421773%positive (-27)%Z. Qed.

Lemma minus_tenth32_binary32 : representable32 (units (- tenth32)).
Proof. binary32 13421773%positive (-27)%Z. Qed.

Lemma fifteen_binary32 : representable32 (units 15).
Proof. binary32 15%positive 0%Z. Qed.

Lemma minus_fifteen_binary32 : representable32 (units (-15)).
Proof. binary32 15%positive 0%Z. Qed.

Lemma seventeen_binary32 : representable32 (units 17).
Proof. binary32 17%positive 0%Z. Qed.

Lemma minus_seventeen_binary32 : representable32 (units (-17)).
Proof. binary32 17%positive 0%Z. Qed.

Lemma minus_two_binary32 : representable32 (units (-2)).
Proof. binary32 1%positive 1%Z. Qed.

Lemma twenty_binary32 : representable32 (units 20).
Proof. binary32 5%positive 2%Z. Qed.

Lemma twenty_five_binary32 : representable32 (units 25).
Proof. binary32 25%positive 0%Z. Qed.

Lemma minus_twenty_five_binary32 : representable32 (units (-25)).
Proof. binary32 25%positive 0%Z. Qed.

(** *** A draw, centred and scaled *)

(** A draw of [Math.random]: a number of [[0, 1)]. *)
Definition draws (Math_random : nat -> float) : Prop :=
  forall k, (0 <=? Math_random k) = true /\ (Math_random k <? 1) = true.

Lemma draw_range Math_random k : draws Math_random -> in_range 0 1 (Math_random k).
Proof.
  intros H. destruct (H k) as [H0 H1]. apply leb_in_range; [done|done|done|].
  revert H1. rewrite ltb_spec, leb_spec. unfold SFltb, SFleb.
  by destruct (SFcompare _ _) as [[]|].
Qed.

Lemma centred_range r : in_range 0 1 r -> in_range (-0.5) 0.5 (r - 0.5).
Proof.
  intros Hr.
  apply (sub_in_range 0 1 0.5 0.5 _ _ r 0.5 Hr (const_in_range 0.5 eq_refl)); units_closed.
Qed.


(** The coordinates the creation loops store. *)
Lemma vent_side_range r :
  in_range 0 1 r -> in_range (- tenth32) tenth32 (fround ((r - 0.5) * 0.2)).
Proof.
  intros Hr. apply fround_in_range;
    [exact minus_tenth32_binary32|exact tenth32_binary32|].
  apply (mul_in_range (-0.5) 0.5 0.2 _ _ _ (centred_range r Hr)); units_closed.
Qed.

Lemma vent_height_range r : in_range 0 1 r -> in_range 0 20 (fround (r * 20)).
Proof.
  intros Hr. apply fround_in_range; [exact zero_binary32|exact twenty_binary32|].
  apply (mul_in_range 0 1 20 _ _ _ Hr); units_closed.
Qed.

Lemma swarm_side_range r :
  in_range 0 1 r -> in_range (-15) 15 (fround ((r - 0.5) * 30)).
Proof.
  intros Hr. apply fround_in_range;
    [exact minus_fifteen_binary32|exact fifteen_binary32|].
  apply (mul_in_range (-0.5) 0.5 30 _ _ _ (centred_range r Hr)); units_closed.
Qed.

Lemma swarm_height_range r : in_range 0 1 r -> in_range 0 15 (fround (r * 15)).
Proof.
  intros Hr. apply fround_in_range; [exact zero_binary32|exact fifteen_binary32|].
  apply (mul_in_range 0 1 15 _ _ _ Hr); units_closed.
Qed.

Lemma river_range r :
  in_range 0 1 r -> in_range (-25) 25 (fround ((r - 0.5) * 50)).
Proof.
  intros Hr. apply fround_in_range;
    [exact minus_twenty_five_binary32|exact twenty_five_binary32|].
  apply (mul_in_range (-0.5) 0.5 50 _ _ _ (centred_range r Hr)); units_closed.
Qed.

(** The coordinates a frame stores. *)
Lemma swing_range (fn : float -> float) lo hi lo' hi' t b :
  unit_bounded fn -> clock_time t ->
  (units (-0x1p1001) <= units 0 + units lo)%Z -> (units 0x1p1000 + units hi <= units 0x1p1001)%Z ->
  (units lo' <= units lo + units (-2))%Z -> (units hi + units 2 <= units hi')%Z ->
  representable32 (units lo') -> representable32 (units hi') ->
  in_range lo hi b ->
  in_range lo' hi' (fround (b + fn (t + b) * 2)).
Proof.
  intros Hfn Ht H1 H2 H3 H4 Hlo Hhi Hb. apply clock_time_range in Ht.
  assert (Ha : in_range (-0x1p1001) 0x1p1001 (t + b)).
  { by apply (add_in_range 0 0x1p1000 lo hi _ _ t b Ht Hb). }
  pose proof (unit_bounded_range _ _ Hfn (proj1 Ha)) as Hs.
  assert (Hd : in_range (-2) 2 (fn (t + b) * 2)).
  { apply (mul_in_range (-1) 1 2 _ _ _ Hs); units_closed. }
  apply fround_in_range; [done|done|].
  by apply (add_in_range lo hi (-2) 2 _ _ b _ Hb Hd).
Qed.

Lemma swarm_x_range (Math_sin : float -> float) t b :
  unit_bounded Math_sin -> clock_time t -> in_range (-15) 15 b ->
  in_range (-17) 17 (fround (b + Math_sin (t + b) * 2)).
Proof.
  intros Hfn Ht Hb.
  apply (swing_range Math_sin (-15) 15 (-17) 17 t b Hfn Ht);
    [units_closed|units_closed|units_closed|units_closed
    |exact minus_seventeen_binary32|exact seventeen_binary32|exact Hb].
Qed.

Lemma swarm_y_range (Math_cos : float -> float) t b :
  unit_bounded Math_cos -> clock_time t -> in_range 0 15 b ->
  in_range (-2) 17 (fround (b + Math_cos (t + b) * 2)).
Proof.
  intros Hfn Ht Hb.
  apply (swing_range Math_cos 0 15 (-2) 17 t b Hfn Ht);
    [units_closed|units_closed|units_closed|units_closed
    |exact minus_two_binary32|exact seventeen_binary32|exact Hb].
Qed.

(** A vent coordinate after a frame. *)
Lemma vent_y_range dt y :
  clock_time dt -> in_range 0 20 y ->
  in_range 0 20 (fround (jrem (y + dt * 2) 20)).
Proof.
  intros Hdt Hy. pose proof Hdt as [Hdt0 _]. apply clock_time_range in Hdt.
  assert (Hd : in_range 0 0x1p1001 (dt * 2)).
  { apply (mul_in_range 0 0x1p1000 2 _ _ dt Hdt); units_closed. }
  assert (Hs : in_range 0 0x1p1002 (y + dt * 2)).
  { apply (add_in_range 0 20 0 0x1p1001 _ _ y _ Hy Hd); units_closed. }
  destruct (in_range_leb 0 20 y eq_refl eq_refl Hy) as [Hy0 _].
  destruct (wrap_bounds (y + dt * 2) (proj1 Hs)) as (_ & _ & H0 & H20).
  { by apply sum_nonneg; [| |apply Hs]. }
  by apply leb_in_range.
Qed.

End SceneRanges.

(** ** What the creation loops store *)

Module CreationFacts.

Section Triples.
(** A loop that writes the three components of point [i] in its
    [i]-th turn. *)
Variables v0 v1 v2 : nat -> float.

Definition write_point (i : nat) (a : list float) : list float :=
  typed_set (typed_set (typed_set a (i * 3 + 0) (v0 i)) (i * 3 + 1) (v1 i)) (i * 3 + 2) (v2 i).

Lemma write_point_length i a : length (write_point i a) = length a.
Proof. unfold write_point, typed_set. by rewrite !length_insert. Qed.

Lemma write_point_lookup i a :
  (i * 3 + 2 < length a)%nat ->
  write_point i a !! (i * 3 + 0)%nat = Some (fround (v0 i)) /\
  write_point i a !! (i * 3 + 1)%nat = Some (fround (v1 i)) /\
  write_point i a !! (i * 3 + 2)%nat = Some (fround (v2 i)).
Proof.
  intros H. unfold write_point, typed_set. split; [|split].
  - rewrite !list_lookup_insert_ne by lia. apply list_lookup_insert_eq. lia.
  - rewrite list_lookup_insert_ne by lia. apply list_lookup_insert_eq.
    rewrite length_insert. lia.
  - apply list_lookup_insert_eq. rewrite !length_insert. lia.
Qed.

Lemma write_point_before i a idx :
  (idx < i * 3)%nat -> write_point i a !! idx = a !! idx.
Proof.
  intros H. unfold write_point, typed_set. by rewrite !list_lookup_insert_ne by lia.
Qed.

Lemma for_from_points n : forall k a,
  (3 * (k + n) <= length a)%nat ->
  let r := for_from write_point k n a in
  length r = length a /\
  (forall idx, (idx < k * 3)%nat -> r !! idx = a !! idx) /\
  (forall i, (k <= i < k + n)%nat ->
     r !! (i * 3 + 0)%nat = Some (fround (v0 i)) /\
     r !! (i * 3 + 1)%nat = Some (fround (v1 i)) /\
     r !! (i * 3 + 2)%nat = Some (fround (v2 i))).
Proof.
  induction n as [|n IH]; intros k a Hlen; cbn [for_from]; cbv zeta.
  - split; [done|]. split; [done|]. intros i Hi. lia.
  - destruct (IH (S k) (write_point k a)) as (Hl & Hbefore & Hpoints).
    { rewrite write_point_length. lia. }
    rewrite write_point_length in Hl.
    split; [done|]. split.
    + intros idx Hidx. rewrite Hbefore by lia. by apply write_point_before.
    + intros i Hi. destruct (decide (i = k)) as [->|Hne].
      * rewrite !Hbefore by lia. apply write_point_lookup. lia.
      * apply Hpoints. lia.
Qed.

End Triples.

Section Arrays.
Variable Math_random : nat -> float.

Lemma fill_positions_lookup k0 count sx sy sz centred_y i :
  (i < count)%nat ->
  let a := DeepSea.fill_positions Math_random k0 count sx sy sz centred_y in
  let r0 := Math_random (k0 + 3 * i)%nat in
  let r1 := Math_random (k0 + 3 * i + 1)%nat in
  let r2 := Math_random (k0 + 3 * i + 2)%nat in
  length a = (count * 3)%nat /\
  a !! (3 * i)%nat = Some (fround ((r0 - 0.5) * sx)%float) /\
  a !! (3 * i + 1)%nat =
    Some (fround (if centred_y then ((r1 - 0.5) * sy)%float else (r1 * sy)%float)) /\
  a !! (3 * i + 2)%nat = Some (fround ((r2 - 0.5) * sz)%float).
Proof.
  intros Hi. cbv zeta.
  set (v0 := fun i => ((Math_random (k0 + 3 * i)%nat - 0.5) * sx)%float).
  set (v1 := fun i => if centred_y
                      then ((Math_random (k0 + 3 * i + 1)%nat - 0.5) * sy)%float
                      else (Math_random (k0 + 3 * i + 1)%nat * sy)%float).
  set (v2 := fun i => ((Math_random (k0 + 3 * i + 2)%nat - 0.5) * sz)%float).
  assert (E : DeepSea.fill_positions Math_random k0 count sx sy sz centred_y =
              for_from (write_point v0 v1 v2) 0 count (replicate (count * 3) 0%float))
    by reflexivity.
  rewrite E.
  destruct (for_from_points v0 v1 v2 count 0%nat (replicate (count * 3) 0%float))
    as (Hl & _ & Hp).
  { rewrite length_replicate. lia. }
  rewrite length_replicate in Hl.
  destruct (Hp i ltac:(lia)) as (H0 & H1 & H2).
  replace (i * 3 + 0)%nat with (3 * i)%nat in H0 by lia.
  replace (i * 3 + 1)%nat with (3 * i + 1)%nat in H1 by lia.
  replace (i * 3 + 2)%nat with (3 * i + 2)%nat in H2 by lia.
  split; [exact Hl|]. split; [exact H0|]. split; [exact H1|exact H2].
Qed.

Lemma for_from_each (v : nat -> float) n : forall k a,
  (k + n <= length a)%nat ->
  let r := for_from (fun i a => typed_set a i (v i)) k n a in
  length r = length a /\
  (forall idx, (idx < k)%nat -> r !! idx = a !! idx) /\
  (forall i, (k <= i < k + n)%nat -> r !! i = Some (fround (v i))).
Proof.
  induction n as [|n IH]; intros k a Hlen; cbn [for_from]; cbv zeta.
  - split; [done|]. split; [done|]. intros i Hi. lia.
  - destruct (IH (S k) (typed_set a k (v k))) as (Hl & Hbefore & Hpoints).
    { unfold typed_set. rewrite length_insert. lia. }
    assert (Hl' : length (typed_set a k (v k)) = length a)
      by (unfold typed_set; apply length_insert).
    rewrite Hl' in Hl.
    split; [done|]. split.
    + intros idx Hidx. rewrite Hbefore by lia. unfold typed_set.
      by rewrite list_lookup_insert_ne by lia.
    + intros i Hi. destruct (decide (i = k)) as [->|Hne].
      * rewrite Hbefore by lia. unfold typed_set. apply list_lookup_insert_eq. lia.
      * apply Hpoints. lia.
Qed.

Lemma posArray_lookup k0 i :
  (i < Dream.particleCount * 3)%nat ->
  Dream.posArray Math_random k0 !! i =
    Some (fround ((Math_random (k0 + i)%nat - 0.5) * 50)%float).
Proof.
  intros Hi. unfold Dream.posArray, for_range.
  destruct (for_from_each (fun i => ((Math_random (k0 + i)%nat - 0.5) * 50)%float)
              (Dream.particleCount * 3) 0%nat
              (replicate (Dream.particleCount * 3) 0%float)) as (_ & _ & Hp).
  { rewrite length_replicate. lia. }
  apply Hp. lia.
Qed.

End Arrays.
End CreationFacts.

(** ** Boxes the particle fields stay in *)

Module BoxFacts.
Import Num NumFacts RangeFacts SceneRanges.

(** [lo <= x <= hi], as the program would test it. *)
Definition between (lo hi x : float) : Prop :=
  (lo <=? x)%float = true /\ (x <=? hi)%float = true.

Lemma in_range_between lo hi x :
  is_finite lo = true -> is_finite hi = true -> in_range lo hi x -> between lo hi x.
Proof. apply in_range_leb. Qed.

(** A position array of [n] points whose components lie in the ranges
    [box] gives for the three axes. *)
Definition boxed (box : nat -> float -> Prop) (n : nat) (a : list float) : Prop :=
  length a = (n * 3)%nat /\
  forall idx v, a !! idx = Some v -> box (idx mod 3) v.

Definition vent_box (axis : nat) (v : float) : Prop :=
  match axis with
  | 1 => in_range 0 20 v
  | _ => in_range (- tenth32) tenth32 v
  end.

Definition base_box (axis : nat) (v : float) : Prop :=
  match axis with
  | 1 => in_range 0 15 v
  | _ => in_range (-15) 15 v
  end.

Definition swarm_box (axis : nat) (v : float) : Prop :=
  match axis with
  | 0 => in_range (-17) 17 v
  | 1 => in_range (-2) 17 v
  | _ => in_range (-15) 15 v
  end.

Definition river_box (axis : nat) (v : float) : Prop := in_range (-25) 25 v.

Lemma mod3_0 i : ((3 * i) mod 3 = 0)%nat.
Proof. rewrite Nat.mul_comm. apply Nat.Div0.mod_mul. Qed.

Lemma mod3_1 i : ((3 * i + 1) mod 3 = 1)%nat.
Proof. by rewrite Nat.add_comm, Nat.mul_comm, Nat.Div0.mod_add. Qed.

Lemma mod3_2 i : ((3 * i + 2) mod 3 = 2)%nat.
Proof. by rewrite Nat.add_comm, Nat.mul_comm, Nat.Div0.mod_add. Qed.

(** Every index is a component of a point. *)
Lemma index_point idx :
  exists i, idx = (3 * i)%nat \/ idx = (3 * i + 1)%nat \/ idx = (3 * i + 2)%nat.
Proof.
  exists (idx / 3)%nat. pose proof (Nat.div_mod_eq idx 3) as E.
  pose proof (Nat.mod_upper_bound idx 3 ltac:(lia)) as Hlt.
  destruct (idx mod 3)%nat as [|[|[|j]]]; lia.
Qed.

Lemma boxed_point box n a i :
  boxed box n a -> (i < n)%nat ->
  exists x y z,
    a !! (3 * i)%nat = Some x /\ a !! (3 * i + 1)%nat = Some y /\
    a !! (3 * i + 2)%nat = Some z /\ box 0%nat x /\ box 1%nat y /\ box 2%nat z.
Proof.
  intros [Hlen Hbox] Hi.
  destruct (lookup_lt_is_Some_2 a (3 * i)) as [x Hx]; [lia|].
  destruct (lookup_lt_is_Some_2 a (3 * i + 1)) as [y Hy]; [lia|].
  destruct (lookup_lt_is_Some_2 a (3 * i + 2)) as [z Hz]; [lia|].
  exists x, y, z. split; [done|]. split; [done|]. split; [done|].
  pose proof (Hbox _ _ Hx) as H0. pose proof (Hbox _ _ Hy) as H1.
  pose proof (Hbox _ _ Hz) as H2.
  by rewrite mod3_0 in H0; rewrite mod3_1 in H1; rewrite mod3_2 in H2.
Qed.

Section Created.
Variable Math_random : nat -> float.
Hypothesis random_draws : draws Math_random.

(** A filled array is boxed when each of the three stores of a turn
    lands in the range of its axis. *)
Lemma fill_positions_boxed (box : nat -> float -> Prop) k0 count sx sy sz
    (centred_y : bool) :
  (forall r, in_range 0 1 r -> box 0%nat (fround ((r - 0.5) * sx)%float)) ->
  (forall r, in_range 0 1 r ->
     box 1%nat (fround (if centred_y then ((r - 0.5) * sy)%float else (r * sy)%float))) ->
  (forall r, in_range 0 1 r -> box 2%nat (fround ((r - 0.5) * sz)%float)) ->
  boxed box count (DeepSea.fill_positions Math_random k0 count sx sy sz centred_y).
Proof using random_draws.
  intros Hx Hy Hz.
  assert (Hlen : forall i, (i < count)%nat ->
            length (DeepSea.fill_positions Math_random k0 count sx sy sz centred_y) =
            (count * 3)%nat).
  { intros i Hi.
    exact (proj1 (CreationFacts.fill_positions_lookup Math_random k0 count sx sy sz
                    centred_y i Hi)). }
  split.
  - destruct count as [|n].
    + reflexivity.
    + apply (Hlen 0%nat). lia.
  - intros idx v Hv.
    destruct (index_point idx) as (i & Hidx).
    assert (Hi : (i < count)%nat).
    { apply lookup_lt_Some in Hv. rewrite (Hlen 0%nat) in Hv; [lia|].
      destruct count; [|lia]. simpl in Hv. lia. }
    destruct (CreationFacts.fill_positions_lookup Math_random k0 count sx sy sz
                centred_y i Hi) as (_ & H0 & H1 & H2).
    destruct Hidx as [->|[->| ->]].
    + rewrite mod3_0. rewrite H0 in Hv. injection Hv as <-.
      apply Hx, draw_range, random_draws.
    + rewrite mod3_1. rewrite H1 in Hv. injection Hv as <-.
      apply Hy, draw_range, random_draws.
    + rewrite mod3_2. rewrite H2 in Hv. injection Hv as <-.
      apply Hz, draw_range, random_draws.
Qed.

Lemma ventPosArray_boxed :
  boxed vent_box DeepSea.ventParticleCount (DeepSea.ventPosArray Math_random).
Proof using random_draws.
  unfold DeepSea.ventPosArray.
  apply (fill_positions_boxed vent_box 0 DeepSea.ventParticleCount 0.2 20 0.2 false);
    intros r Hr; cbn [vent_box].
  - by apply vent_side_range.
  - by apply vent_height_range.
  - by apply vent_side_range.
Qed.

Lemma swarmPosArray0_boxed :
  boxed base_box DeepSea.swarmParticleCount (DeepSea.swarmPosArray0 Math_random).
Proof using random_draws.
  unfold DeepSea.swarmPosArray0.
  apply (fill_positions_boxed base_box (3 * DeepSea.ventParticleCount)
           DeepSea.swarmParticleCount 30 15 30 false);
    intros r Hr; cbn [base_box].
  - by apply swarm_side_range.
  - by apply swarm_height_range.
  - by apply swarm_side_range.
Qed.

Lemma posArray_boxed k0 :
  boxed river_box Dream.particleCount (Dream.posArray Math_random k0).
Proof using random_draws.
  split.
  - rewrite Untouched.posArray_length. lia.
  - intros idx v Hv.
    assert (Hlt : (idx < Dream.particleCount * 3)%nat).
    { apply lookup_lt_Some in Hv. rewrite Untouched.posArray_length in Hv. lia. }
    rewrite CreationFacts.posArray_lookup in Hv by done. injection Hv as <-.
    apply river_range, draw_range, random_draws.
Qed.

End Created.

(** *** Frames *)

Section Frames.
Context {D : Type}.
Variables Math_sin Math_cos : float -> float.

#[local] Abbreviation animate_particles := (DeepSea.animate_particles Math_sin Math_cos).

Lemma vent_frame_boxed (f : @DeepSea.Frame D) n p :
  clock_time (DeepSea.deltaTime f) -> boxed vent_box n (DeepSea.ventLive p) ->
  boxed vent_box n (DeepSea.ventLive (animate_particles f p)).
Proof.
  intros Hdt [Hlen Hbox].
  rewrite DeepSeaParticles.animate_particles_vent. split.
  - by rewrite length_imap.
  - intros idx v. rewrite list_lookup_imap.
    destruct (DeepSea.ventLive p !! idx) as [y|] eqn:E; [|done].
    intros [= <-]. specialize (Hbox idx y E). unfold DeepSeaParticles.vent_rule.
    destruct (idx mod 3 =? 1)%nat eqn:E1; [|done].
    apply Nat.eqb_eq in E1. rewrite E1 in *. cbn [vent_box] in *.
    by apply vent_y_range.
Qed.

(** The swarm: the base array keeps its box, and the buffer stays in the
    box two units wider on the axes a frame recomputes. *)
Definition swarm_boxed (n : nat) (p : DeepSea.Particles) : Prop :=
  boxed base_box n (DeepSea.swarmPosArray p) /\
  boxed swarm_box n (DeepSea.swarmLive p).

Lemma base_in_swarm_box axis v : base_box axis v -> swarm_box axis v.
Proof.
  destruct axis as [|[|axis]]; cbn [base_box swarm_box]; [|  |done].
  - apply in_range_weaken; units_closed.
  - apply in_range_weaken; units_closed.
Qed.

Lemma swarm_frame_boxed (f : @DeepSea.Frame D) n p :
  unit_bounded Math_sin -> unit_bounded Math_cos ->
  clock_time (DeepSea.elapsedTime f) ->
  swarm_boxed n p -> swarm_boxed n (animate_particles f p).
Proof.
  intros sin_bounded cos_bounded Ht [[Hbl Hbase] [Hll Hlive]]. split.
  - by rewrite DeepSeaParticles.animate_particles_base.
  - rewrite DeepSeaParticles.animate_particles_swarm. split.
    + by rewrite length_imap.
    + intros idx v. rewrite list_lookup_imap.
      destruct (DeepSea.swarmLive p !! idx) as [w|] eqn:E; [|done].
      intros [= <-]. specialize (Hlive idx w E).
      destruct (lookup_lt_is_Some_2 (DeepSea.swarmPosArray p) idx) as [b Hb].
      { apply lookup_lt_Some in E. lia. }
      specialize (Hbase idx b Hb).
      unfold DeepSeaParticles.swarm_rule, typed_get. rewrite Hb.
      pose proof (Nat.mod_upper_bound idx 3 ltac:(lia)) as Hm.
      destruct (idx mod 3)%nat as [|[|[|j]]]; [| | |lia];
        cbn [Nat.eqb base_box swarm_box] in *.
      * by apply swarm_x_range.
      * by apply swarm_y_range.
      * done.
Qed.

End Frames.

(** *** Runs *)

Section Runs.
Context {D : Type}.
Variable dleb : D -> D -> bool.
Variables Math_sin Math_cos : float -> float.
Variables ease_power3_inOut ease_default : Q -> Q.

#[local] Abbreviation animate_particles := (DeepSea.animate_particles Math_sin Math_cos).
#[local] Abbreviation animate_shader := (DeepSea.animate_shader Math_sin).
#[local] Abbreviation step :=
  (DeepSea.step dleb Math_sin Math_cos ease_power3_inOut ease_default).
#[local] Abbreviation run :=
  (DeepSea.run dleb Math_sin Math_cos ease_power3_inOut ease_default).

(** An event of a page whose clock shows clock times. *)
Definition steady (e : @DeepSea.Event D) : Prop :=
  match e with
  | DeepSea.EFrame f =>
      clock_time (DeepSea.deltaTime f) /\ clock_time (DeepSea.elapsedTime f)
  | _ => True
  end.

Lemma run_particles_steady (P : DeepSea.Particles -> Prop) :
  (forall f p, steady (DeepSea.EFrame f) -> P p -> P (animate_particles f p)) ->
  forall es s s',
    Forall steady es -> P (DeepSea.particles s) -> run es s = Ok s' ->
    P (DeepSea.particles s').
Proof.
  intros HP es. induction es as [|e es IH]; intros s s' Hes Hs H; simpl in H.
  - injection H as <-. done.
  - destruct (step e s) as [s1|] eqn:E; simpl in H; [|done].
    inversion Hes as [|? ? He Hes']; subst.
    apply (IH s1); [done| |done].
    destruct (DeepSeaRuns.step_particles dleb Math_sin Math_cos ease_power3_inOut
                ease_default e s s1 E) as [_ Hp].
    destruct e; rewrite Hp; auto.
Qed.

(** The jellyfish at its height, the light at the same height, and the
    intensity of the light. *)
Definition glow_in_range (m : DeepSea.Materials) : Prop :=
  in_range 4.5 5.5 (DeepSea.jellyfishY m) /\
  DeepSea.coreLightY m = DeepSea.jellyfishY m /\
  in_range 5 10 (DeepSea.coreLightIntensity m).

Lemma step_glow_in_range (e : @DeepSea.Event D) s s' :
  unit_bounded Math_sin -> steady e ->
  glow_in_range (DeepSea.materials s) -> step e s = Ok s' ->
  glow_in_range (DeepSea.materials s').
Proof.
  intros Hsin He Hs H. destruct e as [c|f|x y w h]; simpl in H.
  - destruct (DeepSeaRuns.onClick_ok dleb ease_power3_inOut c s)
      as (s1 & H1 & _ & _ & Hm & _).
    rewrite H1 in H. injection H as <-. by rewrite Hm.
  - destruct He as [_ Ht].
    destruct (DeepSeaRuns.animate_ok dleb Math_sin Math_cos ease_default f s)
      as (m' & Hm & H1).
    rewrite H1 in H. injection H as <-. cbn [DeepSea.materials].
    assert (Hg : glow_in_range m').
    { revert Hm. unfold DeepSea.animate_shader.
      destruct (DeepSea.jellyfishShader (DeepSea.materials s)); simpl;
        intros [= <-]; (split; [|split]); cbn; try done;
        by (apply bob_range || apply pulse_range). }
    unfold DeepSea.render, DeepSea.onBeforeCompile. by destruct (DeepSea.compiles f).
  - by injection H as <-.
Qed.

Lemma run_glow_in_range (es : list (@DeepSea.Event D)) : forall s s',
  unit_bounded Math_sin -> Forall steady es ->
  glow_in_range (DeepSea.materials s) -> run es s = Ok s' ->
  glow_in_range (DeepSea.materials s').
Proof.
  induction es as [|e es IH]; intros s s' Hsin Hes Hs H; simpl in H.
  - injection H as <-. done.
  - destruct (step e s) as [s1|] eqn:E; simpl in H; [|done].
    inversion Hes as [|? ? He Hes']; subst.
    apply (IH s1); [done|done| |done].
    by apply step_glow_in_range with e s.
Qed.

End Runs.
End BoxFacts.

(** ** Division *)

Module DivFacts.
Import Num NumFacts RoundFacts.
Local Open Scope Z_scope.

(** *** The shift of a number that comes with a location

    The quotient [m] of a division comes with the location of the exact
    value in [[m, m + 1)].  [ceiling m l] is the least integer that is
    not below the exact value. *)
Definition ceiling (m : Z) (l : location) : Z :=
  match l with
  | loc_Exact => m
  | loc_Inexact _ => m + 1
  end.

Definition shr_between (lo hi : Z) (k : Z) (mrs : shr_record) : Prop :=
  0 <= shr_m mrs /\
  shr_m mrs * 2 ^ k <= lo < (shr_m mrs + 1) * 2 ^ k /\
  (orb (shr_r mrs) (shr_s mrs) = true -> shr_m mrs * 2 ^ k < hi).

Lemma shr_1_between lo hi k mrs :
  0 <= k -> lo <= hi -> shr_between lo hi k mrs -> shr_between lo hi (k + 1) (shr_1 mrs).
Proof.
  intros Hk Hlh (Hm & [Hlo Hhi] & Hflag). unfold shr_between.
  rewrite (pow2_split k 1) by lia. change (2 ^ 1) with 2.
  pose proof (pow2_pos k Hk) as Hp.
  destruct mrs as [m r s]. cbn [shr_m shr_r shr_s] in *.
  destruct m as [|[p|p|]|p]; cbn [shr_1 shr_m shr_r shr_s]; try lia.
  - split; [lia|]. split; [lia|]. intros H.
    assert (0 * 2 ^ k < hi) by (apply Hflag; by destruct r, s). lia.
  - split; [lia|]. split; [lia|]. intros H.
    assert (Zpos p~0 * 2 ^ k < hi) by (apply Hflag; by destruct r, s). lia.
Qed.

Lemma shr_iter_between lo hi (n : nat) mrs :
  lo <= hi -> shr_between lo hi 0 mrs ->
  shr_between lo hi (Z.of_nat n) (Nat.iter n shr_1 mrs).
Proof.
  intros Hlh H. induction n as [|n IH]; [done|].
  rewrite Nat2Z.inj_succ. unfold Z.succ. simpl.
  apply shr_1_between; [lia|done|done].
Qed.

Lemma shr_between_start m l :
  0 <= m -> shr_between m (ceiling m l) 0 (shr_record_of_loc m l).
Proof.
  intros H. unfold shr_between.
  destruct l as [|[]]; cbn [shr_record_of_loc shr_m shr_r shr_s ceiling orb];
    (split; [lia|]); (split; [lia|]); intros; lia || done.
Qed.

Lemma shr_loc_spec m l e n :
  0 <= m ->
  exists mrs',
    shr (shr_record_of_loc m l) e n = (mrs', e + Z.max 0 n) /\
    shr_between m (ceiling m l) (Z.max 0 n) mrs'.
Proof.
  intros Hm.
  assert (Hc : m <= ceiling m l) by (destruct l; simpl; lia).
  destruct n as [|q|q]; cbn [shr].
  - eexists. split; [f_equal; lia|]. by apply shr_between_start.
  - eexists. split; [f_equal; lia|]. rewrite iter_pos_nat.
    replace (Z.max 0 (Zpos q)) with (Z.of_nat (Pos.to_nat q)) by lia.
    by apply shr_iter_between, shr_between_start.
  - eexists. split; [f_equal; lia|]. by apply shr_between_start.
Qed.

Lemma Zdigits2_upper m : 0 <= m -> m < 2 ^ Zdigits2 m.
Proof.
  intros H. destruct m as [|p|p]; [done| |lia].
  by destruct (digits_bounds p).
Qed.

Lemma Zdigits2_lower m : 0 < m -> 2 ^ (Zdigits2 m - 1) <= m.
Proof.
  intros H. destruct m as [|p|p]; [lia| |lia].
  by destruct (digits_bounds p).
Qed.


Section Format.
Variables prec emax : Z.
Hypothesis prec_pos : 0 < prec.

#[local] Abbreviation fexp := (SpecFloat.fexp prec emax).
#[local] Abbreviation emin := (SpecFloat.emin prec emax).

(** Rounding [m] with its location, counted in steps of [2^e], gives
    [m2] steps of the grid [2^G] of the format: the floor of the exact
    value on that grid, or the next step when the exact value is above
    the floor. *)
Lemma binary_round_aux_loc_value s m e l :
  0 <= m -> e <= fexp (Zdigits2 m + e) ->
  let G := fexp (Zdigits2 m + e) in
  let p := G - e in
  exists m2 m3 e3,
    0 <= m3 /\ e3 = Z.max G (fexp (Zdigits2 m2 + G)) /\
    m3 * 2 ^ (e3 - G) = m2 /\
    (forall K', K' * 2 ^ p <= m -> K' <= m2) /\
    (forall K', ceiling m l <= K' * 2 ^ p -> m2 <= K') /\
    binary_round_aux prec emax s m e l = of_rounded prec emax s m3 e3.
Proof using prec_pos.
  intros Hm Hnorm G p.
  assert (Hp : 0 <= p) by (unfold p, G; lia).
  pose proof (pow2_pos p Hp) as H2p.
  pose proof (Zdigits2_upper m Hm) as Hdhi. pose proof (Zdigits2_nonneg m) as Hd.
  unfold binary_round_aux, shr_fexp.
  destruct (shr_loc_spec m l e (fexp (Zdigits2 m + e) - e)) as (mrs1 & E1 & Hinv1); [done|].
  fold G in E1, Hinv1. fold p in E1, Hinv1.
  replace (Z.max 0 p) with p in E1, Hinv1 by lia.
  replace (e + p) with G in E1 by (unfold p; lia).
  fold G. fold p. rewrite E1.
  destruct Hinv1 as (Hm1 & [Hlo1 Hhi1] & Hflag1).
  set (m2 := round_nearest_even (shr_m mrs1) (loc_of_shr_record mrs1)).
  assert (Hm2 : (m2 = shr_m mrs1 \/
                 (m2 = shr_m mrs1 + 1 /\ shr_m mrs1 * 2 ^ p < ceiling m l))).
  { destruct (round_nearest_even_spec mrs1) as [E|[E Hf]]; fold m2 in E; auto. }
  set (q := Z.max 0 (fexp (Zdigits2 m2 + G) - G)).
  destruct (shr_spec m2 G (fexp (Zdigits2 m2 + G) - G))
    as (mrs3 & E3 & Hinv3); [lia|].
  fold q in E3, Hinv3. cbn [shr_record_of_loc]. rewrite E3.
  destruct Hinv3 as (Hm3 & [Hlo3 Hhi3] & _).
  assert (Hq : 0 <= q) by lia.
  pose proof (pow2_pos q Hq) as H2q.
  assert (HGmin : emin <= G) by apply fexp_ge_emin.
  (* the second shift is exact *)
  assert (Hexact : shr_m mrs3 * 2 ^ q = m2).
  { set (D := Z.max 0 (Zdigits2 m - p)).
    assert (HD : 0 <= D) by lia.
    pose proof (pow2_pos D HD) as H2D.
    assert (Hm1D : shr_m mrs1 < 2 ^ D).
    { destruct (Z_le_gt_dec (Zdigits2 m) p) as [Hle|Hgt].
      - replace D with 0 by lia. simpl.
        assert (2 ^ Zdigits2 m <= 2 ^ p) by (apply Z.pow_le_mono_r; lia).
        nia.
      - replace D with (Zdigits2 m - p) by lia.
        assert (E2 : 2 ^ Zdigits2 m = 2 ^ (Zdigits2 m - p) * 2 ^ p).
        { rewrite <- pow2_split by lia. f_equal. lia. }
        nia. }
    assert (HfD : fexp (D + G) <= G).
    { unfold D, p. revert HGmin. unfold G, SpecFloat.fexp. lia. }
    assert (HfD1 : fexp (D + 1 + G) <= G + 1).
    { revert HfD. unfold SpecFloat.fexp. lia. }
    destruct (Z_lt_le_dec m2 (2 ^ D)) as [Hlt|Hge].
    - assert (Hdig : Zdigits2 m2 <= D) by (apply Zdigits2_le_pow; lia).
      assert (Eq : q = 0).
      { subst q. pose proof (fexp_mono prec emax (Zdigits2 m2 + G) (D + G)). lia. }
      assert (E2q : 2 ^ q = 1) by (rewrite Eq; done). lia.
    - assert (Em2 : m2 = 2 ^ D) by lia.
      destruct (Z.eq_dec D 0) as [HD0|HD0].
      + assert (HG : G = emin).
        { unfold D, p in HD0. revert HD0 Hnorm. unfold G, SpecFloat.fexp. fold emin. lia. }
        assert (Eq : q = 0).
        { subst q. rewrite Em2, HD0. simpl. rewrite HG.
          unfold SpecFloat.fexp. fold emin. lia. }
        assert (E2q : 2 ^ q = 1) by (rewrite Eq; done). lia.
      + assert (Hdig : Zdigits2 m2 <= D + 1).
        { apply Zdigits2_le_pow; [lia|lia|].
          rewrite Em2, (pow2_split D 1) by lia. change (2 ^ 1) with 2. lia. }
        assert (Hq1 : q <= 1).
        { subst q. pose proof (fexp_mono prec emax (Zdigits2 m2 + G) (D + 1 + G)). lia. }
        destruct (Z.eq_dec q 0) as [Eq|Eq].
        * assert (E2q : 2 ^ q = 1) by (rewrite Eq; done). lia.
        * assert (E2q : 2 ^ q = 2) by (by replace q with 1 by lia).
          assert (E2 : 2 ^ D = 2 * 2 ^ (D - 1)).
          { replace D with (1 + (D - 1)) at 1 by lia.
            rewrite pow2_split by lia. done. }
          lia. }
  exists m2, (shr_m mrs3), (G + q).
  split; [done|]. split; [lia|]. split; [|split; [|split]].
  - replace (G + q - G) with q by lia. done.
  - intros K' HK. destruct Hm2 as [->|[-> _]]; nia.
  - intros K' HK.
    assert (m <= ceiling m l) by (destruct l; simpl; lia).
    destruct Hm2 as [->|[-> Hf]]; nia.
  - unfold of_rounded. by destruct (shr_m mrs3).
Qed.

(** Bounds of the format on the two sides of the exact value stay on
    their sides of the rounded value. *)
Lemma binary_round_aux_loc_bounds s m e l :
  0 <= m -> e <= fexp (Zdigits2 m + e) ->
  exists m3 e3,
    (0 <= m3 <= 2 ^ prec) /\ (emin <= e3) /\
    (binary_round_aux prec emax s m e l = of_rounded prec emax s m3 e3) /\
    (forall b eb, fexp (digits b + eb) <= eb ->
       (e <= eb -> Zpos b * 2 ^ (eb - e) <= m) -> dle (Zpos b) eb m3 e3) /\
    (forall b eb, fexp (digits b + eb) <= eb ->
       dle m e (Zpos b) eb ->
       (e <= eb -> ceiling m l <= Zpos b * 2 ^ (eb - e)) ->
       dle m3 e3 (Zpos b) eb /\ e3 <= eb).
Proof using prec_pos.
  intros Hm Hnorm.
  destruct (binary_round_aux_loc_value s m e l Hm Hnorm)
    as (m2 & m3 & e3 & Hm3 & Ee3 & E2 & Hlow & Hupp & Hres).
  set (G := fexp (Zdigits2 m + e)) in *.
  set (p := G - e) in *.
  assert (Hp : 0 <= p) by (unfold p; lia).
  assert (He3 : G <= e3) by lia.
  pose proof (Zdigits2_upper m Hm) as Hdhi. pose proof (Zdigits2_nonneg m) as Hd.
  pose proof (pow2_pos p Hp) as H2p.
  pose proof (pow2_pos (e3 - G) ltac:(lia)) as H2q.
  assert (HGmin : emin <= G) by apply fexp_ge_emin.
  assert (HGprec : Zdigits2 m + e - prec <= G).
  { unfold G, SpecFloat.fexp. lia. }
  assert (Hm2 : 0 <= m2) by (apply Hlow; lia).
  assert (Hcl : m <= ceiling m l < m + 2) by (destruct l; simpl; lia).
  exists m3, e3. split; [|split; [lia|split; [done|split]]].
  - split; [done|].
    assert (Hm2le : m2 <= 2 ^ prec).
    { destruct (Z_le_gt_dec (Zdigits2 m) p) as [Hle|Hgt].
      - assert (m2 <= 1).
        { apply Hupp.
          assert (2 ^ Zdigits2 m <= 2 ^ p) by (apply Z.pow_le_mono_r; lia). lia. }
        pose proof (pow2_pos prec ltac:(lia)). lia.
      - assert (m2 <= 2 ^ (Zdigits2 m - p)).
        { apply Hupp. rewrite <- pow2_split by lia.
          replace (Zdigits2 m - p + p) with (Zdigits2 m) by lia. lia. }
        assert (2 ^ (Zdigits2 m - p) <= 2 ^ prec) by (apply Z.pow_le_mono_r; lia).
        lia. }
    nia.
  - (* bounds from below *)
    intros b eb Hb Hle.
    pose proof (digits_bounds b) as [Hblo Hbhi]. pose proof (digits_pos b) as Hdb.
    destruct (Z_le_gt_dec G eb) as [Hgrid|Hoff].
    + apply (dle_of_base G); [lia|lia|].
      rewrite E2. apply Hlow.
      rewrite <- Z.mul_assoc, <- pow2_split by lia.
      replace (eb - G + p) with (eb - e) by (unfold p; lia). apply Hle. lia.
    + assert (Hdig : digits b + eb < Zdigits2 m + e).
      { destruct (Z_lt_le_dec (digits b + eb) (Zdigits2 m + e)) as [|Hge]; [done|].
        pose proof (fexp_mono prec emax _ _ Hge). fold G in H. lia. }
      assert (Hemin : emin <= eb).
      { pose proof (fexp_ge_emin prec emax (digits b + eb)). lia. }
      assert (HGle : G <= Zdigits2 m + e - 1).
      { unfold G, SpecFloat.fexp. fold emin. lia. }
      assert (Hmpos : 0 < m).
      { destruct (Z.eq_dec m 0) as [->|]; [|lia]. simpl in *. lia. }
      pose proof (Zdigits2_lower m Hmpos) as Hdlo.
      assert (Hm2lo : 2 ^ (Zdigits2 m - 1 - p) <= m2).
      { apply Hlow. rewrite <- pow2_split by (unfold p; lia).
        by replace (Zdigits2 m - 1 - p + p) with (Zdigits2 m - 1) by lia. }
      apply (dle_of_base eb); [lia|lia|].
      rewrite Z.sub_diag, Z.mul_1_r.
      replace (e3 - eb) with ((e3 - G) + (G - eb)) by lia.
      rewrite pow2_split, Z.mul_assoc, E2 by lia.
      pose proof (pow2_pos (G - eb) ltac:(lia)) as H2g.
      assert (H1 : 2 ^ digits b <= 2 ^ (Zdigits2 m - 1 - p + (G - eb))).
      { apply Z.pow_le_mono_r; unfold p; lia. }
      rewrite pow2_split in H1 by (unfold p; lia). nia.
  - (* bounds from above *)
    intros b eb Hb Hle Hceil.
    pose proof (digits_pos b) as Hdb.
    assert (Hgrid : G <= eb).
    { destruct m as [|m|m]; [| |lia].
      - assert (G = emin).
        { revert Hnorm. unfold G, SpecFloat.fexp. fold emin. simpl. lia. }
        pose proof (fexp_ge_emin prec emax (digits b + eb)). lia.
      - pose proof (dle_digits _ _ _ _ Hle) as Hdig. cbn [Zdigits2] in G.
        fold (digits m) in G.
        pose proof (fexp_mono prec emax _ _ Hdig). fold G in H. lia. }
    assert (Hm2K : m2 <= Zpos b * 2 ^ (eb - G)).
    { apply Hupp. rewrite <- Z.mul_assoc, <- pow2_split by lia.
      replace (eb - G + p) with (eb - e) by (unfold p; lia). apply Hceil. lia. }
    assert (Hdle : dle m3 e3 (Zpos b) eb).
    { apply (dle_of_base G); [lia|lia|]. by rewrite E2. }
    split; [done|].
    assert (Hdig2 : Zdigits2 m2 + G <= digits b + eb).
    { destruct m2 as [|m2|m2]; [|clear Ee3|lia].
      - simpl. lia.
      - cbn [Zdigits2]. fold (digits m2). apply dle_digits.
        apply (dle_of_base G); [lia|lia|]. by rewrite Z.sub_diag, Z.mul_1_r. }
    pose proof (fexp_mono prec emax _ _ Hdig2). lia.
Qed.

End Format.

(** *** The quotient of two positive numbers *)

Lemma ceiling_new_location d r q :
  ceiling q (new_location d r) = if r =? 0 then q else q + 1.
Proof.
  unfold new_location, new_location_even, new_location_odd.
  destruct (Z.even d), (r =? 0); done.
Qed.

(** The quotient of [m1 * 2^s] by [m2] has at least [d1 + s - d2]
    digits. *)
Lemma quotient_digits m1 m2 s q r :
  0 <= s -> 0 <= q -> 0 <= r < Zpos m2 ->
  Zpos m1 * 2 ^ s = Zpos m2 * q + r ->
  digits m1 + s - digits m2 <= Zdigits2 q.
Proof.
  intros Hs Hq Hr E.
  pose proof (Zdigits2_nonneg q) as Hdq. pose proof (Zdigits2_upper q Hq) as Hqhi.
  pose proof (digits_bounds m1) as [Hm1 _]. pose proof (digits_bounds m2) as [_ Hm2].
  pose proof (digits_pos m1). pose proof (digits_pos m2).
  destruct (Z_le_gt_dec (digits m1 + s - digits m2) (Zdigits2 q)) as [|Hgt]; [done|].
  exfalso. set (t := digits m1 + s - digits m2) in *.
  assert (H1 : 2 ^ Zdigits2 q <= 2 ^ (t - 1)) by (apply Z.pow_le_mono_r; lia).
  assert (H2 : 2 ^ (digits m1 - 1 + s) = 2 ^ digits m2 * 2 ^ (t - 1)).
  { rewrite <- pow2_split by lia. f_equal. unfold t. lia. }
  assert (H3 : 2 ^ (digits m1 - 1 + s) <= Zpos m1 * 2 ^ s).
  { rewrite pow2_split by lia. apply Z.mul_le_mono_nonneg_r; [|done].
    apply Z.lt_le_incl, pow2_pos. lia. }
  pose proof (pow2_pos (t - 1) ltac:(lia)).
  nia.
Qed.

(** The quotient of two positive finite numbers whose exact value lies
    between two binary64 values is finite and lies between them. *)
Lemma SFdiv_between mx ex my ey l u :
  valid_binary (S754_finite false mx ex) = true ->
  valid_binary (S754_finite false my ey) = true ->
  representable64 l -> representable64 u ->
  l * (Zpos my * 2 ^ (ey + 1074)) <= Zpos mx * 2 ^ (ex + 1074) * 2 ^ 1074 <=
    u * (Zpos my * 2 ^ (ey + 1074)) ->
  let r := SFdiv 53 1024 (S754_finite false mx ex) (S754_finite false my ey) in
  SFfinite r = true /\ l <= SFunits r <= u.
Proof.
  intros Hvx Hvy Hl Hu [Hlo Hhi]. cbv zeta.
  pose proof (valid64 _ _ _ Hvx) as (Hdx & Hex & Hcx).
  pose proof (valid64 _ _ _ Hvy) as (Hdy & Hey & Hcy).
  cbn [SFdiv xorb]. unfold SFdiv_core_binary. cbn [Zdigits2].
  fold (digits mx). fold (digits my).
  set (F := SpecFloat.fexp 53 1024 (digits mx + ex - (digits my + ey))).
  set (e' := Z.min F (ex - ey)).
  set (s := ex - ey - e').
  assert (Hs : 0 <= s) by (unfold s, e'; lia).
  assert (He'min : -1074 - (ey + 1074) <= e').
  { unfold e', F, SpecFloat.fexp, SpecFloat.emin. lia. }
  set (m' := match s with
             | 0 => Zpos mx
             | Zpos _ => Z.shiftl (Zpos mx) s
             | Zneg _ => 0
             end).
  assert (Em' : m' = Zpos mx * 2 ^ s).
  { unfold m'. destruct s as [|p|p] eqn:Es; [simpl; lia| |lia].
    by rewrite Z.shiftl_mul_pow2. }
  pose proof (Z_div_mod m' (Zpos my) ltac:(lia)) as Hdiv.
  destruct (Z.div_eucl m' (Zpos my)) as [q r] eqn:Ediv.
  destruct Hdiv as [Eq Hr].
  pose proof (pow2_pos s Hs) as H2s.
  assert (Hq : 0 <= q) by nia.
  assert (Hnorm : e' <= SpecFloat.fexp 53 1024 (Zdigits2 q + e')).
  { pose proof (quotient_digits mx my s q r Hs Hq Hr ltac:(lia)) as Hdq.
    assert (HF : F <= SpecFloat.fexp 53 1024 (Zdigits2 q + e')).
    { apply fexp_mono. unfold s in Hdq. lia. }
    assert (e' <= F) by (unfold e'; lia). lia. }
  destruct (binary_round_aux_loc_bounds 53 1024 ltac:(lia) false q e'
              (new_location (Zpos my) r) Hq Hnorm)
    as (m3 & e3 & Hm3 & He3 & Hres & Hlow & Hupp).
  rewrite Hres. unfold SpecFloat.emin in He3.
  rewrite ceiling_new_location in Hupp.
  (* the exact quotient in terms of [m'] *)
  set (X := ex + 1074) in *. set (Y := ey + 1074) in *.
  set (T := e' + Y + 1074).
  assert (HT : 0 <= T) by (unfold T, Y; lia).
  pose proof (pow2_pos T HT) as H2T.
  pose proof (pow2_pos Y ltac:(unfold Y; lia)) as H2Y.
  assert (EX : Zpos mx * 2 ^ X * 2 ^ 1074 = m' * 2 ^ T).
  { rewrite Em', <- !Z.mul_assoc, <- !pow2_split by (unfold X, T, Y; lia).
    f_equal. f_equal. unfold X, T, Y, s. lia. }
  rewrite EX in Hlo, Hhi.
  assert (Hm'pos : 0 < m') by (rewrite Em'; lia).
  (* the bound from above *)
  assert (Hupos : 0 < u) by nia.
  destruct Hu as [->|(b & eb & Eb & Heb & Hb & Hmaxb)]; [lia|].
  rewrite Z.abs_eq in Eb by lia.
  assert (Hup : dle m3 e3 (Zpos b) eb /\ e3 <= eb).
  { apply Hupp; [done| |].
    - destruct (Z_le_gt_dec e' eb) as [Hle|Hgt].
      + apply (dle_of_base e'); [lia|lia|].
        rewrite Z.sub_diag, Z.mul_1_r.
        assert (E : u * (Zpos my * 2 ^ Y) = Zpos b * 2 ^ (eb - e') * Zpos my * 2 ^ T).
        { rewrite Eb. rewrite <- !Z.mul_assoc. f_equal.
          rewrite (Z.mul_comm (2 ^ (eb + 1074))), (Z.mul_comm (2 ^ (eb - e'))).
          rewrite <- !Z.mul_assoc. f_equal.
          rewrite <- !pow2_split by (unfold T, Y; lia). f_equal. unfold T. lia. }
        rewrite E in Hhi.
        pose proof (pow2_pos (eb - e') ltac:(lia)).
        assert (m' <= Zpos b * 2 ^ (eb - e') * Zpos my) by nia.
        nia.
      + apply (dle_of_base eb); [lia|lia|].
        rewrite Z.sub_diag, Z.mul_1_r.
        assert (E : m' * 2 ^ T = m' * 2 ^ (e' - eb) * 2 ^ (eb + 1074 + Y)).
        { rewrite <- !Z.mul_assoc, <- pow2_split by (unfold Y; lia).
          f_equal. f_equal. unfold T. lia. }
        assert (E2 : u * (Zpos my * 2 ^ Y) = Zpos b * Zpos my * 2 ^ (eb + 1074 + Y)).
        { rewrite Eb, (pow2_split (eb + 1074) Y) by (unfold Y; lia). ring. }
        rewrite E, E2 in Hhi.
        pose proof (pow2_pos (eb + 1074 + Y) ltac:(unfold Y; lia)).
        pose proof (pow2_pos (e' - eb) ltac:(lia)).
        assert (m' * 2 ^ (e' - eb) <= Zpos b * Zpos my) by nia.
        nia.
    - intros Hle.
      assert (E : u * (Zpos my * 2 ^ Y) = Zpos b * 2 ^ (eb - e') * Zpos my * 2 ^ T).
      { rewrite Eb. rewrite <- !Z.mul_assoc. f_equal.
        rewrite (Z.mul_comm (2 ^ (eb + 1074))), (Z.mul_comm (2 ^ (eb - e'))).
        rewrite <- !Z.mul_assoc. f_equal.
        rewrite <- !pow2_split by (unfold T, Y; lia). f_equal. unfold T. lia. }
      rewrite E in Hhi.
      pose proof (pow2_pos (eb - e') ltac:(lia)).
      assert (m' <= Zpos b * 2 ^ (eb - e') * Zpos my) by nia.
      destruct (Z.eqb_spec r 0); nia. }
  destruct Hup as [Hup He3b].
  apply (dle_scaled 1074) in Hup; [|lia|lia]. rewrite <- Eb in Hup.
  destruct (of_rounded_units 53 1024 false m3 e3) as [Hf Hun]; [lia|lia|].
  rewrite Hun. cbn [cond_Zopp]. split; [done|]. split; [|done].
  (* the bound from below *)
  assert (HM3 : 0 <= m3 * 2 ^ (e3 + 1074)).
  { apply Z.mul_nonneg_nonneg; [lia|]. apply Z.lt_le_incl, pow2_pos. lia. }
  destruct (Z_le_gt_dec l 0) as [|Hlpos]; [lia|].
  destruct Hl as [->|(c & ec & Ec & Hec & Hc & Hmaxc)]; [lia|].
  rewrite Z.abs_eq in Ec by lia.
  assert (Hdown : dle (Zpos c) ec m3 e3).
  { apply Hlow; [done|]. intros Hle.
    assert (E : l * (Zpos my * 2 ^ Y) = Zpos c * 2 ^ (ec - e') * Zpos my * 2 ^ T).
    { rewrite Ec. rewrite <- !Z.mul_assoc. f_equal.
      rewrite (Z.mul_comm (2 ^ (ec + 1074))), (Z.mul_comm (2 ^ (ec - e'))).
      rewrite <- !Z.mul_assoc. f_equal.
      rewrite <- !pow2_split by (unfold T, Y; lia). f_equal. unfold T. lia. }
    rewrite E in Hlo.
    pose proof (pow2_pos (ec - e') ltac:(lia)).
    assert (Zpos c * 2 ^ (ec - e') * Zpos my <= m') by nia.
    nia. }
  apply (dle_scaled 1074) in Hdown; [|lia|lia]. by rewrite <- Ec in Hdown.
Qed.

End DivFacts.

(** ** The pointer *)

Module PointerFacts.
Import Num NumFacts RoundFacts RangeFacts DivFacts SceneRanges BoxFacts.
Local Open Scope Z_scope.

(** The quotient of a number that is not negative by a positive
    number. *)
Lemma div_between (x y : float) l u :
  is_finite x = true -> is_finite y = true ->
  0 <= units x -> 0 < units y ->
  representable64 l -> representable64 u ->
  l * units y <= units x * 2 ^ 1074 <= u * units y ->
  is_finite (x / y) = true /\ l <= units (x / y) <= u.
Proof.
  unfold is_finite, units. rewrite div_spec. unfold SF64div.
  change prec with 53. change emax with 1024.
  pose proof (Prim2SF_valid x) as Hvx. pose proof (Prim2SF_valid y) as Hvy.
  destruct (Prim2SF x) as [sx|sx| |sx mx ex], (Prim2SF y) as [sy|sy| |sy my ey];
    try done; intros _ _ Hx Hy Hl Hu Hlu.
  - pose proof (valid64 _ _ _ Hvy) as (_ & Hey & _).
    pose proof (units_sign sy my ey ltac:(lia)) as Hs.
    destruct sy; [lia|]. cbn [SFdiv]. split; [done|].
    cbn [SFunits cond_Zopp] in *. nia.
  - pose proof (valid64 _ _ _ Hvx) as (_ & Hex & _).
    pose proof (valid64 _ _ _ Hvy) as (_ & Hey & _).
    pose proof (units_sign sx mx ex ltac:(lia)) as Hsx.
    pose proof (units_sign sy my ey ltac:(lia)) as Hsy.
    destruct sx; [lia|]. destruct sy; [lia|].
    rewrite !units_finite in Hlu. cbn [cond_Zopp] in Hlu.
    by apply SFdiv_between.
Qed.

(** A part of a whole: the quotient lies in [[0, 1]], and the whole
    gives one. *)
Lemma part_in_range (x w : float) :
  between 0 w x -> is_finite w = true -> (0 <? w)%float = true ->
  in_range 0 1 (x / w) /\ (x = w -> in_range 1 1 (x / w)).
Proof.
  intros [H0 Hw] Hfw Hpos.
  pose proof (leb_finite 0 w x eq_refl Hfw H0 Hw) as Hfx.
  rewrite leb_units in H0, Hw by done. rewrite ltb_units in Hpos by done.
  apply Z.leb_le in H0, Hw. apply Z.ltb_lt in Hpos.
  change (units 0) with 0 in *.
  assert (H2 : 0 < 2 ^ 1074) by (by apply pow2_pos).
  split.
  - apply (div_between x w 0 (2 ^ 1074));
      [exact Hfx|exact Hfw|exact H0|exact Hpos|by left|apply (units_representable 1)|].
    nia.
  - intros ->.
    apply (div_between w w (2 ^ 1074) (2 ^ 1074));
      [exact Hfw|exact Hfw|exact H0|exact Hpos
      |apply (units_representable 1)|apply (units_representable 1)|lia].
Qed.

Lemma opp_in_range lo hi x :
  in_range lo hi x -> in_range (- hi) (- lo) (- x).
Proof.
  assert (Hopp : forall y : float, is_finite (- y) = is_finite y /\ units (- y) = - units y).
  { intros y. unfold is_finite, units. rewrite opp_spec.
    destruct (Prim2SF y) as [s|s| |s m e]; try done.
    split; [done|]. rewrite !units_finite. destruct s; simpl; lia. }
  intros [Hx Hr]. unfold in_range.
  destruct (Hopp x) as [-> ->], (Hopp lo) as [_ ->], (Hopp hi) as [_ ->].
  split; [done|lia].
Qed.

(** A finite number is determined by its exact value, zero apart. *)
Lemma units_inj (x y : float) :
  is_finite x = true -> is_finite y = true ->
  units x = units y -> units x <> 0 -> x = y.
Proof.
  unfold is_finite, units. intros Hx Hy E Hne. apply Prim2SF_inj.
  pose proof (Prim2SF_valid x) as Hvx. pose proof (Prim2SF_valid y) as Hvy.
  destruct (Prim2SF x) as [sx|sx| |sx mx ex]; [exfalso; by apply Hne|done|done|].
  destruct (Prim2SF y) as [sy|sy| |sy my ey]; [exfalso; by apply Hne|done|done|].
  pose proof (valid64 _ _ _ Hvx) as (_ & Hex & _).
  pose proof (valid64 _ _ _ Hvy) as (_ & Hey & _).
  pose proof (units_sign sx mx ex ltac:(lia)) as Hsx.
  pose proof (units_sign sy my ey ltac:(lia)) as Hsy.
  assert (Es : sx = sy) by (destruct sx, sy; try done; lia).
  subst sy.
  assert (Emag : Zpos mx * 2 ^ (ex + 1074) = Zpos my * 2 ^ (ey + 1074)).
  { rewrite !units_finite in E. destruct sx; simpl in E; lia. }
  assert (Ee : ex = ey).
  { destruct (Z.lt_trichotomy ex ey) as [Hlt|[->|Hgt]]; [|done|].
    - pose proof (canon_lt sx mx ex sx my ey Hvx Hvy Hlt). lia.
    - pose proof (canon_lt sx my ey sx mx ex Hvy Hvx Hgt). lia. }
  subst ey.
  assert (0 < 2 ^ (ex + 1074)) by (apply pow2_pos; lia).
  assert (Em : Zpos mx = Zpos my) by nia.
  by injection Em as ->.
Qed.

Lemma in_range_point c x : in_range c c x -> units c <> 0 -> is_finite c = true -> x = c.
Proof. intros [Hx Hr] Hc Hfc. apply units_inj; [done|done|lia|lia]. Qed.

(** The two coordinates the [mousemove] handlers compute. *)
Lemma pointer_x (x w : float) :
  between 0 w x -> is_finite w = true -> (0 <? w)%float = true ->
  let mx := ((x / w) * 2 - 1)%float in
  between (-1) 1 mx /\ (x = 0%float -> mx = (-1)%float) /\ (x = w -> mx = 1%float).
Proof.
  intros Hx Hfw Hpos mx.
  destruct (part_in_range x w Hx Hfw Hpos) as [Hd Hone].
  assert (Hstep : forall a b a2 b2 a3 b3 : float,
            in_range a b (x / w) ->
            units a2 * 2 ^ 1074 <= units a * units 2 ->
            units b * units 2 <= units b2 * 2 ^ 1074 ->
            units a3 <= units a2 - units 1 -> units b2 - units 1 <= units b3 ->
            in_range a3 b3 mx).
  { intros a b a2 b2 a3 b3 Hab H1 H2 H3 H4.
    apply (sub_in_range a2 b2 1 1 a3 b3 _ 1); [|by apply const_in_range|done|done].
    by apply (mul_in_range a b 2 a2 b2 _ Hab). }
  split; [|split].
  - apply in_range_between; [done|done|].
    apply (Hstep 0 1 0 2 (-1) 1 Hd)%float; units_closed.
  - intros ->.
    assert (H0 : in_range 0 0 (0 / w)).
    { destruct Hd as [Hf Hr]. split; [done|].
      assert (E : units (0 / w) = 0).
      { unfold units. rewrite div_spec. change (Prim2SF 0) with (S754_zero false).
        by destruct (Prim2SF w) as [s|s| |s m e]. }
      rewrite E. done. }
    apply in_range_point; [|units_closed|done].
    apply (sub_in_range 0 0 1 1 (-1) (-1) _ 1)%float;
      [|by apply const_in_range|units_closed|units_closed].
    apply (mul_in_range 0 0 2 0 0 _ H0)%float; units_closed.
  - intros E. specialize (Hone E).
    apply in_range_point; [|units_closed|done].
    apply (sub_in_range 2 2 1 1 1 1 _ 1)%float;
      [|by apply const_in_range|units_closed|units_closed].
    apply (mul_in_range 1 1 2 2 2 _ Hone)%float; units_closed.
Qed.

Lemma pointer_y (y h : float) :
  between 0 h y -> is_finite h = true -> (0 <? h)%float = true ->
  let my := (- (y / h) * 2 + 1)%float in
  between (-1) 1 my /\ (y = 0%float -> my = 1%float) /\ (y = h -> my = (-1)%float).
Proof.
  intros Hy Hfh Hpos my.
  destruct (part_in_range y h Hy Hfh Hpos) as [Hd Hone].
  split; [|split].
  - apply in_range_between; [done|done|].
    apply (add_in_range (-2) 0 1 1 (-1) 1 _ 1)%float;
      [|by apply const_in_range|units_closed|units_closed].
    apply (mul_in_range (-1) (-0) 2 (-2) 0 _ (opp_in_range 0 1 _ Hd))%float; units_closed.
  - intros ->.
    assert (H0 : in_range 0 0 (0 / h)).
    { destruct Hd as [Hf Hr]. split; [done|].
      assert (E : units (0 / h) = 0).
      { unfold units. rewrite div_spec. change (Prim2SF 0) with (S754_zero false).
        by destruct (Prim2SF h) as [s|s| |s m e]. }
      rewrite E. done. }
    apply in_range_point; [|units_closed|done].
    apply (add_in_range 0 0 1 1 1 1 _ 1)%float;
      [|by apply const_in_range|units_closed|units_closed].
    apply (mul_in_range (-0) (-0) 2 0 0 _ (opp_in_range 0 0 _ H0))%float; units_closed.
  - intros E. specialize (Hone E).
    apply in_range_point; [|units_closed|done].
    apply (add_in_range (-2) (-2) 1 1 (-1) (-1) _ 1)%float;
      [|by apply const_in_range|units_closed|units_closed].
    apply (mul_in_range (-1) (-1) 2 (-2) (-2) _ (opp_in_range 1 1 _ Hone))%float;
      units_closed.
Qed.

End PointerFacts.

(** ** The pointer and the spires: ranges *)

Module SpireFacts.
Import Num NumFacts RoundFacts RangeFacts DivFacts SceneRanges BoxFacts PointerFacts.
Import DreamSpires.
Local Open Scope Z_scope.

Lemma for_from_push {A : Type} (g : nat -> A) n : forall k (l : list A),
  for_from (fun i l => l ++ [g i]) k n l = l ++ map g (seq k n).
Proof.
  induction n as [|n IH]; intros k l; cbn [for_from seq map].
  - by rewrite app_nil_r.
  - rewrite IH, <- app_assoc. done.
Qed.

Lemma spires_map Math_sin Math_cos Math_random k0 :
  spires Math_sin Math_cos Math_random k0 =
  map (fun i => make_spire Math_sin Math_cos Math_random (k0 + 4 * i)) (seq 0 50).
Proof. unfold spires, for_range. by rewrite for_from_push. Qed.

(** The quotient of two positive numbers within ranges. *)
Lemma div_in_range a b c d l u (x y : float) :
  in_range a b x -> in_range c d y ->
  0 <= units a -> 0 < units c -> 0 <= units l ->
  units l * units d <= units a * 2 ^ 1074 ->
  units b * 2 ^ 1074 <= units u * units c ->
  in_range l u (x / y).
Proof.
  intros [Hx Hxr] [Hy Hyr] Ha Hc Hl H1 H2.
  assert (HP : 0 < 2 ^ 1074) by (by apply pow2_pos).
  apply (div_between x y (units l) (units u)); try done;
    [lia|lia|apply units_representable|apply units_representable|].
  assert (Hu : 0 <= units u) by nia.
  split; nia.
Qed.

(** The product of a number of [[-1, 1]] by a number that is not
    negative. *)
Lemma swing_in_range b u (x y : float) :
  in_range (-1) 1 x -> in_range 0 b y ->
  units (- u) = - units u -> units b <= units u ->
  in_range (- u) u (x * y).
Proof.
  intros [Hx Hxr] [Hy Hyr] Eu Hbu. unfold in_range, is_finite, units.
  rewrite mul_spec.
  apply SFmul_between; try apply Prim2SF_valid; try done; try apply units_representable.
  fold (units x). fold (units y). fold (units (- u)). fold (units u).
  change (units (-1)) with (- 2 ^ 1074) in Hxr. change (units 1) with (2 ^ 1074) in Hxr.
  change (units 0) with 0 in Hyr.
  assert (HP : 0 < 2 ^ 1074) by (by apply pow2_pos).
  rewrite Eu. split; nia.
Qed.

Section Ranges.
Variables Math_sin Math_cos : float -> float.
Variable Math_random : nat -> float.

#[local] Abbreviation make_spire := (make_spire Math_sin Math_cos Math_random).

Lemma make_spire_ranges k :
  draws Math_random -> unit_bounded Math_sin -> unit_bounded Math_cos ->
  let sp := make_spire k in
  in_range 2 10 (height sp) /\
  in_range 0 0.3 (radiusBottom sp) /\
  in_range (-20) 20 (Dream.fx (spire_position sp)) /\
  in_range 1 5 (Dream.fy (spire_position sp)) /\
  in_range (-20) 20 (Dream.fz (spire_position sp)).
Proof.
  intros Hdraws Hsin Hcos. cbv zeta.
  cbn [make_spire DreamSpires.make_spire height radiusBottom spire_position Dream.fx Dream.fy Dream.fz].
  pose proof (draw_range Math_random k Hdraws) as H0.
  pose proof (draw_range Math_random (k + 1) Hdraws) as H1.
  pose proof (draw_range Math_random (k + 2) Hdraws) as H2.
  pose proof (draw_range Math_random (k + 3) Hdraws) as H3.
  assert (Hh : in_range 2 10 (Math_random k * 8 + 2)).
  { apply (add_in_range 0 8 2 2 _ _ _ 2)%float;
      [|by apply const_in_range|units_closed|units_closed].
    apply (mul_in_range 0 1 8 _ _ _ H0)%float; units_closed. }
  assert (Hang : in_range 0 7 (Math_random (k + 2)%nat * Math_PI * 2)).
  { apply (mul_in_range 0 3.5 2 _ _ _)%float; [|units_closed..].
    apply (mul_in_range 0 1 Math_PI _ _ _ H2)%float; units_closed. }
  assert (Hrad : in_range 0 20 (15 + Math_random (k + 3)%nat * 5)).
  { apply (add_in_range 15 15 0 5 _ _ 15 _)%float;
      [by apply const_in_range| |units_closed|units_closed].
    apply (mul_in_range 0 1 5 _ _ _ H3)%float; units_closed. }
  split; [exact Hh|]. split; [|split; [|split]].
  - apply (mul_in_range 0 1 0.3 _ _ _ H1)%float; units_closed.
  - apply (swing_in_range 20 20 _ _ (unit_bounded_range _ _ Hcos (proj1 Hang)) Hrad)%float;
      units_closed.
  - apply (div_in_range 2 10 2 2 1 5 _ 2 Hh (const_in_range 2 eq_refl))%float; units_closed.
  - apply (swing_in_range 20 20 _ _ (unit_bounded_range _ _ Hsin (proj1 Hang)) Hrad)%float;
      units_closed.
Qed.

End Ranges.
End SpireFacts.

(** ** A clock reading that is not a number *)

Module NaNFacts.
Import Num NumFacts.

(** [Number.isNaN(x)] *)
Definition isNaN (x : float) : bool :=
  match Prim2SF x with
  | S754_nan => true
  | _ => false
  end.

Lemma isNaN_Prim2SF x : isNaN x = true <-> Prim2SF x = S754_nan.
Proof. unfold isNaN. by destruct (Prim2SF x). Qed.

Lemma SF2Prim_nan x : x = S754_nan -> isNaN (SF2Prim x) = true.
Proof. intros ->. apply isNaN_Prim2SF. by apply Prim2SF_SF2Prim. Qed.

Lemma fround_nan x : isNaN x = true -> isNaN (fround x) = true.
Proof.
  intros H. apply isNaN_Prim2SF in H. unfold fround. apply SF2Prim_nan. by rewrite H.
Qed.

Lemma jrem_nan x y : isNaN x = true -> isNaN (jrem x y) = true.
Proof.
  intros H. apply isNaN_Prim2SF in H. unfold jrem. apply SF2Prim_nan. by rewrite H.
Qed.

(** The remainder of an infinite number is not a number. *)
Lemma jrem_not_finite x y : is_finite x = false -> isNaN (jrem x y) = true.
Proof.
  unfold is_finite. intros H. unfold jrem. apply SF2Prim_nan.
  destruct (Prim2SF x) as [s|s| |s m e]; try done.
  cbn [SFrem]. by destruct (Prim2SF y).
Qed.

Lemma add_nan_l x y : isNaN x = true -> isNaN (x + y) = true.
Proof.
  intros H. apply isNaN_Prim2SF in H. apply isNaN_Prim2SF.
  rewrite add_spec, H. done.
Qed.

(** A sum with a term that is not finite is not finite. *)
Lemma add_not_finite_r x y : is_finite y = false -> is_finite (x + y) = false.
Proof.
  unfold is_finite. rewrite add_spec. unfold SF64add.
  destruct (Prim2SF y) as [sy|sy| |sy my ey]; try done; intros _;
    destruct (Prim2SF x) as [sx|sx| |sx mx ex]; try done.
  simpl. by destruct sx, sy.
Qed.

(** Twice a number that is not finite is not finite. *)
Lemma double_not_finite x : is_finite x = false -> is_finite (x * 2) = false.
Proof.
  unfold is_finite. rewrite mul_spec. unfold SF64mul.
  change (Prim2SF 2) with (S754_finite false 4503599627370496 (-51)).
  by destruct (Prim2SF x) as [s|s| |s m e].
Qed.

(** What a frame stores in a y component when the store or the clock
    is bad. *)
Lemma vent_rule_nan dt i v :
  (i mod 3 = 1)%nat -> isNaN v = true ->
  isNaN (DeepSeaParticles.vent_rule dt i v) = true.
Proof.
  intros Hi Hv. unfold DeepSeaParticles.vent_rule. rewrite Hi. cbn [Nat.eqb].
  by apply fround_nan, jrem_nan, add_nan_l.
Qed.

Lemma vent_rule_bad_clock dt i v :
  (i mod 3 = 1)%nat -> is_finite dt = false ->
  isNaN (DeepSeaParticles.vent_rule dt i v) = true.
Proof.
  intros Hi Hdt. unfold DeepSeaParticles.vent_rule. rewrite Hi. cbn [Nat.eqb].
  by apply fround_nan, jrem_not_finite, add_not_finite_r, double_not_finite.
Qed.

(** All y components of a vent buffer are not numbers. *)
Definition poisoned (a : list float) : Prop :=
  forall i y, (i mod 3 = 1)%nat -> a !! i = Some y -> isNaN y = true.

Section Frames.
Context {D : Type}.
Variables Math_sin Math_cos : float -> float.

#[local] Abbreviation animate_particles := (DeepSea.animate_particles Math_sin Math_cos).

Lemma poisoned_frame (f : @DeepSea.Frame D) p :
  poisoned (DeepSea.ventLive p) -> poisoned (DeepSea.ventLive (animate_particles f p)).
Proof.
  intros Hp i y Hi. rewrite DeepSeaParticles.animate_particles_vent, list_lookup_imap.
  destruct (DeepSea.ventLive p !! i) as [v|] eqn:E; [|done].
  intros [= <-]. apply vent_rule_nan; [done|]. by apply (Hp i v).
Qed.

Lemma bad_clock_frame (f : @DeepSea.Frame D) p :
  is_finite (DeepSea.deltaTime f) = false ->
  poisoned (DeepSea.ventLive (animate_particles f p)).
Proof.
  intros Hdt i y Hi. rewrite DeepSeaParticles.animate_particles_vent, list_lookup_imap.
  destruct (DeepSea.ventLive p !! i) as [v|] eqn:E; [|done].
  intros [= <-]. by apply vent_rule_bad_clock.
Qed.

Lemma vent_length_frame (f : @DeepSea.Frame D) p :
  length (DeepSea.ventLive (animate_particles f p)) = length (DeepSea.ventLive p).
Proof. by rewrite DeepSeaParticles.animate_particles_vent, length_imap. Qed.

End Frames.
End NaNFacts.

(** * The claims *)

Section Claims.
Context {D Dynamics : Type}.
Variable dleb : D -> D -> bool.
Variables Math_sin Math_cos : float -> float.
Variable Math_random : nat -> float.
Variables ease_power3_inOut ease_default : Q -> Q.
Variable world_step :
  float -> float -> nat -> list (@Dream.Body Dynamics) -> list (@Dream.Body Dynamics).
Variable applyForce : Dream.fvec3 -> Dream.fvec3 -> @Dream.Body Dynamics -> @Dream.Body Dynamics.

#[local] Abbreviation sea_run :=
  (DeepSea.run dleb Math_sin Math_cos ease_power3_inOut ease_default).
#[local] Abbreviation sea_step :=
  (DeepSea.step dleb Math_sin Math_cos ease_power3_inOut ease_default).
#[local] Abbreviation sea_animate :=
  (DeepSea.animate dleb Math_sin Math_cos ease_default).
#[local] Abbreviation sea_onClick := (DeepSea.onClick dleb ease_power3_inOut).
#[local] Abbreviation dream_run :=
  (Dream.run dleb Math_random ease_power3_inOut world_step applyForce).
#[local] Abbreviation dream_animate :=
  (Dream.animate Math_random world_step applyForce).
#[local] Abbreviation dream_onClick :=
  (Dream.onClick (Dynamics := Dynamics) dleb ease_power3_inOut).

(** C10: along every run, the components no update rule writes keep the
    values they had: the x and z components of the vent buffer (elements
    [3k] and [3k+2]), the z components of the swarm buffer (elements
    [3k+2]) and, in the dream scene, the whole position buffer of the
    river, whose array has [3 * 5000] elements at creation; a frame only
    sets the rotation of the river object. *)
Theorem unwritten_components_keep_their_values :
  (forall (es : list (@DeepSea.Event D)) (s : DeepSea.State),
     exists s', sea_run es s = Ok s' /\
       forall k : nat,
         DeepSea.ventLive (DeepSea.particles s') !! (3 * k)%nat =
           DeepSea.ventLive (DeepSea.particles s) !! (3 * k)%nat /\
         DeepSea.ventLive (DeepSea.particles s') !! (3 * k + 2)%nat =
           DeepSea.ventLive (DeepSea.particles s) !! (3 * k + 2)%nat /\
         DeepSea.swarmLive (DeepSea.particles s') !! (3 * k + 2)%nat =
           DeepSea.swarmLive (DeepSea.particles s) !! (3 * k + 2)%nat) /\
  (forall (es : list (@Dream.Event D)) (s : @Dream.State Dynamics),
     exists s', dream_run es s = Ok s' /\
       Dream.posLive (Dream.visuals s') = Dream.posLive (Dream.visuals s)) /\
  (forall (f : Dream.Frame) (s : @Dream.State Dynamics),
     exists s', dream_animate f s = Ok s' /\
       Dream.particleRotationY (Dream.visuals s') = (Dream.elapsedTime f * 0.05)%float) /\
  (forall k0, length (Dream.posArray Math_random k0) = (3 * 5000)%nat).
Proof.
  split; [|split; [|split]].
  - intros es s.
    destruct (DeepSeaRuns.run_ok dleb Math_sin Math_cos ease_power3_inOut ease_default es s)
      as [s' Hrun].
    exists s'. split; [done|].
    assert (Untouched.kept_from (DeepSea.particles s) (DeepSea.particles s')) as [Hv Hs].
    { apply (DeepSeaRuns.run_particles_inv dleb Math_sin Math_cos
               ease_power3_inOut ease_default
               (Untouched.kept_from (DeepSea.particles s))) with es s;
        [|split; done|exact Hrun].
      intros f p. apply Untouched.kept_from_frame. }
    intros k. repeat split.
    + apply Hv. rewrite Nat.mul_comm, Nat.Div0.mod_mul. lia.
    + apply Hv. rewrite Nat.add_comm, Nat.mul_comm, Nat.Div0.mod_add. simpl. lia.
    + apply Hs. by rewrite Nat.add_comm, Nat.mul_comm, Nat.Div0.mod_add.
  - intros es s.
    destruct (DreamRuns.dream_run_ok dleb Math_random ease_power3_inOut world_step applyForce es s)
      as [s' Hrun].
    exists s'. split; [done|]. by eapply DreamRuns.run_posLive.
  - intros f s.
    destruct (DreamRuns.dream_animate_ok Math_random world_step applyForce f s) as (v' & Hv & H).
    eexists. split; [exact H|]. simpl.
    rewrite DreamRuns.animate_visuals_ok in Hv. injection Hv as <-.
    unfold Dream.render, Dream.onBeforeCompile. by destruct (Dream.compiles f).
  - intros k0. apply Untouched.posArray_length.
Qed.

(** C1 (as amended): the swarm field recomputes the x and y components
    (elements [3k] and [3k+1]) of every point from the frame's elapsed
    time and the base array alone, as [base + sin (t + base) * 2] and
    [base + cos (t + base) * 2] rounded to binary32; the z component
    keeps the value of the base array.  Whatever happened before, after
    a frame the swarm buffer is [swarm_of_base t base].  The river of
    the dream scene is not recomputed per point: no event writes its
    buffer, a frame sets the rotation of the object to [t * 0.05]. *)
Theorem swarm_recomputes_x_and_y_from_time_and_base :
  (forall (es : list (@DeepSea.Event D)) (f : @DeepSea.Frame D)
          (vent base : list float) (t0 d0 : string),
     exists s',
       sea_run (es ++ [DeepSea.EFrame f]) (DeepSea.created_from vent base t0 d0) = Ok s' /\
       DeepSea.swarmPosArray (DeepSea.particles s') = base /\
       DeepSea.swarmLive (DeepSea.particles s') =
         DeepSeaParticles.swarm_of_base Math_sin Math_cos (DeepSea.elapsedTime f) base /\
       forall k : nat,
         DeepSea.swarmLive (DeepSea.particles s') !! (3 * k)%nat =
           (fun b => fround (b + Math_sin (DeepSea.elapsedTime f + b) * 2)%float)
             <$> base !! (3 * k)%nat /\
         DeepSea.swarmLive (DeepSea.particles s') !! (3 * k + 1)%nat =
           (fun b => fround (b + Math_cos (DeepSea.elapsedTime f + b) * 2)%float)
             <$> base !! (3 * k + 1)%nat /\
         DeepSea.swarmLive (DeepSea.particles s') !! (3 * k + 2)%nat =
           base !! (3 * k + 2)%nat) /\
  (forall (es : list (@Dream.Event D)) (f : Dream.Frame) (s : @Dream.State Dynamics),
     exists s',
       dream_run (es ++ [Dream.EFrame f]) s = Ok s' /\
       Dream.posLive (Dream.visuals s') = Dream.posLive (Dream.visuals s) /\
       Dream.particleRotationY (Dream.visuals s') = (Dream.elapsedTime f * 0.05)%float).
Proof.
  split.
  - intros es f vent base t0 d0.
    destruct (SwarmFacts.swarm_after_frame dleb Math_sin Math_cos ease_power3_inOut
                ease_default es f vent base t0 d0) as (s' & Hrun & Hb & Hl).
    exists s'. repeat split; try done; rewrite Hl.
    + apply SwarmFacts.swarm_of_base_x.
    + apply SwarmFacts.swarm_of_base_y.
    + apply SwarmFacts.swarm_of_base_z.
      rewrite Nat.add_comm, Nat.mul_comm. apply Nat.Div0.mod_add.
  - intros es f s.
    destruct (DreamRuns.dream_run_ok dleb Math_random ease_power3_inOut world_step applyForce es s)
      as [s1 H1].
    destruct (DreamRuns.dream_animate_ok Math_random world_step applyForce f s1) as (v' & Hv & H2).
    eexists. split; [|split].
    + rewrite DreamRuns.dream_run_app, H1. simpl. rewrite H2. reflexivity.
    + rewrite DreamRuns.animate_visuals_ok in Hv. injection Hv as <-.
      cbn [Dream.visuals]. unfold Dream.render, Dream.onBeforeCompile.
      destruct (Dream.compiles f); cbn [Dream.posLive];
        by apply DreamRuns.run_posLive
          with dleb Math_random ease_power3_inOut world_step applyForce es.
    + rewrite DreamRuns.animate_visuals_ok in Hv. injection Hv as <-.
      cbn [Dream.visuals]. unfold Dream.render, Dream.onBeforeCompile.
      by destruct (Dream.compiles f).
Qed.

(** C2 (as amended): a frame stores in every y component (element
    [3k+1]) of the vent buffer the remainder [(y + dt * 2) % 20],
    rounded to binary32 by the [Float32Array].  When [y] and [dt] are not
    negative and the sum is finite, the remainder lies in [[0, 20)],
    however often 20 goes into the sum, and the stored value lies in
    [[0, 20]]. *)
Theorem vent_y_is_remainder_within_ceiling :
  forall (f : @DeepSea.Frame D) (s : DeepSea.State) (k : nat) (y : float),
    DeepSea.ventLive (DeepSea.particles s) !! (3 * k + 1)%nat = Some y ->
    exists s',
      sea_animate f s = Ok s' /\
      let newY := jrem (y + DeepSea.deltaTime f * 2)%float 20 in
      DeepSea.ventLive (DeepSea.particles s') !! (3 * k + 1)%nat = Some (fround newY) /\
      ((0 <=? y)%float = true -> (0 <=? DeepSea.deltaTime f)%float = true ->
       is_finite (y + DeepSea.deltaTime f * 2) = true ->
       (0 <=? newY)%float = true /\ (newY <? 20)%float = true /\
       (0 <=? fround newY)%float = true /\ (fround newY <=? 20)%float = true).
Proof.
  intros f s k y Hy.
  destruct (DeepSeaRuns.animate_ok dleb Math_sin Math_cos ease_default f s)
    as (m' & _ & H).
  eexists. split; [exact H|]. cbn [DeepSea.particles]. split.
  - rewrite DeepSeaParticles.animate_particles_vent, list_lookup_imap, Hy.
    cbn [fmap option_fmap option_map]. unfold DeepSeaParticles.vent_rule.
    assert (E : ((3 * k + 1) mod 3 = 1)%nat).
    { by rewrite Nat.add_comm, Nat.mul_comm, Nat.Div0.mod_add. }
    by rewrite E.
  - intros H0 Hdt Hfin.
    apply NumFacts.wrap_bounds; [done|]. by apply NumFacts.sum_nonneg.
Qed.


(** C6: two runs of the scene, whatever their histories, that start from
    the same base array and end with a frame at the same elapsed time
    leave identical swarm buffers. *)
Theorem swarm_update_is_deterministic :
  forall (es1 es2 : list (@DeepSea.Event D)) (f1 f2 : @DeepSea.Frame D)
         (vent1 vent2 base : list float) (t1 d1 t2 d2 : string),
    DeepSea.elapsedTime f1 = DeepSea.elapsedTime f2 ->
    exists s1 s2,
      sea_run (es1 ++ [DeepSea.EFrame f1]) (DeepSea.created_from vent1 base t1 d1) = Ok s1 /\
      sea_run (es2 ++ [DeepSea.EFrame f2]) (DeepSea.created_from vent2 base t2 d2) = Ok s2 /\
      DeepSea.swarmLive (DeepSea.particles s1) = DeepSea.swarmLive (DeepSea.particles s2).
Proof.
  intros es1 es2 f1 f2 vent1 vent2 base t1 d1 t2 d2 Ht.
  destruct (SwarmFacts.swarm_after_frame dleb Math_sin Math_cos ease_power3_inOut
              ease_default es1 f1 vent1 base t1 d1) as (s1 & Hrun1 & _ & Hl1).
  destruct (SwarmFacts.swarm_after_frame dleb Math_sin Math_cos ease_power3_inOut
              ease_default es2 f2 vent2 base t2 d2) as (s2 & Hrun2 & _ & Hl2).
  exists s1, s2. repeat split; try done. by rewrite Hl1, Hl2, Ht.
Qed.

(** C7: a frame never raises an exception.  While the material's shader
    handle is missing, the frame leaves it missing and writes no time
    (unless rendering compiles the program in that very frame, which
    captures a handle with time 0); every later frame tries again.
    Once a handle is captured it stays captured along every run, and
    each frame writes its elapsed time into the [uTime] uniform before
    rendering.  This holds for the jellyfish material of the deep-sea
    scene and for the heart material of the dream scene. *)
Theorem shader_time_written_when_handle_captured :
  (forall (f : @DeepSea.Frame D) (s : DeepSea.State),
     exists m' s',
       DeepSea.animate_shader Math_sin f (DeepSea.materials s) = Ok m' /\
       sea_animate f s = Ok s' /\
       DeepSea.jellyfishShader m' =
         match DeepSea.jellyfishShader (DeepSea.materials s) with
         | Some _ => Some {| DeepSea.uTime := DeepSea.elapsedTime f |}
         | None => None
         end /\
       DeepSea.jellyfishShader (DeepSea.materials s') =
         if DeepSea.compiles f then Some {| DeepSea.uTime := 0 |}
         else DeepSea.jellyfishShader m') /\
  (forall (es : list (@DeepSea.Event D)) (s : DeepSea.State),
     exists s', sea_run es s = Ok s' /\
       (is_Some (DeepSea.jellyfishShader (DeepSea.materials s)) ->
        is_Some (DeepSea.jellyfishShader (DeepSea.materials s')))) /\
  (forall (f : Dream.Frame) (s : @Dream.State Dynamics),
     exists v' s',
       Dream.animate_visuals f (Dream.visuals s) = Ok v' /\
       dream_animate f s = Ok s' /\
       Dream.heartShader v' =
         match Dream.heartShader (Dream.visuals s) with
         | Some _ => Some {| Dream.uTime := Dream.elapsedTime f |}
         | None => None
         end /\
       Dream.heartShader (Dream.visuals s') =
         if Dream.compiles f then Some {| Dream.uTime := 0 |}
         else Dream.heartShader v') /\
  (forall (es : list (@Dream.Event D)) (s : @Dream.State Dynamics),
     exists s', dream_run es s = Ok s' /\
       (is_Some (Dream.heartShader (Dream.visuals s)) ->
        is_Some (Dream.heartShader (Dream.visuals s')))).
Proof.
  split; [|split; [|split]].
  - intros f s.
    destruct (DeepSeaRuns.animate_ok dleb Math_sin Math_cos ease_default f s)
      as (m' & Hm & H).
    exists m'. eexists. split; [exact Hm|]. split; [exact H|]. split.
    + eapply DeepSeaRuns.animate_shader_handle. exact Hm.
    + cbn [DeepSea.materials]. unfold DeepSea.render, DeepSea.onBeforeCompile.
      by destruct (DeepSea.compiles f).
  - intros es s.
    destruct (DeepSeaRuns.run_ok dleb Math_sin Math_cos ease_power3_inOut ease_default es s)
      as [s' Hrun].
    exists s'. split; [done|]. by eapply DeepSeaRuns.run_keeps_handle.
  - intros f s.
    destruct (DreamRuns.dream_animate_ok Math_random world_step applyForce f s)
      as (v' & Hv & H).
    exists v'. eexists. split; [exact Hv|]. split; [exact H|].
    rewrite DreamRuns.animate_visuals_ok in Hv. injection Hv as <-. split.
    + done.
    + cbn [Dream.visuals]. unfold Dream.render, Dream.onBeforeCompile.
      by destruct (Dream.compiles f).
  - intros es s.
    destruct (DreamRuns.dream_run_ok dleb Math_random ease_power3_inOut world_step
                applyForce es s) as [s' Hrun].
    exists s'. split; [done|]. by eapply DreamRuns.dream_run_keeps_handle.
Qed.

(** C3: when the nearest hit of a click is an object whose name has an
    entry in [focusPoints], the handler returns without exception, has
    written the entry's title and description, and has put the camera
    target into a transition from its current value to the entry's
    position, started at the time of the click, with the fixed duration
    (2.5 s in the deep-sea scene, 2 s in the dream scene) and the
    ['power3.inOut'] curve.  As long as no other click follows, the
    text stays and, from the end of the duration on, the camera target
    equals the entry's position. *)
Theorem click_starts_transition_to_focus_point :
  (forall (c : @DeepSea.Click D) (s : DeepSea.State) hit fd,
     Raycast.intersectObjects dleb (DeepSea.click_ray c)
       (DeepSea.interactiveObjects (DeepSea.registry s)) !! 0%nat = Some hit ->
     DeepSea.focusPoints (DeepSea.registry s) !! name (Raycast.object hit) = Some fd ->
     exists s',
       sea_onClick c s = Ok s' /\
       DeepSea.infoTitle (DeepSea.interaction s') = title fd /\
       DeepSea.infoDescription (DeepSea.interaction s') = description fd /\
       DeepSea.controlsTarget (DeepSea.interaction s') =
         Tween.Moving
           {| Tween.tw_from :=
                Tween.value Tween.lerp3
                  (DeepSea.controlsTarget (DeepSea.interaction s)) (DeepSea.click_now c);
              Tween.tw_to := position fd;
              Tween.tw_start := DeepSea.click_now c;
              Tween.tw_duration := 5 # 2;
              Tween.tw_ease := ease_power3_inOut |} /\
       forall (es : list (@DeepSea.Event D)) s'',
         Forall (fun e => DeepSeaRuns.is_click e = false) es ->
         sea_run es s' = Ok s'' ->
         DeepSea.infoTitle (DeepSea.interaction s'') = title fd /\
         DeepSea.infoDescription (DeepSea.interaction s'') = description fd /\
         forall t : Q, (DeepSea.click_now c + (5 # 2) <= t)%Q ->
           Tween.value Tween.lerp3
             (DeepSea.controlsTarget (DeepSea.interaction s'')) t = position fd) /\
  (forall (c : @Dream.Click D) (s : @Dream.State Dynamics) hit fd,
     Raycast.intersectObjects dleb (Dream.click_ray c)
       (Dream.interactiveObjects (Dream.registry s)) !! 0%nat = Some hit ->
     Dream.focusPoints (Dream.registry s) !! name (Raycast.object hit) = Some fd ->
     exists s',
       dream_onClick c s = Ok s' /\
       Dream.infoTitle (Dream.interaction s') = title fd /\
       Dream.infoDescription (Dream.interaction s') = description fd /\
       Dream.controlsTarget (Dream.interaction s') =
         Tween.Moving
           {| Tween.tw_from :=
                Tween.value Tween.lerp3
                  (Dream.controlsTarget (Dream.interaction s)) (Dream.click_now c);
              Tween.tw_to := position fd;
              Tween.tw_start := Dream.click_now c;
              Tween.tw_duration := 2;
              Tween.tw_ease := ease_power3_inOut |} /\
       forall (es : list (@Dream.Event D)) s'',
         Forall (fun e => DreamRuns.is_click e = false) es ->
         dream_run es s' = Ok s'' ->
         Dream.infoTitle (Dream.interaction s'') = title fd /\
         Dream.infoDescription (Dream.interaction s'') = description fd /\
         forall t : Q, (Dream.click_now c + 2 <= t)%Q ->
           Tween.value Tween.lerp3
             (Dream.controlsTarget (Dream.interaction s'')) t = position fd).
Proof.
  split.
  - intros c s hit fd Hhit Hfd.
    pose proof (DeepSeaRuns.onClick_cases dleb ease_power3_inOut c s) as H.
    simpl in H. rewrite Hhit, Hfd in H.
    eexists. split; [exact H|]. cbn [DeepSea.interaction DeepSea.with_interaction
      DeepSea.infoTitle DeepSea.infoDescription DeepSea.controlsTarget].
    repeat split; try done.
    all: pose proof (DeepSeaRuns.run_focus_view dleb Math_sin Math_cos ease_power3_inOut
                       ease_default es _ _ H0 H1) as Hv;
      unfold DeepSeaRuns.focus_view in Hv; simpl in Hv; injection Hv as Hc Ht Hd.
    + done.
    + done.
    + intros t Hle. rewrite Hc. by apply TweenFacts.value_to_finished.
  - intros c s hit fd Hhit Hfd.
    pose proof (DreamRuns.dream_onClick_cases (Dynamics := Dynamics) dleb
                  ease_power3_inOut c s) as H.
    simpl in H. rewrite Hhit, Hfd in H.
    eexists. split; [exact H|]. cbn [Dream.interaction
      Dream.infoTitle Dream.infoDescription Dream.controlsTarget].
    repeat split; try done.
    all: rewrite (DreamRuns.dream_run_interaction dleb Math_random ease_power3_inOut
                    world_step applyForce es _ _ H0 H1); simpl.
    + done.
    + done.
    + intros t Hle. by apply TweenFacts.value_to_finished.
Qed.


(** C9 (as amended): in every frame, for every child of the scene named
    "photography" (listed once, with a material), the frame starts a
    one-second transition of the glow from its current value to 0.7 when
    the pointer ray meets the object (the object is interactive and the
    ray has a hit on it) and to 0 when it does not.  Once a full second
    has passed since that frame, the glow it set going is at the
    target.  The frame leaves the camera target and the text alone, and
    a click leaves the glow alone.  (Each frame restarts the transition:
    whether the target is reached after one second of hovering depends
    on when the frames come.) *)
Theorem hover_starts_glow_transition_each_frame :
  forall (f : @DeepSea.Frame D) (s : DeepSea.State) (c : Obj) (a : Tween.animated Q),
    NoDup (map oid (DeepSea.scene_children (DeepSea.registry s))) ->
    c ∈ DeepSea.scene_children (DeepSea.registry s) ->
    name c = "photography" ->
    DeepSea.emissiveIntensity (DeepSea.interaction s) !! oid c = Some a ->
    let hit :=
      map Raycast.object
        (Raycast.intersectObjects dleb (DeepSea.frame_ray f)
           (DeepSea.interactiveObjects (DeepSea.registry s))) in
    let target : Q := (if bool_decide (c ∈ hit) then 7 # 10 else 0)%Q in
    (c ∈ hit <->
     c ∈ DeepSea.interactiveObjects (DeepSea.registry s) /\ DeepSea.frame_ray f c <> []) /\
    (exists s' g,
       sea_animate f s = Ok s' /\
       DeepSea.emissiveIntensity (DeepSea.interaction s') !! oid c = Some g /\
       g = Tween.Moving
             {| Tween.tw_from := Tween.value Tween.lerpQ a (DeepSea.frame_now f);
                Tween.tw_to := target;
                Tween.tw_start := DeepSea.frame_now f;
                Tween.tw_duration := 1;
                Tween.tw_ease := ease_default |} /\
       (forall t : Q, (DeepSea.frame_now f + 1 <= t)%Q ->
          Tween.value Tween.lerpQ g t = target) /\
       DeepSea.controlsTarget (DeepSea.interaction s') =
         DeepSea.controlsTarget (DeepSea.interaction s) /\
       DeepSea.infoTitle (DeepSea.interaction s') =
         DeepSea.infoTitle (DeepSea.interaction s) /\
       DeepSea.infoDescription (DeepSea.interaction s') =
         DeepSea.infoDescription (DeepSea.interaction s)) /\
    (forall cl : @DeepSea.Click D,
       exists s1, sea_onClick cl s = Ok s1 /\
         DeepSea.emissiveIntensity (DeepSea.interaction s1) =
           DeepSea.emissiveIntensity (DeepSea.interaction s)).
Proof.
  intros f s c a Hnd Hc Hname Ha hit target. split; [|split].
  - apply RaycastFacts.hit_objects.
  - destruct (DeepSeaRuns.animate_ok dleb Math_sin Math_cos ease_default f s)
      as (m' & _ & H).
    eexists. eexists. split; [exact H|]. cbn [DeepSea.interaction].
    pose proof (DeepSeaRuns.animate_hover_focus_view dleb ease_default f
                  (DeepSea.registry s) (DeepSea.interaction s)) as Hv.
    unfold DeepSeaRuns.focus_view in Hv. injection Hv as Hct Hti Hde.
    split; [|split; [reflexivity|split; [|done]]].
    + rewrite (HoverFacts.animate_hover_child dleb ease_default f _ _ c Hnd Hc Hname).
      rewrite Ha. reflexivity.
    + intros t Ht. by apply TweenFacts.value_to_finished.
  - intros cl.
    destruct (DeepSeaRuns.onClick_ok dleb ease_power3_inOut cl s)
      as (s1 & H1 & _ & _ & _ & He).
    by exists s1.
Qed.

End Claims.

Section NearestHit.
Context {D : Type}.
Variable dleb : D -> D -> bool.
Hypothesis dleb_total : forall a b, dleb a b = true \/ dleb b a = true.
Hypothesis dleb_trans :
  forall a b c, dleb a b = true -> dleb b c = true -> dleb a c = true.


End NearestHit.

(** * Further properties of the code *)

Section Coverage.
Context {D Dynamics : Type}.
Variable dleb : D -> D -> bool.
Variables Math_sin Math_cos : float -> float.
Variable Math_random : nat -> float.
Variables ease_power3_inOut ease_default : Q -> Q.
Variable world_step :
  float -> float -> nat -> list (@Dream.Body Dynamics) -> list (@Dream.Body Dynamics).
Variable applyForce : Dream.fvec3 -> Dream.fvec3 -> @Dream.Body Dynamics -> @Dream.Body Dynamics.

#[local] Abbreviation sea_run :=
  (DeepSea.run dleb Math_sin Math_cos ease_power3_inOut ease_default).
#[local] Abbreviation sea_onClick := (DeepSea.onClick dleb ease_power3_inOut).
#[local] Abbreviation dream_run :=
  (Dream.run dleb Math_random ease_power3_inOut world_step applyForce).
#[local] Abbreviation dream_onClick :=
  (Dream.onClick (Dynamics := Dynamics) dleb ease_power3_inOut).

(** X1: the simulation follows the clock alone.  In the deep-sea scene
    the particle buffers and the materials (caustics offset, shader
    time, heights of jellyfish and light, intensity) at the end of a
    run are determined by those it started from and by the clock
    readings and compile flags of its frames, in order: two runs that
    agree on these end with the same buffers and materials, whatever
    clicks and pointer moves they contain and whatever the pointer rays
    of their frames and clicks meet.  In the dream scene the same holds
    of the physics and of the visuals for two runs with the same
    frames.  (The glow of the tablets follows the pointer ray and is no
    part of this.) *)
Theorem simulation_follows_the_clock_alone :
  (forall (es1 es2 : list (@DeepSea.Event D)) (s1 s2 : DeepSea.State),
     DeepSea.particles s1 = DeepSea.particles s2 ->
     DeepSea.materials s1 = DeepSea.materials s2 ->
     SeaCompose.clocks es1 = SeaCompose.clocks es2 ->
     exists r1 r2,
       sea_run es1 s1 = Ok r1 /\ sea_run es2 s2 = Ok r2 /\
       DeepSea.particles r1 = DeepSea.particles r2 /\
       DeepSea.materials r1 = DeepSea.materials r2) /\
  (forall (es1 es2 : list (@Dream.Event D)) (s1 s2 : @Dream.State Dynamics),
     Dream.physics s1 = Dream.physics s2 ->
     Dream.visuals s1 = Dream.visuals s2 ->
     DreamCompose.frames es1 = DreamCompose.frames es2 ->
     exists r1 r2,
       dream_run es1 s1 = Ok r1 /\ dream_run es2 s2 = Ok r2 /\
       Dream.physics r1 = Dream.physics r2 /\
       Dream.visuals r1 = Dream.visuals r2).
Proof.
  split.
  - intros es1 es2 s1 s2 Ep Em Ek.
    destruct (DeepSeaRuns.run_ok dleb Math_sin Math_cos ease_power3_inOut ease_default
                es1 s1) as [r1 H1].
    destruct (DeepSeaRuns.run_ok dleb Math_sin Math_cos ease_power3_inOut ease_default
                es2 s2) as [r2 H2].
    exists r1, r2. split; [done|]. split; [done|].
    pose proof (SeaCompose.run_clocked dleb Math_sin Math_cos ease_power3_inOut
                  ease_default es1 s1 r1 H1) as C1.
    pose proof (SeaCompose.run_clocked dleb Math_sin Math_cos ease_power3_inOut
                  ease_default es2 s2 r2 H2) as C2.
    unfold SeaCompose.clocked in C1, C2. rewrite Ep, Em, Ek, <- C2 in C1.
    by injection C1.
  - intros es1 es2 s1 s2 Ep Ev Ef.
    destruct (DreamRuns.dream_run_ok dleb Math_random ease_power3_inOut world_step
                applyForce es1 s1) as [r1 H1].
    destruct (DreamRuns.dream_run_ok dleb Math_random ease_power3_inOut world_step
                applyForce es2 s2) as [r2 H2].
    destruct (DreamRuns.dream_run_ok dleb Math_random ease_power3_inOut world_step
                applyForce (filter (fun e => DreamCompose.is_frame e = true) es1) s1)
      as [sf Hf].
    exists r1, r2. split; [done|]. split; [done|].
    pose proof (DreamCompose.dream_run_simulated dleb Math_random ease_power3_inOut
                  world_step applyForce es1 s1 s1 r1 sf eq_refl H1 Hf) as C1.
    rewrite DreamCompose.filter_frames, Ef, <- DreamCompose.filter_frames in Hf.
    assert (E : DreamCompose.simulated s2 = DreamCompose.simulated s1).
    { unfold DreamCompose.simulated. by rewrite Ep, Ev. }
    pose proof (DreamCompose.dream_run_simulated dleb Math_random ease_power3_inOut
                  world_step applyForce es2 s2 s1 r2 sf E H2 Hf) as C2.
    unfold DreamCompose.simulated in C1, C2. rewrite <- C2 in C1.
    by injection C1.
Qed.

(** X2: after any run of the deep-sea scene whose last frame was at
    elapsed time [t], whatever came before and whatever clicks and
    pointer moves came after, the caustics offset is [(t * 0.1, t * 0.1)],
    the jellyfish and the core light are both at height
    [5 + sin (t * 0.5) * 0.5] and the light has intensity
    [(sin (t * 2) * 0.5 + 0.5) * 5 + 5].  From creation on, in every
    reachable state, the light is at the height of the jellyfish. *)
Theorem lights_follow_the_last_frame :
  (forall (es es' : list (@DeepSea.Event D)) (f : DeepSea.Frame) (s : DeepSea.State),
     Forall (fun e => SeaCompose.is_frame e = false) es' ->
     exists s',
       sea_run (es ++ DeepSea.EFrame f :: es') s = Ok s' /\
       let t := DeepSea.elapsedTime f in
       let m := DeepSea.materials s' in
       DeepSea.causticsOffset m = ((t * 0.1)%float, (t * 0.1)%float) /\
       DeepSea.jellyfishY m = (5 + Math_sin (t * 0.5) * 0.5)%float /\
       DeepSea.coreLightY m = DeepSea.jellyfishY m /\
       DeepSea.coreLightIntensity m = ((Math_sin (t * 2.0) * 0.5 + 0.5) * 5 + 5)%float) /\
  (forall (es : list (@DeepSea.Event D)) (vent base : list float) (t0 d0 : string),
     exists s',
       sea_run es (DeepSea.created_from vent base t0 d0) = Ok s' /\
       DeepSea.coreLightY (DeepSea.materials s') = DeepSea.jellyfishY (DeepSea.materials s')).
Proof.
  split.
  - intros es es' f s Hes'.
    destruct (DeepSeaRuns.run_ok dleb Math_sin Math_cos ease_power3_inOut ease_default
                (es ++ DeepSea.EFrame f :: es') s) as [s' H].
    exists s'. split; [done|].
    destruct (MaterialFacts.run_last_frame_lit dleb Math_sin Math_cos ease_power3_inOut
                ease_default es es' f s s' Hes' H) as (Hc & Hj & Hl & Hi).
    cbv zeta. by rewrite Hl, Hj.
  - intros es vent base t0 d0.
    destruct (DeepSeaRuns.run_ok dleb Math_sin Math_cos ease_power3_inOut ease_default
                es (DeepSea.created_from vent base t0 d0)) as [s' H].
    exists s'. split; [done|].
    by destruct (MaterialFacts.run_aligned dleb Math_sin Math_cos ease_power3_inOut
                   ease_default es _ s' H) as [Ha _].
Qed.

(** X3: along every run of the deep-sea scene the registry stays as it
    is, no glow entry appears or disappears, and the glow of an object
    changes only if a child of the scene named "photography" has that
    identity: clicks and pointer moves change no glow, frames none but
    the tablets'. *)
Theorem only_frames_change_glow_and_only_of_tablets :
  forall (es : list (@DeepSea.Event D)) (s : DeepSea.State),
    exists s',
      sea_run es s = Ok s' /\
      DeepSea.registry s' = DeepSea.registry s /\
      dom (DeepSea.emissiveIntensity (DeepSea.interaction s')) =
        dom (DeepSea.emissiveIntensity (DeepSea.interaction s)) /\
      (forall k,
         (forall c, c ∈ DeepSea.scene_children (DeepSea.registry s) ->
                    name c = "photography" -> oid c <> k) ->
         DeepSea.emissiveIntensity (DeepSea.interaction s') !! k =
           DeepSea.emissiveIntensity (DeepSea.interaction s) !! k) /\
      (Forall (fun e => SeaCompose.is_frame e = false) es ->
       DeepSea.emissiveIntensity (DeepSea.interaction s') =
         DeepSea.emissiveIntensity (DeepSea.interaction s)).
Proof.
  intros es s.
  destruct (DeepSeaRuns.run_ok dleb Math_sin Math_cos ease_power3_inOut ease_default
              es s) as [s' H].
  exists s'. split; [done|].
  destruct (MaterialFacts.run_glow dleb Math_sin Math_cos ease_power3_inOut ease_default
              es s s' H) as (Hr & Hd & Hk).
  split; [done|]. split; [done|]. split; [done|].
  intros Hes.
  assert (Hf : filter (fun e => SeaCompose.is_frame e = true) es = []).
  { clear H. induction Hes as [|e l He Hl IH]; [done|].
    rewrite filter_cons_False by (by rewrite He). done. }
  pose proof (SeaCompose.run_simulated dleb Math_sin Math_cos ease_power3_inOut
                ease_default es s s s' s eq_refl H) as Hs.
  rewrite Hf in Hs. specialize (Hs eq_refl).
  unfold SeaCompose.simulated in Hs. by injection Hs.
Qed.

(** X4: in the two scenes as the scripts create them, every object a
    click can hit has an entry in [focusPoints], and no event changes
    the registry: after any run, a click whose ray meets an interactive
    object writes the title and the description of the object's topic
    and starts the transition of the camera target to the topic's
    position. *)
Theorem every_hit_in_the_created_scenes_has_a_focus_point :
  (forall (es : list (@DeepSea.Event D)) (vent base : list float) (t0 d0 : string),
     exists s,
       sea_run es (DeepSea.created_from vent base t0 d0) = Ok s /\
       forall (c : @DeepSea.Click D) hit,
         Raycast.intersectObjects dleb (DeepSea.click_ray c)
           (DeepSea.interactiveObjects (DeepSea.registry s)) !! 0%nat = Some hit ->
         exists fd s',
           DeepSea.world_focusPoints !! name (Raycast.object hit) = Some fd /\
           sea_onClick c s = Ok s' /\
           DeepSea.infoTitle (DeepSea.interaction s') = title fd /\
           DeepSea.infoDescription (DeepSea.interaction s') = description fd /\
           DeepSea.controlsTarget (DeepSea.interaction s') =
             Tween.to Tween.lerp3 (DeepSea.controlsTarget (DeepSea.interaction s))
               (DeepSea.click_now c) (position fd) (5 # 2) ease_power3_inOut) /\
  (forall (es : list (@Dream.Event D)) (bodies0 : list (@Dream.Body Dynamics))
          (pos0 : list float) (k0 : nat) (t0 d0 : string),
     exists s,
       dream_run es (Dream.created_from bodies0 pos0 k0 t0 d0) = Ok s /\
       forall (c : @Dream.Click D) hit,
         Raycast.intersectObjects dleb (Dream.click_ray c)
           (Dream.interactiveObjects (Dream.registry s)) !! 0%nat = Some hit ->
         exists fd s',
           Dream.world_focusPoints !! name (Raycast.object hit) = Some fd /\
           dream_onClick c s = Ok s' /\
           Dream.infoTitle (Dream.interaction s') = title fd /\
           Dream.infoDescription (Dream.interaction s') = description fd /\
           Dream.controlsTarget (Dream.interaction s') =
             Tween.to Tween.lerp3 (Dream.controlsTarget (Dream.interaction s))
               (Dream.click_now c) (position fd) 2 ease_power3_inOut).
Proof.
  split.
  - intros es vent base t0 d0.
    destruct (DeepSeaRuns.run_ok dleb Math_sin Math_cos ease_power3_inOut ease_default
                es (DeepSea.created_from vent base t0 d0)) as [s H].
    exists s. split; [done|]. intros c hit Hhit.
    destruct (MaterialFacts.run_glow dleb Math_sin Math_cos ease_power3_inOut ease_default
                es _ s H) as (Hr & _ & _).
    pose proof (RegistryFacts.first_hit_registered _ _ _ _ Hhit) as Hin.
    rewrite Hr in Hin. simpl in Hin.
    destruct (RegistryFacts.sea_focus_total _ Hin) as [fd Hfd].
    pose proof (DeepSeaRuns.onClick_cases dleb ease_power3_inOut c s) as Hc.
    simpl in Hc. rewrite Hhit, Hr in Hc. simpl in Hc. rewrite Hfd in Hc.
    exists fd. eexists. split; [done|]. split; [exact Hc|]. done.
  - intros es bodies0 pos0 k0 t0 d0.
    destruct (DreamRuns.dream_run_ok dleb Math_random ease_power3_inOut world_step
                applyForce es (Dream.created_from bodies0 pos0 k0 t0 d0)) as [s H].
    exists s. split; [done|]. intros c hit Hhit.
    pose proof (DreamCompose.dream_run_registry dleb Math_random ease_power3_inOut
                  world_step applyForce es _ s H) as Hr.
    pose proof (RegistryFacts.first_hit_registered _ _ _ _ Hhit) as Hin.
    rewrite Hr in Hin. simpl in Hin.
    destruct (RegistryFacts.dream_focus_total _ Hin) as [fd Hfd].
    pose proof (DreamRuns.dream_onClick_cases (Dynamics := Dynamics) dleb
                  ease_power3_inOut c s) as Hc.
    simpl in Hc. rewrite Hhit, Hr in Hc. simpl in Hc. rewrite Hfd in Hc.
    exists fd. eexists. split; [done|]. split; [exact Hc|]. done.
Qed.

(** X5: in the dream scene a click that finds a focus point also starts a
    two-second transition of the focus distance of the blur pass, from
    its current value to the distance between camera and camera target
    measured at the click, less 3; frames leave the transition alone,
    and from two seconds after the click on the focus distance is that
    value. *)
Theorem click_refocuses_the_blur_pass :
  forall (c : @Dream.Click D) (s : @Dream.State Dynamics) hit fd,
    Raycast.intersectObjects dleb (Dream.click_ray c)
      (Dream.interactiveObjects (Dream.registry s)) !! 0%nat = Some hit ->
    Dream.focusPoints (Dream.registry s) !! name (Raycast.object hit) = Some fd ->
    exists s',
      dream_onClick c s = Ok s' /\
      Dream.bokehFocus (Dream.interaction s') =
        Tween.Moving
          {| Tween.tw_from :=
               Tween.value Tween.lerpQ (Dream.bokehFocus (Dream.interaction s))
                 (Dream.click_now c);
             Tween.tw_to := (Dream.click_distance c - 3)%Q;
             Tween.tw_start := Dream.click_now c;
             Tween.tw_duration := 2;
             Tween.tw_ease := ease_power3_inOut |} /\
      forall (es : list (@Dream.Event D)) s'',
        Forall (fun e => DreamRuns.is_click e = false) es ->
        dream_run es s' = Ok s'' ->
        Dream.bokehFocus (Dream.interaction s'') = Dream.bokehFocus (Dream.interaction s') /\
        forall t : Q, (Dream.click_now c + 2 <= t)%Q ->
          Tween.value Tween.lerpQ (Dream.bokehFocus (Dream.interaction s'')) t =
          (Dream.click_distance c - 3)%Q.
Proof.
  intros c s hit fd Hhit Hfd.
  pose proof (DreamRuns.dream_onClick_cases (Dynamics := Dynamics) dleb
                ease_power3_inOut c s) as H.
  simpl in H. rewrite Hhit, Hfd in H.
  eexists. split; [exact H|]. cbn [Dream.interaction Dream.bokehFocus].
  split; [reflexivity|].
  intros es s'' Hes Hrun.
  rewrite (DreamRuns.dream_run_interaction dleb Math_random ease_power3_inOut
             world_step applyForce es _ _ Hes Hrun).
  cbn [Dream.interaction Dream.bokehFocus]. split; [done|].
  intros t Ht. by apply TweenFacts.value_to_finished.
Qed.

(** X6: along every run of the dream scene as created, the links stay
    the three pairs of pane [i] and body [i], the panes stay three, and
    the number of random draws made is nine for every frame of the run:
    three per linked body per frame, none for a click. *)
Theorem links_fixed_and_nine_draws_per_frame :
  forall (es : list (@Dream.Event D)) (bodies0 : list (@Dream.Body Dynamics))
         (pos0 : list float) (k0 : nat) (t0 d0 : string),
    exists s,
      dream_run es (Dream.created_from bodies0 pos0 k0 t0 d0) = Ok s /\
      Dream.objectsToUpdate (Dream.physics s) =
        [ {| Dream.mesh := 0; Dream.body := 0 |};
          {| Dream.mesh := 1; Dream.body := 1 |};
          {| Dream.mesh := 2; Dream.body := 2 |} ] /\
      length (Dream.panes (Dream.physics s)) = 3%nat /\
      Dream.random_calls (Dream.physics s) =
        (k0 + 9 * length (filter (fun e => DreamCompose.is_frame e = true) es))%nat.
Proof.
  intros es bodies0 pos0 k0 t0 d0.
  destruct (DreamRuns.dream_run_ok dleb Math_random ease_power3_inOut world_step
              applyForce es (Dream.created_from bodies0 pos0 k0 t0 d0)) as [s H].
  exists s. split; [done|].
  destruct (DreamCompose.dream_run_links dleb Math_random ease_power3_inOut world_step
              applyForce es _ s H) as [Ho Hk].
  split; [by rewrite Ho|]. split; [|rewrite Hk; simpl; lia].
  pose proof (DreamCompose.dream_run_panes dleb Math_random ease_power3_inOut world_step
                applyForce es _ s H) as Hp.
  by rewrite Hp.
Qed.

End Coverage.

Section ShaderCoverage.
Import Stdlib.Strings.Ascii.
Import Program.

(** X7: the callback of the jellyfish material replaces the first
    diffuse-colour line of the fragment shader, and only that one, by
    the fresnel and pulse code, which reads [uTime]; a fragment shader
    without the line is left as it is.  It sets the uniform [uTime] to 0
    and leaves the other uniforms and the vertex shader alone.  It adds
    no [uniform] declaration: the word occurs in the patched fragment
    shader only if it occurs in the original. *)
Theorem jellyfish_patch_replaces_first_line_and_declares_nothing :
  forall shader : Shader,
    let shader' := JellyfishShader.onBeforeCompile shader in
    (forall b a,
       fragmentShader shader = b +:+ JellyfishShader.diffuse_line +:+ a ->
       (forall b' a', fragmentShader shader = b' +:+ JellyfishShader.diffuse_line +:+ a' ->
                      (String.length b <= String.length b')%nat) ->
       fragmentShader shader' = b +:+ JellyfishShader.fresnel_pulse +:+ a /\
       JSString.includes (fragmentShader shader') "uTime" = true) /\
    (JSString.includes (fragmentShader shader) JellyfishShader.diffuse_line = false ->
     fragmentShader shader' = fragmentShader shader) /\
    (JSString.includes (fragmentShader shader') "uniform" = true ->
     JSString.includes (fragmentShader shader) "uniform" = true) /\
    vertexShader shader' = vertexShader shader /\
    uniforms shader' !! "uTime" = Some (Number 0) /\
    (forall k, k <> "uTime" -> uniforms shader' !! k = uniforms shader !! k).
Proof.
  intros shader shader'. split; [|split; [|split; [|split; [|split]]]].
  - intros b a Hs Hleast.
    assert (E : fragmentShader shader' = b +:+ JellyfishShader.fresnel_pulse +:+ a).
    { apply ShaderFacts.replace_found; [apply ShaderFacts.fresnel_pulse_plain|].
      by apply JSStringFacts.split_first_at. }
    split; [done|]. rewrite E.
    apply JSStringFacts.includes_append_r, JSStringFacts.includes_append_l.
    by vm_compute.
  - apply ShaderFacts.replace_absent.
  - cbn [shader' JellyfishShader.onBeforeCompile fragmentShader].
    destruct (JSString.split_first (fragmentShader shader) JellyfishShader.diffuse_line)
      as [[b a]|] eqn:E.
    + rewrite (ShaderFacts.replace_found _ _ _ b a ShaderFacts.fresnel_pulse_plain E).
      rewrite (JSStringFacts.split_first_Some _ _ _ _ E).
      rewrite ShaderFacts.fresnel_pulse_inner.
      rewrite JSStringFacts.append_cons, JSStringFacts.append_assoc,
        JSStringFacts.append_cons, JSStringFacts.append_nil_l.
      rewrite JSStringFacts.includes_across by done.
      rewrite JSStringFacts.includes_across by done.
      assert (Hin : JSString.includes (ShaderFacts.inner JellyfishShader.fresnel_pulse)
                      "uniform" = false) by (by vm_compute).
      rewrite Hin. simpl. intros [H|H]%orb_true_iff.
      * by apply JSStringFacts.includes_append_l.
      * by apply JSStringFacts.includes_append_r, JSStringFacts.includes_append_r.
    + unfold JSString.replace. by rewrite E.
  - done.
  - apply lookup_insert_eq.
  - intros k Hk. by apply lookup_insert_ne.
Qed.

(** X8: the callback of the heart material puts the declaration of the
    uniform [uTime] in front of the vertex shader, whatever the shader
    is, and inserts the displacement code in place of the first
    [#include <begin_vertex>] line; the inserted text begins with that
    include line itself, so the include is kept.  A vertex shader
    without the line gets the declaration and nothing else.  The
    fragment shader and the other uniforms are left alone. *)
Theorem heart_patch_declares_uniform_and_keeps_include :
  forall shader : Shader,
    let shader' := HeartShader.onBeforeCompile shader in
    JSString.startsWith (vertexShader shader') HeartShader.declaration = true /\
    (forall b a,
       vertexShader shader = b +:+ HeartShader.begin_vertex +:+ a ->
       (forall b' a', vertexShader shader = b' +:+ HeartShader.begin_vertex +:+ a' ->
                      (String.length b <= String.length b')%nat) ->
       vertexShader shader' =
         HeartShader.declaration +:+ b +:+ HeartShader.displacement +:+ a) /\
    (JSString.includes (vertexShader shader) HeartShader.begin_vertex = false ->
     vertexShader shader' = HeartShader.declaration +:+ vertexShader shader) /\
    JSString.includes HeartShader.displacement HeartShader.begin_vertex = true /\
    JSString.includes HeartShader.displacement "uTime" = true /\
    fragmentShader shader' = fragmentShader shader /\
    uniforms shader' !! "uTime" = Some (Number 0) /\
    (forall k, k <> "uTime" -> uniforms shader' !! k = uniforms shader !! k).
Proof.
  intros shader shader'.
  assert (Hsplit :
    JSString.split_first (HeartShader.declaration +:+ vertexShader shader)
      HeartShader.begin_vertex =
    match JSString.split_first (vertexShader shader) HeartShader.begin_vertex with
    | Some (before, after) => Some (HeartShader.declaration +:+ before, after)
    | None => None
    end).
  { by apply (JSStringFacts.split_first_after "#"%char). }
  assert (Hfound : forall b a,
    JSString.split_first (vertexShader shader) HeartShader.begin_vertex = Some (b, a) ->
    vertexShader shader' =
      HeartShader.declaration +:+ b +:+ HeartShader.displacement +:+ a).
  { intros b a E. cbn [shader' HeartShader.onBeforeCompile vertexShader].
    rewrite (ShaderFacts.replace_found _ _ _ (HeartShader.declaration +:+ b) a
               ShaderFacts.displacement_plain); [|by rewrite Hsplit, E].
    by rewrite JSStringFacts.append_assoc. }
  assert (Habsent :
    JSString.split_first (vertexShader shader) HeartShader.begin_vertex = None ->
    vertexShader shader' = HeartShader.declaration +:+ vertexShader shader).
  { intros E. cbn [shader' HeartShader.onBeforeCompile vertexShader].
    unfold JSString.replace. by rewrite Hsplit, E. }
  split; [|split; [|split; [|split; [|split; [|split; [|split]]]]]].
  - destruct (JSString.split_first (vertexShader shader) HeartShader.begin_vertex)
      as [[b a]|] eqn:E.
    + rewrite (Hfound b a eq_refl). apply JSStringFacts.startsWith_append.
    + rewrite (Habsent eq_refl). apply JSStringFacts.startsWith_append.
  - intros b a Hs Hleast. apply Hfound. by apply JSStringFacts.split_first_at.
  - intros H. apply Habsent. unfold JSString.includes in H.
    destruct (JSString.split_first (vertexShader shader) HeartShader.begin_vertex)
      as [[b a]|]; [discriminate H|reflexivity].
  - by vm_compute.
  - by vm_compute.
  - done.
  - apply lookup_insert_eq.
  - intros k Hk. by apply lookup_insert_ne.
Qed.

End ShaderCoverage.

Section PageCoverage.
Context {D Dynamics : Type}.
Variable dleb : D -> D -> bool.
Variable ease_power3_inOut : Q -> Q.

(** X9: the [load] handler.  On a page that has both elements it ends
    without exception: the loader has the class [fade-out], the main
    content has the class [visible] (neither class is added twice), and
    one timeout is pending; the display of the loader is unchanged
    until the timeout is due, 1500 ms after the handler ran, and is
    [none] from then on.  Without the loader element the handler
    raises a [TypeError] and changes nothing, the main content stays
    invisible; without the main content element it raises a
    [TypeError] after it has added [fade-out], sets no timeout, and
    the loader is never hidden. *)
Theorem load_reveals_the_page_and_hides_the_loader_later :
  (forall (now : Q) (d : Page.Document) (l m : Page.Element),
     Page.loader d = Some l -> Page.mainContent d = Some m -> Page.timeouts d = [] ->
     let l' := Page.classList_add "fade-out" l in
     let m' := Page.classList_add "visible" m in
     exists d',
       Page.onLoad now d = (d', None) /\
       Page.loader d' = Some l' /\ Page.mainContent d' = Some m' /\
       "fade-out" ∈ Page.classList l' /\ "visible" ∈ Page.classList m' /\
       (forall c, c ∈ Page.classList l -> c ∈ Page.classList l') /\
       (NoDup (Page.classList l) -> NoDup (Page.classList l')) /\
       Page.style_display l' = Page.style_display l /\
       forall t : Q,
         ((t < now + 1500)%Q -> Page.run_timeouts t d' = d') /\
         ((now + 1500 <= t)%Q ->
          Page.loader (Page.run_timeouts t d') = Some (Page.set_display "none" l') /\
          Page.mainContent (Page.run_timeouts t d') = Some m' /\
          Page.timeouts (Page.run_timeouts t d') = [])) /\
  (forall (now : Q) (d : Page.Document),
     Page.loader d = None -> Page.onLoad now d = (d, Some TypeError)) /\
  (forall (now : Q) (d : Page.Document) (l : Page.Element),
     Page.loader d = Some l -> Page.mainContent d = None -> Page.timeouts d = [] ->
     exists d',
       Page.onLoad now d = (d', Some TypeError) /\
       Page.loader d' = Some (Page.classList_add "fade-out" l) /\
       Page.mainContent d' = None /\
       forall t : Q, Page.run_timeouts t d' = d').
Proof.
  split; [|split].
  - intros now d l m Hl Hm Ht l' m'.
    eexists. split; [unfold Page.onLoad; rewrite Hl; simpl; rewrite Hm; reflexivity|].
    cbn [Page.loader Page.mainContent Page.timeouts].
    split; [done|]. split; [done|].
    split; [apply PageFacts.classList_add_elem|].
    split; [apply PageFacts.classList_add_elem|].
    split; [intros c; apply PageFacts.classList_add_keeps|].
    split; [apply PageFacts.classList_add_NoDup|]. split; [done|].
    intros t. rewrite Ht. cbn [app].
    rewrite (PageFacts.run_timeouts_one t (now + 1500)%Q) by done.
    split.
    + intros Hlt. destruct (Qle_bool (now + 1500) t) eqn:E; [|done].
      apply Qle_bool_iff in E. exfalso. apply (Qlt_not_le _ _ Hlt E).
    + intros Hle. apply Qle_bool_iff in Hle. rewrite Hle. done.
  - intros now d Hl. unfold Page.onLoad. by rewrite Hl.
  - intros now d l Hl Hm Ht.
    eexists. split; [unfold Page.onLoad; rewrite Hl; simpl; rewrite Hm; reflexivity|].
    cbn [Page.loader Page.mainContent]. split; [done|]. split; [done|].
    intros t. by apply PageFacts.run_timeouts_none.
Qed.

(** X10: the click handlers on the page.  On a page that has both text
    elements they do what the handlers of the two scenes do, for every
    click and every state: the camera target, the texts and, in the
    dream scene, the focus of the blur pass end as the scene handler
    leaves them, which changes nothing else.  When the
    ray finds an object with a focus point and the page lacks the
    title element, the handler raises a [TypeError] after it has
    started the transition of the camera target (and, in the dream
    scene, of the focus of the blur pass): the camera moves, no text
    is written.  When only the description element is missing, the
    title is written before the exception. *)
Theorem click_on_a_page_without_text_elements :
  (forall (c : @DeepSea.Click D) (s : DeepSea.State),
     exists s',
       DeepSea.onClick dleb ease_power3_inOut c s = Ok s' /\
       DeepSea.registry s' = DeepSea.registry s /\
       DeepSea.particles s' = DeepSea.particles s /\
       DeepSea.materials s' = DeepSea.materials s /\
       DeepSea.mouse (DeepSea.interaction s') = DeepSea.mouse (DeepSea.interaction s) /\
       DeepSea.emissiveIntensity (DeepSea.interaction s') =
         DeepSea.emissiveIntensity (DeepSea.interaction s) /\
       PageClick.sea_onClick dleb ease_power3_inOut c (DeepSea.registry s)
         (DeepSea.controlsTarget (DeepSea.interaction s))
         {| PageClick.info_title := Some (DeepSea.infoTitle (DeepSea.interaction s));
            PageClick.info_description :=
              Some (DeepSea.infoDescription (DeepSea.interaction s)) |} =
       ((DeepSea.controlsTarget (DeepSea.interaction s'),
         {| PageClick.info_title := Some (DeepSea.infoTitle (DeepSea.interaction s'));
            PageClick.info_description :=
              Some (DeepSea.infoDescription (DeepSea.interaction s')) |}), None)) /\
  (forall (c : @Dream.Click D) (s : @Dream.State Dynamics),
     exists s',
       Dream.onClick dleb ease_power3_inOut c s = Ok s' /\
       Dream.registry s' = Dream.registry s /\
       Dream.physics s' = Dream.physics s /\
       Dream.visuals s' = Dream.visuals s /\
       Dream.mouse (Dream.interaction s') = Dream.mouse (Dream.interaction s) /\
       PageClick.dream_onClick dleb ease_power3_inOut c (Dream.registry s)
         (Dream.controlsTarget (Dream.interaction s))
         (Dream.bokehFocus (Dream.interaction s))
         {| PageClick.info_title := Some (Dream.infoTitle (Dream.interaction s));
            PageClick.info_description :=
              Some (Dream.infoDescription (Dream.interaction s)) |} =
       ((Dream.controlsTarget (Dream.interaction s'),
         Dream.bokehFocus (Dream.interaction s'),
         {| PageClick.info_title := Some (Dream.infoTitle (Dream.interaction s'));
            PageClick.info_description :=
              Some (Dream.infoDescription (Dream.interaction s')) |}), None)) /\
  (forall (c : @DeepSea.Click D) (r : DeepSea.Registry) (target : Tween.animated vec3)
          (p : PageClick.Panel) hit fd,
     Raycast.intersectObjects dleb (DeepSea.click_ray c) (DeepSea.interactiveObjects r)
       !! 0%nat = Some hit ->
     DeepSea.focusPoints r !! name (Raycast.object hit) = Some fd ->
     let target' :=
       Tween.to Tween.lerp3 target (DeepSea.click_now c) (position fd) (5 # 2)
         ease_power3_inOut in
     (PageClick.info_title p = None ->
      PageClick.sea_onClick dleb ease_power3_inOut c r target p =
        ((target', p), Some TypeError)) /\
     (is_Some (PageClick.info_title p) -> PageClick.info_description p = None ->
      PageClick.sea_onClick dleb ease_power3_inOut c r target p =
        ((target', {| PageClick.info_title := Some (title fd);
                      PageClick.info_description := None |}), Some TypeError))) /\
  (forall (c : @Dream.Click D) (r : Dream.Registry) (target : Tween.animated vec3)
          (focus : Tween.animated Q) (p : PageClick.Panel) hit fd,
     Raycast.intersectObjects dleb (Dream.click_ray c) (Dream.interactiveObjects r)
       !! 0%nat = Some hit ->
     Dream.focusPoints r !! name (Raycast.object hit) = Some fd ->
     let target' :=
       Tween.to Tween.lerp3 target (Dream.click_now c) (position fd) 2
         ease_power3_inOut in
     let focus' :=
       Tween.to Tween.lerpQ focus (Dream.click_now c) (Dream.click_distance c - 3)%Q 2
         ease_power3_inOut in
     (PageClick.info_title p = None ->
      PageClick.dream_onClick dleb ease_power3_inOut c r target focus p =
        ((target', focus', p), Some TypeError)) /\
     (is_Some (PageClick.info_title p) -> PageClick.info_description p = None ->
      PageClick.dream_onClick dleb ease_power3_inOut c r target focus p =
        ((target', focus', {| PageClick.info_title := Some (title fd);
                              PageClick.info_description := None |}),
         Some TypeError))).
Proof.
  split; [|split; [|split]].
  - intros c s.
    pose proof (DeepSeaRuns.onClick_cases dleb ease_power3_inOut c s) as H.
    simpl in H. unfold PageClick.sea_onClick, get_property.
    destruct (_ !! 0%nat) as [hit|]; [|by eexists].
    destruct (DeepSea.focusPoints _ !! _) as [fd|];
      [|destruct (bool_decide _)]; eexists; (split; [exact H|]); done.
  - intros c s.
    pose proof (DreamRuns.dream_onClick_cases (Dynamics := Dynamics) dleb
                  ease_power3_inOut c s) as H.
    simpl in H. unfold PageClick.dream_onClick, get_property.
    destruct (_ !! 0%nat) as [hit|]; [|by eexists].
    destruct (Dream.focusPoints _ !! _) as [fd|];
      [|destruct (bool_decide _)]; eexists; (split; [exact H|]); done.
  - intros c r target p hit fd Hhit Hfd target'.
    unfold PageClick.sea_onClick, get_property.
    rewrite Hhit, Hfd. unfold PageClick.write_text. split.
    + intros Ht. by rewrite Ht.
    + intros [t0 Ht] Hd. rewrite Ht. simpl. by rewrite Hd.
  - intros c r target focus p hit fd Hhit Hfd target' focus'.
    unfold PageClick.dream_onClick, get_property. rewrite Hhit, Hfd.
    unfold PageClick.write_text.
    split.
    + intros Ht. by rewrite Ht.
    + intros [t0 Ht] Hd. rewrite Ht. simpl. by rewrite Hd.
Qed.

End PageCoverage.

(** ** Ranges of the positions and of the lights *)

Section RangeCoverage.
Context {D Dynamics : Type}.
Variable dleb : D -> D -> bool.
Variables Math_sin Math_cos : float -> float.
Variable Math_random : nat -> float.
Variables ease_power3_inOut ease_default : Q -> Q.
Variable world_step :
  float -> float -> nat -> list (@Dream.Body Dynamics) -> list (@Dream.Body Dynamics).
Variable applyForce : Dream.fvec3 -> Dream.fvec3 -> @Dream.Body Dynamics -> @Dream.Body Dynamics.

Import RangeFacts SceneRanges BoxFacts.

#[local] Abbreviation sea_run :=
  (DeepSea.run dleb Math_sin Math_cos ease_power3_inOut ease_default).
#[local] Abbreviation sea_created := (DeepSea.created Math_random).
#[local] Abbreviation dream_run :=
  (Dream.run dleb Math_random ease_power3_inOut world_step applyForce).

(** X11: with draws of [Math.random] in [[0, 1)], and frames whose
    clock readings are clock times, the vent particles stay in their
    column along every run from the created scene: all 2000 points are
    there, x and z lie within the binary32 value next to 0.1 of zero (the
    creation loop stores them and nothing writes them again), and y lies
    in [[0, 20]], at creation and after every wrap. *)
Theorem vent_particles_stay_in_their_column :
  forall (es : list (@DeepSea.Event D)) (t0 d0 : string),
    draws Math_random ->
    Forall steady es ->
    exists s',
      sea_run es (sea_created t0 d0) = Ok s' /\
      forall i, (i < DeepSea.ventParticleCount)%nat ->
        exists x y z,
          DeepSea.ventLive (DeepSea.particles s') !! (3 * i)%nat = Some x /\
          DeepSea.ventLive (DeepSea.particles s') !! (3 * i + 1)%nat = Some y /\
          DeepSea.ventLive (DeepSea.particles s') !! (3 * i + 2)%nat = Some z /\
          between (- tenth32) tenth32 x /\ between 0 20 y /\
          between (- tenth32) tenth32 z.
Proof.
  intros es t0 d0 Hdraws Hes.
  destruct (DeepSeaRuns.run_ok dleb Math_sin Math_cos ease_power3_inOut ease_default
              es (sea_created t0 d0)) as [s' Hrun].
  exists s'. split; [exact Hrun|]. intros i Hi.
  assert (Hbox : boxed vent_box DeepSea.ventParticleCount
                   (DeepSea.ventLive (DeepSea.particles s'))).
  { apply (run_particles_steady dleb Math_sin Math_cos ease_power3_inOut ease_default
             (fun p => boxed vent_box DeepSea.ventParticleCount (DeepSea.ventLive p)))
      with es (sea_created t0 d0); [|exact Hes| |exact Hrun].
    - intros f p [Hdt _] Hp. exact (vent_frame_boxed Math_sin Math_cos f _ p Hdt Hp).
    - cbn [DeepSea.created DeepSea.created_from DeepSea.particles DeepSea.ventLive].
      exact (ventPosArray_boxed Math_random Hdraws). }
  destruct (boxed_point _ _ _ i Hbox Hi) as (x & y & z & Hx & Hy & Hz & Bx & By & Bz).
  exists x, y, z. cbn [vent_box] in Bx, By, Bz.
  split; [exact Hx|]. split; [exact Hy|]. split; [exact Hz|].
  split; [|split]; by apply in_range_between.
Qed.

(** X12: with draws in [[0, 1)], sines and cosines of finite numbers in
    [[-1, 1]] and frames at clock times, the swarm stays in its box along
    every run from the created scene: all 3000 points are there, x lies
    in [[-17, 17]], y in [[-2, 17]] and z in [[-15, 15]]. *)
Theorem swarm_stays_in_its_box :
  forall (es : list (@DeepSea.Event D)) (t0 d0 : string),
    draws Math_random ->
    unit_bounded Math_sin -> unit_bounded Math_cos ->
    Forall steady es ->
    exists s',
      sea_run es (sea_created t0 d0) = Ok s' /\
      forall i, (i < DeepSea.swarmParticleCount)%nat ->
        exists x y z,
          DeepSea.swarmLive (DeepSea.particles s') !! (3 * i)%nat = Some x /\
          DeepSea.swarmLive (DeepSea.particles s') !! (3 * i + 1)%nat = Some y /\
          DeepSea.swarmLive (DeepSea.particles s') !! (3 * i + 2)%nat = Some z /\
          between (-17) 17 x /\ between (-2) 17 y /\ between (-15) 15 z.
Proof.
  intros es t0 d0 Hdraws Hsin Hcos Hes.
  destruct (DeepSeaRuns.run_ok dleb Math_sin Math_cos ease_power3_inOut ease_default
              es (sea_created t0 d0)) as [s' Hrun].
  exists s'. split; [exact Hrun|]. intros i Hi.
  assert (Hbox : swarm_boxed DeepSea.swarmParticleCount (DeepSea.particles s')).
  { apply (run_particles_steady dleb Math_sin Math_cos ease_power3_inOut ease_default
             (swarm_boxed DeepSea.swarmParticleCount))
      with es (sea_created t0 d0); [|exact Hes| |exact Hrun].
    - intros f p [_ Ht] Hp.
      exact (swarm_frame_boxed Math_sin Math_cos f _ p Hsin Hcos Ht Hp).
    - pose proof (swarmPosArray0_boxed Math_random Hdraws) as Hbase.
      unfold swarm_boxed.
      cbn [DeepSea.created DeepSea.created_from DeepSea.particles
           DeepSea.swarmPosArray DeepSea.swarmLive].
      split; [exact Hbase|]. destruct Hbase as [Hl Hb].
      split; [exact Hl|].
      intros idx v Hv. apply base_in_swarm_box. exact (Hb idx v Hv). }
  destruct Hbox as [_ Hbox].
  destruct (boxed_point _ _ _ i Hbox Hi) as (x & y & z & Hx & Hy & Hz & Bx & By & Bz).
  exists x, y, z. cbn [swarm_box] in Bx, By, Bz.
  split; [exact Hx|]. split; [exact Hy|]. split; [exact Hz|].
  split; [|split]; by apply in_range_between.
Qed.

(** X13: with sines of finite numbers in [[-1, 1]] and frames at clock
    times, along every run from the created scene the jellyfish floats
    between 4.5 and 5.5, the light inside it is at the same height, and
    the intensity of the light lies between 5 and 10. *)
Theorem jellyfish_and_light_stay_in_range :
  forall (es : list (@DeepSea.Event D)) (t0 d0 : string),
    unit_bounded Math_sin ->
    Forall steady es ->
    exists s',
      sea_run es (sea_created t0 d0) = Ok s' /\
      let m := DeepSea.materials s' in
      between 4.5 5.5 (DeepSea.jellyfishY m) /\
      DeepSea.coreLightY m = DeepSea.jellyfishY m /\
      between 5 10 (DeepSea.coreLightIntensity m).
Proof.
  intros es t0 d0 Hsin Hes.
  destruct (DeepSeaRuns.run_ok dleb Math_sin Math_cos ease_power3_inOut ease_default
              es (sea_created t0 d0)) as [s' Hrun].
  exists s'. split; [exact Hrun|]. cbv zeta.
  destruct (run_glow_in_range dleb Math_sin Math_cos ease_power3_inOut ease_default
              es (sea_created t0 d0) s' Hsin Hes) as (Hy & Hl & Hi); [|exact Hrun|].
  { split; [|split]; [apply leb_in_range; reflexivity|reflexivity
                     |apply leb_in_range; reflexivity]. }
  split; [by apply in_range_between|]. split; [done|]. by apply in_range_between.
Qed.

(** X14: with draws in [[0, 1)], the 15000 coordinates of the river of
    the dream scene lie in [[-25, 25]] at creation and, as no event writes
    them, along every run. *)
Theorem river_particles_stay_in_their_box :
  forall (es : list (@Dream.Event D)) (bodies0 : list (@Dream.Body Dynamics))
         (k0 calls0 : nat) (t0 d0 : string),
    draws Math_random ->
    exists s',
      dream_run es (Dream.created_from bodies0 (Dream.posArray Math_random k0)
                      calls0 t0 d0) = Ok s' /\
      forall idx, (idx < 3 * Dream.particleCount)%nat ->
        exists v,
          Dream.posLive (Dream.visuals s') !! idx = Some v /\ between (-25) 25 v.
Proof.
  intros es bodies0 k0 calls0 t0 d0 Hdraws.
  destruct (DreamRuns.dream_run_ok dleb Math_random ease_power3_inOut world_step
              applyForce es
              (Dream.created_from bodies0 (Dream.posArray Math_random k0) calls0 t0 d0))
    as [s' Hrun].
  exists s'. split; [exact Hrun|]. intros idx Hidx.
  rewrite (DreamRuns.run_posLive dleb Math_random ease_power3_inOut world_step applyForce
             es _ s' Hrun).
  cbn [Dream.created_from Dream.visuals Dream.posLive].
  destruct (posArray_boxed Math_random Hdraws k0) as [Hl Hb].
  destruct (lookup_lt_is_Some_2 (Dream.posArray Math_random k0) idx) as [v Hv]; [lia|].
  exists v. split; [exact Hv|]. apply in_range_between; [reflexivity|reflexivity|].
  exact (Hb idx v Hv).
Qed.

End RangeCoverage.

(** ** Ranges of the pointer and of the spires *)

Section PointerCoverage.
Context {Dynamics : Type}.
Variables Math_sin Math_cos : float -> float.
Variable Math_random : nat -> float.

Import SceneRanges BoxFacts.

(** X15: the [mousemove] handlers of both scripts map a pointer inside
    a window of positive finite size to coordinates in [[-1, 1]]: the left
    edge gives x = -1 and the right edge x = 1, the top edge y = 1 and
    the bottom edge y = -1, exactly.  The handler changes nothing but
    the pointer. *)
Theorem pointer_is_normalised_to_the_window :
  forall (clientX clientY innerWidth innerHeight : float)
         (s : DeepSea.State) (d : @Dream.State Dynamics),
    is_finite innerWidth = true -> is_finite innerHeight = true ->
    (0 <? innerWidth)%float = true -> (0 <? innerHeight)%float = true ->
    between 0 innerWidth clientX -> between 0 innerHeight clientY ->
    let s' := DeepSea.onMouseMove clientX clientY innerWidth innerHeight s in
    let d' := DreamPointer.onMouseMove clientX clientY innerWidth innerHeight d in
    let m := DeepSea.mouse (DeepSea.interaction s') in
    Dream.mouse (Dream.interaction d') = m /\
    between (-1) 1 (fst m) /\ between (-1) 1 (snd m) /\
    (clientX = 0%float -> fst m = (-1)%float) /\
    (clientX = innerWidth -> fst m = 1%float) /\
    (clientY = 0%float -> snd m = 1%float) /\
    (clientY = innerHeight -> snd m = (-1)%float) /\
    (DeepSea.registry s', DeepSea.particles s', DeepSea.materials s') =
      (DeepSea.registry s, DeepSea.particles s, DeepSea.materials s) /\
    (DeepSea.controlsTarget (DeepSea.interaction s'),
     DeepSea.infoTitle (DeepSea.interaction s'),
     DeepSea.infoDescription (DeepSea.interaction s'),
     DeepSea.emissiveIntensity (DeepSea.interaction s')) =
      (DeepSea.controlsTarget (DeepSea.interaction s),
       DeepSea.infoTitle (DeepSea.interaction s),
       DeepSea.infoDescription (DeepSea.interaction s),
       DeepSea.emissiveIntensity (DeepSea.interaction s)) /\
    (Dream.registry d', Dream.physics d', Dream.visuals d') =
      (Dream.registry d, Dream.physics d, Dream.visuals d) /\
    (Dream.controlsTarget (Dream.interaction d'),
     Dream.bokehFocus (Dream.interaction d'),
     Dream.infoTitle (Dream.interaction d'),
     Dream.infoDescription (Dream.interaction d')) =
      (Dream.controlsTarget (Dream.interaction d),
       Dream.bokehFocus (Dream.interaction d),
       Dream.infoTitle (Dream.interaction d),
       Dream.infoDescription (Dream.interaction d)).
Proof.
  intros cx cy w h s d Hfw Hfh Hw Hh Hx Hy. cbv zeta.
  destruct (PointerFacts.pointer_x cx w Hx Hfw Hw) as (Hxr & Hx0 & Hx1).
  destruct (PointerFacts.pointer_y cy h Hy Hfh Hh) as (Hyr & Hy0 & Hy1).
  cbn [DeepSea.onMouseMove DeepSea.with_interaction DeepSea.interaction DeepSea.mouse
       DreamPointer.onMouseMove Dream.interaction Dream.mouse fst snd
       DeepSea.registry DeepSea.particles DeepSea.materials DeepSea.controlsTarget
       DeepSea.infoTitle DeepSea.infoDescription DeepSea.emissiveIntensity
       Dream.registry Dream.physics Dream.visuals Dream.controlsTarget Dream.bokehFocus
       Dream.infoTitle Dream.infoDescription].
  split; [reflexivity|]. split; [exact Hxr|]. split; [exact Hyr|].
  split; [exact Hx0|]. split; [exact Hx1|]. split; [exact Hy0|]. split; [exact Hy1|].
  repeat split.
Qed.

(** X16: the loop of [part_000] makes fifty spires, one per spire
    object of the registry and all named ['programming'], spire [i] from
    the four draws [k0 + 4i .. k0 + 4i + 3].  With draws in [[0, 1)] and
    sines and cosines of finite numbers in [[-1, 1]], every spire is
    between 2 and 10 high with a lower radius of at most 0.3, its centre
    is at half its height, between 1 and 5, and it stands within 20 of
    the axis in x and in z. *)
Theorem spires_are_fifty_and_within_bounds :
  forall (k0 : nat),
    draws Math_random -> unit_bounded Math_sin -> unit_bounded Math_cos ->
    let l := DreamSpires.spires Math_sin Math_cos Math_random k0 in
    length l = length (filter (fun o => name o = "programming") Dream.world_interactiveObjects) /\
    forall i sp, l !! i = Some sp ->
      (i < 50)%nat /\
      sp = DreamSpires.make_spire Math_sin Math_cos Math_random (k0 + 4 * i) /\
      DreamSpires.spire_name sp = name (Dream.spire i) /\
      between 2 10 (DreamSpires.height sp) /\
      between 0 0.3 (DreamSpires.radiusBottom sp) /\
      Dream.fy (DreamSpires.spire_position sp) = (DreamSpires.height sp / 2)%float /\
      between 1 5 (Dream.fy (DreamSpires.spire_position sp)) /\
      between (-20) 20 (Dream.fx (DreamSpires.spire_position sp)) /\
      between (-20) 20 (Dream.fz (DreamSpires.spire_position sp)).
Proof.
  intros k0 Hdraws Hsin Hcos. cbv zeta. rewrite SpireFacts.spires_map. split.
  - rewrite length_map, length_seq. reflexivity.
  - intros i sp Hsp. rewrite list_lookup_fmap in Hsp.
    destruct (seq 0 50 !! i) as [j|] eqn:Ej; [|done].
    apply lookup_seq in Ej as [-> Hi]. simpl in Hsp. injection Hsp as <-.
    destruct (SpireFacts.make_spire_ranges Math_sin Math_cos Math_random (k0 + 4 * i)
                Hdraws Hsin Hcos) as (Hh & Hr & Hx & Hy & Hz).
    split; [exact Hi|]. split; [reflexivity|]. split; [reflexivity|].
    split; [by apply in_range_between|]. split; [by apply in_range_between|].
    split; [reflexivity|].
    split; [by apply in_range_between|]. split; by apply in_range_between.
Qed.

End PointerCoverage.

(** ** The draws of the creation loops *)

Section CreationCoverage.
Variable Math_random : nat -> float.

(** X17: the three loops that fill the position arrays, in closed form.
    The vent array has 3 * 2000 elements and element [j] is computed from
    draw [j]; the swarm array has 3 * 3000 elements and element [j] is
    computed from draw [3 * 2000 + j], the first draw the vent loop has
    not used; the river array has 3 * 5000 elements and element [j] is
    computed from draw [k0 + j].  Every coordinate has a draw of its own,
    and every stored value is rounded to binary32. *)
Theorem every_coordinate_has_its_own_draw :
  (forall i, (i < DeepSea.ventParticleCount)%nat ->
     let a := DeepSea.ventPosArray Math_random in
     length a = (DeepSea.ventParticleCount * 3)%nat /\
     a !! (3 * i)%nat = Some (fround ((Math_random (3 * i)%nat - 0.5) * 0.2)%float) /\
     a !! (3 * i + 1)%nat = Some (fround (Math_random (3 * i + 1)%nat * 20)%float) /\
     a !! (3 * i + 2)%nat =
       Some (fround ((Math_random (3 * i + 2)%nat - 0.5) * 0.2)%float)) /\
  (forall i, (i < DeepSea.swarmParticleCount)%nat ->
     let a := DeepSea.swarmPosArray0 Math_random in
     let k0 := (3 * DeepSea.ventParticleCount)%nat in
     length a = (DeepSea.swarmParticleCount * 3)%nat /\
     a !! (3 * i)%nat = Some (fround ((Math_random (k0 + 3 * i)%nat - 0.5) * 30)%float) /\
     a !! (3 * i + 1)%nat = Some (fround (Math_random (k0 + 3 * i + 1)%nat * 15)%float) /\
     a !! (3 * i + 2)%nat =
       Some (fround ((Math_random (k0 + 3 * i + 2)%nat - 0.5) * 30)%float)) /\
  (forall k0 j, (j < Dream.particleCount * 3)%nat ->
     let a := Dream.posArray Math_random k0 in
     length a = (3 * Dream.particleCount)%nat /\
     a !! j = Some (fround ((Math_random (k0 + j)%nat - 0.5) * 50)%float)).
Proof.
  split; [|split].
  - intros i Hi. cbv zeta. unfold DeepSea.ventPosArray.
    exact (CreationFacts.fill_positions_lookup Math_random 0 DeepSea.ventParticleCount
             0.2 20 0.2 false i Hi).
  - intros i Hi. cbv zeta. unfold DeepSea.swarmPosArray0.
    exact (CreationFacts.fill_positions_lookup Math_random (3 * DeepSea.ventParticleCount)
             DeepSea.swarmParticleCount 30 15 30 false i Hi).
  - intros k0 j Hj. cbv zeta. split.
    + apply Untouched.posArray_length.
    + by apply CreationFacts.posArray_lookup.
Qed.

End CreationCoverage.

(** ** A bad clock reading *)

Section ClockCoverage.
Context {D : Type}.
Variable dleb : D -> D -> bool.
Variables Math_sin Math_cos : float -> float.
Variables ease_power3_inOut ease_default : Q -> Q.

Import NaNFacts.

#[local] Abbreviation sea_run :=
  (DeepSea.run dleb Math_sin Math_cos ease_power3_inOut ease_default).
#[local] Abbreviation sea_animate :=
  (DeepSea.animate dleb Math_sin Math_cos ease_default).

(** X18: the vent stream does not recover from a bad clock reading.  A
    frame whose [deltaTime] is infinite or not a number stores NaN in
    the y component of every vent particle, whatever the buffer held,
    and whatever events follow, every y stays NaN and the buffer keeps
    its length: [(NaN + dt * 2) % 20] is NaN for every [dt]. *)
Theorem bad_clock_reading_poisons_the_vents :
  forall (f : @DeepSea.Frame D) (es : list (@DeepSea.Event D)) (s : DeepSea.State),
    is_finite (DeepSea.deltaTime f) = false ->
    exists s1 s',
      sea_animate f s = Ok s1 /\ sea_run es s1 = Ok s' /\
      length (DeepSea.ventLive (DeepSea.particles s')) =
        length (DeepSea.ventLive (DeepSea.particles s)) /\
      forall k, (3 * k + 1 < length (DeepSea.ventLive (DeepSea.particles s)))%nat ->
        exists y, DeepSea.ventLive (DeepSea.particles s') !! (3 * k + 1)%nat = Some y /\
                  isNaN y = true.
Proof.
  intros f es s Hdt.
  destruct (DeepSeaRuns.animate_ok dleb Math_sin Math_cos ease_default f s)
    as (m' & _ & H1).
  destruct (DeepSeaRuns.run_ok dleb Math_sin Math_cos ease_power3_inOut ease_default es
              {| DeepSea.registry := DeepSea.registry s;
                 DeepSea.particles := DeepSea.animate_particles Math_sin Math_cos f
                                        (DeepSea.particles s);
                 DeepSea.materials := DeepSea.render f m';
                 DeepSea.interaction :=
                   DeepSea.animate_hover dleb ease_default f (DeepSea.registry s)
                     (DeepSea.interaction s) |}) as [s' H2].
  eexists _, s'. split; [exact H1|]. split; [exact H2|].
  assert (Hinv : poisoned (DeepSea.ventLive (DeepSea.particles s')) /\
                 length (DeepSea.ventLive (DeepSea.particles s')) =
                 length (DeepSea.ventLive (DeepSea.particles s))).
  { apply (DeepSeaRuns.run_particles_inv dleb Math_sin Math_cos ease_power3_inOut
             ease_default
             (fun p => poisoned (DeepSea.ventLive p) /\
                       length (DeepSea.ventLive p) =
                       length (DeepSea.ventLive (DeepSea.particles s)))) in H2; [exact H2| |].
    - intros f' p [Hp Hl]. split; [by apply poisoned_frame|].
      by rewrite vent_length_frame.
    - cbn [DeepSea.particles]. split; [by apply bad_clock_frame|].
      apply vent_length_frame. }
  destruct Hinv as [Hp Hl]. split; [exact Hl|].
  intros k Hk.
  destruct (lookup_lt_is_Some_2 (DeepSea.ventLive (DeepSea.particles s')) (3 * k + 1))
    as [y Hy]; [lia|].
  exists y. split; [exact Hy|]. apply (Hp (3 * k + 1)%nat y); [|exact Hy].
  apply BoxFacts.mod3_1.
Qed.

End ClockCoverage.

(** * Concrete scenes

    Small instances of the two scenes, on which the statements above are
    evaluated: distances are integers, the trigonometric functions are
    only required to return 1 for the cosine of 0 and 0 for the sine of
    0 where a value matters. *)

Module Concrete.

Definition still_frame (dt t : float) (compiles : bool) : @DeepSea.Frame Z :=
  {| DeepSea.deltaTime := dt; DeepSea.elapsedTime := t; DeepSea.frame_now := 0;
     DeepSea.frame_ray := fun _ => []; DeepSea.compiles := compiles |}.

(** A swarm of one point at the origin, and no vent points. *)
Definition one_point_sea : DeepSea.State :=
  DeepSea.created_from [] [0; 0; 0]%float "" "".

(** The physics library replaced by one that leaves every body alone. *)
Definition no_step : float -> float -> nat -> list (@Dream.Body unit) -> list (@Dream.Body unit) :=
  fun _ _ _ bs => bs.
Definition no_force : Dream.fvec3 -> Dream.fvec3 -> @Dream.Body unit -> @Dream.Body unit :=
  fun _ _ b => b.

(** A river of one point at the origin, and no bodies. *)
Definition one_point_dream : @Dream.State unit :=
  Dream.created_from [] [0; 0; 0]%float 0 "" "".

Definition dream_frame (dt t : float) : Dream.Frame :=
  {| Dream.deltaTime := dt; Dream.elapsedTime := t; Dream.compiles := false |}.

(** A pointer ray that meets the object with identity [i] at distance
    [d] and the object with identity [j] at distance [d'], and nothing
    else. *)
Definition ray2 (i : nat) (d : Z) (j : nat) (d' : Z) (o : Obj) : list Z :=
  if (oid o =? i)%nat then [d] else if (oid o =? j)%nat then [d'] else [].

(** The deep-sea scene as created. *)
Definition sea0 : DeepSea.State := DeepSea.created_from [] [] "" "".
(** The dream scene as created. *)
Definition dream0 : @Dream.State unit := Dream.created_from [] [] 0 "" "".

(** Frame number [k] of a run at sixty frames a second in which the
    pointer ray meets the first tablet at distance 5. *)
Definition hover_frame (k : nat) : @DeepSea.Frame Z :=
  {| DeepSea.deltaTime := (1 / 60)%float;
     DeepSea.elapsedTime := (of_uint63 (Uint63.of_Z (Z.of_nat k)) / 60)%float;
     DeepSea.frame_now := Z.of_nat k # 60;
     DeepSea.frame_ray := ray2 1 5 1 5;
     DeepSea.compiles := false |}.

(** The frames at times 0, 1/60, ..., 60/60: the pointer stays on the
    first tablet for one second. *)
Definition one_second_of_hover : list (@DeepSea.Event Z) :=
  map (fun k => DeepSea.EFrame (hover_frame k)) (seq 0 61).









(** Two vent points: one half a unit below the ceiling, one below the
    floor. *)
Definition vent_sea : DeepSea.State :=
  DeepSea.created_from [0; 19.5; 0; 0; -5; 0]%float [] "" "".

(** A frame a little less than a quarter of a second after the last. *)
Definition quarter_frame : @DeepSea.Frame Z :=
  still_frame (0.25 - 0x1p-22)%float 0 false.










End Concrete.

Lemma float_neq_0_2 : 0%float <> 2%float.
Proof. intros H. apply (f_equal Prim2SF) in H. vm_compute in H. discriminate. Qed.

(** C1, the claim as stated fails: with a swarm (and a river) of one
    point at the origin and a frame at elapsed time 0, the claimed z
    component is [0 + cos (0 + 0) * 2 = 2], while the code leaves the z
    component at 0 in both scenes, for every cosine with [cos 0 = 1]. *)
Lemma swarm_and_river_z_not_recomputed :
  fround (0 + 1 * 2)%float = 2%float /\
  forall Math_sin Math_cos : float -> float,
    Math_cos 0%float = 1%float ->
    (exists s',
       DeepSea.run Z.leb Math_sin Math_cos id id
         [DeepSea.EFrame (Concrete.still_frame 0 0 false)] Concrete.one_point_sea = Ok s' /\
       DeepSea.swarmLive (DeepSea.particles s') !! 2%nat = Some 0%float /\
       DeepSea.swarmLive (DeepSea.particles s') !! 2%nat <>
         Some (fround (0 + Math_cos (0 + 0) * 2)%float)) /\
    (exists s',
       Dream.run Z.leb (fun _ => 0%float) id Concrete.no_step Concrete.no_force
         [Dream.EFrame (Concrete.dream_frame 0 0)] Concrete.one_point_dream = Ok s' /\
       Dream.posLive (Dream.visuals s') !! 2%nat = Some 0%float /\
       Dream.posLive (Dream.visuals s') !! 2%nat <>
         Some (fround (0 + Math_cos (0 + 0) * 2)%float)).
Proof.
  split; [vm_compute; reflexivity|].
  intros Math_sin Math_cos Hcos.
  assert (Hne : Some 0%float <> Some (fround (0 + Math_cos (0 + 0) * 2)%float)).
  { change (0 + 0)%float with 0%float. rewrite Hcos.
    change (fround (0 + 1 * 2)%float) with 2%float.
    intros H. apply (inj Some) in H. by apply float_neq_0_2. }
  split.
  - eexists. split; [reflexivity|]. split; [reflexivity|]. exact Hne.
  - eexists. split; [reflexivity|]. split; [reflexivity|]. exact Hne.
Qed.

(** C6, a concrete instance: one run goes straight to a frame at time 3,
    the other first sees a frame at time 1 and a mouse move, with other
    vent contents and another time step. *)
Lemma swarm_update_is_deterministic_witness :
  let f1 := Concrete.still_frame 0.5 3 false in
  let f2 := Concrete.still_frame 0.25 3 true in
  DeepSea.elapsedTime f1 = DeepSea.elapsedTime f2 /\
  exists s1 s2,
    DeepSea.run Z.leb (fun x => x) (fun x => x) id id
      ([] ++ [DeepSea.EFrame f1])
      (DeepSea.created_from [] [1; 2; 3]%float "" "") = Ok s1 /\
    DeepSea.run Z.leb (fun x => x) (fun x => x) id id
      ([DeepSea.EFrame (Concrete.still_frame 1 1 false);
        DeepSea.EMouseMove 10 10 100 100] ++ [DeepSea.EFrame f2])
      (DeepSea.created_from [7; 8; 9]%float [1; 2; 3]%float "a" "b") = Ok s2 /\
    DeepSea.swarmLive (DeepSea.particles s1) = DeepSea.swarmLive (DeepSea.particles s2).
Proof.
  split; [reflexivity|].
  apply (swarm_update_is_deterministic Z.leb (fun x => x) (fun x => x) id id).
  reflexivity.
Defined.

(** C3, a concrete instance: the pointer ray meets the core object (the
    jellyfish, the heart) at distance 20 and the particle field behind
    it at distance 30; the click at time 1 writes the title and the
    description of the "graphics" entry at once, and from time
    [1 + duration] on the camera target is the entry's position. *)
Lemma click_starts_transition_to_focus_point_witness :
  let sea_click := {| DeepSea.click_now := 1; DeepSea.click_ray := Concrete.ray2 0 20 5 30 |} in
  let dream_click := {| Dream.click_now := 1; Dream.click_ray := Concrete.ray2 0 20 54 30;
                        Dream.click_distance := 18 |} in
  (Raycast.intersectObjects Z.leb (DeepSea.click_ray sea_click)
     (DeepSea.interactiveObjects (DeepSea.registry Concrete.sea0)) !! 0%nat =
     Some {| Raycast.distance := 20%Z; Raycast.object := DeepSea.jellyfish |} /\
   DeepSea.focusPoints (DeepSea.registry Concrete.sea0) !! "graphics" =
     Some {| position := Vec3 0 5 10; title := "The Anomaly.";
             description := "The heart of the abyss. A creature of pure light and impossible form. It bends pixels to its will." |} /\
   exists s',
     DeepSea.onClick Z.leb Tween.power3_inOut sea_click Concrete.sea0 = Ok s' /\
     DeepSea.infoTitle (DeepSea.interaction s') = "The Anomaly." /\
     Tween.value Tween.lerp3 (DeepSea.controlsTarget (DeepSea.interaction s')) (7 # 2) =
       Vec3 0 5 10) /\
  (Raycast.intersectObjects Z.leb (Dream.click_ray dream_click)
     (Dream.interactiveObjects (Dream.registry Concrete.dream0)) !! 0%nat =
     Some {| Raycast.distance := 20%Z; Raycast.object := Dream.heart |} /\
   Dream.focusPoints (Dream.registry Concrete.dream0) !! "graphics" =
     Some {| position := Vec3 0 2 7; title := "The Heart.";
             description := "Everything starts here. A chaotic mix of logic and light. It beats with the rhythm of creation." |} /\
   exists s',
     Dream.onClick Z.leb Tween.power3_inOut dream_click Concrete.dream0 = Ok s' /\
     Dream.infoTitle (Dream.interaction s') = "The Heart." /\
     Tween.value Tween.lerp3 (Dream.controlsTarget (Dream.interaction s')) 3 =
       Vec3 0 2 7).
Proof.
  intros sea_click dream_click.
  pose proof (click_starts_transition_to_focus_point (Dynamics := unit) Z.leb
                (fun x => x) (fun x => x) (fun _ => 0%float) Tween.power3_inOut id
                Concrete.no_step Concrete.no_force) as [Hsea Hdream].
  split.
  - assert (H1 : Raycast.intersectObjects Z.leb (DeepSea.click_ray sea_click)
       (DeepSea.interactiveObjects (DeepSea.registry Concrete.sea0)) !! 0%nat =
       Some {| Raycast.distance := 20%Z; Raycast.object := DeepSea.jellyfish |})
      by reflexivity.
    assert (H2 : DeepSea.focusPoints (DeepSea.registry Concrete.sea0) !! "graphics" =
      Some {| position := Vec3 0 5 10; title := "The Anomaly.";
              description := "The heart of the abyss. A creature of pure light and impossible form. It bends pixels to its will." |})
      by reflexivity.
    split; [exact H1|]. split; [exact H2|].
    destruct (Hsea sea_click Concrete.sea0 _ _ H1 H2) as (s' & Hc & Ht & _ & _ & Hlater).
    exists s'. split; [exact Hc|]. split; [exact Ht|].
    destruct (Hlater [] s' (List.Forall_nil _) eq_refl) as (_ & _ & Hv).
    apply Hv. vm_compute. discriminate.
  - assert (H1 : Raycast.intersectObjects Z.leb (Dream.click_ray dream_click)
       (Dream.interactiveObjects (Dream.registry Concrete.dream0)) !! 0%nat =
       Some {| Raycast.distance := 20%Z; Raycast.object := Dream.heart |})
      by reflexivity.
    assert (H2 : Dream.focusPoints (Dream.registry Concrete.dream0) !! "graphics" =
      Some {| position := Vec3 0 2 7; title := "The Heart.";
              description := "Everything starts here. A chaotic mix of logic and light. It beats with the rhythm of creation." |})
      by reflexivity.
    split; [exact H1|]. split; [exact H2|].
    destruct (Hdream dream_click Concrete.dream0 _ _ H1 H2) as (s' & Hc & Ht & _ & _ & Hlater).
    exists s'. split; [exact Hc|]. split; [exact Ht|].
    destruct (Hlater [] s' (List.Forall_nil _) eq_refl) as (_ & _ & Hv).
    apply Hv. vm_compute. discriminate.
Defined.




(** C9, a concrete instance: in the scene as created, a frame at time 0
    in which the ray meets the first tablet starts its glow on the way
    from 0 to 0.7, and at time 1 the glow that frame set going is
    0.7. *)
Lemma hover_starts_glow_transition_each_frame_witness :
  let f := Concrete.hover_frame 0 in
  let c := DeepSea.tablet 0 in
  NoDup (map oid (DeepSea.scene_children (DeepSea.registry Concrete.sea0))) /\
  c ∈ DeepSea.scene_children (DeepSea.registry Concrete.sea0) /\
  name c = "photography" /\
  DeepSea.emissiveIntensity (DeepSea.interaction Concrete.sea0) !! oid c =
    Some (Tween.Still 0%Q) /\
  exists s' g,
    DeepSea.animate Z.leb (fun x => x) (fun x => x) Tween.power1_out f Concrete.sea0 = Ok s' /\
    DeepSea.emissiveIntensity (DeepSea.interaction s') !! oid c = Some g /\
    Tween.value Tween.lerpQ g 1 = 7 # 10.
Proof.
  intros f c.
  assert (Hnd : NoDup (map oid (DeepSea.scene_children (DeepSea.registry Concrete.sea0))))
    by (apply (bool_decide_unpack _); vm_compute; exact I).
  assert (Hc : c ∈ DeepSea.scene_children (DeepSea.registry Concrete.sea0))
    by (apply (bool_decide_unpack _); vm_compute; exact I).
  assert (Ha : DeepSea.emissiveIntensity (DeepSea.interaction Concrete.sea0) !! oid c =
               Some (Tween.Still 0%Q)) by reflexivity.
  split; [exact Hnd|]. split; [exact Hc|]. split; [reflexivity|]. split; [exact Ha|].
  destruct (hover_starts_glow_transition_each_frame Z.leb (fun x => x) (fun x => x)
              Tween.power3_inOut Tween.power1_out f Concrete.sea0 c _ Hnd Hc eq_refl Ha)
    as (_ & (s' & g & Hs' & Hg & _ & Hlater & _) & _).
  exists s', g. split; [exact Hs'|]. split; [exact Hg|].
  apply Hlater. vm_compute. discriminate.
Defined.

(** C9, the claim as stated fails: with the [power1.out] curve, sixty
    frames a second from time 0 to time 1 in each of which the pointer ray meets the
    first tablet (the pointer is held on it for one second) leave its
    glow, at time 1, strictly below the fully-hovered value 0.7. *)
Lemma glow_below_target_after_one_second_of_hover :
  exists s' g,
    DeepSea.run Z.leb (fun x => x) (fun x => x) Tween.power3_inOut Tween.power1_out
      Concrete.one_second_of_hover Concrete.sea0 = Ok s' /\
    DeepSea.emissiveIntensity (DeepSea.interaction s') !! oid (DeepSea.tablet 0) = Some g /\
    (Tween.value Tween.lerpQ g 1 < 7 # 10)%Q /\
    ~ (Tween.value Tween.lerpQ g 1 == 7 # 10)%Q.
Proof.
  eexists. eexists. split; [vm_compute; reflexivity|].
  split; [vm_compute; reflexivity|].
  split; [vm_compute; reflexivity|].
  vm_compute. discriminate.
Qed.

(** C2, a concrete instance: the point at y = 19.5 and a frame a quarter
    of a second later; the sum is 20 and wraps to 0. *)
Lemma vent_y_is_remainder_within_ceiling_witness :
  let f := Concrete.still_frame 0.25 0 false in
  let newY := jrem (19.5 + 0.25 * 2)%float 20 in
  DeepSea.ventLive (DeepSea.particles Concrete.vent_sea) !! (3 * 0 + 1)%nat = Some 19.5%float /\
  (0 <=? 19.5)%float = true /\ (0 <=? DeepSea.deltaTime f)%float = true /\
  is_finite (19.5 + DeepSea.deltaTime f * 2) = true /\
  exists s',
    DeepSea.animate Z.leb (fun x => x) (fun x => x) id f Concrete.vent_sea = Ok s' /\
    DeepSea.ventLive (DeepSea.particles s') !! (3 * 0 + 1)%nat = Some (fround newY) /\
    (0 <=? newY)%float = true /\ (newY <? 20)%float = true /\
    (0 <=? fround newY)%float = true /\ (fround newY <=? 20)%float = true.
Proof.
  intros f newY.
  assert (H1 : DeepSea.ventLive (DeepSea.particles Concrete.vent_sea) !! (3 * 0 + 1)%nat
               = Some 19.5%float) by reflexivity.
  assert (H2 : (0 <=? 19.5)%float = true) by reflexivity.
  assert (H3 : (0 <=? DeepSea.deltaTime f)%float = true) by reflexivity.
  assert (H4 : is_finite (19.5 + DeepSea.deltaTime f * 2) = true) by reflexivity.
  split; [exact H1|]. split; [exact H2|]. split; [exact H3|]. split; [exact H4|].
  destruct (vent_y_is_remainder_within_ceiling Z.leb (fun x => x) (fun x => x) id
              f Concrete.vent_sea 0%nat 19.5%float H1) as (s' & Hs' & Hst & Hb).
  exists s'. split; [exact Hs'|]. split; [exact Hst|]. exact (Hb H2 H3 H4).
Defined.

(** C2, the claim as stated fails: with a time step that is not
    negative, the point at y = 19.5 is stored at exactly 20 (the
    remainder 19.9999995 rounds up in binary32), and the point at
    y = -5 stays below 0 (the remainder has the sign of the sum). *)
Lemma vent_y_stored_at_ceiling_and_below_floor :
  (0 <=? DeepSea.deltaTime Concrete.quarter_frame)%float = true /\
  forall (Math_sin Math_cos : float -> float) (ease_default : Q -> Q),
    exists s' v,
      DeepSea.animate Z.leb Math_sin Math_cos ease_default
        Concrete.quarter_frame Concrete.vent_sea = Ok s' /\
      DeepSea.ventLive (DeepSea.particles Concrete.vent_sea) !! 1%nat = Some 19.5%float /\
      DeepSea.ventLive (DeepSea.particles s') !! 1%nat = Some 20%float /\
      (20 <? 20)%float = false /\
      DeepSea.ventLive (DeepSea.particles Concrete.vent_sea) !! 4%nat = Some (-5)%float /\
      DeepSea.ventLive (DeepSea.particles s') !! 4%nat = Some v /\
      (0 <=? v)%float = false.
Proof.
  split; [reflexivity|].
  intros Math_sin Math_cos ease_default.
  eexists. eexists. split; [reflexivity|].
  split; [reflexivity|]. split; [vm_compute; reflexivity|]. split; [reflexivity|].
  split; [reflexivity|]. split; [vm_compute; reflexivity|]. reflexivity.
Qed.



(** * Concrete instances for the further properties *)

Module Samples.

(** A fragment shader with the diffuse-colour line twice. *)
Definition two_lines : Program.Shader :=
  {| Program.uniforms := {["opacity" := Program.Number 1]};
     Program.vertexShader := "void main() {}";
     Program.fragmentShader :=
       "{" +:+ JellyfishShader.diffuse_line +:+ " " +:+ JellyfishShader.diffuse_line +:+ "}" |}.

(** A vertex shader with the include line, and one without. *)
Definition with_include : Program.Shader :=
  {| Program.uniforms := ∅;
     Program.vertexShader := "void main() {" +:+ HeartShader.begin_vertex +:+ "}";
     Program.fragmentShader := "void main() {}" |}.

Definition without_include : Program.Shader :=
  {| Program.uniforms := ∅;
     Program.vertexShader := "void main() {}";
     Program.fragmentShader := "void main() {}" |}.

Definition hidden_block : Page.Element :=
  {| Page.classList := ["panel"]; Page.style_display := "block" |}.

(** A page with both elements of the [load] handler, and one without
    the main content. *)
Definition full_page : Page.Document :=
  {| Page.loader := Some hidden_block; Page.mainContent := Some hidden_block;
     Page.timeouts := [] |}.

Definition page_without_main : Page.Document :=
  {| Page.loader := Some hidden_block; Page.mainContent := None; Page.timeouts := [] |}.

End Samples.

(** X1, a concrete instance: one run has a click on the jellyfish and
    a pointer move between its two frames, the other has the two
    frames alone, with a pointer ray that meets the first tablet, and
    starts with other texts on the page. *)
Lemma simulation_follows_the_clock_alone_witness :
  let es1 : list (@DeepSea.Event Z) :=
    [DeepSea.EFrame (Concrete.still_frame 0.5 1 true);
     DeepSea.EClick {| DeepSea.click_now := 1; DeepSea.click_ray := Concrete.ray2 0 20 5 30 |};
     DeepSea.EMouseMove 10 10 100 100;
     DeepSea.EFrame (Concrete.still_frame 0.25 3 false)] in
  let es2 : list (@DeepSea.Event Z) :=
    [DeepSea.EFrame {| DeepSea.deltaTime := 0.5; DeepSea.elapsedTime := 1;
                       DeepSea.frame_now := 2; DeepSea.frame_ray := Concrete.ray2 1 5 1 5;
                       DeepSea.compiles := true |};
     DeepSea.EFrame (Concrete.still_frame 0.25 3 false)] in
  let s1 := DeepSea.created_from [0; 19; 0]%float [1; 2; 3]%float "" "" in
  let s2 := DeepSea.created_from [0; 19; 0]%float [1; 2; 3]%float "a" "b" in
  SeaCompose.clocks es1 = SeaCompose.clocks es2 /\
  exists r1 r2,
    DeepSea.run Z.leb (fun x => x) (fun x => x) id id es1 s1 = Ok r1 /\
    DeepSea.run Z.leb (fun x => x) (fun x => x) id id es2 s2 = Ok r2 /\
    DeepSea.particles r1 = DeepSea.particles r2 /\
    DeepSea.materials r1 = DeepSea.materials r2.
Proof.
  intros es1 es2 s1 s2.
  assert (H : SeaCompose.clocks es1 = SeaCompose.clocks es2) by reflexivity.
  split; [exact H|].
  destruct (simulation_follows_the_clock_alone (Dynamics := unit) Z.leb
              (fun x => x) (fun x => x) (fun _ => 0%float) id id
              Concrete.no_step Concrete.no_force) as [Hsea _].
  exact (Hsea es1 es2 s1 s2 eq_refl eq_refl H).
Defined.

(** X2, a concrete instance: a frame at elapsed time 2 followed by a
    pointer move, with a sine that is 0 everywhere. *)
Lemma lights_follow_the_last_frame_witness :
  Forall (fun e : @DeepSea.Event Z => SeaCompose.is_frame e = false)
    [DeepSea.EMouseMove 10 10 100 100] /\
  exists s',
    DeepSea.run Z.leb (fun _ => 0%float) (fun _ => 0%float) id id
      ([] ++ DeepSea.EFrame (Concrete.still_frame 0.5 2 false)
          :: [DeepSea.EMouseMove 10 10 100 100]) Concrete.sea0 = Ok s' /\
    DeepSea.jellyfishY (DeepSea.materials s') = (5 + 0 * 0.5)%float /\
    DeepSea.coreLightY (DeepSea.materials s') = DeepSea.jellyfishY (DeepSea.materials s').
Proof.
  assert (H : Forall (fun e : @DeepSea.Event Z => SeaCompose.is_frame e = false)
                [DeepSea.EMouseMove 10 10 100 100]).
  { apply Forall_cons. split; [reflexivity|apply Forall_nil_2]. }
  split; [exact H|].
  destruct (lights_follow_the_last_frame Z.leb (fun _ => 0%float) (fun _ => 0%float) id id)
    as [Hlast _].
  destruct (Hlast [] [DeepSea.EMouseMove 10 10 100 100]
              (Concrete.still_frame 0.5 2 false) Concrete.sea0 H)
    as (s' & Hrun & _ & Hj & Hl & _).
  exists s'. split; [exact Hrun|]. split; [exact Hj|exact Hl].
Defined.

(** X3, a concrete instance: a click and a pointer move change no
    glow. *)
Lemma only_frames_change_glow_and_only_of_tablets_witness :
  let es : list (@DeepSea.Event Z) :=
    [DeepSea.EClick {| DeepSea.click_now := 1; DeepSea.click_ray := Concrete.ray2 1 5 1 5 |};
     DeepSea.EMouseMove 10 10 100 100] in
  Forall (fun e => SeaCompose.is_frame e = false) es /\
  exists s',
    DeepSea.run Z.leb (fun x => x) (fun x => x) id id es Concrete.sea0 = Ok s' /\
    DeepSea.emissiveIntensity (DeepSea.interaction s') =
      DeepSea.emissiveIntensity (DeepSea.interaction Concrete.sea0).
Proof.
  intros es.
  assert (H : Forall (fun e => SeaCompose.is_frame e = false) es).
  { repeat (apply Forall_cons; split; [reflexivity|]). apply Forall_nil_2. }
  split; [exact H|].
  destruct (only_frames_change_glow_and_only_of_tablets Z.leb (fun x => x) (fun x => x)
              id id es Concrete.sea0) as (s' & Hrun & _ & _ & _ & Hsame).
  exists s'. split; [exact Hrun|]. exact (Hsame H).
Defined.

(** X4, a concrete instance: after a pointer move, a click whose ray
    meets the second tablet and, behind it, the swarm. *)
Lemma every_hit_in_the_created_scenes_has_a_focus_point_witness :
  let c := {| DeepSea.click_now := 1; DeepSea.click_ray := Concrete.ray2 2 7 5 30 |} in
  exists s,
    DeepSea.run Z.leb (fun x => x) (fun x => x) id id
      [DeepSea.EMouseMove 10 10 100 100] (DeepSea.created_from [] [] "" "") = Ok s /\
    Raycast.intersectObjects Z.leb (DeepSea.click_ray c)
      (DeepSea.interactiveObjects (DeepSea.registry s)) !! 0%nat =
      Some {| Raycast.distance := 7%Z; Raycast.object := DeepSea.tablet 1 |} /\
    exists fd s',
      DeepSea.world_focusPoints !! "photography" = Some fd /\
      DeepSea.onClick Z.leb id c s = Ok s' /\
      DeepSea.infoTitle (DeepSea.interaction s') = title fd.
Proof.
  intros c.
  destruct (every_hit_in_the_created_scenes_has_a_focus_point (Dynamics := unit) Z.leb
              (fun x => x) (fun x => x) (fun _ => 0%float) id id
              Concrete.no_step Concrete.no_force) as [Hsea _].
  destruct (Hsea [DeepSea.EMouseMove 10 10 100 100] [] [] "" "") as (s & Hrun & Hclick).
  exists s. split; [exact Hrun|].
  assert (Hhit : Raycast.intersectObjects Z.leb (DeepSea.click_ray c)
            (DeepSea.interactiveObjects (DeepSea.registry s)) !! 0%nat =
            Some {| Raycast.distance := 7%Z; Raycast.object := DeepSea.tablet 1 |}).
  { simpl in Hrun. injection Hrun as <-. reflexivity. }
  split; [exact Hhit|].
  destruct (Hclick c _ Hhit) as (fd & s' & Hfd & Hc & Ht & _).
  exists fd, s'. split; [exact Hfd|]. split; [exact Hc|exact Ht].
Defined.

(** X5, a concrete instance: a click on the heart with the camera 18
    away from its target; from time 3 on the focus distance is 15. *)
Lemma click_refocuses_the_blur_pass_witness :
  let c := {| Dream.click_now := 1; Dream.click_ray := Concrete.ray2 0 20 54 30;
              Dream.click_distance := 18 |} in
  Raycast.intersectObjects Z.leb (Dream.click_ray c)
    (Dream.interactiveObjects (Dream.registry Concrete.dream0)) !! 0%nat =
    Some {| Raycast.distance := 20%Z; Raycast.object := Dream.heart |} /\
  Dream.focusPoints (Dream.registry Concrete.dream0) !! "graphics" =
    Some {| position := Vec3 0 2 7; title := "The Heart.";
            description := "Everything starts here. A chaotic mix of logic and light. It beats with the rhythm of creation." |} /\
  exists s',
    Dream.onClick Z.leb Tween.power3_inOut c Concrete.dream0 = Ok s' /\
    Tween.value Tween.lerpQ (Dream.bokehFocus (Dream.interaction s')) 3 = (18 - 3)%Q.
Proof.
  intros c.
  assert (H1 : Raycast.intersectObjects Z.leb (Dream.click_ray c)
       (Dream.interactiveObjects (Dream.registry Concrete.dream0)) !! 0%nat =
       Some {| Raycast.distance := 20%Z; Raycast.object := Dream.heart |})
    by reflexivity.
  assert (H2 : Dream.focusPoints (Dream.registry Concrete.dream0) !! "graphics" =
    Some {| position := Vec3 0 2 7; title := "The Heart.";
            description := "Everything starts here. A chaotic mix of logic and light. It beats with the rhythm of creation." |})
    by reflexivity.
  split; [exact H1|]. split; [exact H2|].
  destruct (click_refocuses_the_blur_pass (Dynamics := unit) Z.leb (fun _ => 0%float)
              Tween.power3_inOut Concrete.no_step Concrete.no_force
              c Concrete.dream0 _ _ H1 H2) as (s' & Hc & _ & Hlater).
  exists s'. split; [exact Hc|].
  destruct (Hlater [] s' (List.Forall_nil _) eq_refl) as (_ & Hv).
  apply Hv. vm_compute. discriminate.
Defined.

(** X7, a concrete instance: of two diffuse-colour lines the first is
    replaced and the second is kept. *)
Lemma jellyfish_patch_replaces_first_line_and_declares_nothing_witness :
  Program.fragmentShader (JellyfishShader.onBeforeCompile Samples.two_lines) =
    "{" +:+ JellyfishShader.fresnel_pulse +:+ " " +:+ JellyfishShader.diffuse_line +:+ "}" /\
  JSString.includes
    (Program.fragmentShader (JellyfishShader.onBeforeCompile Samples.two_lines)) "uTime"
    = true /\
  JSString.includes
    (Program.fragmentShader (JellyfishShader.onBeforeCompile Samples.two_lines)) "uniform"
    = false /\
  Program.fragmentShader (JellyfishShader.onBeforeCompile Samples.without_include) =
    "void main() {}".
Proof.
  destruct (jellyfish_patch_replaces_first_line_and_declares_nothing Samples.two_lines)
    as (Hfound & _ & Huniform & _).
  destruct (jellyfish_patch_replaces_first_line_and_declares_nothing Samples.without_include)
    as (_ & Habsent & _).
  destruct (Hfound "{" (" " +:+ JellyfishShader.diffuse_line +:+ "}")) as [Hpatched Hreads].
  - reflexivity.
  - intros b' a' H. destruct b' as [|ch b']; [discriminate H|simpl; lia].
  - split; [exact Hpatched|]. split; [exact Hreads|]. split.
    + apply not_true_is_false. intros E. apply Huniform in E.
      vm_compute in E. discriminate E.
    + apply Habsent. reflexivity.
Defined.

(** X8, a concrete instance: a vertex shader with the include line and
    one without. *)
Lemma heart_patch_declares_uniform_and_keeps_include_witness :
  Program.vertexShader (HeartShader.onBeforeCompile Samples.with_include) =
    HeartShader.declaration +:+ "void main() {" +:+ HeartShader.displacement +:+ "}" /\
  Program.vertexShader (HeartShader.onBeforeCompile Samples.without_include) =
    HeartShader.declaration +:+ "void main() {}".
Proof.
  destruct (heart_patch_declares_uniform_and_keeps_include Samples.with_include)
    as (_ & Hfound & _).
  destruct (heart_patch_declares_uniform_and_keeps_include Samples.without_include)
    as (_ & _ & Habsent & _).
  split.
  - apply (Hfound "void main() {" "}"); [reflexivity|].
    intros b' a' H.
    destruct (le_lt_dec 13 (String.length b')) as [Hle|Hlt]; [exact Hle|].
    exfalso.
    do 13 (destruct b' as [|? b']; [discriminate H|injection H as <- H]).
    simpl in Hlt. lia.
  - apply Habsent. reflexivity.
Defined.

(** X9, a concrete instance: the [load] handler at time 0 on a page
    with both elements, and on a page without the main content. *)
Lemma load_reveals_the_page_and_hides_the_loader_later_witness :
  (exists d',
     Page.onLoad 0 Samples.full_page = (d', None) /\
     Page.run_timeouts 1499 d' = d' /\
     Page.loader (Page.run_timeouts 1500 d') =
       Some {| Page.classList := ["panel"; "fade-out"]; Page.style_display := "none" |}) /\
  (exists d',
     Page.onLoad 0 Samples.page_without_main = (d', Some TypeError) /\
     Page.run_timeouts 5000 d' = d').
Proof.
  destruct load_reveals_the_page_and_hides_the_loader_later as (Hfull & _ & Hpartial).
  split.
  - destruct (Hfull 0%Q Samples.full_page Samples.hidden_block Samples.hidden_block
                eq_refl eq_refl eq_refl) as (d' & Hload & _ & _ & _ & _ & _ & _ & _ & Ht).
    exists d'. split; [exact Hload|]. split.
    + apply (Ht 1499%Q). reflexivity.
    + apply (Ht 1500%Q). vm_compute. discriminate.
  - destruct (Hpartial 0%Q Samples.page_without_main Samples.hidden_block
                eq_refl eq_refl eq_refl) as (d' & Hload & _ & _ & Ht).
    exists d'. split; [exact Hload|]. apply Ht.
Defined.

(** X10, a concrete instance: a click on the jellyfish on a page
    without the title element; a click on the heart on a page with
    both text elements. *)
Lemma click_on_a_page_without_text_elements_witness :
  let c := {| DeepSea.click_now := 1; DeepSea.click_ray := Concrete.ray2 0 20 5 30 |} in
  let p := {| PageClick.info_title := None; PageClick.info_description := Some "" |} in
  let c' := {| Dream.click_now := 1; Dream.click_ray := Concrete.ray2 0 20 54 30;
               Dream.click_distance := 18 |} in
  (Raycast.intersectObjects Z.leb (DeepSea.click_ray c) DeepSea.world_interactiveObjects
     !! 0%nat = Some {| Raycast.distance := 20%Z; Raycast.object := DeepSea.jellyfish |} /\
   DeepSea.world_focusPoints !! "graphics" =
     Some {| position := Vec3 0 5 10; title := "The Anomaly.";
             description := "The heart of the abyss. A creature of pure light and impossible form. It bends pixels to its will." |} /\
   PageClick.sea_onClick Z.leb Tween.power3_inOut c
     (DeepSea.registry Concrete.sea0) (Tween.Still (Vec3 0 2 0)) p =
   ((Tween.to Tween.lerp3 (Tween.Still (Vec3 0 2 0)) 1 (Vec3 0 5 10) (5 # 2)
       Tween.power3_inOut, p), Some TypeError)) /\
  exists s',
    Dream.onClick Z.leb Tween.power3_inOut c' Concrete.dream0 = Ok s' /\
    Dream.infoTitle (Dream.interaction s') = "The Heart." /\
    PageClick.dream_onClick Z.leb Tween.power3_inOut c' (Dream.registry Concrete.dream0)
      (Tween.Still (Vec3 0 2 0)) (Tween.Still 15%Q)
      {| PageClick.info_title := Some ""; PageClick.info_description := Some "" |} =
    ((Dream.controlsTarget (Dream.interaction s'), Dream.bokehFocus (Dream.interaction s'),
      {| PageClick.info_title := Some (Dream.infoTitle (Dream.interaction s'));
         PageClick.info_description :=
           Some (Dream.infoDescription (Dream.interaction s')) |}), None).
Proof.
  intros c p c'.
  destruct (click_on_a_page_without_text_elements (Dynamics := unit) Z.leb
              Tween.power3_inOut) as (_ & Hdream & Hsea & _).
  split.
  - assert (H1 : Raycast.intersectObjects Z.leb (DeepSea.click_ray c)
                   (DeepSea.interactiveObjects (DeepSea.registry Concrete.sea0)) !! 0%nat =
                 Some {| Raycast.distance := 20%Z; Raycast.object := DeepSea.jellyfish |})
      by reflexivity.
    assert (H2 : DeepSea.focusPoints (DeepSea.registry Concrete.sea0) !! "graphics" =
      Some {| position := Vec3 0 5 10; title := "The Anomaly.";
              description := "The heart of the abyss. A creature of pure light and impossible form. It bends pixels to its will." |})
      by reflexivity.
    split; [exact H1|]. split; [exact H2|].
    destruct (Hsea c (DeepSea.registry Concrete.sea0) (Tween.Still (Vec3 0 2 0)) p _ _ H1 H2)
      as [Hmissing _].
    apply Hmissing. reflexivity.
  - destruct (Hdream c' Concrete.dream0) as (s' & Hs' & _ & _ & _ & _ & Hpage).
    exists s'. split; [exact Hs'|]. split; [|exact Hpage].
    rewrite (eq_refl : Dream.onClick Z.leb Tween.power3_inOut c' Concrete.dream0 = Ok _)
      in Hs'.
    by injection Hs' as <-.
Defined.

(** ** Concrete instances for the ranges *)

Module RangeSamples.

(** A frame at elapsed time 2, half a second after the one before, and
    a pointer move. *)
Definition frame_and_move : list (@DeepSea.Event Z) :=
  [DeepSea.EFrame (Concrete.still_frame 0.5 2 false); DeepSea.EMouseMove 10 10 100 100].

Lemma frame_and_move_steady : Forall BoxFacts.steady frame_and_move.
Proof.
  apply Forall_cons. split; [repeat split; reflexivity|].
  apply Forall_cons. split; [exact I|]. apply Forall_nil_2.
Qed.

(** A generator that always draws one quarter. *)
Definition quarter : nat -> float := fun _ => 0.25%float.

Lemma quarter_draws : SceneRanges.draws quarter.
Proof. intros k. split; reflexivity. Qed.

(** A sine that is zero everywhere. *)
Definition flat : float -> float := fun _ => 0%float.

Lemma flat_bounded : SceneRanges.unit_bounded flat.
Proof. intros x _. split; reflexivity. Qed.

End RangeSamples.

(** X11, a concrete instance: the first vent point after a frame and a
    pointer move. *)
Lemma vent_particles_stay_in_their_column_witness :
  SceneRanges.draws RangeSamples.quarter /\
  Forall BoxFacts.steady RangeSamples.frame_and_move /\
  exists s',
    DeepSea.run Z.leb RangeSamples.flat RangeSamples.flat id id RangeSamples.frame_and_move
      (DeepSea.created RangeSamples.quarter "" "") = Ok s' /\
    exists x y z,
      DeepSea.ventLive (DeepSea.particles s') !! (3 * 0)%nat = Some x /\
      DeepSea.ventLive (DeepSea.particles s') !! (3 * 0 + 1)%nat = Some y /\
      DeepSea.ventLive (DeepSea.particles s') !! (3 * 0 + 2)%nat = Some z /\
      BoxFacts.between (- SceneRanges.tenth32) SceneRanges.tenth32 x /\
      BoxFacts.between 0 20 y /\
      BoxFacts.between (- SceneRanges.tenth32) SceneRanges.tenth32 z.
Proof.
  split; [exact RangeSamples.quarter_draws|].
  split; [exact RangeSamples.frame_and_move_steady|].
  destruct (vent_particles_stay_in_their_column Z.leb RangeSamples.flat RangeSamples.flat
              RangeSamples.quarter id id RangeSamples.frame_and_move "" ""
              RangeSamples.quarter_draws RangeSamples.frame_and_move_steady)
    as (s' & Hrun & Hall).
  exists s'. split; [exact Hrun|].
  exact (Hall 0%nat (Nat.lt_0_succ _)).
Defined.

(** X12, a concrete instance: the first swarm point after a frame and a
    pointer move. *)
Lemma swarm_stays_in_its_box_witness :
  SceneRanges.draws RangeSamples.quarter /\
  SceneRanges.unit_bounded RangeSamples.flat /\
  Forall BoxFacts.steady RangeSamples.frame_and_move /\
  exists s',
    DeepSea.run Z.leb RangeSamples.flat RangeSamples.flat id id RangeSamples.frame_and_move
      (DeepSea.created RangeSamples.quarter "" "") = Ok s' /\
    exists x y z,
      DeepSea.swarmLive (DeepSea.particles s') !! (3 * 0)%nat = Some x /\
      DeepSea.swarmLive (DeepSea.particles s') !! (3 * 0 + 1)%nat = Some y /\
      DeepSea.swarmLive (DeepSea.particles s') !! (3 * 0 + 2)%nat = Some z /\
      BoxFacts.between (-17) 17 x /\ BoxFacts.between (-2) 17 y /\
      BoxFacts.between (-15) 15 z.
Proof.
  split; [exact RangeSamples.quarter_draws|].
  split; [exact RangeSamples.flat_bounded|].
  split; [exact RangeSamples.frame_and_move_steady|].
  destruct (swarm_stays_in_its_box Z.leb RangeSamples.flat RangeSamples.flat
              RangeSamples.quarter id id RangeSamples.frame_and_move "" ""
              RangeSamples.quarter_draws RangeSamples.flat_bounded RangeSamples.flat_bounded
              RangeSamples.frame_and_move_steady)
    as (s' & Hrun & Hall).
  exists s'. split; [exact Hrun|].
  exact (Hall 0%nat (Nat.lt_0_succ _)).
Defined.

(** X13, a concrete instance: the jellyfish and its light after a frame
    and a pointer move. *)
Lemma jellyfish_and_light_stay_in_range_witness :
  SceneRanges.unit_bounded RangeSamples.flat /\
  Forall BoxFacts.steady RangeSamples.frame_and_move /\
  exists s',
    DeepSea.run Z.leb RangeSamples.flat RangeSamples.flat id id RangeSamples.frame_and_move
      (DeepSea.created RangeSamples.quarter "" "") = Ok s' /\
    BoxFacts.between 4.5 5.5 (DeepSea.jellyfishY (DeepSea.materials s')) /\
    DeepSea.coreLightY (DeepSea.materials s') = DeepSea.jellyfishY (DeepSea.materials s') /\
    BoxFacts.between 5 10 (DeepSea.coreLightIntensity (DeepSea.materials s')).
Proof.
  split; [exact RangeSamples.flat_bounded|].
  split; [exact RangeSamples.frame_and_move_steady|].
  exact (jellyfish_and_light_stay_in_range Z.leb RangeSamples.flat RangeSamples.flat
           RangeSamples.quarter id id RangeSamples.frame_and_move "" ""
           RangeSamples.flat_bounded RangeSamples.frame_and_move_steady).
Defined.

(** X14, a concrete instance: the first coordinate of the river after a
    frame of the dream scene. *)
Lemma river_particles_stay_in_their_box_witness :
  SceneRanges.draws RangeSamples.quarter /\
  exists s',
    Dream.run Z.leb RangeSamples.quarter id Concrete.no_step Concrete.no_force
      [Dream.EFrame (Concrete.dream_frame 0.5 2)]
      (Dream.created_from [] (Dream.posArray RangeSamples.quarter 209) 0 "" "") = Ok s' /\
    exists v,
      Dream.posLive (Dream.visuals s') !! 0%nat = Some v /\ BoxFacts.between (-25) 25 v.
Proof.
  split; [exact RangeSamples.quarter_draws|].
  destruct (river_particles_stay_in_their_box Z.leb RangeSamples.quarter id
              Concrete.no_step Concrete.no_force
              [Dream.EFrame (Concrete.dream_frame 0.5 2)] [] 209 0 "" ""
              RangeSamples.quarter_draws)
    as (s' & Hrun & Hall).
  exists s'. split; [exact Hrun|].
  apply (Hall 0%nat). unfold Dream.particleCount. lia.
Defined.

(** ** Concrete instances for the pointer and the spires *)

(** X15, a concrete instance: the pointer a quarter of the way into a
    window of 800 by 600. *)
Lemma pointer_is_normalised_to_the_window_witness :
  is_finite 800 = true /\ is_finite 600 = true /\
  (0 <? 800)%float = true /\ (0 <? 600)%float = true /\
  BoxFacts.between 0 800 200 /\ BoxFacts.between 0 600 150 /\
  let s' := DeepSea.onMouseMove 200 150 800 600 Concrete.sea0 in
  DeepSea.mouse (DeepSea.interaction s') = ((-0.5)%float, 0.5%float) /\
  BoxFacts.between (-1) 1 (fst (DeepSea.mouse (DeepSea.interaction s'))) /\
  BoxFacts.between (-1) 1 (snd (DeepSea.mouse (DeepSea.interaction s'))) /\
  Dream.mouse (Dream.interaction
                 (DreamPointer.onMouseMove 200 150 800 600 Concrete.dream0)) =
    DeepSea.mouse (DeepSea.interaction s').
Proof.
  assert (Hx : BoxFacts.between 0 800 200) by (split; reflexivity).
  assert (Hy : BoxFacts.between 0 600 150) by (split; reflexivity).
  split; [reflexivity|]. split; [reflexivity|]. split; [reflexivity|].
  split; [reflexivity|]. split; [exact Hx|]. split; [exact Hy|].
  destruct (pointer_is_normalised_to_the_window 200 150 800 600 Concrete.sea0
              Concrete.dream0 eq_refl eq_refl eq_refl eq_refl Hx Hy)
    as (Hsame & Hxr & Hyr & _).
  split; [reflexivity|]. split; [exact Hxr|]. split; [exact Hyr|exact Hsame].
Defined.

(** X16, a concrete instance: the first spire when every draw is one
    quarter and the sine and the cosine are zero everywhere. *)
Lemma spires_are_fifty_and_within_bounds_witness :
  SceneRanges.draws RangeSamples.quarter /\
  SceneRanges.unit_bounded RangeSamples.flat /\
  let l := DreamSpires.spires RangeSamples.flat RangeSamples.flat RangeSamples.quarter 9 in
  length l = 50%nat /\
  exists sp,
    l !! 0%nat = Some sp /\
    DreamSpires.height sp = 4%float /\
    Dream.fy (DreamSpires.spire_position sp) = 2%float /\
    BoxFacts.between 2 10 (DreamSpires.height sp) /\
    BoxFacts.between 1 5 (Dream.fy (DreamSpires.spire_position sp)) /\
    BoxFacts.between (-20) 20 (Dream.fx (DreamSpires.spire_position sp)).
Proof.
  split; [exact RangeSamples.quarter_draws|].
  split; [exact RangeSamples.flat_bounded|].
  intros l.
  destruct (spires_are_fifty_and_within_bounds RangeSamples.flat RangeSamples.flat
              RangeSamples.quarter 9 RangeSamples.quarter_draws
              RangeSamples.flat_bounded RangeSamples.flat_bounded) as [Hlen Hall].
  split; [exact Hlen|].
  exists (DreamSpires.make_spire RangeSamples.flat RangeSamples.flat RangeSamples.quarter 9).
  assert (H0 : l !! 0%nat =
               Some (DreamSpires.make_spire RangeSamples.flat RangeSamples.flat
                       RangeSamples.quarter 9)) by reflexivity.
  destruct (Hall 0%nat _ H0) as (_ & _ & _ & Hh & _ & _ & Hy & Hx & _).
  split; [exact H0|]. split; [reflexivity|]. split; [reflexivity|].
  split; [exact Hh|]. split; [exact Hy|exact Hx].
Defined.

(** ** A concrete instance for the draws of the creation loops *)

(** X17, a concrete instance: the height of the second vent point, the
    first coordinate of the swarm and the first of the river when every
    draw is one quarter. *)
Lemma every_coordinate_has_its_own_draw_witness :
  (1 < DeepSea.ventParticleCount)%nat /\
  (0 < DeepSea.swarmParticleCount)%nat /\
  (0 < Dream.particleCount * 3)%nat /\
  DeepSea.ventPosArray RangeSamples.quarter !! (3 * 1 + 1)%nat =
    Some (fround (RangeSamples.quarter (3 * 1 + 1)%nat * 20)%float) /\
  DeepSea.swarmPosArray0 RangeSamples.quarter !! (3 * 0)%nat =
    Some (fround ((RangeSamples.quarter (3 * DeepSea.ventParticleCount + 3 * 0)%nat - 0.5)
                  * 30)%float) /\
  Dream.posArray RangeSamples.quarter 209 !! 0%nat =
    Some (fround ((RangeSamples.quarter (209 + 0)%nat - 0.5) * 50)%float).
Proof.
  assert (H1 : (1 < DeepSea.ventParticleCount)%nat) by (unfold DeepSea.ventParticleCount; lia).
  assert (H2 : (0 < DeepSea.swarmParticleCount)%nat)
    by (unfold DeepSea.swarmParticleCount; lia).
  assert (H3 : (0 < Dream.particleCount * 3)%nat) by (unfold Dream.particleCount; lia).
  split; [exact H1|]. split; [exact H2|]. split; [exact H3|].
  destruct (every_coordinate_has_its_own_draw RangeSamples.quarter) as (Hv & Hs & Hr).
  destruct (Hv 1%nat H1) as (_ & _ & Hy & _).
  destruct (Hs 0%nat H2) as (_ & Hx & _).
  destruct (Hr 209%nat 0%nat H3) as (_ & Hz).
  split; [exact Hy|]. split; [exact Hx|exact Hz].
Defined.

(** ** A concrete instance for the bad clock reading *)

(** X18, a concrete instance: two vent points, a frame with an infinite
    [deltaTime], then an ordinary frame and a pointer move. *)
Lemma bad_clock_reading_poisons_the_vents_witness :
  is_finite (DeepSea.deltaTime (Concrete.still_frame infinity 1 false)) = false /\
  exists s1 s',
    DeepSea.animate Z.leb RangeSamples.flat RangeSamples.flat id
      (Concrete.still_frame infinity 1 false) Concrete.vent_sea = Ok s1 /\
    DeepSea.run Z.leb RangeSamples.flat RangeSamples.flat id id
      RangeSamples.frame_and_move s1 = Ok s' /\
    exists y, DeepSea.ventLive (DeepSea.particles s') !! (3 * 1 + 1)%nat = Some y /\
              NaNFacts.isNaN y = true.
Proof.
  split; [reflexivity|].
  destruct (bad_clock_reading_poisons_the_vents Z.leb RangeSamples.flat RangeSamples.flat
              id id (Concrete.still_frame infinity 1 false) RangeSamples.frame_and_move
              Concrete.vent_sea eq_refl) as (s1 & s' & H1 & H2 & _ & Hall).
  exists s1, s'. split; [exact H1|]. split; [exact H2|].
  apply (Hall 1%nat). simpl. lia.
Defined.
